(* ===== verification/_CoqProject ===== *)
-Q . S2P
Prelude.v
BufferPool.v
Compress.v
Header.v
Message.v
Wire.v
Breaker.v
GoStd.v
Http.v
NetIP.v
Share.v
Selector.v
WeightedRR.v
JumpHash.v
Modes.v
Log.v
Interfaces.v
Hooks.v
ClientPlugins.v
Client.v
ClientProofs.v
ServerPlugins.v
Server.v
ObjectPool.v
Registry.v
Reflection.v
XGen.v
ServerProofs.v
Codecs.v
ServerLife.v
Plugins.v
HandlerCtx.v
Gateway.v
Dial.v
JsonRpc.v
ServerSync.v
ServerSetup.v
Stats.v
EndToEnd.v
XClient.v
XClientProofs.v
XClientInv.v
XClientDemo.v
FanOut.v
XClientConc.v
XConcInv.v
XSelect.v
XConcDemo.v
Discovery.v
CachedDiscovery.v
OneClient.v
RedisRegistry.v
RedisProofs.v
MDNSRegister.v
FileTransfer.v
FileClient.v
