(* ===== verification/Prelude.v ===== *)
(** * A verification library for rpcx

    rpcx is a Go RPC framework. A client turns a call into a request message, sends it over one
    connection to a server that a selector chose, and matches the response by its sequence
    number; a server reads requests from its connections, authenticates them, runs a registered
    method, function or handler for each in a goroutine of its own, and writes the response.
    Plugins hook into every stage. This library translates that code into Rocq definitions and
    proves what makes it correct. It uses stdpp (maps, sets, lists) and no axioms.

    ** Layers and files

    - Prelude: machine integers with their wrap-around, bytes, big-endian words, Go slices (a
      backing array and a length), errors with their texts, results that can be values, errors
      or panics, the state monad [Go], readers; tactics ([gocbn], [split_match], [zbool],
      [solve_bytes]) and the hint database [rpcx].
    - BufferPool (util/buffer_pool.go): the pool of byte slices; slices come back dirty.
    - Compress (util/compress.go): [Zip] and [Unzip] with the pool of buffers and the arrays behind
      them; gzip is the class [Gzip].
    - Header, Message, Wire (protocol/message.go, compressor.go): the 12 header bytes and their
      bit fields, refined to a record of fields; encoding into a pooled buffer, [WriteTo],
      [Decode] with all its errors and recovered panics; round trips of messages and streams.
      Compressors are a class with their law ([CompressorsOk]).
    - GoStd (strings, strconv, net/url as used; util/net.go), Http (net/http headers, requests and
      writers, unsigned numbers) and NetIP (net.ParseIP, IPNet.Contains): the standard library as
      the components use it.
    - Share (share/context.go, share/hash.go, errors/error.go): contexts as heap objects that
      share maps and locks, with a log of accesses; FNV hash; [MultiError].
    - Breaker (client/circuit_breaker.go): the interface [BreakerOps] with laws, and the
      consecutive-failure breaker, refined to a specification over whole histories.
    - Selector, WeightedRR (client/selector.go, ping_utils.go, hash_utils.go): the interface
      [Selector] with laws, the selectors, and the exact shares of smooth weighted round robin.
    - JumpHash (client/hash_utils.go): the jump hash, in float64 with its rounding. Modes
      (client/failmode_enumer.go, selectmode_enumer.go): names of the modes. Log (log/): the
      loggers and the lines they print. Interfaces (util/net.go): the external addresses.
    - Hooks, ClientPlugins, ServerPlugins (client/plugin.go, server/plugin.go): the loops over
      hooks and both plugin containers.
    - Client, ClientProofs (client/client.go): one connection. Each part of a method that runs
      under the client's mutex is a definition; [ClientProofs] interleaves callers, senders of raw
      messages, the reader with its panics, cancellation and closing in a step relation with an
      invariant, for any codecs and plugins.
    - Server, Registry, ServerProofs, ServerSync, ServerLife (server/server.go, service.go,
      option.go): the registry of services (the checks on a method's reflected types, and in
      Registry a specification of its own, [rpc_method]), handling of a request from [readRequest]
      to [sendResponse], the loop of a connection, the lock pool of LogicSync with the context that
      each transport makes ([context_of]), and the life of a server (the accept loop with its
      hooks; connections, requests, responses with and without [AsyncWrite], Close and Shutdown in
      Module Life) as transition systems.
    - ObjectPool (server/pool.go): the pools of argument and reply objects on a heap, where a reply
      may point to its argument, and the steps of [handleRequest] that use them, interleaved;
      refined to requests with fresh objects.
    - Dial (client/connection*.go; ServeHTTP and ServeWS of server/server.go): [Connect], the
      factories and the HTTP handshake of client and server, over the class [Net].
    - ServerSetup (server/option.go, options.go, listener*.go, kcp.go, quic.go, memconn.go and the
      set-up in server.go, gateway.go, jsonrpc2.go): options, [NewServer], listeners over the class
      [ListenNet], [Serve], [Restart], and the HTTP servers as steps.
    - Codecs (codec/codec.go, share/share.go): the five codecs, and their table. Reflection
      (reflection/): the plugin that describes services. Stats (server/statsview*.go): what the
      profiler's views return. XGen (tool/xgen): the command, the visitor and the generated server.
    - HandlerCtx (server/context.go): the context that a handler answers through.
    - Gateway (server/gateway.go, converter.go), JsonRpc (server/jsonrpc2.go, jsonrpc2_wire.go):
      requests over HTTP, converted, authenticated and handed to the same [handleRequest].
    - Plugins (serverplugin/ aliases, address lists, rate limits, traffic copies, metrics, and the
      client's redis limiter): the hooks, alone and plugged into [serveRound].
    - EndToEnd: client, wire, server, wire, client composed into one call.
    - XClient, XClientProofs, XClientInv, XClientDemo, FanOut (client/xclient.go,
      cache_client_builder.go): discovery, filter, cache, sticky client, breakers, fail modes
      and raw messages over the classes [RPCClients] and [SelectorObj]; [XLaws] states what the
      invariant of XClientInv relies on. FanOut interleaves the goroutines of Broadcast, Fork and
      Inform with their caller: calls that may never return, a channel of bounded capacity, the
      caller's timer, receipts with the error they share.
    - XClientConc, XConcInv, XConcDemo (client/xclient.go): selections, fan-outs, removals, Close
      and discovery rounds of one xClient as goroutines that step through their critical sections,
      over its mutex and the class [Singleflight] for the group that shares a dial.
    - XSelect (client/xclient.go, selector.go): [XLaws] proved for any network that keeps
      [ConnLaws], with the random, round-robin and consistent-hash selectors that [newSelector]
      makes and with users' selectors; the theorems on the xClient's histories and goroutines for
      these selectors.
    - Discovery (client/multiple_servers_discovery.go, peer2peer_discovery.go, dns_discovery.go,
      mdns_discovery.go) and CachedDiscovery (client/discovery.go): the class [ServiceDiscovery]
      and its instances; the sends to watchers are steps.
    - OneClient (client/oneclient.go, oneclient_pool.go, xclient_pool.go): an xClient per service
      path, over the class [XClients], and pools of clients.
    - RedisRegistry, RedisProofs (serverplugin/redis.go) and MDNSRegister (serverplugin/mdns.go):
      the registries. The first has a step relation over its locks, goroutines and timers, and the
      class [KVStore] for the store; the second is composed with the client that browses.
    - FileTransfer (server/file_transfer.go, stream.go), FileClient (xclient.go: SendFile,
      DownloadFile, Stream): tokens over RPC, connections on a port of their own, and an upload
      from end to end; the cache of tokens is the class [LRU].

    ** What the theorems show

    - Wire: what is encoded is decoded, from dirty buffers and in any metadata order; a stream
      of messages comes back as the same messages; decoding terminates and its error paths are
      exact; every header setter changes its own field only.
    - Client: in any interleaving no call is lost but for two reasons that are named, a handler
      that panics on the response and a raw message under the same number; a response completes
      the call whose request carried its number; pushes stay in order.
    - Server: exactly one response per request that wants one, unless its decoder panics, none
      before authentication; a failed authentication ends the connection; requests of one user
      over connections and the gateway are serialized and one that waits can go on; the registry
      holds exactly the methods with the documented signature; a graceful shutdown without
      [AsyncWrite] lets the requests that run finish and answers them. Pooled objects do not show:
      the server behaves as with fresh ones when [Reset] leaves the zero value and no reply points
      to its argument. HTTP entry points are closed unless an option opens them.
    - Connections: [Connect] installs a working connection or leaves the client as it was and
      closes what it opened, but for one case; client and server agree on the HTTP handshake.
    - Helpers: what [Zip] returns unzips to the data, until its pooled buffer is used again; the
      jump hash moves a key only to a new bucket; the names of the modes, and the log levels, are
      what the tables say; the reflection plugin describes the methods the server has; xgen
      registers the services of a file that declares each type before its methods.
    - HTTP: a message sent over HTTP arrives as the same message and, on a server without hooks,
      gets the answer it would get on a connection; a JSON-RPC call is answered with its id and
      either a result or an error, unless a decoder or a [PostWriteResponse] hook panics; a handler
      answers once.
    - End to end: the caller gets the method's reply, response metadata, and error or panic
      text.
    - XClient: outside of Failbackup attempts are bounded, only retryable errors are retried, no
      error means a server answered; caches lead where they are filed, and selection uses the last
      announced servers, with every selector but the weighted ones; the fan-outs terminate, leave
      no goroutine behind and report all that servers did and nothing else. With goroutines in the
      same xClient the caches stay sound in every interleaving and every method returns (a
      goroutine that is alone does what the sequential definitions say, [solo_select]). A OneClient keeps one xClient per
      service; pools hand out their clients in turn.
    - Discovery and registries: the cached list survives the loss of the registry; a redis
      registry that was stopped leaves nothing behind, its Stop is bounded in time and its
      clean-up ends; a client that browses finds what any number of mDNS registries announce.
    - Plugins and files: rate limits and address lists admit exactly what they promise; a token
      leads to one handler, and an uploaded file arrives whole.
    - Where the code does not keep what it means to, the theorem says what it does instead
      ([Decode_panic_is_success], [broadcast_false_success], [failbackup_false_success],
      [SendRaw_swallows], [weighted_update_stale], [raw_error_never_completed],
      [cancel_hits_first_call], [WithValue_unlocked_copy], [registerFunction_spec],
      [shutdown_cuts_unstarted], [jsonrpc_notification_crash], [gateway_refuses],
      [WriteError_panics], [cached_close_race], [updates_reordered], [dns_close_panics],
      [browse_stale_meta], [mdns_stop], [oneclient_half_configured], [redis_start_failure_leaks],
      [SendFile_cancel_success], [stalled_client_blocks], [service_unstoppable],
      [zip_reuse_overwrites], [connect_outcome], [mismatched_request_unanswered],
      [reuseport_no_port], [external_ipv6_is_ipv4], [rate_poll], [xgen_misattributes],
      [partial_reset_leaks], [concurrent_selects_leak], [xgen_output], [exp_default],
      [shutdown_cuts_queued], [jsonrpc_metrics_panics], [jsonrpc_ignores_hash],
      [kept_argument_is_reset], [receipt_error_shared], [weighted_first_update_panics]).

    ** Conventions, bounds and fuel

    Integers are [Z]; [u8], [u32], [u64] and [i64] wrap where Go does. Go's map iteration order
    is an argument (a list that is a permutation of the map's entries). Random numbers, clock
    readings and scheduling are arguments or steps. Loops with fuel ([decodeMetadata_loop],
    [parseQuery], [newLevels], [dec_digits], [blank_bytes], [readHeaderLines], [replaceAll]) get the length of their input or the
    range of the integer, and lemmas show that this is enough where a theorem needs it;
    [lockLifecycleUntil] gets the number of milliseconds of its timeout, and [redis_stop_bounded]
    shows that it returns; [parseIPv6_loop] has the eight groups of an address;
    [hash_loop] gets the number of buckets, and [jump_hash_consistent] shows that this is enough. Retry loops count
    [Retries + 1] rounds as the source does. Code that is not in the repository (gzip and snappy,
    serialization codecs, the doublejump hash, distances, pings, libkv, zeroconf, cmux, the LRU
    cache, the token bucket, singleflight, JSON texts) is a parameter; each hypothesis on it is satisfied in the
    witness of the theorem that uses it.

    ** What is not modelled

    The bytes of TLS, KCP, QUIC and WebSocket (their connections are inputs of Dial and
    ServerSetup); the gzip, JSON, protobuf, msgpack and thrift formats; the charts and pages of
    the statistics; the colours of log lines; the distance of two coordinates (trigonometry in
    float64, a parameter of the selector); [http1Path], [http1HeaderExist], [parseRequestLine] and
    [matchHTTP1Field], which nothing calls; the files under testdata and _testutils, which protoc
    and thrift generate for tests. The goroutines of XClientConc select, collect, remove, close
    and watch; the call that follows a selection, with its retries, is sequential in XClient.
    XClientInv, XConcInv and XSelect prove their theorems for an xClient without cache builders,
    and without plugins that could do anything to it. Hooks of a server return; only
    [PostWriteResponse] may panic in the model, as the one of the metrics plugin does. *)

From Stdlib Require Export ZArith Lia.
From stdpp Require Export base tactics gmap strings fin_maps sets option sorting list.

(** ** Scopes, databases and tactics *)

Declare Scope go_scope.
Delimit Scope go_scope with go.
Global Open Scope Z_scope.

Create HintDb rpcx.
Create HintDb bytesdb.
Create Rewrite HintDb bytesdb.

(** Split every boolean comparison on integers into the proposition it decides. *)
Ltac zbool :=
  repeat match goal with
  | H : (_ <? _) = true |- _ => apply Z.ltb_lt in H
  | H : (_ <? _) = false |- _ => apply Z.ltb_ge in H
  | H : (_ <=? _) = true |- _ => apply Z.leb_le in H
  | H : (_ <=? _) = false |- _ => apply Z.leb_gt in H
  | H : (_ =? _) = true |- _ => apply Z.eqb_eq in H
  | H : (_ =? _) = false |- _ => apply Z.eqb_neq in H
  | H : (_ >? _) = _ |- _ => rewrite Z.gtb_ltb in H
  | H : (_ >=? _) = _ |- _ => rewrite Z.geb_leb in H
  | H : negb _ = true |- _ => apply negb_true_iff in H
  | H : negb _ = false |- _ => apply negb_false_iff in H
  | H : (_ && _)%bool = true |- _ => apply andb_true_iff in H; destruct H
  | H : (_ || _)%bool = false |- _ => apply orb_false_iff in H; destruct H
  end.

(** Case analysis on the innermost test or scrutinee of the goal. *)
Ltac split_match :=
  match goal with
  | |- context [match ?x with _ => _ end] =>
      lazymatch x with
      | context [match _ with _ => _ end] => fail
      | _ => destruct x eqn:?
      end
  end.

Ltac split_match_in H :=
  match type of H with
  | context [match ?x with _ => _ end] =>
      lazymatch x with
      | context [match _ with _ => _ end] => fail
      | _ => destruct x eqn:?
      end
  end.

(** ** Machine integers: a [w]-bit unsigned value is a [Z] reduced modulo [2^w]. *)

Definition wrap (w z : Z) : Z := z mod 2 ^ w.
Abbreviation u8 := (wrap 8).
Abbreviation u32 := (wrap 32).
Abbreviation u64 := (wrap 64).

Definition swrap (w z : Z) : Z := (z + 2 ^ (w - 1)) mod 2 ^ w - 2 ^ (w - 1).
Abbreviation i64 := (swrap 64).

Lemma wrap_range w z : 0 <= w -> 0 <= wrap w z < 2 ^ w.
Proof. intros. apply Z.mod_pos_bound. by apply Z.pow_pos_nonneg. Qed.

Lemma wrap_small w z : 0 <= z < 2 ^ w -> wrap w z = z.
Proof. intros. by apply Z.mod_small. Qed.

Lemma i64_small z : - 2 ^ 63 <= z < 2 ^ 63 -> i64 z = z.
Proof. intros. unfold swrap. rewrite Z.mod_small by lia. lia. Qed.

Lemma wrap_wrap w z : wrap w (wrap w z) = wrap w z.
Proof. unfold wrap. apply Zmod_mod. Qed.

(** Go's [&^] (and-not). *)
Definition andnot (a b : Z) : Z := Z.ldiff a b.
Notation "a &^ b" := (andnot a b) (at level 40, left associativity) : go_scope.

(** ** Bytes and strings *)

Abbreviation bytes := (list Z).
Definition is_byte (b : Z) : Prop := 0 <= b < 256.
Definition bytes_ok (l : bytes) : Prop := Forall is_byte l.

Global Instance is_byte_dec b : Decision (is_byte b).
Proof. unfold is_byte. apply _. Defined.

(** Settle [bytes_ok] of a list of literals. *)
Ltac solve_bytes :=
  repeat (constructor; [unfold is_byte; lia|]); first [assumption | constructor].

(** A Go string is a sequence of bytes. *)
Definition byte_of_ascii (a : Ascii.ascii) : Z := Z.of_N (Ascii.N_of_ascii a).
Definition ascii_of_byte (b : Z) : Ascii.ascii := Ascii.ascii_of_N (Z.to_N b).

Definition string_bytes (s : string) : bytes := byte_of_ascii <$> String.list_ascii_of_string s.
Definition bytes_string (l : bytes) : string := String.string_of_list_ascii (ascii_of_byte <$> l).

Lemma byte_of_ascii_range a : is_byte (byte_of_ascii a).
Proof.
  unfold is_byte, byte_of_ascii. pose proof (Ascii.N_ascii_bounded a). lia.
Qed.

Lemma ascii_byte_ascii a : ascii_of_byte (byte_of_ascii a) = a.
Proof. unfold ascii_of_byte, byte_of_ascii. by rewrite N2Z.id, Ascii.ascii_N_embedding. Qed.

Lemma byte_ascii_byte b : is_byte b -> byte_of_ascii (ascii_of_byte b) = b.
Proof.
  unfold is_byte, ascii_of_byte, byte_of_ascii. intros H.
  rewrite Ascii.N_ascii_embedding; lia.
Qed.

Lemma string_bytes_ok s : bytes_ok (string_bytes s).
Proof.
  unfold bytes_ok, string_bytes. apply Forall_fmap, Forall_true.
  intros a. apply byte_of_ascii_range.
Qed.

Lemma bytes_string_bytes s : bytes_string (string_bytes s) = s.
Proof.
  unfold bytes_string, string_bytes. rewrite <- list_fmap_compose.
  rewrite <- (String.string_of_list_ascii_of_string s) at 2. f_equal.
  rewrite <- (list_fmap_id (String.list_ascii_of_string s)) at 2.
  apply list_fmap_ext. intros i a _. apply ascii_byte_ascii.
Qed.

Lemma string_bytes_string l : bytes_ok l -> string_bytes (bytes_string l) = l.
Proof.
  intros H. unfold bytes_string, string_bytes.
  rewrite String.list_ascii_of_string_of_list_ascii, <- list_fmap_compose.
  induction H as [|b l Hb _ IH]; [done|]. cbn. f_equal; [|done].
  by apply byte_ascii_byte.
Qed.

Lemma string_bytes_inj s t : string_bytes s = string_bytes t -> s = t.
Proof. intros H. by rewrite <- (bytes_string_bytes s), <- (bytes_string_bytes t), H. Qed.

(** Length of a string, as [len(s)]. *)
Definition zlen {A} (l : list A) : Z := Z.of_nat (length l).
Definition slen (s : string) : Z := zlen (string_bytes s).

Lemma zlen_nonneg {A} (l : list A) : 0 <= zlen l.
Proof. unfold zlen. lia. Qed.

Lemma zlen_app {A} (l k : list A) : zlen (l ++ k) = zlen l + zlen k.
Proof. unfold zlen. rewrite length_app. lia. Qed.

Lemma bytes_ok_app l k : bytes_ok (l ++ k) <-> bytes_ok l /\ bytes_ok k.
Proof. apply Forall_app. Qed.

Lemma bytes_ok_cons b l : bytes_ok (b :: l) <-> is_byte b /\ bytes_ok l.
Proof. apply Forall_cons_iff. Qed.

Lemma bytes_ok_take n l : bytes_ok l -> bytes_ok (take n l).
Proof. apply Forall_take. Qed.

Lemma bytes_ok_drop n l : bytes_ok l -> bytes_ok (drop n l).
Proof. apply Forall_drop. Qed.

#[export] Hint Resolve string_bytes_ok bytes_ok_take bytes_ok_drop zlen_nonneg : bytesdb.
#[export] Hint Rewrite @zlen_app : bytesdb.

(** ** Sums over lists, for measures *)

Lemma sum_insert {T} (f : T -> nat) (l : list T) i a b :
  l !! i = Some a -> (sum_list_with f (<[i := b]> l) + f a = sum_list_with f l + f b)%nat.
Proof.
  revert i. induction l as [|c l IH]; intros i Hi; [done|].
  destruct i as [|i]; [injection Hi as ->; simpl; lia|].
  change (<[S i := b]> (c :: l)) with (c :: <[i := b]> l). specialize (IH i Hi). simpl in *. lia.
Qed.

(** ** Big-endian integers ([encoding/binary]) *)

Fixpoint be_split (n : nat) (v : Z) : bytes :=
  match n with
  | O => []
  | S k => Z.land (Z.shiftr v (8 * Z.of_nat k)) 255 :: be_split k v
  end.

Definition be_combine (l : bytes) : Z :=
  foldl (fun acc b => Z.lor (Z.shiftl acc 8) b) 0 l.

Abbreviation PutUint32 := (be_split 4).
Abbreviation PutUint64 := (be_split 8).
Abbreviation Uint32 := be_combine.
Abbreviation Uint64 := be_combine.

Lemma land_255 v : Z.land v 255 = v mod 256.
Proof. change 255 with (Z.ones 8). by rewrite Z.land_ones. Qed.

Lemma length_be_split n v : length (be_split n v) = n.
Proof. induction n; simpl; lia. Qed.

Lemma be_split_ok n v : bytes_ok (be_split n v).
Proof.
  induction n as [|n IH]; simpl; constructor; [|done].
  rewrite land_255. apply Z.mod_pos_bound. lia.
Qed.

Lemma lor_shiftl_8 a b : is_byte b -> Z.lor (Z.shiftl a 8) b = a * 256 + b.
Proof.
  intros [H0 H1]. rewrite Z.shiftl_mul_pow2 by lia. change (2 ^ 8) with 256.
  symmetry. apply Z.add_nocarry_lor. apply Z.bits_inj'. intros i Hi.
  rewrite Z.land_spec, Z.bits_0. change 256 with (2 ^ 8).
  rewrite <- Z.shiftl_mul_pow2 by lia.
  destruct (Z.lt_ge_cases i 8); [by rewrite Z.shiftl_spec_low by lia|].
  rewrite (Z.bits_above_log2 b i); [apply andb_false_r|lia|].
  destruct (Z.eq_dec b 0); [subst; simpl; lia|].
  assert (Z.log2 b < 8) by (apply Z.log2_lt_pow2; lia). lia.
Qed.

(** The value of a byte list read most significant byte first, started from [acc]. *)
Lemma be_combine_acc l acc :
  bytes_ok l ->
  foldl (fun acc b => Z.lor (Z.shiftl acc 8) b) acc l = acc * 256 ^ zlen l + be_combine l.
Proof.
  intros H. revert acc. unfold be_combine.
  induction H as [|b l Hb Hl IH]; intros acc; cbn [foldl].
  - unfold zlen. simpl. lia.
  - rewrite IH, (IH (Z.lor (Z.shiftl 0 8) b)), !lor_shiftl_8 by done.
    change (zlen (b :: l)) with (Z.of_nat (S (length l))).
    rewrite Nat2Z.inj_succ, Z.pow_succ_r by lia. unfold zlen. lia.
Qed.

Lemma be_combine_cons b l :
  is_byte b -> bytes_ok l -> be_combine (b :: l) = b * 256 ^ zlen l + be_combine l.
Proof.
  intros Hb Hl. unfold be_combine at 1. cbn [foldl].
  rewrite be_combine_acc, lor_shiftl_8 by done. lia.
Qed.

Lemma be_combine_range l : bytes_ok l -> 0 <= be_combine l < 256 ^ zlen l.
Proof.
  induction 1 as [|b l Hb Hl IH]; [unfold be_combine, zlen; simpl; lia|].
  rewrite be_combine_cons by done.
  change (zlen (b :: l)) with (Z.of_nat (S (length l))).
  rewrite Nat2Z.inj_succ, Z.pow_succ_r by lia. unfold zlen, is_byte in *. nia.
Qed.

Lemma be_combine_split n v : be_combine (be_split n v) = v mod 256 ^ Z.of_nat n.
Proof.
  induction n as [|n IH]; [simpl; by rewrite Z.mod_1_r|].
  change (be_split (S n) v)
    with (Z.land (Z.shiftr v (8 * Z.of_nat n)) 255 :: be_split n v).
  rewrite be_combine_cons, IH, land_255.
  - unfold zlen. rewrite length_be_split, Nat2Z.inj_succ, Z.pow_succ_r by lia.
    rewrite Z.shiftr_div_pow2 by lia. rewrite Z.pow_mul_r by lia.
    change (2 ^ 8) with 256.
    pose proof (Z.pow_pos_nonneg 256 (Z.of_nat n)).
    rewrite (Z.mul_comm 256 (256 ^ _)), Z.rem_mul_r by lia. lia.
  - rewrite land_255. apply Z.mod_pos_bound. lia.
  - apply be_split_ok.
Qed.

Lemma be_split_combine l : bytes_ok l -> be_split (length l) (be_combine l) = l.
Proof.
  assert (forall n v k, 0 <= v -> be_split n (k * 256 ^ Z.of_nat n + v) = be_split n v) as Hlow.
  { induction n as [|n IH]; intros v k Hv; [done|].
    cbn [be_split]. rewrite !land_255, !Z.shiftr_div_pow2, !Z.pow_mul_r by lia.
    change (2 ^ 8) with 256. f_equal.
    - rewrite Nat2Z.inj_succ, Z.pow_succ_r by lia.
      replace (k * (256 * 256 ^ Z.of_nat n) + v) with (v + (k * 256) * 256 ^ Z.of_nat n) by lia.
      rewrite Z.div_add by lia. rewrite Z.add_mod, Z.mod_mul by lia.
      by rewrite Z.add_0_r, Zmod_mod.
    - rewrite Nat2Z.inj_succ, Z.pow_succ_r by lia.
      replace (k * (256 * 256 ^ Z.of_nat n)) with ((k * 256) * 256 ^ Z.of_nat n) by lia.
      by apply IH. }
  induction 1 as [|b l Hb Hl IH]; [done|].
  pose proof (be_combine_range l Hl) as Hr.
  cbn [length be_split]. rewrite be_combine_cons by done. f_equal.
  - rewrite land_255, Z.shiftr_div_pow2, Z.pow_mul_r by lia. change (2 ^ 8) with 256.
    unfold zlen in *. rewrite Z.add_comm, Z.div_add by lia.
    rewrite (Z.div_small (be_combine l)) by done. by apply Z.mod_small.
  - unfold zlen in *. rewrite Hlow by lia. done.
Qed.

Lemma Uint32_Put v : 0 <= v < 2 ^ 32 -> Uint32 (PutUint32 v) = v.
Proof. intros. rewrite be_combine_split. by apply Z.mod_small. Qed.

Lemma Uint64_Put v : 0 <= v < 2 ^ 64 -> Uint64 (PutUint64 v) = v.
Proof. intros. rewrite be_combine_split. by apply Z.mod_small. Qed.

#[export] Hint Resolve be_split_ok : bytesdb.

(** ** Errors

    One constructor per sentinel error of the program, [errorString] for the errors that
    [errors.New] and [fmt.Errorf] build on the spot, [ServiceErr] for the values of the
    [client.ServiceError] interface (its second argument is [IsServiceError()]), [OpError]
    for [*net.OpError] (whether [Addr] is set, and the text of the wrapped [Err], if any) and
    [NetError] for another [net.Error] (its first argument is [Temporary()]). *)

Inductive error : Type :=
  | EOF | ErrUnexpectedEOF
  | ErrMetaKVMissing | ErrMessageTooLong | ErrUnsupportedCompressor
  | ErrShutdown | ErrUnsupportedCodec
  | ErrXClientShutdown | ErrXClientNoServer | ErrServerUnavailable
  | ErrBreakerOpen | ErrBreakerTimeout
  | ErrServerClosed | ErrReqReachLimit | ErrNotAccept | ErrClosed
  | Canceled | DeadlineExceeded
  | ServiceErr (msg : string) (isServiceError : bool)
  | OpError (addr : bool) (inner : option string)
  | NetError (temporary : bool) (msg : string)
  | errorString (msg : string)
  | MultiError (es : list error).

Abbreviation strErr s := (ServiceErr s true).

Fixpoint sconcat (sep : string) (l : list string) : string :=
  match l with
  | [] => ""
  | [x] => x
  | x :: r => (x +:+ sep +:+ sconcat sep r)%string
  end.

(** The text of an error, as its [Error()] method returns it. *)
Fixpoint Error_text (e : error) : string :=
  match e with
  | EOF => "EOF"
  | ErrUnexpectedEOF => "unexpected EOF"
  | ErrMetaKVMissing => "wrong metadata lines. some keys or values are missing"
  | ErrMessageTooLong => "message is too long"
  | ErrUnsupportedCompressor => "unsupported compressor"
  | ErrShutdown => "connection is shut down"
  | ErrUnsupportedCodec => "unsupported codec"
  | ErrXClientShutdown => "xClient is shut down"
  | ErrXClientNoServer => "can not found any server"
  | ErrServerUnavailable => "selected server is unavailable"
  | ErrBreakerOpen => "breaker open"
  | ErrBreakerTimeout => "breaker time out"
  | ErrServerClosed => "http: Server closed"
  | ErrReqReachLimit => "request reached rate limit"
  | ErrNotAccept => "server refused the connection"
  | ErrClosed => "use of closed network connection"
  | Canceled => "context canceled"
  | DeadlineExceeded => "context deadline exceeded"
  | ServiceErr s _ => s
  | OpError _ o => default "" o
  | NetError _ s => s
  | errorString s => s
  | MultiError es => ("[" +:+ sconcat " " (map Error_text es) +:+ "]")%string
  end.

(** ** Results and the state monad with errors and panics *)

Inductive res (A : Type) : Type :=
  | Ok (a : A)
  | Er (e : error)
  | Panic (why : string).
Arguments Ok {A} a.
Arguments Er {A} e.
Arguments Panic {A} why.

Definition Go (S A : Type) : Type := S -> S * res A.

Global Instance go_ret S : MRet (Go S) := fun A a s => (s, Ok a).
Global Instance go_bind S : MBind (Go S) := fun A B k c s =>
  match c s with
  | (s', Ok a) => k a s'
  | (s', Er e) => (s', Er e)
  | (s', Panic w) => (s', Panic w)
  end.

Definition get {S} : Go S S := fun s => (s, Ok s).
Definition put {S} (s : S) : Go S unit := fun _ => (s, Ok tt).
Definition modify {S} (f : S -> S) : Go S unit := fun s => (f s, Ok tt).
Definition fail {S A} (e : error) : Go S A := fun s => (s, Er e).
Definition panic {S A} (w : string) : Go S A := fun s => (s, Panic w).
Definition lift {S A} (r : res A) : Go S A := fun s => (s, r).

(** Run the monadic plumbing of a concrete computation. *)
Ltac gocbn :=
  cbv beta iota delta [mbind go_bind mret go_ret get put modify fail panic lift]; cbn.
Ltac gocbn_in H :=
  cbv beta iota delta [mbind go_bind mret go_ret get put modify fail panic lift] in H; cbn in H.

Lemma go_bind_Ok {S A B} (c : Go S A) (k : A -> Go S B) s s' a :
  c s = (s', Ok a) -> (c ≫= k) s = k a s'.
Proof. unfold mbind, go_bind. by intros ->. Qed.

Lemma go_bind_Er {S A B} (c : Go S A) (k : A -> Go S B) s s' e :
  c s = (s', Er e) -> (c ≫= k) s = (s', Er e).
Proof. unfold mbind, go_bind. by intros ->. Qed.

Lemma go_bind_Panic {S A B} (c : Go S A) (k : A -> Go S B) s s' w :
  c s = (s', Panic w) -> (c ≫= k) s = (s', Panic w).
Proof. unfold mbind, go_bind. by intros ->. Qed.

Lemma go_bind_inv_Ok {S A B} (c : Go S A) (k : A -> Go S B) s s'' b :
  (c ≫= k) s = (s'', Ok b) ->
  exists s' a, c s = (s', Ok a) /\ k a s' = (s'', Ok b).
Proof. unfold mbind, go_bind. intros H. destruct (c s) as [s' [a|e|w]]; naive_solver. Qed.

Lemma lift_inv_Ok {S A} (r : res A) (s s' : S) a :
  lift r s = (s', Ok a) -> s' = s /\ r = Ok a.
Proof. unfold lift. naive_solver. Qed.

(** ** Slices

    A slice is the part of its backing array from its first element to its capacity, with
    its length: slicing may go past the length, up to the capacity. *)

Record gslice := GSlice { s_buf : bytes; s_len : Z }.

Definition s_cap (s : gslice) : Z := zlen (s_buf s).
Definition s_wf (s : gslice) : Prop := 0 <= s_len s <= s_cap s.
Definition s_bytes (s : gslice) : bytes := take (Z.to_nat (s_len s)) (s_buf s).

Definition of_bytes (l : bytes) : gslice := GSlice l (zlen l).

(** [s[lo:hi]] and [s[lo:]]. *)
Definition slice (s : gslice) (lo hi : Z) : res gslice :=
  if (0 <=? lo) && (lo <=? hi) && (hi <=? s_cap s)
  then Ok (GSlice (drop (Z.to_nat lo) (s_buf s)) (hi - lo))
  else Panic "slice bounds out of range".

Definition slice_from (s : gslice) (lo : Z) : res gslice := slice s lo (s_len s).

Lemma slice_inv s lo hi t :
  slice s lo hi = Ok t ->
  0 <= lo <= hi /\ hi <= s_cap s /\
  t = GSlice (drop (Z.to_nat lo) (s_buf s)) (hi - lo).
Proof.
  unfold slice. destruct (_ && _)%bool eqn:E; [|done]. zbool. intros [= <-].
  split_and!; (lia || done).
Qed.

Lemma slice_ok s lo hi :
  0 <= lo <= hi -> hi <= s_cap s ->
  slice s lo hi = Ok (GSlice (drop (Z.to_nat lo) (s_buf s)) (hi - lo)).
Proof.
  intros. unfold slice.
  rewrite (proj2 (Z.leb_le 0 lo)), (proj2 (Z.leb_le lo hi)), (proj2 (Z.leb_le hi _)) by lia.
  done.
Qed.

Lemma slice_not_Er s lo hi e : slice s lo hi = Er e -> False.
Proof. unfold slice. by destruct (_ && _)%bool. Qed.

(** ** Readers

    An [io.Reader] holds the bytes that are still to come and the error it returns when
    they are exhausted ([io.EOF] for a closed stream). *)

Record reader := Reader { r_data : bytes; r_err : error }.

(** [io.ReadFull(r, buf)] with [len buf = n]: the bytes written at the start of [buf], the
    rest of the reader, and the error. *)
Definition ReadFull (n : nat) (r : reader) : bytes * reader * option error :=
  let got := take n (r_data r) in
  let r' := Reader (drop n (r_data r)) (r_err r) in
  if decide (length got = n) then (got, r', None)
  else
    (got, r',
      Some match r_err r with
           | EOF => if decide (got = []) then EOF else ErrUnexpectedEOF
           | e => e
           end).

Lemma ReadFull_app n l k e :
  length l = n -> ReadFull n (Reader (l ++ k) e) = (l, Reader k e, None).
Proof.
  intros <-. unfold ReadFull. cbn [r_data r_err].
  rewrite take_app_length, drop_app_length. by rewrite decide_True.
Qed.

(** ** Copying into a fixed-size array *)

(** [copy(dst[off:], src)] when [src] fits. *)
Definition copy_at (dst : bytes) (off : nat) (src : bytes) : bytes :=
  take off dst ++ src ++ drop (off + length src) dst.

Lemma length_copy_at dst off src :
  (off + length src <= length dst)%nat -> length (copy_at dst off src) = length dst.
Proof. intros. unfold copy_at. rewrite !length_app, length_take, length_drop. lia. Qed.
