(* ===== verification/BufferPool.v ===== *)
(** util/buffer_pool.go: the size-classed pool of byte buffers.

    A [sync.Pool] is modelled by the list of the buffers it holds; which of them [Get]
    returns, if any, is up to the runtime and is an argument of the model. [math.Log2] of a
    quotient of sizes is taken exactly. *)

From S2P Require Import Prelude.

(** ** Data *)

(** A level: the size of the buffers [New] makes, and the pooled buffers (each up to its
    capacity, as [Put] leaves it). *)
Record levelPool := LevelPool { lp_size : Z; lp_pool : list bytes }.

Record LimitedPool := MkLimitedPool {
  minSize : Z;
  maxSize : Z;
  pools : list levelPool;
}.

Definition newLevelPool (size : Z) : levelPool := LevelPool size [].

(** ** Construction *)

(** The loop of [NewLimitedPool]: levels [curSize], [2*curSize], ... below [maxSize]. *)
Fixpoint newLevels (fuel : nat) (curSize maxSize : Z) : list levelPool :=
  match fuel with
  | O => []
  | S fuel =>
      if curSize <? maxSize
      then newLevelPool curSize :: newLevels fuel (i64 (curSize * 2)) maxSize
      else []
  end.

Definition NewLimitedPool (minSize maxSize : Z) : res LimitedPool :=
  if maxSize <? minSize then Panic "maxSize can't be less than minSize"
  else
    Ok (MkLimitedPool minSize maxSize
          (newLevels 64 minSize maxSize ++ [newLevelPool maxSize])).

(** ** Level selection *)

(** [int(math.Ceil(math.Log2(a / b)))] and [int(math.Floor(math.Log2(a / b)))]. *)
Definition ceil_log2_div (a b : Z) : Z :=
  if a <=? 0 then -1
  else if b <=? a then Z.log2_up ((a + b - 1) / b)
  else - Z.log2 (b / a).

Definition floor_log2_div (a b : Z) : Z :=
  if a <=? 0 then -1
  else if b <=? a then Z.log2 (a / b)
  else - Z.log2_up ((b + a - 1) / a).

Definition findPool (p : LimitedPool) (size : Z) : option nat :=
  if size >? maxSize p then None
  else
    let idx := ceil_log2_div size (minSize p) in
    let idx := if idx <? 0 then 0 else idx in
    if idx >? zlen (pools p) - 1 then None else Some (Z.to_nat idx).

Definition findPutPool (p : LimitedPool) (size : Z) : option nat :=
  if size >? maxSize p then None
  else if size <? minSize p then None
  else
    let idx := floor_log2_div size (minSize p) in
    let idx := if idx <? 0 then 0 else idx in
    if idx >? zlen (pools p) - 1 then None else Some (Z.to_nat idx).

(** ** Get and Put *)

(** [sync.Pool.Get]: a pooled buffer chosen by the runtime, or a new one. *)
Definition pool_get (pick : option nat) (lp : levelPool) : bytes * levelPool :=
  match pick with
  | Some i =>
      match lp_pool lp !! i with
      | Some b => (b, LevelPool (lp_size lp) (delete i (lp_pool lp)))
      | None => (replicate (Z.to_nat (lp_size lp)) 0, lp)
      end
  | None => (replicate (Z.to_nat (lp_size lp)) 0, lp)
  end.

Definition set_level (p : LimitedPool) (i : nat) (lp : levelPool) : LimitedPool :=
  MkLimitedPool (minSize p) (maxSize p) (<[i:=lp]> (pools p)).

Definition LimitedPool_Get (pick : option nat) (size : Z) : Go LimitedPool gslice := fun p =>
  match findPool p size with
  | None =>
      if size <? 0 then (p, Panic "makeslice: len out of range")
      else (p, Ok (of_bytes (replicate (Z.to_nat size) 0)))
  | Some i =>
      match pools p !! i with
      | None => (p, Panic "index out of range")
      | Some lp =>
          let '(buf, lp') := pool_get pick lp in
          (set_level p i lp', slice (of_bytes buf) 0 size)
      end
  end.

(** The buffer handed back is re-extended to its capacity before it is pooled. *)
Definition LimitedPool_Put (b : gslice) (p : LimitedPool) : LimitedPool :=
  match findPutPool p (s_cap b) with
  | None => p
  | Some i =>
      match pools p !! i with
      | None => p
      | Some lp => set_level p i (LevelPool (lp_size lp) (s_buf b :: lp_pool lp))
      end
  end.

(** ** The invariant

    Every level but the last holds buffers of at least [minSize * 2^i] bytes, the last one
    of at least [maxSize]; and the levels reach [maxSize]. *)

Definition level_size (p : LimitedPool) (i : nat) : Z :=
  if decide (S i = length (pools p)) then maxSize p else minSize p * 2 ^ Z.of_nat i.

Record pool_ok (p : LimitedPool) : Prop := {
  ok_min : 0 < minSize p <= maxSize p;
  ok_nonempty : (0 < length (pools p))%nat;
  ok_reach : maxSize p <= minSize p * 2 ^ (zlen (pools p) - 1);
  ok_levels : forall i lp, pools p !! i = Some lp ->
    lp_size lp = level_size p i /\ Forall (fun b => level_size p i <= zlen b) (lp_pool lp);
}.

(** ** Lemmas *)

Lemma ceil_log2_div_spec a b :
  0 < b -> a <= b * 2 ^ Z.max 0 (ceil_log2_div a b).
Proof.
  intros Hb. unfold ceil_log2_div.
  destruct (a <=? 0) eqn:E1; zbool; [simpl; lia|].
  destruct (b <=? a) eqn:E2; zbool.
  - rewrite Z.max_r by apply Z.log2_up_nonneg.
    assert (1 <= (a + b - 1) / b) by (apply Z.div_le_lower_bound; lia).
    assert ((a + b - 1) / b <= 2 ^ Z.log2_up ((a + b - 1) / b)).
    { destruct (Z.eq_dec ((a + b - 1) / b) 1) as [->|]; [done|].
      apply Z.log2_up_spec. lia. }
    pose proof (Z.div_mod (a + b - 1) b). pose proof (Z.mod_pos_bound (a + b - 1) b).
    assert (b * ((a + b - 1) / b) <= b * 2 ^ Z.log2_up ((a + b - 1) / b))
      by (apply Z.mul_le_mono_nonneg_l; lia). lia.
  - pose proof (Z.log2_nonneg (b / a)). rewrite Z.max_l, Z.pow_0_r by lia. lia.
Qed.

Lemma ceil_log2_div_le a b k :
  0 < b -> 0 <= k -> a <= b * 2 ^ k -> ceil_log2_div a b <= k.
Proof.
  intros Hb Hk H. unfold ceil_log2_div.
  destruct (a <=? 0) eqn:E1; zbool; [lia|].
  destruct (b <=? a) eqn:E2; zbool; [|pose proof (Z.log2_nonneg (b / a)); lia].
  apply Z.log2_up_le_pow2; [apply Z.div_str_pos; lia|].
  assert ((a + b - 1) / b < 2 ^ k + 1); [|lia].
  apply Z.div_lt_upper_bound; lia.
Qed.

Lemma floor_log2_div_spec a b :
  0 < b <= a -> 0 <= floor_log2_div a b /\ b * 2 ^ floor_log2_div a b <= a.
Proof.
  intros H. unfold floor_log2_div.
  rewrite (proj2 (Z.leb_gt a 0)), (proj2 (Z.leb_le b a)) by lia.
  split; [apply Z.log2_nonneg|].
  assert (0 < a / b) as Hq by (apply Z.div_str_pos; lia).
  pose proof (Z.log2_spec _ Hq). pose proof (Z.mul_div_le a b). nia.
Qed.

Lemma pool_last_idx p :
  pool_ok p -> forall size, size <= maxSize p ->
  Z.max 0 (ceil_log2_div size (minSize p)) <= zlen (pools p) - 1.
Proof.
  intros Hok size Hs. destruct Hok as [Hmin Hne Hr _].
  assert (0 <= zlen (pools p) - 1) by (unfold zlen; lia).
  pose proof (ceil_log2_div_le size (minSize p) (zlen (pools p) - 1)). lia.
Qed.

(** [findPool] finds a level, of a sufficient size, for every size up to [maxSize]. *)
Lemma findPool_spec p size :
  pool_ok p -> size <= maxSize p ->
  exists i, findPool p size = Some i /\ (i < length (pools p))%nat /\ size <= level_size p i.
Proof.
  intros Hok Hs. pose proof (pool_last_idx p Hok size Hs) as Hi.
  pose proof (ceil_log2_div_spec size (minSize p)) as Hsz.
  destruct Hok as [Hmin Hne Hr _]. unfold findPool.
  rewrite Z.gtb_ltb, (proj2 (Z.ltb_ge _ _)) by lia. cbv zeta.
  set (c := ceil_log2_div size (minSize p)) in *.
  assert ((if c <? 0 then 0 else c) = Z.max 0 c) as ->.
  { destruct (c <? 0) eqn:E; zbool; lia. }
  rewrite Z.gtb_ltb, (proj2 (Z.ltb_ge _ _)) by lia.
  eexists; split; [done|]. unfold level_size, zlen in *. split; [lia|].
  case_decide; [lia|]. rewrite Z2Nat.id by lia. lia.
Qed.

(** [findPutPool] puts a buffer in a level whose size it reaches. *)
Lemma findPutPool_spec p cap i :
  pool_ok p -> findPutPool p cap = Some i ->
  (i < length (pools p))%nat /\ level_size p i <= cap.
Proof.
  intros Hok. unfold findPutPool.
  destruct (cap >? maxSize p) eqn:E1; [done|]. destruct (cap <? minSize p) eqn:E2; [done|].
  zbool. pose proof (ok_min _ Hok) as Hmin.
  destruct (floor_log2_div_spec cap (minSize p)) as [H0 H1]; [lia|].
  cbv zeta. set (f := floor_log2_div cap (minSize p)) in *.
  rewrite (proj2 (Z.ltb_ge f 0)) by lia.
  destruct (f >? _) eqn:E3; [done|]. zbool. intros [= <-].
  destruct Hok as [_ Hne Hr _]. unfold level_size, zlen in *. split; [lia|].
  rewrite Z2Nat.id by lia. case_decide as Hd; [|lia].
  assert (f = Z.of_nat (length (pools p)) - 1) as -> by lia. lia.
Qed.

Lemma level_size_set p i lp j : level_size (set_level p i lp) j = level_size p j.
Proof. unfold level_size, set_level. cbn. by rewrite length_insert. Qed.

Lemma set_level_ok p i lp :
  pool_ok p -> lp_size lp = level_size p i ->
  Forall (fun b => level_size p i <= zlen b) (lp_pool lp) ->
  pool_ok (set_level p i lp).
Proof.
  intros Hok Hsz Hall. destruct Hok as [Hmin Hne Hr Hl]. split; cbn; unfold zlen in *;
    rewrite ?length_insert; try done.
  intros j lq Hj. rewrite !level_size_set.
  apply list_lookup_insert_Some in Hj as [(-> & -> & ?)|[? ?]]; [done|by apply Hl].
Qed.

Lemma pool_get_ok p i pick lp :
  pool_ok p -> pools p !! i = Some lp ->
  level_size p i <= zlen (fst (pool_get pick lp)) /\
  pool_ok (set_level p i (snd (pool_get pick lp))).
Proof.
  intros Hok Hi. destruct (ok_levels _ Hok _ _ Hi) as [Hsz Hall].
  assert (level_size p i <= zlen (replicate (Z.to_nat (lp_size lp)) 0)).
  { unfold zlen. rewrite length_replicate. lia. }
  assert (pool_ok (set_level p i lp)) by (by apply set_level_ok).
  unfold pool_get. destruct pick as [k|]; [|by split].
  destruct (lp_pool lp !! k) as [b|] eqn:Hk; [|by split]. cbn. split.
  - rewrite Forall_lookup in Hall. eauto.
  - apply set_level_ok; [done..|]. cbn. by apply Forall_delete.
Qed.

(** ** Properties *)

Lemma newLevels_spec fuel c mx :
  0 < c -> mx <= 2 ^ 62 -> mx <= c * 2 ^ Z.of_nat fuel ->
  mx <= c * 2 ^ zlen (newLevels fuel c mx) /\
  forall i lp, newLevels fuel c mx !! i = Some lp -> lp = newLevelPool (c * 2 ^ Z.of_nat i).
Proof.
  revert c. induction fuel as [|fuel IH]; intros c Hc Hmx Hf; [by split|].
  cbn [newLevels]. destruct (c <? mx) eqn:E; zbool; [|split; [unfold zlen; simpl; lia|done]].
  assert (i64 (c * 2) = c * 2) as ->.
  { unfold swrap. change (64 - 1) with 63. rewrite Z.mod_small; lia. }
  rewrite Nat2Z.inj_succ, Z.pow_succ_r in Hf by lia.
  destruct (IH (c * 2)) as [H1 H2]; [lia..|]. split.
  - unfold zlen in *. cbn [length]. rewrite Nat2Z.inj_succ, Z.pow_succ_r by lia. lia.
  - intros [|i] lp Hi; cbn in Hi.
    + injection Hi as <-. change (Z.of_nat 0) with 0. f_equal. lia.
    + rewrite (H2 _ _ Hi), Nat2Z.inj_succ, Z.pow_succ_r by lia. f_equal. lia.
Qed.

Lemma NewLimitedPool_ok mn mx p :
  0 < mn -> mx <= 2 ^ 62 -> NewLimitedPool mn mx = Ok p -> pool_ok p.
Proof.
  intros Hmn Hmx. unfold NewLimitedPool. destruct (mx <? mn) eqn:E; [done|]. zbool.
  destruct (newLevels_spec 64 mn mx) as [H1 H2]; [lia|lia| |].
  { change (2 ^ Z.of_nat 64) with (2 ^ 64). nia. }
  revert H1 H2. generalize (newLevels 64 mn mx). intros ls H1 H2 [= <-]. split; cbn; [lia|rewrite length_app; simpl; lia| |].
  - rewrite zlen_app. change (zlen [newLevelPool mx]) with 1.
    by replace (zlen ls + 1 - 1) with (zlen ls) by lia.
  - intros i lp Hi. unfold level_size. cbn. rewrite length_app. cbn.
    apply lookup_app_Some in Hi as [Hi|[Hge Hi]].
    + pose proof (lookup_lt_Some _ _ _ Hi). rewrite (H2 _ _ Hi). case_decide; [lia|done].
    + apply list_lookup_singleton_Some in Hi as [Hz <-]. case_decide; [done|lia].
Qed.

Lemma LimitedPool_Get_ok pick size p :
  pool_ok p -> 0 <= size ->
  exists p' s, LimitedPool_Get pick size p = (p', Ok s) /\ pool_ok p' /\
    s_len s = size /\ size <= s_cap s.
Proof.
  intros Hok Hs. unfold LimitedPool_Get.
  destruct (Z.le_gt_cases size (maxSize p)) as [Hle|Hgt].
  - destruct (findPool_spec p size Hok Hle) as (i & -> & Hi & Hsz).
    destruct (lookup_lt_is_Some_2 _ _ Hi) as [lp Hlp]. rewrite Hlp.
    destruct (pool_get_ok p i pick lp Hok Hlp) as [Hlen Hok'].
    destruct (pool_get pick lp) as [buf lp']; cbn [fst snd] in *.
    rewrite slice_ok; [|lia|unfold s_cap, of_bytes; cbn; lia].
    do 2 eexists; split; [done|]. split; [done|]. unfold s_cap. cbn. rewrite drop_0. lia.
  - assert (findPool p size = None) as ->.
    { unfold findPool. by rewrite Z.gtb_ltb, (proj2 (Z.ltb_lt _ _)). }
    rewrite (proj2 (Z.ltb_ge size 0)) by lia.
    do 2 eexists; split; [done|]. split; [done|].
    unfold s_cap, of_bytes, zlen; cbn. rewrite length_replicate. lia.
Qed.

Lemma LimitedPool_Put_ok b p : pool_ok p -> pool_ok (LimitedPool_Put b p).
Proof.
  intros Hok. unfold LimitedPool_Put.
  destruct (findPutPool p (s_cap b)) as [i|] eqn:E; [|done].
  destruct (pools p !! i) as [lp|] eqn:Hi; [|done].
  destruct (findPutPool_spec _ _ _ Hok E) as [_ Hsz].
  destruct (ok_levels _ Hok _ _ Hi) as [Hlp Hall]. by apply set_level_ok; [..|constructor].
Qed.

(** ** Sequences of pool operations *)

Inductive pool_op := OpGet (pick : option nat) (size : Z) | OpPut (b : gslice).

(** Run the operations in order; [None] as soon as one of them panics. The result lists the
    slices that the [Get]s returned, with the size each was asked for. *)
Fixpoint run_pool (ops : list pool_op) (p : LimitedPool) : option (list (Z * gslice)) :=
  match ops with
  | [] => Some []
  | OpPut b :: ops => run_pool ops (LimitedPool_Put b p)
  | OpGet pick size :: ops =>
      match LimitedPool_Get pick size p with
      | (p', Ok s) => (fun l => (size, s) :: l) <$> run_pool ops p'
      | _ => None
      end
  end.

Definition op_size_ok (o : pool_op) : Prop :=
  match o with OpGet _ size => 0 <= size | OpPut _ => True end.

Lemma run_pool_ok ops p :
  pool_ok p -> Forall op_size_ok ops ->
  exists l, run_pool ops p = Some l /\ Forall (fun x => s_len x.2 = x.1 /\ x.1 <= s_cap x.2) l.
Proof.
  intros Hok Hops. revert p Hok. induction Hops as [|o ops Ho Hops IH]; intros p Hok.
  { by exists []. }
  destruct o as [pick size|b]; cbn.
  - destruct (LimitedPool_Get_ok pick size p Hok Ho) as (p' & s & -> & Hok' & Hl & Hc).
    destruct (IH p' Hok') as (l & -> & Hl'). eexists; split; [done|]. by constructor.
  - destruct (IH _ (LimitedPool_Put_ok b p Hok)) as (l & -> & Hl'). eauto.
Qed.

(** Whatever sequence of [Get] and [Put] is run on a pool made by [NewLimitedPool] (the
    pooled buffers being of any origin and any capacity, the runtime picking any of them),
    no [Get] panics and each returns a slice of exactly the size asked for, backed by enough
    capacity. *)
Theorem buffer_pool_safe mn mx p ops :
  0 < mn -> mx <= 2 ^ 62 -> NewLimitedPool mn mx = Ok p -> Forall op_size_ok ops ->
  exists l, run_pool ops p = Some l /\ Forall (fun x => s_len x.2 = x.1 /\ x.1 <= s_cap x.2) l.
Proof. intros. apply run_pool_ok; [|done]. by eapply NewLimitedPool_ok. Qed.

Definition bufferPool : LimitedPool :=
  match NewLimitedPool 512 4096 with Ok p => p | _ => MkLimitedPool 0 0 [] end.

Lemma bufferPool_ok : pool_ok bufferPool.
Proof. by apply (NewLimitedPool_ok 512 4096). Qed.

Lemma buffer_pool_safe_witness :
  exists l, run_pool [OpGet None 600; OpPut (of_bytes (replicate 700 7)); OpGet (Some 0%nat) 512]
              bufferPool = Some l /\
            Forall (fun x => s_len x.2 = x.1 /\ x.1 <= s_cap x.2) l.
Proof.
  apply (buffer_pool_safe 512 4096); [lia|lia|reflexivity|].
  repeat constructor; simpl; lia.
Defined.
