(* ===== verification/Compress.v ===== *)
(** util/compress.go: Zip and Unzip, with their pool of buffers.

    The deferred function of [Zip] puts the buffer back before the caller has used the bytes
    that [Zip] returned, and those bytes are the buffer's own array. So the arrays are a heap
    here, a [bytes.Buffer] is an array with a length, and the result of [Zip] is a slice of an
    array that another [Zip] may get. The compression itself (compress/gzip) is a parameter:
    what a writer hands to its buffer chunk by chunk, and what a reader makes of the bytes. *)

From S2P Require Import Prelude.

(** What the code uses of compress/gzip: the chunks that [Write], [Flush] and [Close] write to
    the buffer; the error of [Reset], which reads the header; and what [io.ReadAll] returns. *)
Class Gzip := {
  gz_chunks : bytes -> list bytes;
  gz_Reset : bytes -> option error;
  gz_ReadAll : bytes -> bytes * option error;
}.

(** Documented of the package: a reader gives back what a writer was given. *)
Class GzipOk (gz : Gzip) : Prop := {
  gz_header_ok : forall d, gz_Reset (concat (gz_chunks d)) = None;
  gz_body_ok : forall d, gz_ReadAll (concat (gz_chunks d)) = (d, None);
}.

Section Compress.
Context {gz : Gzip}.

(** Rounding of an allocation to a size class of the allocator. *)
Context (roundup : nat -> nat).

(** ** Buffers and the heap *)

(** A [bytes.Buffer] that is read only through [Bytes]: its array and its length. *)
Record Buffer := MkBuffer { b_arr : nat; b_len : nat }.

Definition buf_id := nat.

Record zstate := MkZ {
  arrays : list bytes;            (* every array, to its capacity *)
  buffers : list Buffer;          (* every bytes.Buffer *)
  spBuffer : list buf_id;         (* the pooled ones *)
}.

(** A slice of an array: the first [sl_len] bytes. *)
Record aslice := MkSlice { sl_arr : nat; sl_len : nat }.

Definition slice_read (st : zstate) (sl : aslice) : bytes :=
  take (sl_len sl) (default [] (arrays st !! sl_arr sl)).

Definition Buffer_Bytes (b : Buffer) : aslice := MkSlice (b_arr b) (b_len b).
Definition Buffer_Reset (b : Buffer) : Buffer := MkBuffer (b_arr b) 0.

(** [Buffer.Write]: in place when the capacity suffices; otherwise the contents move to a new
    array. *)
Definition grow (cap need : nat) : nat :=
  if (cap =? 0)%nat && (need <=? 64)%nat then 64%nat else roundup (Nat.max need (2 * cap)).

Definition Buffer_Write (l : bytes) (b : Buffer) (arrs : list bytes) : Buffer * list bytes :=
  let arr := default [] (arrs !! b_arr b) in
  let n := (b_len b + length l)%nat in
  if (n <=? length arr)%nat
  then (MkBuffer (b_arr b) n, <[b_arr b := copy_at arr (b_len b) l]> arrs)
  else
    let fresh := take (b_len b) arr ++ l ++ replicate (grow (length arr) n - n) 0 in
    (MkBuffer (length arrs) n, arrs ++ [fresh]).

Definition Buffer_WriteAll (ls : list bytes) (b : Buffer) (arrs : list bytes) :
    Buffer * list bytes :=
  foldl (fun x l => Buffer_Write l x.1 x.2) (b, arrs) ls.

(** [spBuffer.Get]: entry [pick] of the pool, or a new buffer (with no array: one of capacity
    zero). *)
Definition spBuffer_Get (pick : option nat) (st : zstate) : zstate * buf_id :=
  match pick ≫= (fun i => (fun b => (i, b)) <$> spBuffer st !! i) with
  | Some (i, b) => (MkZ (arrays st) (buffers st) (delete i (spBuffer st)), b)
  | None =>
      (MkZ (arrays st ++ [[]]) (buffers st ++ [MkBuffer (length (arrays st)) 0]) (spBuffer st),
       length (buffers st))
  end.

Definition spBuffer_Put (b : buf_id) (st : zstate) : zstate :=
  MkZ (arrays st) (buffers st) (b :: spBuffer st).

(** ** Zip and Unzip *)

(** [Zip]: writing to a [bytes.Buffer] does not fail, so neither do the three calls on the
    writer; [dec := buf.Bytes()], and then the deferred function. The second [Close] of the
    writer does nothing, and the pooled writers are reset before use. *)
Definition Zip (pick : option nat) (data : bytes) (st : zstate) : zstate * aslice :=
  let '(st, id) := spBuffer_Get pick st in
  let b := default (MkBuffer 0 0) (buffers st !! id) in
  let '(b, arrs) := Buffer_WriteAll (gz_chunks data) b (arrays st) in
  let dec := Buffer_Bytes b in
  let st := MkZ arrs (<[id := Buffer_Reset b]> (buffers st)) (spBuffer st) in
  (spBuffer_Put id st, dec).

(** [Unzip]: a new buffer on the data, a pooled reader that is reset to it. *)
Definition Unzip (data : bytes) : res bytes :=
  match gz_Reset data with
  | Some err => Er err
  | None =>
      match gz_ReadAll data with
      | (_, Some err) => Er err
      | (data, None) => Ok data
      end
  end.

(** ** What a buffer holds after writes *)

(** The buffer lies within its array, with the contents [l]. *)
Definition holds (arrs : list bytes) (b : Buffer) (l : bytes) : Prop :=
  exists rest, arrs !! b_arr b = Some (l ++ rest) /\ b_len b = length l.

(** The arrays other than the buffer's first one are as before; a buffer that moved is in a new
    one. *)
Definition others_kept (b : Buffer) (arrs : list bytes) (b' : Buffer) (arrs' : list bytes) : Prop :=
  (length arrs <= length arrs')%nat /\
  (b_arr b' = b_arr b \/ length arrs <= b_arr b')%nat /\
  forall a, (a < length arrs)%nat -> a <> b_arr b -> arrs' !! a = arrs !! a.

Lemma Buffer_Write_spec l b arrs old :
  (forall n, n <= roundup n)%nat -> holds arrs b old ->
  holds (Buffer_Write l b arrs).2 (Buffer_Write l b arrs).1 (old ++ l) /\
  others_kept b arrs (Buffer_Write l b arrs).1 (Buffer_Write l b arrs).2.
Proof.
  intros Hround (rest & Harr & Hlen). unfold Buffer_Write. rewrite Harr, Hlen. cbn [from_option]. unfold id.
  destruct (_ <=? _)%nat eqn:E; cbn [fst snd].
  - apply Nat.leb_le in E. rewrite length_app in E. split; [|split_and!].
    + exists (drop (length l) rest). cbn. rewrite list_lookup_insert_eq by (by eapply lookup_lt_Some).
      rewrite length_app. split; [|done]. unfold copy_at. rewrite take_app_length, <- app_assoc.
      do 3 f_equal. rewrite drop_app_ge by lia. f_equal. lia.
    + by rewrite length_insert.
    + by left.
    + intros a _ Ha. by rewrite list_lookup_insert_ne.
  - apply Nat.leb_gt in E. split; [|split_and!].
    + eexists. cbn. rewrite lookup_app_r, Nat.sub_diag, take_app_length by lia. cbn.
      split; [|by rewrite length_app]. rewrite app_assoc. reflexivity.
    + rewrite length_app. lia.
    + right. cbn. lia.
    + intros a Ha _. by apply lookup_app_l.
Qed.

Lemma Buffer_WriteAll_spec ls b arrs old :
  (forall n, n <= roundup n)%nat -> holds arrs b old ->
  holds (Buffer_WriteAll ls b arrs).2 (Buffer_WriteAll ls b arrs).1 (old ++ concat ls) /\
  others_kept b arrs (Buffer_WriteAll ls b arrs).1 (Buffer_WriteAll ls b arrs).2.
Proof.
  intros Hround. unfold Buffer_WriteAll.
  revert b arrs old. induction ls as [|l ls IH]; intros b arrs old Hold.
  { cbn. rewrite app_nil_r. split; [done|]. split_and!; [done|by left|done]. }
  cbn [foldl fst snd]. destruct (Buffer_Write_spec l b arrs old Hround Hold) as [H1 (Hle & Harr & Hk)].
  destruct (Buffer_Write l b arrs) as [b1 arrs1]. cbn [fst snd] in *.
  destruct (IH b1 arrs1 _ H1) as [H2 (Hle2 & Harr2 & Hk2)]. cbn [concat].
  rewrite app_assoc. split; [done|]. split_and!; [lia| |].
  - destruct Harr2, Harr; lia.
  - intros a Ha Hne. rewrite Hk2; [by apply Hk|lia|destruct Harr; lia].
Qed.

(** Writes that fit stay in the array and overwrite what was there. *)
Lemma Buffer_WriteAll_fits ls b arrs arr :
  arrs !! b_arr b = Some arr -> (b_len b + length (concat ls) <= length arr)%nat ->
  Buffer_WriteAll ls b arrs =
    (MkBuffer (b_arr b) (b_len b + length (concat ls)),
     <[b_arr b := copy_at arr (b_len b) (concat ls)]> arrs).
Proof.
  unfold Buffer_WriteAll. revert b arrs arr. induction ls as [|l ls IH]; intros b arrs arr Harr Hfit.
  { cbn. rewrite Nat.add_0_r. unfold copy_at. cbn. rewrite Nat.add_0_r, take_drop, list_insert_id by done.
    by destruct b. }
  cbn [foldl concat fst snd] in *. rewrite length_app in Hfit.
  assert (length (copy_at arr (b_len b) l) = length arr) as Hcopy by (apply length_copy_at; lia).
  unfold Buffer_Write at 2. rewrite Harr. cbn [from_option]. unfold id.
  rewrite (proj2 (Nat.leb_le _ _)) by lia.
  rewrite (IH _ _ (copy_at arr (b_len b) l)); cbn [b_arr b_len].
  - rewrite length_app, Nat.add_assoc, list_insert_insert_eq. do 2 f_equal.
    unfold copy_at. rewrite length_app, <- !app_assoc.
    rewrite take_app_ge by (rewrite length_take; lia). rewrite length_take, Nat.min_l by lia.
    replace (b_len b + length l - b_len b)%nat with (length l) by lia.
    rewrite take_app_length, <- app_assoc. do 3 f_equal.
    rewrite drop_app_ge by (rewrite length_take; lia). rewrite length_take, Nat.min_l by lia.
    rewrite drop_app_ge by lia. rewrite drop_drop. f_equal. lia.
  - apply list_lookup_insert_eq. by eapply lookup_lt_Some.
  - lia.
Qed.

(** ** The invariant between calls

    Every buffer is empty, lies in an array of its own, and is pooled at most once. *)
Record zwf (st : zstate) : Prop := {
  zw_empty : forall i b, buffers st !! i = Some b -> b_len b = 0%nat /\ (b_arr b < length (arrays st))%nat;
  zw_inj : forall i j b b', buffers st !! i = Some b -> buffers st !! j = Some b' ->
    b_arr b = b_arr b' -> i = j;
  zw_pool : Forall (fun i => i < length (buffers st))%nat (spBuffer st);
  zw_nodup : NoDup (spBuffer st);
}.

Lemma zwf_init : zwf (MkZ [] [] []).
Proof. by split; try done; constructor. Qed.

(** [Get] returns an empty buffer that is in the pool no more. *)
Lemma spBuffer_Get_spec pick st :
  zwf st ->
  let '(st1, id) := spBuffer_Get pick st in
  zwf st1 /\ (id ∉ spBuffer st1) /\
  (exists b, buffers st1 !! id = Some b /\ holds (arrays st1) b []) /\
  (length (arrays st) <= length (arrays st1))%nat /\
  (forall a, (a < length (arrays st))%nat -> arrays st1 !! a = arrays st !! a).
Proof.
  intros [He Hi Hp Hn]. unfold spBuffer_Get.
  destruct (pick ≫= _) as [[i id]|] eqn:E.
  - destruct pick as [i'|]; [cbn in E|done].
    destruct (spBuffer st !! i') as [id'|] eqn:Hid; [|done]. cbn in E. injection E as -> ->.
    pose proof (delete_Permutation _ _ _ Hid) as Hperm. rewrite Hperm in Hn, Hp.
    apply NoDup_cons in Hn as [Hnin Hn]. apply Forall_cons_iff in Hp as [Hlt Hp].
    split; [by split|]. split; [done|]. split; [|done].
    destruct (lookup_lt_is_Some_2 _ _ Hlt) as [b Hb]. exists b. split; [done|].
    destruct (He _ _ Hb) as [Hl Ha]. destruct (lookup_lt_is_Some_2 _ _ Ha) as [arr Harr].
    by exists arr.
  - assert (forall i b, (buffers st ++ [MkBuffer (length (arrays st)) 0]) !! i = Some b ->
      (buffers st !! i = Some b \/ i = length (buffers st) /\ b = MkBuffer (length (arrays st)) 0)) as Happ.
    { intros i b [Hb|[Hge Hb]]%lookup_app_Some; [by left|].
      apply list_lookup_singleton_Some in Hb as [Hz <-]. right. split; [lia|done]. }
    cbn. split; [split; cbn|split; [|split; [|split]]].
    + rewrite length_app. cbn. intros i b [Hb|[_ ->]]%Happ; [apply He in Hb; lia|cbn; lia].
    + intros i j b b' [Hb|[-> ->]]%Happ [Hb'|[-> ->]]%Happ Hab; [by eapply Hi| | |done].
      * apply He in Hb as [_ Hb]. cbn in Hab. lia.
      * apply He in Hb' as [_ Hb']. cbn in Hab. lia.
    + rewrite length_app. cbn. eapply Forall_impl; [exact Hp|]. cbn. lia.
    + done.
    + rewrite Forall_forall in Hp. intros Hin. specialize (Hp _ Hin). cbn in Hp. lia.
    + eexists. rewrite lookup_app_r, Nat.sub_diag by lia. split; [done|].
      exists []. cbn. by rewrite lookup_app_r, Nat.sub_diag by lia.
    + rewrite length_app. lia.
    + intros a Ha. by apply lookup_app_l.
Qed.

(** [id] is the buffer that [Zip] gets, [a] its array at that time. *)
Definition Zip_buffer (pick : option nat) (st : zstate) : buf_id := (spBuffer_Get pick st).2.

Definition Zip_array (pick : option nat) (st : zstate) : nat :=
  b_arr (default (MkBuffer 0 0) (buffers (spBuffer_Get pick st).1 !! Zip_buffer pick st)).

Lemma Zip_spec pick data st :
  (forall n, n <= roundup n)%nat -> zwf st ->
  let '(st', dec) := Zip pick data st in
  zwf st' /\ slice_read st' dec = concat (gz_chunks data) /\ (sl_arr dec < length (arrays st'))%nat /\
  (length (arrays st) <= length (arrays st'))%nat /\
  forall sl, (sl_arr sl < length (arrays st))%nat -> sl_arr sl <> Zip_array pick st ->
    slice_read st' sl = slice_read st sl.
Proof.
  intros Hround Hwf. pose proof (spBuffer_Get_spec pick st Hwf) as Hget.
  unfold Zip, Zip_array, Zip_buffer. destruct (spBuffer_Get pick st) as [st1 bid]. cbn [fst snd].
  destruct Hget as (Hwf1 & Hid & (b & Hb & Hold) & Hlen & Hsame).
  rewrite Hb. cbn [from_option]. unfold id.
  destruct (Buffer_WriteAll_spec (gz_chunks data) b (arrays st1) [] Hround Hold) as [Hh (Hle & Harr & Hk)].
  destruct (Buffer_WriteAll _ b _) as [b' arrs']. cbn [fst snd] in *.
  destruct Hh as (rest & Hrest & Hblen). cbn [app] in Hrest, Hblen.
  pose proof (lookup_lt_Some _ _ _ Hrest) as Hlt. pose proof (lookup_lt_Some _ _ _ Hb) as Hidlt.
  destruct Hwf1 as [He Hi Hp Hn]. split; [split; cbn|split; [|split; [|split]]].
  - intros i x Hx. apply list_lookup_insert_Some in Hx as [(-> & <- & _)|[_ Hx]]; [done|].
    apply He in Hx. lia.
  - intros i j x y Hx Hy Hxy.
    assert (forall k z, buffers st1 !! k = Some z -> k <> bid -> b_arr z <> b_arr b') as Hne.
    { intros k z Hz Hkid Hzb. destruct (He _ _ Hz) as [_ Hz'].
      destruct Harr as [Harr|Harr]; [|lia]. apply Hkid, (Hi k bid z b Hz Hb). congruence. }
    apply list_lookup_insert_Some in Hx, Hy.
    destruct Hx as [(-> & <- & _)|[Hxi Hx]], Hy as [(-> & <- & _)|[Hyi Hy]]; cbn in Hxy; try done.
    + exfalso. by apply (Hne j y Hy).
    + exfalso. by apply (Hne i x Hx).
    + by eapply Hi.
  - rewrite length_insert. by constructor.
  - by constructor.
  - unfold slice_read. cbn. rewrite Hrest, Hblen. cbn. unfold id. by rewrite take_app_length.
  - cbn. done.
  - cbn. lia.
  - intros sl Hsl Hne. unfold slice_read. cbn. rewrite Hk, Hsame by (done || lia). done.
Qed.

(** ** Sequences of calls *)

Definition run_zips (ops : list (option nat * bytes)) (st : zstate) : zstate :=
  foldl (fun st op => (Zip op.1 op.2 st).1) st ops.

(** None of the calls gets a buffer in the array [a]. *)
Fixpoint avoids (a : nat) (ops : list (option nat * bytes)) (st : zstate) : Prop :=
  match ops with
  | [] => True
  | op :: ops => Zip_array op.1 st <> a /\ avoids a ops (Zip op.1 op.2 st).1
  end.

Lemma run_zips_wf ops st : (forall n, n <= roundup n)%nat -> zwf st -> zwf (run_zips ops st).
Proof.
  intros Hround. revert st. induction ops as [|[pick d] ops IH]; intros st Hwf; [done|].
  pose proof (Zip_spec pick d st Hround Hwf) as H. unfold run_zips. cbn [foldl fst snd].
  destruct (Zip pick d st) as [st' dec]. by apply IH, H.
Qed.

Lemma run_zips_keeps ops st sl :
  (forall n, n <= roundup n)%nat -> zwf st -> (sl_arr sl < length (arrays st))%nat ->
  avoids (sl_arr sl) ops st -> slice_read (run_zips ops st) sl = slice_read st sl.
Proof.
  intros Hround. revert st. induction ops as [|[pick d] ops IH]; intros st Hwf Hsl Hav; [done|].
  pose proof (Zip_spec pick d st Hround Hwf) as H. unfold run_zips. cbn [foldl fst snd avoids] in *.
  destruct Hav as [Hne Hav]. destruct (Zip pick d st) as [st' dec].
  destruct H as (Hwf' & _ & _ & Hle & Hk). cbn [fst] in *.
  etrans; [apply IH; (done || lia)|]. by apply Hk.
Qed.

Lemma Unzip_Zip d : GzipOk gz -> Unzip (concat (gz_chunks d)) = Ok d.
Proof. intros [Hh Hb]. unfold Unzip. by rewrite Hh, Hb. Qed.

(** C40. Whatever calls came before and whichever buffer [Zip] gets, unzipping its result gives
    the data back; and it still does after later calls, as long as none of them gets the array
    of that result. *)
Theorem zip_unzip before pick d later :
  GzipOk gz -> (forall n, n <= roundup n)%nat ->
  let st := run_zips before (MkZ [] [] []) in
  let '(st', dec) := Zip pick d st in
  Unzip (slice_read st' dec) = Ok d /\
  (avoids (sl_arr dec) later st' -> Unzip (slice_read (run_zips later st') dec) = Ok d).
Proof.
  intros Hgz Hround. cbv zeta.
  pose proof (run_zips_wf before _ Hround zwf_init) as Hwf.
  pose proof (Zip_spec pick d _ Hround Hwf) as H.
  destruct (Zip pick d _) as [st' dec]. destruct H as (Hwf' & Hrd & Hlt & _).
  split; [rewrite Hrd; by apply Unzip_Zip|]. intros Hav.
  rewrite run_zips_keeps, Hrd by done. by apply Unzip_Zip.
Qed.

(** The buffer of a [Zip] that returned is the first of the pool. If the next [Zip] gets it
    and its output fits, the bytes that the first caller holds are the second caller's output,
    followed by what is left of its own. *)
Theorem zip_reuse_overwrites pick d1 d2 st :
  (forall n, n <= roundup n)%nat -> zwf st ->
  let '(st1, dec) := Zip pick d1 st in
  let z1 := concat (gz_chunks d1) in
  let z2 := concat (gz_chunks d2) in
  (length z2 <= length (default [] (arrays st1 !! sl_arr dec)))%nat ->
  slice_read (Zip (Some 0%nat) d2 st1).1 dec = take (length z1) (z2 ++ drop (length z2) z1).
Proof.
  intros Hround Hwf. pose proof (spBuffer_Get_spec pick st Hwf) as Hget.
  unfold Zip at 1. destruct (spBuffer_Get pick st) as [st1 bid].
  destruct Hget as (_ & _ & (b & Hb & Hold) & _ & _). rewrite Hb. cbn [from_option]. unfold id.
  destruct (Buffer_WriteAll_spec (gz_chunks d1) b (arrays st1) [] Hround Hold) as [Hh _].
  destruct (Buffer_WriteAll _ b _) as [b' arrs']. cbn [fst snd] in Hh.
  destruct Hh as (rest & Hrest & Hblen). cbn [app] in Hrest, Hblen. cbv zeta.
  unfold Buffer_Bytes, spBuffer_Put. cbn [arrays buffers spBuffer sl_arr]. rewrite Hrest.
  cbn [from_option]. unfold id. intros Hfit.
  unfold Zip, spBuffer_Get. cbn [mbind option_bind spBuffer lookup list_lookup fmap option_fmap option_map].
  cbn [arrays buffers fst].
  rewrite list_lookup_insert_eq by (by eapply lookup_lt_Some). cbn [from_option]. unfold id.
  rewrite (Buffer_WriteAll_fits _ (Buffer_Reset b') _ _ Hrest) by (cbn; lia).
  unfold slice_read. cbn. rewrite list_lookup_insert_eq by (by eapply lookup_lt_Some).
  cbn. unfold id, copy_at. rewrite Hblen. cbn.
  rewrite take_0, app_nil_l.
  destruct (decide (length (concat (gz_chunks d1)) < length (concat (gz_chunks d2)))%nat) as [Hlt|Hge].
  - by rewrite !take_app_le by lia.
  - rewrite drop_app_le by lia. rewrite app_assoc, take_app_le; [done|].
    rewrite length_app, length_drop. lia.
Qed.
End Compress.

(** ** Two goroutines

    A message is encoded by zipping its payload and copying the result into the message
    (protocol/message.go): another goroutine may call [Zip] in between. *)

Module CompressDemo.
(** A compressor that writes a header and the data as two chunks. *)
#[export] Instance toy_gzip : Gzip := {|
  gz_chunks d := [[31; 139]; d];
  gz_Reset l := match l with 31 :: 139 :: _ => None | _ => Some (errorString "gzip: invalid header") end;
  gz_ReadAll l := (drop 2 l, None);
|}.

#[export] Instance toy_gzip_ok : GzipOk toy_gzip.
Proof. split; intros d; cbn; [done|]. unfold drop. by rewrite app_nil_r. Qed.

Definition two_before : list (option nat * bytes) := [(None, [5; 6]); (Some 0%nat, [7])].

Lemma zip_unzip_witness :
  let st := run_zips id two_before (MkZ [] [] []) in
  let '(st', dec) := Zip id (Some 0%nat) [1; 2; 3] st in
  Unzip (slice_read st' dec) = Ok [1; 2; 3] /\
  (avoids id (sl_arr dec) [(None, [8; 9])] st' ->
   Unzip (slice_read (run_zips id [(None, [8; 9])] st') dec) = Ok [1; 2; 3]).
Proof. apply (zip_unzip id two_before (Some 0%nat) [1; 2; 3] [(None, [8; 9])]); [apply _|cbn; lia]. Defined.

Example zip_unzip_avoids :
  let '(st', dec) := Zip id (Some 0%nat) [1; 2; 3] (run_zips id two_before (MkZ [] [] [])) in
  avoids id (sl_arr dec) [(None, [8; 9])] st'.
Proof. vm_compute. split; [lia|done]. Qed.

(** The first caller's message now decodes to the second caller's data. *)
Lemma zip_reuse_overwrites_witness :
  let '(st1, dec) := Zip id None [1; 2; 3] (MkZ [] [] []) in
  Unzip (slice_read st1 dec) = Ok [1; 2; 3] /\
  Unzip (slice_read (Zip id (Some 0%nat) [8; 9; 10] st1).1 dec) = Ok [8; 9; 10].
Proof.
  pose proof (zip_reuse_overwrites id None [1; 2; 3] [8; 9; 10] (MkZ [] [] [])
    ltac:(cbn; lia) zwf_init) as H.
  destruct (Zip id None [1; 2; 3] (MkZ [] [] [])) as [st1 dec] eqn:E.
  vm_compute in E. injection E as <- <-. cbv zeta in H.
  split; [reflexivity|]. rewrite H; [reflexivity|vm_compute; lia].
Defined.
End CompressDemo.
