(* ===== verification/Header.v ===== *)
(** protocol/message.go: the 12-byte header of a message.

    The header is the byte array of the source; [hview] reads it as the record of its fields,
    and the accessors are shown to refine reads and updates of that record. *)

From S2P Require Import Prelude.

(** ** Constants *)

Definition magicNumber : Z := 0x08.
Definition MagicNumber : Z := magicNumber.

(** [MessageType], [MessageStatusType], [CompressType] and [SerializeType] are byte types
    with named values. *)
Definition Request : Z := 0.
Definition Response : Z := 1.
Definition Normal : Z := 0.
Definition StatusError : Z := 1.
Definition None_ : Z := 0.
Definition Gzip : Z := 1.
Definition SerializeNone : Z := 0.
Definition JSON : Z := 1.
Definition ProtoBuffer : Z := 2.
Definition MsgPack : Z := 3.
Definition Thrift : Z := 4.

(** ** The header and its accessors *)

Abbreviation Header := (list Z).
Definition header_ok (h : Header) : Prop := length h = 12%nat /\ bytes_ok h.

Definition hget (h : Header) (i : nat) : Z := nth i h 0.
Definition hset (h : Header) (i : nat) (v : Z) : Header := <[i:=v]> h.

Section Accessors.
Local Open Scope go_scope.
Local Open Scope Z_scope.

Definition CheckMagicNumber (h : Header) : bool := hget h 0 =? magicNumber.

Definition Version (h : Header) : Z := hget h 1.
Definition SetVersion (v : Z) (h : Header) : Header := hset h 1 v.

Definition MessageType (h : Header) : Z := Z.shiftr (Z.land (hget h 2) 0x80) 7.
Definition SetMessageType (mt : Z) (h : Header) : Header :=
  hset h 2 (Z.lor (hget h 2) (u8 (Z.shiftl mt 7))).

Definition IsHeartbeat (h : Header) : bool := Z.land (hget h 2) 0x40 =? 0x40.
Definition SetHeartbeat (hb : bool) (h : Header) : Header :=
  if hb then hset h 2 (Z.lor (hget h 2) 0x40) else hset h 2 (hget h 2 &^ 0x40)%go.

Definition IsOneway (h : Header) : bool := Z.land (hget h 2) 0x20 =? 0x20.
Definition SetOneway (oneway : bool) (h : Header) : Header :=
  if oneway then hset h 2 (Z.lor (hget h 2) 0x20) else hset h 2 (hget h 2 &^ 0x20)%go.

Definition CompressType (h : Header) : Z := Z.shiftr (Z.land (hget h 2) 0x1C) 2.
Definition SetCompressType (ct : Z) (h : Header) : Header :=
  hset h 2 (Z.lor (hget h 2 &^ 0x1C)%go (Z.land (u8 (Z.shiftl ct 2)) 0x1C)).

Definition MessageStatusType (h : Header) : Z := Z.land (hget h 2) 0x03.
Definition SetMessageStatusType (mt : Z) (h : Header) : Header :=
  hset h 2 (Z.lor (hget h 2 &^ 0x03)%go (Z.land mt 0x03)).

Definition SerializeType (h : Header) : Z := Z.shiftr (Z.land (hget h 3) 0xF0) 4.
Definition SetSerializeType (st : Z) (h : Header) : Header :=
  hset h 3 (Z.lor (hget h 3 &^ 0xF0)%go (u8 (Z.shiftl st 4))).

Definition Seq (h : Header) : Z := Uint64 (drop 4 h).
Definition SetSeq (seq : Z) (h : Header) : Header := copy_at h 4 (PutUint64 seq).

(** [copy(h[1:], zeroHeader)]. *)
Definition resetHeader (h : Header) : Header := copy_at h 1 (replicate 11 0).

End Accessors.

(** The header of [NewMessage]. *)
Definition newHeader : Header := hset (replicate 12 0) 0 magicNumber.

(** ** Abstract view *)

Record HeaderView := HView {
  hv_magic : Z;
  hv_version : Z;
  hv_type : Z;
  hv_heartbeat : bool;
  hv_oneway : bool;
  hv_compress : Z;
  hv_status : Z;
  hv_serialize : Z;
  hv_reserved : Z;
  hv_seq : Z;
}.

Definition hview (h : Header) : HeaderView := {|
  hv_magic := hget h 0;
  hv_version := Version h;
  hv_type := MessageType h;
  hv_heartbeat := IsHeartbeat h;
  hv_oneway := IsOneway h;
  hv_compress := CompressType h;
  hv_status := MessageStatusType h;
  hv_serialize := SerializeType h;
  hv_reserved := Z.land (hget h 3) 0x0F;
  hv_seq := Seq h;
|}.

Definition b2z (b : bool) : Z := if b then 1 else 0.

(** The header with the given fields. *)
Definition hbuild (v : HeaderView) : Header :=
  [hv_magic v; hv_version v;
   hv_type v * 128 + b2z (hv_heartbeat v) * 64 + b2z (hv_oneway v) * 32 +
     hv_compress v * 4 + hv_status v;
   hv_serialize v * 16 + hv_reserved v] ++ PutUint64 (hv_seq v).

(** ** Exhaustive checks over bytes *)

Definition all_bytes : list Z := seqZ 0 256.

Lemma byte_all (P : Z -> bool) :
  forallb P all_bytes = true -> forall b, is_byte b -> P b = true.
Proof.
  intros H b Hb. rewrite forallb_forall in H. apply H, list_elem_of_In, elem_of_seqZ.
  unfold is_byte in Hb. lia.
Qed.

Lemma byte_all2 (P : Z -> Z -> bool) :
  forallb (fun a => forallb (P a) all_bytes) all_bytes = true ->
  forall a b, is_byte a -> is_byte b -> P a b = true.
Proof. intros H a b Ha. revert b. apply byte_all. by apply (byte_all _ H). Qed.

(** The fields of the flag byte, as one tuple. *)
Definition flags (b : Z) : Z * bool * bool * Z * Z :=
  (Z.shiftr (Z.land b 0x80) 7, Z.land b 0x40 =? 0x40, Z.land b 0x20 =? 0x20,
   Z.shiftr (Z.land b 0x1C) 2, Z.land b 0x03).

Definition flags_eqb (x y : Z * bool * bool * Z * Z) : bool :=
  let '(a, b, c, d, e) := x in
  let '(a', b', c', d', e') := y in
  (a =? a') && Bool.eqb b b' && Bool.eqb c c' && (d =? d') && (e =? e').

Lemma flags_eqb_eq x y : flags_eqb x y = true -> x = y.
Proof.
  destruct x as [[[[a b] c] d] e], y as [[[[a' b'] c'] d'] e']. cbn. intros H. zbool.
  repeat match goal with H : Bool.eqb _ _ = true |- _ => apply Bool.eqb_prop in H end.
  by subst.
Qed.

(** Settle a statement about one or two bytes by running it on all of them. *)
Tactic Notation "by_bytes2" uconstr(P) := refine (byte_all2 P _); vm_compute; reflexivity.
Tactic Notation "by_bytes1" uconstr(P) := refine (byte_all P _); vm_compute; reflexivity.

Lemma flags_SetMessageType b mt : is_byte b -> is_byte mt ->
  let '(t, hb, ow, ct, st) := flags b in
  flags (Z.lor b (u8 (Z.shiftl mt 7))) = (Z.lor t (mt mod 2), hb, ow, ct, st).
Proof.
  intros Hb Hm. cbn. apply flags_eqb_eq. revert b mt Hb Hm.
  by_bytes2 (fun b mt => flags_eqb (flags (Z.lor b (u8 (Z.shiftl mt 7)))) _).
Qed.

Lemma flags_SetHeartbeat b (hb' : bool) : is_byte b ->
  let '(t, hb, ow, ct, st) := flags b in
  flags (if hb' then Z.lor b 0x40 else andnot b 0x40) = (t, hb', ow, ct, st).
Proof.
  intros Hb. cbn. apply flags_eqb_eq. revert b Hb. destruct hb'.
  - by_bytes1 (fun b => flags_eqb (flags (Z.lor b 0x40)) _).
  - by_bytes1 (fun b => flags_eqb (flags (andnot b 0x40)) _).
Qed.

Lemma flags_SetOneway b (ow' : bool) : is_byte b ->
  let '(t, hb, ow, ct, st) := flags b in
  flags (if ow' then Z.lor b 0x20 else andnot b 0x20) = (t, hb, ow', ct, st).
Proof.
  intros Hb. cbn. apply flags_eqb_eq. revert b Hb. destruct ow'.
  - by_bytes1 (fun b => flags_eqb (flags (Z.lor b 0x20)) _).
  - by_bytes1 (fun b => flags_eqb (flags (andnot b 0x20)) _).
Qed.

Lemma flags_SetCompressType b ct' : is_byte b -> is_byte ct' ->
  let '(t, hb, ow, ct, st) := flags b in
  flags (Z.lor (andnot b 0x1C) (Z.land (u8 (Z.shiftl ct' 2)) 0x1C)) = (t, hb, ow, ct' mod 8, st).
Proof.
  intros Hb Hm. cbn. apply flags_eqb_eq. revert b ct' Hb Hm.
  by_bytes2 (fun b ct' =>
    flags_eqb (flags (Z.lor (andnot b 0x1C) (Z.land (u8 (Z.shiftl ct' 2)) 0x1C))) _).
Qed.

Lemma flags_SetMessageStatusType b st' : is_byte b -> is_byte st' ->
  let '(t, hb, ow, ct, st) := flags b in
  flags (Z.lor (andnot b 0x03) (Z.land st' 0x03)) = (t, hb, ow, ct, st' mod 4).
Proof.
  intros Hb Hm. cbn. apply flags_eqb_eq. revert b st' Hb Hm.
  by_bytes2 (fun b st' => flags_eqb (flags (Z.lor (andnot b 0x03) (Z.land st' 0x03))) _).
Qed.

Lemma nibbles_SetSerializeType b st : is_byte b -> is_byte st ->
  Z.shiftr (Z.land (Z.lor (andnot b 0xF0) (u8 (Z.shiftl st 4))) 0xF0) 4 = st mod 16 /\
  Z.land (Z.lor (andnot b 0xF0) (u8 (Z.shiftl st 4))) 0x0F = Z.land b 0x0F.
Proof.
  intros Hb Hs. rewrite <- !Z.eqb_eq. apply andb_true_iff. revert b st Hb Hs.
  by_bytes2 (fun b st => (Z.shiftr (Z.land (Z.lor (andnot b 0xF0) (u8 (Z.shiftl st 4))) 0xF0) 4
                            =? st mod 16) &&
                         (Z.land (Z.lor (andnot b 0xF0) (u8 (Z.shiftl st 4))) 0x0F
                            =? Z.land b 0x0F))%bool.
Qed.

(** ** Well-formed headers *)

(** A well-formed header is twelve bytes. *)
Lemma header_ok_inv h : header_ok h ->
  exists a b c d s, h = a :: b :: c :: d :: s /\ length s = 8%nat /\
    is_byte a /\ is_byte b /\ is_byte c /\ is_byte d /\ bytes_ok s.
Proof.
  intros [Hl Hb]. destruct h as [|a [|b [|c [|d s]]]]; try done.
  repeat (apply bytes_ok_cons in Hb as [? Hb]). cbn in Hl.
  exists a, b, c, d, s. do 6 (split; [assumption || reflexivity || lia|]). done.
Qed.

Lemma bytes_ok_insert h i v : bytes_ok h -> is_byte v -> bytes_ok (hset h i v).
Proof. intros. by apply Forall_insert. Qed.

Lemma header_ok_hset h i v : header_ok h -> is_byte v -> header_ok (hset h i v).
Proof.
  intros [Hl Hb] Hv. split; [unfold hset; by rewrite length_insert|by apply bytes_ok_insert].
Qed.

Lemma hget_byte h i : header_ok h -> is_byte (hget h i).
Proof.
  intros [_ Hb]. unfold hget. destruct (nth_in_or_default i h 0) as [Hi| ->].
  - unfold bytes_ok in Hb. rewrite List.Forall_forall in Hb. by apply Hb.
  - unfold is_byte. lia.
Qed.

Lemma is_byte_land a b : is_byte a -> 0 <= b -> is_byte (Z.land a b).
Proof.
  unfold is_byte. intros [Ha Ha'] Hb. split; [apply Z.land_nonneg; lia|].
  destruct (Z.eq_dec a 0); [subst; rewrite Z.land_0_l; lia|].
  destruct (Z.eq_dec (Z.land a b) 0); [lia|].
  assert (0 < Z.land a b) by (pose proof (proj2 (Z.land_nonneg a b)); lia).
  change 256 with (2 ^ 8). apply Z.log2_lt_pow2; [lia|].
  pose proof (Z.log2_land a b Ha Hb).
  assert (Z.log2 a < 8) by (apply Z.log2_lt_pow2; lia). lia.
Qed.

Lemma is_byte_lor a b : is_byte a -> is_byte b -> is_byte (Z.lor a b).
Proof.
  unfold is_byte. intros [Ha Ha'] [Hb Hb']. split; [apply Z.lor_nonneg; lia|].
  destruct (Z.eq_dec (Z.lor a b) 0); [lia|].
  assert (0 < Z.lor a b) by (pose proof (proj2 (Z.lor_nonneg a b)); lia).
  change 256 with (2 ^ 8). apply Z.log2_lt_pow2; [lia|]. rewrite Z.log2_lor by lia.
  assert (forall x, 0 <= x < 256 -> Z.log2 x < 8) as Hx.
  { intros x Hx. destruct (Z.eq_dec x 0); [subst; simpl; lia|].
    apply Z.log2_lt_pow2; lia. }
  apply Z.max_lub_lt; apply Hx; lia.
Qed.

Lemma is_byte_andnot a b : is_byte a -> is_byte b -> is_byte (andnot a b).
Proof.
  intros Ha Hb. assert ((0 <=? andnot a b) && (andnot a b <? 256) = true)%bool as H.
  { revert a b Ha Hb. by_bytes2 (fun a b => (0 <=? andnot a b) && (andnot a b <? 256))%bool. }
  unfold is_byte. zbool. lia.
Qed.

Lemma is_byte_u8 z : is_byte (u8 z).
Proof. apply (wrap_range 8); lia. Qed.

#[export] Hint Resolve header_ok_hset hget_byte is_byte_land is_byte_lor is_byte_andnot
  is_byte_u8 : bytesdb.
#[export] Hint Extern 1 (is_byte _) => (unfold is_byte; lia) : bytesdb.
#[export] Hint Extern 1 (0 <= _) => lia : bytesdb.

Lemma header_ok_newHeader : header_ok newHeader.
Proof. split; [done|]. vm_compute. repeat constructor; done. Qed.

Lemma header_ok_SetMessageType mt h : header_ok h -> header_ok (SetMessageType mt h).
Proof. unfold SetMessageType. auto with bytesdb. Qed.
Lemma header_ok_SetHeartbeat b h : header_ok h -> header_ok (SetHeartbeat b h).
Proof. unfold SetHeartbeat. destruct b; auto 6 with bytesdb. Qed.
Lemma header_ok_SetOneway b h : header_ok h -> header_ok (SetOneway b h).
Proof. unfold SetOneway. destruct b; auto 6 with bytesdb. Qed.
Lemma header_ok_SetCompressType ct h : header_ok h -> header_ok (SetCompressType ct h).
Proof. unfold SetCompressType. auto 7 with bytesdb. Qed.
Lemma header_ok_SetMessageStatusType st h :
  is_byte st -> header_ok h -> header_ok (SetMessageStatusType st h).
Proof. unfold SetMessageStatusType. auto 7 with bytesdb. Qed.
Lemma header_ok_SetSerializeType st h : header_ok h -> header_ok (SetSerializeType st h).
Proof. unfold SetSerializeType. auto 7 with bytesdb. Qed.
Lemma header_ok_SetSeq seq h : header_ok h -> header_ok (SetSeq seq h).
Proof.
  intros [Hl Hb]. unfold SetSeq. split.
  - rewrite length_copy_at; rewrite ?length_be_split; lia.
  - unfold copy_at. rewrite !bytes_ok_app. auto with bytesdb.
Qed.
Lemma header_ok_resetHeader h : header_ok h -> header_ok (resetHeader h).
Proof.
  intros [Hl Hb]. unfold resetHeader. split.
  - rewrite length_copy_at; rewrite ?length_replicate; lia.
  - unfold copy_at. rewrite !bytes_ok_app. split_and!; auto with bytesdb.
    apply Forall_replicate. auto with bytesdb.
Qed.

#[export] Hint Resolve header_ok_newHeader header_ok_SetMessageType header_ok_SetHeartbeat
  header_ok_SetOneway header_ok_SetCompressType header_ok_SetMessageStatusType
  header_ok_SetSerializeType header_ok_SetSeq header_ok_resetHeader : rpcx.

(** Changing the flag byte changes the flag fields of the view and nothing else. *)
Lemma hview_flags h c : header_ok h ->
  hview (hset h 2 c) =
  let '(t, hb, ow, ct, st) := flags c in
  HView (hget h 0) (Version h) t hb ow ct st (SerializeType h) (Z.land (hget h 3) 0x0F) (Seq h).
Proof. intros Hh. by destruct (header_ok_inv h Hh) as (?&?&?&?&?&->&_). Qed.

Lemma hview_flags_id h :
  hview h =
  let '(t, hb, ow, ct, st) := flags (hget h 2) in
  HView (hget h 0) (Version h) t hb ow ct st (SerializeType h) (Z.land (hget h 3) 0x0F) (Seq h).
Proof. done. Qed.

Ltac by_flags Hh L :=
  rewrite hview_flags by done; rewrite hview_flags_id;
  let H := fresh in
  pose proof L as H;
  destruct (flags (hget _ 2)) as [[[[? ?] ?] ?] ?];
  rewrite H by auto with bytesdb; done.

(** ** What each setter does to the view *)

Lemma hview_SetVersion x h :
  header_ok h -> hview (SetVersion x h) =
  HView (hv_magic (hview h)) x (hv_type (hview h)) (hv_heartbeat (hview h))
    (hv_oneway (hview h)) (hv_compress (hview h)) (hv_status (hview h))
    (hv_serialize (hview h)) (hv_reserved (hview h)) (hv_seq (hview h)).
Proof.
  intros Hh. by destruct (header_ok_inv h Hh) as (?&?&?&?&?&->&_).
Qed.

Lemma hview_SetMessageType x h :
  header_ok h -> is_byte x -> hview (SetMessageType x h) =
  HView (hv_magic (hview h)) (hv_version (hview h)) (Z.lor (hv_type (hview h)) (x mod 2)) (hv_heartbeat (hview h))
    (hv_oneway (hview h)) (hv_compress (hview h)) (hv_status (hview h))
    (hv_serialize (hview h)) (hv_reserved (hview h)) (hv_seq (hview h)).
Proof.
  intros Hh Hx. unfold SetMessageType. by_flags Hh (flags_SetMessageType (hget h 2) x).
Qed.

Lemma hview_SetHeartbeat b h :
  header_ok h -> hview (SetHeartbeat b h) =
  HView (hv_magic (hview h)) (hv_version (hview h)) (hv_type (hview h)) b
    (hv_oneway (hview h)) (hv_compress (hview h)) (hv_status (hview h))
    (hv_serialize (hview h)) (hv_reserved (hview h)) (hv_seq (hview h)).
Proof.
  intros Hh. replace (SetHeartbeat b h)
    with (hset h 2 (if b then Z.lor (hget h 2) 0x40 else andnot (hget h 2) 0x40))
    by (by destruct b).
  by_flags Hh (flags_SetHeartbeat (hget h 2) b).
Qed.

Lemma hview_SetOneway b h :
  header_ok h -> hview (SetOneway b h) =
  HView (hv_magic (hview h)) (hv_version (hview h)) (hv_type (hview h)) (hv_heartbeat (hview h))
    b (hv_compress (hview h)) (hv_status (hview h))
    (hv_serialize (hview h)) (hv_reserved (hview h)) (hv_seq (hview h)).
Proof.
  intros Hh. replace (SetOneway b h)
    with (hset h 2 (if b then Z.lor (hget h 2) 0x20 else andnot (hget h 2) 0x20))
    by (by destruct b).
  by_flags Hh (flags_SetOneway (hget h 2) b).
Qed.

Lemma hview_SetCompressType x h :
  header_ok h -> is_byte x -> hview (SetCompressType x h) =
  HView (hv_magic (hview h)) (hv_version (hview h)) (hv_type (hview h)) (hv_heartbeat (hview h))
    (hv_oneway (hview h)) (x mod 8) (hv_status (hview h))
    (hv_serialize (hview h)) (hv_reserved (hview h)) (hv_seq (hview h)).
Proof.
  intros Hh Hx. unfold SetCompressType. by_flags Hh (flags_SetCompressType (hget h 2) x).
Qed.

Lemma hview_SetMessageStatusType x h :
  header_ok h -> is_byte x -> hview (SetMessageStatusType x h) =
  HView (hv_magic (hview h)) (hv_version (hview h)) (hv_type (hview h)) (hv_heartbeat (hview h))
    (hv_oneway (hview h)) (hv_compress (hview h)) (x mod 4)
    (hv_serialize (hview h)) (hv_reserved (hview h)) (hv_seq (hview h)).
Proof.
  intros Hh Hx. unfold SetMessageStatusType.
  by_flags Hh (flags_SetMessageStatusType (hget h 2) x).
Qed.

Lemma hview_SetSerializeType x h :
  header_ok h -> is_byte x -> hview (SetSerializeType x h) =
  HView (hv_magic (hview h)) (hv_version (hview h)) (hv_type (hview h)) (hv_heartbeat (hview h))
    (hv_oneway (hview h)) (hv_compress (hview h)) (hv_status (hview h))
    (x mod 16) (hv_reserved (hview h)) (hv_seq (hview h)).
Proof.
  intros Hh Hx. destruct (header_ok_inv h Hh) as (a&b'&c&d&s&->&_&_&_&_&Hd&_).
  destruct (nibbles_SetSerializeType d x Hd Hx) as [H1 H2].
  unfold hview. f_equal; [exact H1|exact H2].
Qed.

Lemma hview_SetSeq seq h :
  header_ok h -> 0 <= seq < 2 ^ 64 -> hview (SetSeq seq h) =
  HView (hv_magic (hview h)) (hv_version (hview h)) (hv_type (hview h)) (hv_heartbeat (hview h))
    (hv_oneway (hview h)) (hv_compress (hview h)) (hv_status (hview h))
    (hv_serialize (hview h)) (hv_reserved (hview h)) seq.
Proof.
  intros Hh Hseq. destruct (header_ok_inv h Hh) as (a&b'&c&d&s&->&Hs&_&_&_&_&_).
  unfold hview. f_equal. unfold Seq, SetSeq, copy_at. cbn [take drop app].
  rewrite length_be_split, (drop_ge _ (4 + 8)) by (cbn [length]; lia).
  rewrite drop_0, take_0, app_nil_r. by apply Uint64_Put.
Qed.

(** ** Properties *)

(** C12. Each setter of the header updates its own field of the header's view and leaves every
    other field as it was: version, heartbeat, one-way and sequence number take the value
    given, the compression, status and serialization types its low 3, 2 and 4 bits; the
    message type is or-ed in, so a header that is a response stays one. *)
Theorem header_setters_refine h x b seq :
  header_ok h -> is_byte x -> 0 <= seq < 2 ^ 64 ->
  let v := hview h in
  hview (SetVersion x h) =
    HView (hv_magic v) x (hv_type v) (hv_heartbeat v) (hv_oneway v) (hv_compress v)
      (hv_status v) (hv_serialize v) (hv_reserved v) (hv_seq v) /\
  hview (SetMessageType x h) =
    HView (hv_magic v) (hv_version v) (Z.lor (hv_type v) (x mod 2)) (hv_heartbeat v)
      (hv_oneway v) (hv_compress v) (hv_status v) (hv_serialize v) (hv_reserved v) (hv_seq v) /\
  hview (SetHeartbeat b h) =
    HView (hv_magic v) (hv_version v) (hv_type v) b (hv_oneway v) (hv_compress v)
      (hv_status v) (hv_serialize v) (hv_reserved v) (hv_seq v) /\
  hview (SetOneway b h) =
    HView (hv_magic v) (hv_version v) (hv_type v) (hv_heartbeat v) b (hv_compress v)
      (hv_status v) (hv_serialize v) (hv_reserved v) (hv_seq v) /\
  hview (SetCompressType x h) =
    HView (hv_magic v) (hv_version v) (hv_type v) (hv_heartbeat v) (hv_oneway v) (x mod 8)
      (hv_status v) (hv_serialize v) (hv_reserved v) (hv_seq v) /\
  hview (SetMessageStatusType x h) =
    HView (hv_magic v) (hv_version v) (hv_type v) (hv_heartbeat v) (hv_oneway v)
      (hv_compress v) (x mod 4) (hv_serialize v) (hv_reserved v) (hv_seq v) /\
  hview (SetSerializeType x h) =
    HView (hv_magic v) (hv_version v) (hv_type v) (hv_heartbeat v) (hv_oneway v)
      (hv_compress v) (hv_status v) (x mod 16) (hv_reserved v) (hv_seq v) /\
  hview (SetSeq seq h) =
    HView (hv_magic v) (hv_version v) (hv_type v) (hv_heartbeat v) (hv_oneway v)
      (hv_compress v) (hv_status v) (hv_serialize v) (hv_reserved v) seq.
Proof.
  intros Hh Hx Hseq v. split_and!;
    auto using hview_SetVersion, hview_SetMessageType, hview_SetHeartbeat, hview_SetOneway,
      hview_SetCompressType, hview_SetMessageStatusType, hview_SetSerializeType, hview_SetSeq.
Qed.

Lemma header_setters_refine_witness :
  hview (SetMessageType 0 (SetSeq 300 (SetMessageType 1 newHeader))) =
  HView 8 0 1 false false 0 0 0 0 300.
Proof.
  destruct (header_setters_refine (SetSeq 300 (SetMessageType 1 newHeader)) 0 true 1) as (_&H&_).
  - auto with rpcx.
  - split; lia.
  - lia.
  - rewrite H. vm_compute. reflexivity.
Defined.

(** The view loses nothing: the header is rebuilt from its fields. *)
Lemma hbuild_hview h : header_ok h -> hbuild (hview h) = h.
Proof.
  intros Hh. destruct (header_ok_inv h Hh) as (a&b&c&d&s&->&Hs&Ha&Hb&Hc&Hd&Hok).
  assert (Z.shiftr (Z.land c 128) 7 * 128 + b2z (Z.land c 64 =? 64) * 64 +
          b2z (Z.land c 32 =? 32) * 32 + Z.shiftr (Z.land c 28) 2 * 4 + Z.land c 3 = c) as Ec.
  { apply Z.eqb_eq. revert c Hc Hh.
    intros c Hc _. revert c Hc.
    by_bytes1 (fun c => (Z.shiftr (Z.land c 128) 7 * 128 + b2z (Z.land c 64 =? 64) * 64 +
          b2z (Z.land c 32 =? 32) * 32 + Z.shiftr (Z.land c 28) 2 * 4 + Z.land c 3 =? c)). }
  assert (Z.shiftr (Z.land d 240) 4 * 16 + Z.land d 15 = d) as Ed.
  { apply Z.eqb_eq. clear Hh. revert d Hd.
    by_bytes1 (fun d => (Z.shiftr (Z.land d 240) 4 * 16 + Z.land d 15 =? d)). }
  unfold hbuild, hview, IsHeartbeat, IsOneway, MessageType, CompressType, MessageStatusType,
    SerializeType, Version, Seq, hget.
  cbn [hv_magic hv_version hv_type hv_heartbeat hv_oneway hv_compress hv_status hv_serialize
       hv_reserved hv_seq nth drop]. rewrite drop_0.
  assert (PutUint64 (Uint64 s) = s) as -> by (rewrite <- Hs; by apply be_split_combine).
  by rewrite Ec, Ed.
Qed.
