(* ===== verification/Message.v ===== *)
(** protocol/message.go and protocol/compressor.go: messages on the wire.

    [EncodeSlicePointer] is the sequence of copies into a pooled buffer that the source runs,
    [Decode] the sequence of reads and slicings, in the order of the source, with the panics
    of slicing and the [recover] around them. The order in which Go ranges over a map is an
    argument (an enumeration of the map); the compressors are an interface. *)

From stdpp Require Import pretty.
From S2P Require Import Prelude BufferPool Header.

(** ** Compressors *)

(** The [Compressor] interface: each method returns data and an error. *)
Record Compressor := MkCompressor {
  Zip : bytes -> bytes * option error;
  Unzip : bytes -> bytes * option error;
}.

(** The global table [Compressors], which users may extend. *)
Class Compressors := lookup_compressor : Z -> option Compressor.

(** What an entry of the table promises: it decompresses what it compressed. *)
Class CompressorsOk (T : Compressors) := {
  zip_unzip : forall ct c d z,
    T ct = Some c -> bytes_ok d -> Zip c d = (z, None) -> Unzip c z = (d, None);
  zip_bytes_ok : forall ct c d z,
    T ct = Some c -> bytes_ok d -> Zip c d = (z, None) -> bytes_ok z;
}.

Definition RawDataCompressor : Compressor :=
  MkCompressor (fun data => (data, None)) (fun data => (data, None)).

Section Table.
(** [util.Zip] and [util.Unzip] are [compress/gzip] behind a pool of writers and readers;
    the snappy writer and reader belong to github.com/golang/snappy. *)
Context (util_Zip util_Unzip : bytes -> bytes * option error).
Context (snappy_write snappy_read : bytes -> bytes * option error).

Definition GzipCompressor : Compressor :=
  MkCompressor (fun data => util_Zip data) (fun data => util_Unzip data).

Definition SnappyCompressor : Compressor :=
  MkCompressor
    (fun data =>
       if zlen data =? 0 then (data, None)
       else match snappy_write data with
            | (_, Some err) => ([], Some err)
            | (buffer, None) => (buffer, None)
            end)
    (fun data =>
       if zlen data =? 0 then (data, None)
       else match snappy_read data with
            | (_, Some err) => ([], Some err)
            | (out, None) => (out, None)
            end).

Definition defaultCompressors : Compressors := fun ct =>
  if ct =? None_ then Some RawDataCompressor
  else if ct =? Gzip then Some GzipCompressor
  else None.
End Table.

(** ** Messages *)

Abbreviation meta := (gmap string string).

(** [Metadata = None] is the nil map; [data] is the receive buffer. *)
Record Message := MkMessage {
  m_header : Header;
  ServicePath : string;
  ServiceMethod : string;
  Metadata : option meta;
  Payload : bytes;
  m_data : gslice;
}.

Definition set_header (h : Header) (m : Message) : Message :=
  MkMessage h (ServicePath m) (ServiceMethod m) (Metadata m) (Payload m) (m_data m).
Definition set_sp (sp : string) (m : Message) : Message :=
  MkMessage (m_header m) sp (ServiceMethod m) (Metadata m) (Payload m) (m_data m).
Definition set_sm (sm : string) (m : Message) : Message :=
  MkMessage (m_header m) (ServicePath m) sm (Metadata m) (Payload m) (m_data m).
Definition set_meta (md : option meta) (m : Message) : Message :=
  MkMessage (m_header m) (ServicePath m) (ServiceMethod m) md (Payload m) (m_data m).
Definition set_payload (p : bytes) (m : Message) : Message :=
  MkMessage (m_header m) (ServicePath m) (ServiceMethod m) (Metadata m) p (m_data m).
Definition set_data (d : gslice) (m : Message) : Message :=
  MkMessage (m_header m) (ServicePath m) (ServiceMethod m) (Metadata m) (Payload m) d.

Definition nil_slice : gslice := GSlice [] 0.

Definition NewMessage : Message := MkMessage newHeader "" "" None [] nil_slice.

Definition Clone (m : Message) : Message :=
  let header := SetCompressType None_ (m_header m) in
  set_sm (ServiceMethod m) (set_sp (ServicePath m) (set_header header NewMessage)).

Definition Reset (m : Message) : Message :=
  MkMessage (resetHeader (m_header m)) "" "" None [] (GSlice (s_buf (m_data m)) 0).

(** ** Encoding *)

(** [range m] visits the entries of [m] in the order of [kvs]. *)
Definition enumerates (kvs : list (string * string)) (md : option meta) : Prop :=
  kvs ≡ₚ map_to_list (default ∅ md).

Definition encodeEntry (kv : string * string) : bytes :=
  PutUint32 (u32 (slen kv.1)) ++ string_bytes kv.1 ++
  PutUint32 (u32 (slen kv.2)) ++ string_bytes kv.2.

Fixpoint encodeMetadata (kvs : list (string * string)) : bytes :=
  match kvs with
  | [] => []
  | kv :: kvs => encodeEntry kv ++ encodeMetadata kvs
  end.

(** [copy(s[lo:hi], src)]. *)
Definition copy_into (s : gslice) (lo hi : Z) (src : bytes) : res gslice :=
  if (0 <=? lo) && (lo <=? hi) && (hi <=? s_cap s)
  then Ok (GSlice (copy_at (s_buf s) (Z.to_nat lo) (take (Z.to_nat (hi - lo)) src)) (s_len s))
  else Panic "slice bounds out of range".

(** The state of [Decode]: the message being filled and the reader. *)
Abbreviation dstate := (Message * reader)%type.

Section Codec.
Context {compressors : Compressors}.

(** The compression step of [EncodeSlicePointer]: the header (which the message shares with
    its caller, so that falling back to no compression is seen there) and the payload sent. *)
Definition compressPayload (h : Header) (payload : bytes) : Header * bytes :=
  if negb (CompressType h =? None_) then
    match lookup_compressor (CompressType h) with
    | None => (SetCompressType None_ h, payload)
    | Some compressor =>
        match Zip compressor payload with
        | (zipped, None) => (h, zipped)
        | (_, Some err) => (SetCompressType None_ h, payload)
        end
    end
  else (h, payload).

Definition EncodeSlicePointer (kvs : list (string * string)) (pick : option nat) (m : Message) :
    Go LimitedPool (Message * gslice) :=
  let mt := encodeMetadata kvs in
  let spL := slen (ServicePath m) in
  let smL := slen (ServiceMethod m) in
  let '(h, payload) := compressPayload (m_header m) (Payload m) in
  let totalL := (4 + spL) + (4 + smL) + (4 + zlen mt) + (4 + zlen payload) in
  let metaStart := 12 + 4 + (4 + spL) + (4 + smL) in
  let payLoadStart := metaStart + (4 + zlen mt) in
  let l := 12 + 4 + totalL in
  data ← LimitedPool_Get pick l;
  data ← lift (copy_into data 0 (s_len data) h);
  data ← lift (copy_into data 12 16 (PutUint32 (u32 totalL)));
  data ← lift (copy_into data 16 20 (PutUint32 (u32 spL)));
  data ← lift (copy_into data 20 (20 + spL) (string_bytes (ServicePath m)));
  data ← lift (copy_into data (20 + spL) (24 + spL) (PutUint32 (u32 smL)));
  data ← lift (copy_into data (24 + spL) metaStart (string_bytes (ServiceMethod m)));
  data ← lift (copy_into data metaStart (metaStart + 4) (PutUint32 (u32 (zlen mt))));
  data ← lift (copy_into data (metaStart + 4) (s_len data) mt);
  data ← lift (copy_into data payLoadStart (payLoadStart + 4) (PutUint32 (u32 (zlen payload))));
  data ← lift (copy_into data (payLoadStart + 4) (s_len data) payload);
  mret (set_header h m, data).

Definition Encode (kvs : list (string * string)) (pick : option nat) (m : Message) :
    Go LimitedPool (Message * bytes) :=
  '(m', data) ← EncodeSlicePointer kvs pick m;
  mret (m', s_bytes data).

(** [PutData(data)]: the slice goes back to the pool. *)
Definition PutData (data : gslice) (p : LimitedPool) : LimitedPool := LimitedPool_Put data p.

(** The layout of a frame. *)
Definition body (sp sm : string) (mt payload : bytes) : bytes :=
  PutUint32 (u32 (slen sp)) ++ string_bytes sp ++
  PutUint32 (u32 (slen sm)) ++ string_bytes sm ++
  PutUint32 (u32 (zlen mt)) ++ mt ++
  PutUint32 (u32 (zlen payload)) ++ payload.

Definition frame (h : Header) (sp sm : string) (mt payload : bytes) : bytes :=
  h ++ PutUint32 (u32 (zlen (body sp sm mt payload))) ++ body sp sm mt payload.

(** ** Decoding *)

(** The loop of [decodeMetadata], from position [n] with the entries read so far. Positions
    are [uint32]s. [None]: out of fuel. *)
Fixpoint decodeMetadata_loop (fuel : nat) (l : Z) (data : gslice) (n : Z) (m : meta) :
    option (res (meta * option error)) :=
  match fuel with
  | O => None
  | S fuel =>
      if n <? l then
        match slice data n (u32 (n + 4)) with
        | Ok b =>
            let sl := Uint32 (s_bytes b) in
            let n := u32 (n + 4) in
            if u32 (n + sl) >? u32 (l - 4) then Some (Ok (m, Some ErrMetaKVMissing))
            else
              match slice data n (u32 (n + sl)) with
              | Ok kb =>
                  let k := bytes_string (s_bytes kb) in
                  let n := u32 (n + sl) in
                  match slice data n (u32 (n + 4)) with
                  | Ok b =>
                      let sl := Uint32 (s_bytes b) in
                      let n := u32 (n + 4) in
                      if u32 (n + sl) >? l then Some (Ok (m, Some ErrMetaKVMissing))
                      else
                        match slice data n (u32 (n + sl)) with
                        | Ok vb =>
                            let v := bytes_string (s_bytes vb) in
                            let n := u32 (n + sl) in
                            decodeMetadata_loop fuel l data n (<[k:=v]> m)
                        | Er e => Some (Er e)
                        | Panic w => Some (Panic w)
                        end
                  | Er e => Some (Er e)
                  | Panic w => Some (Panic w)
                  end
              | Er e => Some (Er e)
              | Panic w => Some (Panic w)
              end
        | Er e => Some (Er e)
        | Panic w => Some (Panic w)
        end
      else Some (Ok (m, None))
  end.

(** Every round advances [n] (see [decodeMetadata_terminates]), so [l] rounds are enough. *)
Definition decodeMetadata (l : Z) (data : gslice) : res (meta * option error) :=
  match decodeMetadata_loop (S (Z.to_nat l)) l data 0 ∅ with
  | Some r => r
  | None => Panic "out of fuel"
  end.

Definition upd_msg (f : Message -> Message) : Go dstate unit := fun '(m, r) => ((f m, r), Ok tt).

(** [_, err = io.ReadFull(r, m.Header[off:off+n]); if err != nil { return err }]. *)
Definition read_header (off n : nat) : Go dstate unit := fun '(m, r) =>
  let '(got, r', err) := ReadFull n r in
  let m' := set_header (copy_at (m_header m) off got) m in
  match err with
  | Some e => ((m', r'), Er e)
  | None => ((m', r'), Ok tt)
  end.

Definition read_uint32 : Go dstate Z := fun '(m, r) =>
  let '(got, r', err) := ReadFull 4 r in
  match err with
  | Some e => ((m, r'), Er e)
  | None => ((m, r'), Ok (Uint32 got))
  end.

(** [m.data] is reused when its capacity allows, else allocated. *)
Definition alloc_data (totalL : Z) : Go dstate unit :=
  upd_msg (fun m =>
    if s_cap (m_data m) >=? totalL then set_data (GSlice (s_buf (m_data m)) totalL) m
    else set_data (of_bytes (replicate (Z.to_nat totalL) 0)) m).

Definition read_data : Go dstate gslice := fun '(m, r) =>
  let '(got, r', err) := ReadFull (Z.to_nat (s_len (m_data m))) r in
  let d := GSlice (copy_at (s_buf (m_data m)) 0 got) (s_len (m_data m)) in
  match err with
  | Some e => ((set_data d m, r'), Er e)
  | None => ((set_data d m, r'), Ok d)
  end.

(** [if l > 0 { m.Metadata, err = decodeMetadata(l, data[n:nEnd]); if err != nil { return err } }]. *)
Definition parse_meta (l n nEnd : Z) (data : gslice) : Go dstate unit :=
  if l >? 0 then
    d ← lift (slice data n nEnd);
    '(md, err) ← lift (decodeMetadata l d);
    _ ← upd_msg (set_meta (Some md));
    match err with Some e => fail e | None => mret tt end
  else mret tt.

Definition decompress : Go dstate unit := fun '(m, r) =>
  if negb (CompressType (m_header m) =? None_) then
    match lookup_compressor (CompressType (m_header m)) with
    | None => ((m, r), Er ErrUnsupportedCompressor)
    | Some compressor =>
        let '(p, err) := Unzip compressor (Payload m) in
        match err with
        | Some e => ((set_payload p m, r), Er e)
        | None => ((set_payload p m, r), Ok tt)
        end
    end
  else ((m, r), Ok tt).

(** The body of [Decode] after [data] has been filled. *)
Definition parse_body (data : gslice) : Go dstate unit :=
  (* servicePath *)
  b ← lift (slice data 0 4);
  let n := 4 in
  let nEnd := n + Uint32 (s_bytes b) in
  sp ← lift (slice data n nEnd);
  _ ← upd_msg (set_sp (bytes_string (s_bytes sp)));
  let n := nEnd in
  (* serviceMethod *)
  b ← lift (slice data n (n + 4));
  let n := n + 4 in
  let nEnd := n + Uint32 (s_bytes b) in
  sm ← lift (slice data n nEnd);
  _ ← upd_msg (set_sm (bytes_string (s_bytes sm)));
  let n := nEnd in
  (* meta *)
  b ← lift (slice data n (n + 4));
  let l := Uint32 (s_bytes b) in
  let n := n + 4 in
  let nEnd := n + l in
  _ ← parse_meta l n nEnd data;
  let n := nEnd in
  (* payload *)
  _ ← lift (slice data n (n + 4));
  let n := n + 4 in
  p ← lift (slice_from data n);
  _ ← upd_msg (set_payload (s_bytes p));
  decompress.

Definition decode_steps (MaxMessageLength : Z) : Go dstate unit :=
  _ ← read_header 0 1;
  '(m, _) ← get;
  _ ← (if negb (CheckMagicNumber (m_header m))
       then fail (errorString ("wrong magic number: " +:+ pretty (hget (m_header m) 0)))
       else mret tt);
  _ ← read_header 1 11;
  l ← read_uint32;
  _ ← (if (MaxMessageLength >? 0) && (l >? MaxMessageLength)
       then fail ErrMessageTooLong else mret tt);
  _ ← alloc_data l;
  data ← read_data;
  parse_body data.

(** [Decode]: a panic is recovered and logged; as the result has no name, the caller then
    gets the zero value, a nil error. *)
Definition Decode (MaxMessageLength : Z) (m : Message) (r : reader) :
    Message * reader * option error :=
  match decode_steps MaxMessageLength (m, r) with
  | ((m', r'), Ok _) => (m', r', None)
  | ((m', r'), Er e) => (m', r', Some e)
  | ((m', r'), Panic _) => (m', r', None)
  end.

Definition Read (MaxMessageLength : Z) (r : reader) : reader * (option Message * option error) :=
  match Decode MaxMessageLength NewMessage r with
  | (_, r', Some err) => (r', (None, Some err))
  | (msg, r', None) => (r', (Some msg, None))
  end.

End Codec.

(** ** Writing to an [io.Writer] *)

Section Writing.
Context {compressors : Compressors}.

(** A writer: [Write(p)] returns the number of bytes taken and an error. *)
Context {W : Type} (Write : bytes -> W -> W * (Z * option error)).

(** [err = write; if err != nil { return n, err }] *)
Definition write_or_return (n : Z) (p : bytes) (k : W -> W * (Z * option error)) (w : W) :
    W * (Z * option error) :=
  match Write p w with
  | (w', (_, Some err)) => (w', (n, Some err))
  | (w', (_, None)) => k w'
  end.

(** [binary.Write(w, binary.BigEndian, uint32(v))] is a write of four bytes. *)
Definition WriteTo (kvs : list (string * string)) (m : Message) (w : W) :
    W * (Z * option error) :=
  let '(w, (n, err)) := Write (m_header m) w in
  match err with
  | Some err => (w, (n, Some err))
  | None =>
      let mt := encodeMetadata kvs in
      let spL := slen (ServicePath m) in
      let smL := slen (ServiceMethod m) in
      let write_rest payload :=
        let totalL := (4 + spL) + (4 + smL) + (4 + zlen mt) + (4 + zlen payload) in
        write_or_return n (PutUint32 (u32 totalL))
       (write_or_return n (PutUint32 (u32 (slen (ServicePath m))))
       (write_or_return n (string_bytes (ServicePath m))
       (write_or_return n (PutUint32 (u32 (slen (ServiceMethod m))))
       (write_or_return n (string_bytes (ServiceMethod m))
       (write_or_return n (PutUint32 (u32 (zlen mt)))
       (write_or_return n mt
       (write_or_return n (PutUint32 (u32 (zlen payload)))
       (fun w => Write payload w)))))))) w in
      if negb (CompressType (m_header m) =? None_) then
        match lookup_compressor (CompressType (m_header m)) with
        | None => (w, (n, Some ErrUnsupportedCompressor))
        | Some compressor =>
            match Zip compressor (Payload m) with
            | (_, Some err) => (w, (n, Some err))
            | (payload, None) => write_rest payload
            end
        end
      else write_rest (Payload m)
  end.
End Writing.

(** A writer that takes everything, such as a [bytes.Buffer]. *)
Definition buffer_Write (p : bytes) (w : bytes) : bytes * (Z * option error) :=
  (w ++ p, (zlen p, None)).
