(* ===== verification/Wire.v ===== *)
(** protocol/message.go, proofs: what [EncodeSlicePointer] writes, [WriteTo] writes and
    [Decode] reads are the same frames. *)

From stdpp Require Import pretty.
From S2P Require Import Prelude BufferPool Header Message.

(** ** Lemmas: writing into a buffer *)

Lemma zlen_drop {A} (k l : list A) : zlen (drop (length k) l) = Z.max 0 (zlen l - zlen k).
Proof. unfold zlen. rewrite length_drop. lia. Qed.

Lemma zlen_nil {A} : zlen (@nil A) = 0.
Proof. done. Qed.

Lemma zlen_be_split n v : zlen (be_split n v) = Z.of_nat n.
Proof. unfold zlen. by rewrite length_be_split. Qed.

Lemma slen_bytes s : zlen (string_bytes s) = slen s.
Proof. done. Qed.

Lemma slen_nonneg s : 0 <= slen s.
Proof. apply zlen_nonneg. Qed.

#[export] Hint Rewrite @zlen_drop @zlen_nil zlen_be_split slen_bytes : bytesdb.

(** Linear goals about lengths. *)
Ltac zlen_lia :=
  autorewrite with bytesdb in *;
  repeat match goal with
  | |- context [zlen ?l] => lazymatch goal with H : 0 <= zlen l |- _ => fail | _ => pose proof (zlen_nonneg l) end
  | |- context [slen ?l] => lazymatch goal with H : 0 <= slen l |- _ => fail | _ => pose proof (slen_nonneg l) end
  end; lia.

(** Copying right after the part of the buffer already written extends that part. *)
Lemma bind_copy_into {S B} w r n lo hi src (k : gslice -> Go S B) p :
  zlen w = lo -> zlen src <= hi - lo -> hi <= zlen w + zlen r ->
  (lift (copy_into (GSlice (w ++ r) n) lo hi src) ≫= k) p =
  k (GSlice ((w ++ src) ++ drop (length src) r) n) p.
Proof.
  intros Hlo Hsrc Hhi. apply go_bind_Ok. unfold lift. f_equal. unfold copy_into, s_cap.
  cbn [s_buf s_len].
  pose proof (zlen_nonneg w). pose proof (zlen_nonneg src).
  rewrite (proj2 (Z.leb_le 0 lo)), (proj2 (Z.leb_le lo hi)), (proj2 (Z.leb_le hi _))
    by (rewrite ?zlen_app; lia).
  cbn [andb]. do 2 f_equal.
  assert (length w = Z.to_nat lo) as Hw by (unfold zlen in *; lia).
  rewrite (take_ge src) by (unfold zlen in *; lia).
  unfold copy_at. rewrite <- Hw, take_app_length, drop_app_ge by lia.
  rewrite <- app_assoc. do 3 f_equal. lia.
Qed.

(** A full buffer holds what was written. *)
Lemma s_bytes_full w r n : n = zlen w -> s_bytes (GSlice (w ++ r) n) = w.
Proof.
  intros ->. unfold s_bytes, zlen. cbn [s_buf s_len]. by rewrite Nat2Z.id, take_app_length.
Qed.

Section Encoding.
Context {compressors : Compressors}.

Lemma compressPayload_header h payload :
  header_ok h -> header_ok (compressPayload h payload).1.
Proof.
  intros Hh. unfold compressPayload. repeat split_match; cbn; auto with rpcx.
Qed.

(** [EncodeSlicePointer] returns the frame of the message, whatever the buffer held. *)
Lemma EncodeSlicePointer_frame kvs pick m p :
  pool_ok p -> header_ok (m_header m) ->
  let '(h, payload) := compressPayload (m_header m) (Payload m) in
  exists p' data,
    EncodeSlicePointer kvs pick m p = (p', Ok (set_header h m, data)) /\
    pool_ok p' /\ s_wf data /\
    s_bytes data = frame h (ServicePath m) (ServiceMethod m) (encodeMetadata kvs) payload.
Proof.
  intros Hp Hh. pose proof (compressPayload_header _ (Payload m) Hh) as [Hhl _].
  unfold EncodeSlicePointer.
  destruct (compressPayload (m_header m) (Payload m)) as [h payload]. cbn [fst] in Hhl.
  set (sp := ServicePath m). set (sm := ServiceMethod m).
  generalize (encodeMetadata kvs). intros mt. cbv zeta.
  set (totalL := 4 + slen sp + (4 + slen sm) + (4 + zlen mt) + (4 + zlen payload)).
  pose proof (slen_nonneg sp). pose proof (slen_nonneg sm).
  pose proof (zlen_nonneg mt). pose proof (zlen_nonneg payload).
  assert (zlen (body sp sm mt payload) = totalL) as HtL.
  { unfold body, totalL. zlen_lia. }
  destruct (LimitedPool_Get_ok pick (12 + 4 + totalL) p) as (p' & [buf n] & Hget & Hp' & Hn & Hc);
    [done|lia|].
  cbn [s_len] in Hn. subst n. unfold s_cap in Hc. cbn [s_buf] in Hc.
  rewrite (go_bind_Ok _ _ _ _ _ Hget). cbn [s_len].
  assert (zlen h = 12) as Hh12 by (unfold zlen; rewrite Hhl; done).
  change buf with ([] ++ buf). unfold totalL in Hc.
  repeat (rewrite bind_copy_into by (unfold totalL; zlen_lia);
          cbn [s_len]).
  do 2 eexists. split; [reflexivity|]. split; [done|].
  set (w := ((((((((((([] ++ h) ++ _) ++ _) ++ _) ++ _) ++ _) ++ _) ++ _) ++ _) ++ _))).
  assert (w = frame h sp sm mt payload) as Hw.
  { subst w. unfold frame. rewrite HtL. unfold body. by rewrite <- !app_assoc. }
  assert (12 + 4 + totalL = zlen w) as Hl.
  { rewrite Hw. unfold frame. rewrite HtL. zlen_lia. }
  split; [|by rewrite s_bytes_full].
  unfold s_wf, s_cap. cbn [s_buf s_len]. rewrite Hl. zlen_lia.
Qed.
End Encoding.

(** ** Lemmas: metadata *)

(** The entries of [kvs] written one after the other into [m]. *)
Definition insert_all (m : meta) (kvs : list (string * string)) : meta :=
  foldl (fun m kv => <[kv.1:=kv.2]> m) m kvs.

(** Bytes [lo] to [hi] of a buffer. *)
Definition sub (buf : bytes) (lo hi : Z) : bytes :=
  take (Z.to_nat (hi - lo)) (drop (Z.to_nat lo) buf).

Lemma sub_app buf a b c : 0 <= a <= b -> b <= c -> sub buf a b ++ sub buf b c = sub buf a c.
Proof.
  intros. unfold sub.
  replace (drop (Z.to_nat b) buf) with (drop (Z.to_nat (b - a)) (drop (Z.to_nat a) buf))
    by (rewrite drop_drop; f_equal; lia).
  rewrite take_take_drop. f_equal. lia.
Qed.

Lemma zlen_sub buf a b : 0 <= a <= b -> b <= zlen buf -> zlen (sub buf a b) = b - a.
Proof. intros. unfold sub, zlen in *. rewrite length_take, length_drop. lia. Qed.

Lemma sub_ok buf a b : bytes_ok buf -> bytes_ok (sub buf a b).
Proof. unfold sub. auto with bytesdb. Qed.

Lemma sub_empty buf a : sub buf a a = [].
Proof. unfold sub. by rewrite Z.sub_diag. Qed.

#[export] Hint Resolve sub_ok : bytesdb.

(** A [uint32] position advances by [k] without wrapping when the slice up to it exists. *)
Lemma slice_u32 data n k b :
  0 <= n < 2 ^ 32 -> 0 <= k < 2 ^ 32 -> slice data n (u32 (n + k)) = Ok b ->
  u32 (n + k) = n + k /\ n + k <= s_cap data /\ s_bytes b = sub (s_buf data) n (n + k).
Proof.
  intros Hn Hk Hs. apply slice_inv in Hs as (Hle & Hcap & ->).
  assert (u32 (n + k) = n + k) as Hu.
  { unfold wrap in *. destruct (Z.lt_ge_cases (n + k) (2 ^ 32)); [apply Z.mod_small; lia|].
    exfalso. replace (n + k) with ((n + k - 2 ^ 32) + 1 * 2 ^ 32) in Hle by lia.
    rewrite Z.mod_add, Z.mod_small in Hle by lia. lia. }
  rewrite Hu in *. done.
Qed.

(** Reading a length: four bytes, a [uint32]. *)
Lemma slice_len data n b :
  bytes_ok (s_buf data) -> 0 <= n < 2 ^ 32 -> slice data n (u32 (n + 4)) = Ok b ->
  u32 (n + 4) = n + 4 /\ n + 4 <= s_cap data /\ 0 <= Uint32 (s_bytes b) < 2 ^ 32 /\
  PutUint32 (Uint32 (s_bytes b)) = sub (s_buf data) n (n + 4).
Proof.
  intros Hok Hn Hs. destruct (slice_u32 data n 4 b) as (Hu & Hcap & Hb); [done|lia|done|].
  rewrite Hb. assert (zlen (sub (s_buf data) n (n + 4)) = 4) as Hl.
  { rewrite zlen_sub; unfold s_cap in Hcap; lia. }
  pose proof (be_combine_range _ (sub_ok (s_buf data) n (n + 4) Hok)) as Hr.
  rewrite Hl in Hr. split_and!; try done; try lia.
  assert (length (sub (s_buf data) n (n + 4)) = 4%nat) as H4 by (unfold zlen in Hl; lia).
  rewrite <- H4 at 1. by apply be_split_combine, sub_ok.
Qed.

(** One round of the loop, when it goes on to the next. *)
Lemma decodeMetadata_round fuel l data n m r :
  bytes_ok (s_buf data) -> 0 <= n < 2 ^ 32 -> 0 <= l < 2 ^ 32 -> n < l ->
  decodeMetadata_loop (S fuel) l data n m = r ->
  (exists kv n',
     n' <= l /\ n < n' /\ encodeEntry kv = sub (s_buf data) n n' /\
     r = decodeMetadata_loop fuel l data n' (<[kv.1:=kv.2]> m)) \/
  (exists m', r = Some (Ok (m', Some ErrMetaKVMissing))) \/
  (exists w, r = Some (Panic w)).
Proof.
  intros Hok Hn Hl Hlt <-. cbn [decodeMetadata_loop]. rewrite (proj2 (Z.ltb_lt _ _)) by done.
  destruct (slice data n (u32 (n + 4))) as [b1| |] eqn:E1; [|by apply slice_not_Er in E1|eauto].
  destruct (slice_len _ _ _ Hok Hn E1) as (Hu1 & Hc1 & Hr1 & Hp1). rewrite Hu1.
  set (sl1 := Uint32 (s_bytes b1)) in *. cbv zeta.
  destruct (u32 (n + 4 + sl1) >? u32 (l - 4)) eqn:G1; [eauto|].
  destruct (slice data (n + 4) (u32 (n + 4 + sl1))) as [kb| |] eqn:E2;
    [|by apply slice_not_Er in E2|eauto].
  assert (0 <= n + 4 < 2 ^ 32) as Hn4 by (rewrite <- Hu1; apply wrap_range; lia).
  destruct (slice_u32 _ _ _ _ Hn4 Hr1 E2) as (Hu2 & Hc2 & Hb2). rewrite Hu2.
  assert (0 <= n + 4 + sl1 < 2 ^ 32) as Hn5 by (rewrite <- Hu2; apply wrap_range; lia).
  destruct (slice data (n + 4 + sl1) (u32 (n + 4 + sl1 + 4))) as [b3| |] eqn:E3;
    [|by apply slice_not_Er in E3|eauto].
  destruct (slice_len _ _ _ Hok Hn5 E3) as (Hu3 & Hc3 & Hr3 & Hp3). rewrite Hu3.
  set (sl2 := Uint32 (s_bytes b3)) in *.
  destruct (u32 (n + 4 + sl1 + 4 + sl2) >? l) eqn:G2; [eauto|].
  destruct (slice data (n + 4 + sl1 + 4) (u32 (n + 4 + sl1 + 4 + sl2))) as [vb| |] eqn:E4;
    [|by apply slice_not_Er in E4|eauto].
  assert (0 <= n + 4 + sl1 + 4 < 2 ^ 32) as Hn6 by (rewrite <- Hu3; apply wrap_range; lia).
  destruct (slice_u32 _ _ _ _ Hn6 Hr3 E4) as (Hu4 & Hc4 & Hb4). rewrite Hu4 in *. zbool.
  left. exists (bytes_string (s_bytes kb), bytes_string (s_bytes vb)), (n + 4 + sl1 + 4 + sl2).
  split_and!; [lia|lia| |done]. unfold encodeEntry, slen. cbn [fst snd].
  rewrite Hb2, Hb4, !string_bytes_string by auto with bytesdb.
  unfold s_cap in *. rewrite !zlen_sub by lia.
  replace (n + 4 + sl1 - (n + 4)) with sl1 by lia.
  replace (n + 4 + sl1 + 4 + sl2 - (n + 4 + sl1 + 4)) with sl2 by lia.
  rewrite !wrap_small, Hp1, Hp3 by lia. rewrite !sub_app by lia. done.
Qed.

Lemma decodeMetadata_loop_terminates fuel l data n m :
  bytes_ok (s_buf data) -> 0 <= n < 2 ^ 32 -> 0 <= l < 2 ^ 32 ->
  (Z.to_nat (l - n) < fuel)%nat -> is_Some (decodeMetadata_loop fuel l data n m).
Proof.
  intros Hok. revert n m. induction fuel as [|fuel IH]; intros n m Hn Hl Hf; [lia|].
  destruct (Z.lt_ge_cases n l) as [Hlt|Hge].
  - destruct (decodeMetadata_round fuel l data n m _ Hok Hn Hl Hlt eq_refl)
      as [(kv & n' & ? & ? & _ & ->)|[[m' ->]|[w ->]]]; [|done..].
    apply IH; lia.
  - cbn [decodeMetadata_loop]. by rewrite (proj2 (Z.ltb_ge _ _)).
Qed.

Lemma decodeMetadata_loop_sound fuel l data n m m' :
  bytes_ok (s_buf data) -> 0 <= n < 2 ^ 32 -> 0 <= l < 2 ^ 32 -> n <= l ->
  decodeMetadata_loop fuel l data n m = Some (Ok (m', None)) ->
  exists kvs, encodeMetadata kvs = sub (s_buf data) n l /\ m' = insert_all m kvs.
Proof.
  intros Hok. revert n m. induction fuel as [|fuel IH]; intros n m Hn Hl Hnl; [done|].
  destruct (Z.lt_ge_cases n l) as [Hlt|Hge].
  - intros Hd. destruct (decodeMetadata_round fuel l data n m _ Hok Hn Hl Hlt eq_refl)
      as [(kv & n' & ? & ? & He & Hr)|[[? Hr]|[? Hr]]]; rewrite Hr in Hd; [|done..].
    destruct (IH n' (<[kv.1:=kv.2]> m)) as (kvs & Hk & ->); [lia..|done|].
    exists (kv :: kvs). cbn [encodeMetadata]. rewrite He, Hk, sub_app by lia. done.
  - cbn [decodeMetadata_loop]. rewrite (proj2 (Z.ltb_ge _ _)) by done. intros [= <-].
    exists []. replace l with n by lia. by rewrite sub_empty.
Qed.

Lemma zlen_encodeEntry kv : zlen (encodeEntry kv) = 8 + slen kv.1 + slen kv.2.
Proof. unfold encodeEntry. zlen_lia. Qed.

Lemma encodeMetadata_ok kvs : bytes_ok (encodeMetadata kvs).
Proof.
  induction kvs as [|kv kvs IH]; [constructor|]. cbn [encodeMetadata].
  unfold encodeEntry. rewrite !bytes_ok_app. auto 10 with bytesdb.
Qed.

(** Slicing out a known piece of the buffer. *)
Lemma slice_piece pre l post n lo hi :
  zlen pre = lo -> hi = lo + zlen l ->
  slice (GSlice (pre ++ l ++ post) n) lo hi = Ok (GSlice (l ++ post) (zlen l)).
Proof.
  intros <- ->. rewrite slice_ok; [|zlen_lia|unfold s_cap; cbn [s_buf]; zlen_lia].
  cbn [s_buf]. unfold zlen at 1. rewrite Nat2Z.id, drop_app_length. do 2 f_equal. lia.
Qed.

Lemma decodeMetadata_loop_complete kvs fuel pre post n m :
  zlen pre + zlen (encodeMetadata kvs) < 2 ^ 32 -> (length kvs < fuel)%nat ->
  decodeMetadata_loop fuel (zlen pre + zlen (encodeMetadata kvs))
    (GSlice (pre ++ encodeMetadata kvs ++ post) n) (zlen pre) m =
  Some (Ok (insert_all m kvs, None)).
Proof.
  revert fuel pre m. induction kvs as [|kv kvs IH]; intros [|fuel] pre m Hl Hf;
    cbn [length] in Hf; try lia.
  { cbn [decodeMetadata_loop]. rewrite (proj2 (Z.ltb_ge _ _)) by (cbn; zlen_lia). done. }
  cbn [encodeMetadata decodeMetadata_loop] in *.
  rewrite zlen_app, zlen_encodeEntry in *. unfold encodeEntry.
  rewrite <- !app_assoc.
  pose proof (slen_nonneg kv.1). pose proof (slen_nonneg kv.2).
  pose proof (zlen_nonneg pre). pose proof (zlen_nonneg (encodeMetadata kvs)).
  rewrite (proj2 (Z.ltb_lt _ _)) by lia.
  rewrite !(wrap_small 32 (slen _)) by lia.
  set (buf := pre ++ _).
  rewrite (wrap_small 32 (zlen pre + 4)) by lia.
  unfold buf at 1. rewrite slice_piece by zlen_lia.
  rewrite s_bytes_full, Uint32_Put by (rewrite ?zlen_be_split; lia).
  rewrite !(wrap_small 32 (zlen pre + 4 + _)) by lia. rewrite wrap_small by lia.
  rewrite Z.gtb_ltb, (proj2 (Z.ltb_ge _ _)) by lia.
  unfold buf at 1. rewrite (app_assoc pre), slice_piece by zlen_lia.
  rewrite s_bytes_full, bytes_string_bytes by done.
  rewrite !(wrap_small 32 (zlen pre + 4 + slen kv.1 + _)) by lia.
  unfold buf at 1. rewrite (app_assoc pre), (app_assoc (pre ++ _)), slice_piece by zlen_lia.
  rewrite s_bytes_full, Uint32_Put by (rewrite ?zlen_be_split; lia).
  rewrite !(wrap_small 32 (zlen pre + 4 + slen kv.1 + 4 + _)) by lia.
  rewrite Z.gtb_ltb, (proj2 (Z.ltb_ge _ _)) by lia.
  unfold buf at 1.
  rewrite (app_assoc pre), (app_assoc (pre ++ _)), (app_assoc ((pre ++ _) ++ _)), slice_piece
    by zlen_lia.
  rewrite s_bytes_full, bytes_string_bytes by done.
  specialize (IH fuel (pre ++ encodeEntry kv) (<[kv.1:=kv.2]> m)).
  rewrite zlen_app, zlen_encodeEntry in IH. unfold encodeEntry in IH.
  rewrite !(wrap_small 32 (slen _)), <- !app_assoc in IH by lia. fold buf in IH.
  replace (zlen pre + 4 + slen kv.1 + 4 + slen kv.2)
    with (zlen pre + (8 + slen kv.1 + slen kv.2)) by lia.
  rewrite Z.add_assoc. apply IH; lia.
Qed.

Lemma insert_all_union m kvs : insert_all m kvs = list_to_map (reverse kvs) ∪ m.
Proof.
  revert m. induction kvs as [|[k v] kvs IH]; intros m.
  { cbn. by rewrite (left_id_L ∅ (∪)). }
  change (insert_all m ((k, v) :: kvs)) with (insert_all (<[k:=v]> m) kvs).
  rewrite IH, reverse_cons, list_to_map_app, insert_union_singleton_l, (assoc_L (∪)).
  by rewrite list_to_map_cons, list_to_map_nil, insert_empty.
Qed.

Lemma insert_all_enumerates kvs md : enumerates kvs md -> insert_all ∅ kvs = default ∅ md.
Proof.
  unfold enumerates. intros Hp. rewrite insert_all_union, (right_id_L ∅ (∪)).
  rewrite <- (list_to_map_to_list (default ∅ md)). apply list_to_map_proper.
  - rewrite reverse_Permutation, Hp. apply NoDup_fst_map_to_list.
  - by rewrite reverse_Permutation.
Qed.

(** ** Lemmas: decoding a frame *)

Lemma CompressType_SetCompressType ct h :
  header_ok h -> is_byte ct -> CompressType (SetCompressType ct h) = ct mod 8.
Proof.
  intros Hh Hc. pose proof (hview_flags h (Z.lor (andnot (hget h 2) 0x1C)
    (Z.land (u8 (Z.shiftl ct 2)) 0x1C)) Hh) as Hv.
  pose proof (flags_SetCompressType (hget h 2) ct (hget_byte _ _ Hh) Hc) as Hf.
  destruct (flags (hget h 2)) as [[[[? ?] ?] ?] ?]. rewrite Hf in Hv.
  by apply (f_equal hv_compress) in Hv.
Qed.

Lemma bind_slice_at {S B} data pre l post lo hi :
  s_buf data = pre ++ l ++ post -> zlen pre = lo -> hi = lo + zlen l ->
  forall (k : gslice -> Go S B) s,
  (lift (slice data lo hi) ≫= k) s = k (GSlice (l ++ post) (zlen l)) s.
Proof.
  intros Hd Hlo Hhi k s. destruct data as [buf n]. cbn [s_buf] in Hd. subst buf.
  apply go_bind_Ok. unfold lift. by rewrite slice_piece.
Qed.

Lemma bind_upd_msg {B} f (k : unit -> Go dstate B) m r :
  (upd_msg f ≫= k) (m, r) = k tt (f m, r).
Proof. done. Qed.

(** What the payload of a decoded frame is, from the payload on the wire. *)
Section Decoding.
Context {compressors : Compressors}.

Lemma decompress_compress {H : CompressorsOk compressors} h payload m r :
  header_ok h -> bytes_ok payload ->
  m_header m = (compressPayload h payload).1 -> Payload m = (compressPayload h payload).2 ->
  decompress (m, r) = ((set_payload payload m, r), Ok tt).
Proof.
  intros Hh Hp. unfold decompress.
  assert (forall c, CompressType (SetCompressType None_ h) = None_ /\
    (if negb (CompressType (SetCompressType None_ h) =? None_) then c else (m, r, @Ok unit tt)) =
    (m, r, Ok tt)) as Hz.
  { intros c. rewrite CompressType_SetCompressType; done. }
  assert (Payload m = payload -> m = set_payload payload m) as Hs.
  { intros <-. by destruct m. }
  unfold compressPayload. destruct (CompressType h =? None_) eqn:E; cbn [negb].
  { cbn. intros -> Hpl. rewrite E. cbn. by rewrite <- Hs. }
  destruct (lookup_compressor (CompressType h)) as [c|] eqn:Hc.
  - destruct (Zip c payload) as [z [err|]] eqn:Hzip; cbn [fst snd]; intros -> Hpl.
    + rewrite (proj2 (Hz _)). by rewrite <- Hs.
    + rewrite E. cbn [negb]. rewrite Hc, Hpl. by rewrite (zip_unzip _ _ _ _ Hc Hp Hzip).
  - cbn [fst snd]. intros -> Hpl. rewrite (proj2 (Hz _)). by rewrite <- Hs.
Qed.

(** The message that a frame decodes to, on top of the message [m] it is read into. *)
Definition filled (m : Message) (sp sm : string) (kvs : list (string * string)) (payload : bytes) :
    Message :=
  let m := set_sm sm (set_sp sp m) in
  set_payload payload
    (if decide (kvs = []) then m else set_meta (Some (insert_all ∅ kvs)) m).

Lemma length_encodeMetadata kvs : 8 * zlen kvs <= zlen (encodeMetadata kvs).
Proof.
  induction kvs as [|kv kvs IH]; [done|]. cbn [encodeMetadata].
  rewrite zlen_app, zlen_encodeEntry. pose proof (slen_nonneg kv.1). pose proof (slen_nonneg kv.2).
  change (zlen (kv :: kvs)) with (Z.of_nat (S (length kvs))). unfold zlen in *. lia.
Qed.

Lemma parse_meta_at kvs data pre post lo m r :
  let mt := encodeMetadata kvs in
  s_buf data = pre ++ mt ++ post -> zlen pre = lo -> zlen mt < 2 ^ 32 ->
  parse_meta (zlen mt) lo (lo + zlen mt) data (m, r) =
  ((if decide (kvs = []) then m else set_meta (Some (insert_all ∅ kvs)) m, r), Ok tt).
Proof.
  intros mt Hbuf Hlo Hl. pose proof (length_encodeMetadata kvs) as Hk. fold mt in Hk.
  unfold parse_meta. case_decide as Hd; [by subst|].
  assert (0 < zlen kvs) as Hpos by (destruct kvs; [done|unfold zlen; cbn; lia]).
  rewrite Z.gtb_ltb, (proj2 (Z.ltb_lt _ _)) by lia.
  rewrite (bind_slice_at data _ _ _ _ _ Hbuf Hlo eq_refl).
  rewrite (go_bind_Ok _ _ _ (m, r) (insert_all ∅ kvs, None)); [done|].
  unfold lift. f_equal. unfold decodeMetadata.
  pose proof (decodeMetadata_loop_complete kvs (S (Z.to_nat (zlen mt))) [] post (zlen mt) ∅) as Hc.
  cbn [app] in Hc. rewrite zlen_nil, Z.add_0_l in Hc. fold mt in Hc.
  rewrite Hc; [done|exact Hl|unfold zlen in *; lia].
Qed.

Lemma bind_parse_meta_at {B} kvs data pre post lo :
  let mt := encodeMetadata kvs in
  s_buf data = pre ++ mt ++ post -> zlen pre = lo -> zlen mt < 2 ^ 32 ->
  forall (k : unit -> Go dstate B) m r,
  (parse_meta (zlen mt) lo (lo + zlen mt) data ≫= k) (m, r) =
  k tt (if decide (kvs = []) then m else set_meta (Some (insert_all ∅ kvs)) m, r).
Proof. intros mt Hb Hlo Hl k m r. eapply go_bind_Ok, parse_meta_at; eauto. Qed.

(** Parsing the body of a frame fills the message with the parts the frame was made of. *)
Lemma parse_body_frame {H : CompressorsOk compressors} h m kvs pl data post sp sm r :
  header_ok h -> bytes_ok pl -> m_header m = (compressPayload h pl).1 ->
  let bd := body sp sm (encodeMetadata kvs) (compressPayload h pl).2 in
  s_buf data = bd ++ post -> s_len data = zlen bd -> zlen bd < 2 ^ 32 ->
  parse_body data (m, r) = ((filled m sp sm kvs pl, r), Ok tt).
Proof.
  intros Hh Hpl Hm bd Hbuf Hlen Hlt. subst bd.
  set (payload := (compressPayload h pl).2) in *. set (mt := encodeMetadata kvs) in *.
  assert (zlen (body sp sm mt payload) = 16 + slen sp + slen sm + zlen mt + zlen payload) as Hl
    by (unfold body; zlen_lia).
  pose proof (slen_nonneg sp). pose proof (slen_nonneg sm).
  pose proof (zlen_nonneg mt). pose proof (zlen_nonneg payload).
  unfold body in Hbuf. rewrite !(wrap_small 32) in Hbuf by lia. rewrite <- !app_assoc in Hbuf.
  assert (forall z, zlen (PutUint32 z) = 4) as L4 by (intros; by rewrite zlen_be_split).
  unfold parse_body.
  rewrite (bind_slice_at data [] _ _ 0 4 Hbuf), s_bytes_full by (done || by rewrite L4).
  cbv zeta. rewrite Uint32_Put by lia.
  rewrite (bind_slice_at data _ _ _ _ _ Hbuf), s_bytes_full, bytes_string_bytes by zlen_lia.
  rewrite bind_upd_msg.
  rewrite app_assoc in Hbuf.
  rewrite (bind_slice_at data _ _ _ _ _ Hbuf), s_bytes_full by zlen_lia.
  rewrite Uint32_Put by lia. rewrite app_assoc in Hbuf.
  rewrite (bind_slice_at data _ _ _ _ _ Hbuf), s_bytes_full, bytes_string_bytes by zlen_lia.
  rewrite bind_upd_msg. rewrite app_assoc in Hbuf.
  rewrite (bind_slice_at data _ _ _ _ _ Hbuf), s_bytes_full by zlen_lia.
  rewrite Uint32_Put by lia. rewrite app_assoc in Hbuf.
  rewrite (bind_parse_meta_at kvs data _ _ _ Hbuf) by (fold mt; zlen_lia).
  rewrite app_assoc in Hbuf. fold mt.
  rewrite (bind_slice_at data _ _ _ _ _ Hbuf) by zlen_lia.
  rewrite app_assoc in Hbuf. unfold slice_from. rewrite Hlen, Hl.
  rewrite (bind_slice_at data _ _ _ _ _ Hbuf), s_bytes_full by zlen_lia.
  rewrite bind_upd_msg.
  rewrite (decompress_compress h pl); [|done|done| |done].
  - reflexivity.
  - by destruct (decide (kvs = [])).
Qed.

(** The headers that the reads of [Decode] rebuild. *)
Lemma read_header_split h (m : Message) r tail e :
  length h = 12%nat -> length (m_header m) = 12%nat ->
  r = Reader (h ++ tail) e ->
  read_header 0 1 (m, r) =
    ((set_header (copy_at (m_header m) 0 (take 1 h)) m, Reader (drop 1 h ++ tail) e), Ok tt) /\
  read_header 1 11 (set_header (copy_at (m_header m) 0 (take 1 h)) m, Reader (drop 1 h ++ tail) e) =
    ((set_header h m, Reader tail e), Ok tt).
Proof.
  intros Hh Hm ->. destruct h as [|a h]; [done|]. cbn [length] in Hh. unfold read_header.
  change (take 1 (a :: h)) with [a]. change (drop 1 (a :: h)) with (drop 0 h). rewrite drop_0.
  change ((a :: h) ++ tail) with ([a] ++ h ++ tail). rewrite !ReadFull_app by (cbn; lia).
  split; [done|]. destruct m as [mh ? ? ? ? ?]. cbn [m_header] in *. unfold set_header. cbn.
  destruct mh as [|b mh]; [done|]. cbn [length] in Hm.
  unfold copy_at. cbn. rewrite drop_0, drop_ge by lia. by rewrite app_nil_r.
Qed.

(** The receive buffer after the read: the bytes of the body, at its start. *)
Lemma alloc_read m bd rest e :
  s_wf (m_data m) ->
  exists d post m',
    alloc_data (zlen bd) (m, Reader (bd ++ rest) e) = ((m', Reader (bd ++ rest) e), Ok tt) /\
    read_data (m', Reader (bd ++ rest) e) = ((set_data d m, Reader rest e), Ok d) /\
    s_buf d = bd ++ post /\ s_len d = zlen bd.
Proof.
  intros [Hw1 Hw2]. unfold alloc_data, upd_msg.
  set (m' := if _ >=? _ then _ else _).
  assert (s_len (m_data m') = zlen bd /\ set_data (m_data m) m' = m /\
          (length bd <= length (s_buf (m_data m')))%nat) as (Hl & Hm & Hle).
  { subst m'. destruct (_ >=? _) eqn:E; zbool; cbn; split_and!; try (by destruct m).
    all: unfold s_cap, of_bytes, zlen in *; cbn in *; rewrite ?length_replicate; lia. }
  exists (GSlice (copy_at (s_buf (m_data m')) 0 bd) (zlen bd)),
    (drop (length bd) (s_buf (m_data m'))), m'.
  split; [done|]. unfold read_data. rewrite Hl.
  rewrite ReadFull_app by (unfold zlen; lia). split_and!; try done.
  by rewrite <- Hm.
Qed.

(** [Decode] up to the length of the body. *)
Lemma decode_prefix mx h m n tail e :
  header_ok h -> hget h 0 = magicNumber -> length (m_header m) = 12%nat -> 0 <= n < 2 ^ 32 ->
  decode_steps mx (m, Reader (h ++ PutUint32 n ++ tail) e) =
  if (mx >? 0) && (n >? mx) then ((set_header h m, Reader tail e), Er ErrMessageTooLong)
  else (_ ← alloc_data n; data ← read_data; parse_body data) (set_header h m, Reader tail e).
Proof.
  intros Hh Hmag Hmh Hn.
  destruct (read_header_split h m _ (PutUint32 n ++ tail) e (proj1 Hh) Hmh eq_refl) as [R1 R2].
  unfold decode_steps.
  rewrite (go_bind_Ok _ _ _ _ _ R1), (go_bind_Ok get _ _ _ _ eq_refl).
  assert (CheckMagicNumber (copy_at (m_header m) 0 (take 1 h)) = true) as Hck.
  { destruct (header_ok_inv h Hh) as (a&?&?&?&?&->&_). unfold CheckMagicNumber.
    unfold hget in *. cbn in *. by subst a. }
  cbn [m_header set_header]. rewrite Hck. cbn [negb].
  rewrite (go_bind_Ok (mret tt) _ _ _ _ eq_refl), (go_bind_Ok _ _ _ _ _ R2).
  assert (read_uint32 (set_header h m, Reader (PutUint32 n ++ tail) e) =
    ((set_header h m, Reader tail e), Ok n)) as R3.
  { unfold read_uint32. rewrite ReadFull_app by apply length_be_split.
    by rewrite Uint32_Put by lia. }
  rewrite (go_bind_Ok _ _ _ _ _ R3). by destruct (_ && _)%bool.
Qed.

(** [Decode] of a frame followed by anything: it fills the message with the parts of the
    frame, leaves the rest of the stream unread and reports no error. *)
Lemma Decode_frame {H : CompressorsOk compressors} mx h m kvs pl sp sm rest e :
  header_ok h -> hget h 0 = magicNumber -> bytes_ok pl ->
  length (m_header m) = 12%nat -> s_wf (m_data m) ->
  let h' := (compressPayload h pl).1 in
  let bd := body sp sm (encodeMetadata kvs) (compressPayload h pl).2 in
  zlen bd < 2 ^ 32 -> (0 < mx -> zlen bd <= mx) ->
  exists d,
    Decode mx m (Reader (frame h' sp sm (encodeMetadata kvs) (compressPayload h pl).2 ++ rest) e) =
    (filled (set_data d (set_header h' m)) sp sm kvs pl, Reader rest e, None).
Proof.
  intros Hh Hmag Hpl Hmh Hwf h' bd Hlt Hmx.
  pose proof (compressPayload_header h pl Hh) as Hh'. fold h' in Hh'.
  assert (hget h' 0 = magicNumber) as Hmag'.
  { subst h'. unfold compressPayload. repeat split_match; cbn; try done;
      by destruct (header_ok_inv h Hh) as (?&?&?&?&?&->&_). }
  unfold frame. fold bd. rewrite <- !app_assoc.
  pose proof (zlen_nonneg bd). rewrite wrap_small by lia.
  unfold Decode. rewrite decode_prefix by (done || lia).
  assert ((mx >? 0) && (zlen bd >? mx) = false)%bool as ->.
  { rewrite !Z.gtb_ltb. destruct (0 <? mx) eqn:E; [|done]. zbool.
    cbn. apply Z.ltb_ge. auto. }
  destruct (alloc_read (set_header h' m) bd rest e Hwf) as (d & post & m' & R4 & R5 & Hd & Hdl).
  rewrite (go_bind_Ok _ _ _ _ _ R4), (go_bind_Ok _ _ _ _ _ R5).
  exists d. by rewrite (parse_body_frame h _ kvs pl d post sp sm).
Qed.
End Decoding.

(** ** Properties *)

(** What a message carries on the wire: the nil map and the empty one are the same. *)
Definition norm_meta (md : option meta) : option meta :=
  match md with
  | Some m => if decide (m = ∅) then None else Some m
  | None => None
  end.

Record msg_ok (m : Message) : Prop := {
  mo_header : header_ok (m_header m);
  mo_magic : hget (m_header m) 0 = magicNumber;
  mo_payload : bytes_ok (Payload m);
}.

(** Two messages that say the same, [h] being the header the first was sent with. *)
Record same_message (h : Header) (m m' : Message) : Prop := {
  sm_header : m_header m' = h;
  sm_path : ServicePath m' = ServicePath m;
  sm_method : ServiceMethod m' = ServiceMethod m;
  sm_meta : Metadata m' = norm_meta (Metadata m);
  sm_payload : Payload m' = Payload m;
}.

Lemma enumerates_nil kvs md : enumerates kvs md -> kvs = [] <-> default ∅ md = ∅.
Proof.
  unfold enumerates. intros Hp. split.
  - intros ->. apply Permutation_nil_l in Hp. by apply map_to_list_empty_iff.
  - intros He. rewrite He, map_to_list_empty in Hp. by apply Permutation_nil_r.
Qed.

Section Wire.
Context {compressors : Compressors} {compressors_ok : CompressorsOk compressors}.

(** The header and the body that the message [m] is sent with. *)
Definition sent_header (m : Message) : Header := (compressPayload (m_header m) (Payload m)).1.
Definition sent_body (kvs : list (string * string)) (m : Message) : bytes :=
  body (ServicePath m) (ServiceMethod m) (encodeMetadata kvs)
    (compressPayload (m_header m) (Payload m)).2.

(** The frame of [m] fits the 32-bit lengths of the protocol and the configured maximum. *)
Definition fits (mx : Z) (kvs : list (string * string)) (m : Message) : Prop :=
  zlen (sent_body kvs m) < 2 ^ 32 /\ (0 < mx -> zlen (sent_body kvs m) <= mx).

Lemma filled_same m kvs d h :
  enumerates kvs (Metadata m) ->
  same_message h m
    (filled (set_data d (set_header h NewMessage)) (ServicePath m) (ServiceMethod m) kvs (Payload m)).
Proof.
  intros He. pose proof (enumerates_nil _ _ He) as Hn. unfold filled.
  destruct (decide (kvs = [])) as [Hk|Hk]; split; try done; cbn.
  - unfold norm_meta. destruct (Metadata m) as [md|]; [|done]. cbn in Hn.
    rewrite decide_True; [done|naive_solver].
  - rewrite (insert_all_enumerates _ _ He). unfold norm_meta.
    destruct (Metadata m) as [md|]; cbn in *; [|naive_solver].
    rewrite decide_False; [done|naive_solver].
Qed.

Lemma decode_encode_aux mx kvs pick m p rest e :
  pool_ok p -> msg_ok m -> enumerates kvs (Metadata m) -> fits mx kvs m ->
  exists p' data m',
    EncodeSlicePointer kvs pick m p = (p', Ok (set_header (sent_header m) m, data)) /\
    pool_ok p' /\
    Decode mx NewMessage (Reader (s_bytes data ++ rest) e) = (m', Reader rest e, None) /\
    same_message (sent_header m) m m'.
Proof.
  intros Hp [Hh Hmag Hpl] He [Hlt Hmx].
  pose proof (EncodeSlicePointer_frame kvs pick m p Hp Hh) as HE.
  unfold sent_body, sent_header in *.
  destruct (compressPayload (m_header m) (Payload m)) as [h' pl'] eqn:Hc.
  destruct HE as (p' & data & HE & Hp' & _ & Hd).
  destruct (Decode_frame mx (m_header m) NewMessage kvs (Payload m) (ServicePath m)
    (ServiceMethod m) rest e) as [d HD]; [done..| |by rewrite Hc|by rewrite Hc|].
  { unfold s_wf, s_cap, zlen. cbn. lia. }
  rewrite Hc in HD. cbn [fst snd] in *.
  exists p', data. eexists. split_and!; [done|done|by rewrite Hd|]. by apply filled_same.
Qed.

(** C2. Round trip on the wire: a message encoded into a buffer of the pool (whatever stale
    bytes it held, in whatever order its metadata was enumerated), followed by any other
    bytes, is decoded by a reader into the same message; the reader is left exactly at the
    following bytes, and no error is reported. *)
Theorem decode_encode mx kvs pick m p rest e :
  pool_ok p -> msg_ok m -> enumerates kvs (Metadata m) -> fits mx kvs m ->
  exists p' data m',
    EncodeSlicePointer kvs pick m p = (p', Ok (set_header (sent_header m) m, data)) /\
    pool_ok p' /\
    Decode mx NewMessage (Reader (s_bytes data ++ rest) e) = (m', Reader rest e, None) /\
    same_message (sent_header m) m m'.
Proof. apply decode_encode_aux. Qed.

(** Messages written one after the other, each buffer going back to the pool after the
    write; and the same number of reads on the other side. *)
Definition sendable := (list (string * string) * option nat * Message)%type.

Fixpoint encode_all (l : list sendable) : Go LimitedPool bytes :=
  match l with
  | [] => mret []
  | (kvs, pick, m) :: l =>
      '(_, data) ← EncodeSlicePointer kvs pick m;
      let out := s_bytes data in
      _ ← modify (PutData data);
      rest ← encode_all l;
      mret (out ++ rest)
  end.

Fixpoint read_all (mx : Z) (n : nat) (r : reader) : option (list Message * reader) :=
  match n with
  | O => Some ([], r)
  | S n =>
      match Read mx r with
      | (r', (Some m, None)) => (fun '(ms, r'') => (m :: ms, r'')) <$> read_all mx n r'
      | _ => None
      end
  end.

(** C6. Framing: any number of messages, encoded one after the other through the shared
    buffer pool (whose buffers are reused between messages) into one byte stream, are read
    back as the same messages in the same order, and the reader ends at what follows. *)
Theorem stream_roundtrip mx l p rest e :
  pool_ok p ->
  Forall (fun '(kvs, _, m) => msg_ok m /\ enumerates kvs (Metadata m) /\ fits mx kvs m) l ->
  exists p' bs ms,
    encode_all l p = (p', Ok bs) /\
    read_all mx (length l) (Reader (bs ++ rest) e) = Some (ms, Reader rest e) /\
    Forall2 (fun '(_, _, m) m' => same_message (sent_header m) m m') l ms.
Proof.
  intros Hp Hl. revert p Hp. induction Hl as [|[[kvs pick] m] l (Hm & He & Hf) _ IH]; intros p Hp.
  { exists p, [], []. by split_and!. }
  cbn [encode_all length read_all].
  destruct (decode_encode_aux mx kvs pick m p [] e Hp Hm He Hf) as (p1 & data & _ & HE & Hp1 & _).
  destruct (IH _ (LimitedPool_Put_ok data p1 Hp1)) as (p2 & bs & ms & HE' & HR & HF).
  exists p2, (s_bytes data ++ bs).
  destruct (decode_encode_aux mx kvs pick m p (bs ++ rest) e Hp Hm He Hf)
    as (p1' & data' & m' & HE1 & _ & HD & Hs).
  rewrite HE in HE1. injection HE1 as <- <-.
  exists (m' :: ms). split_and!.
  - rewrite (go_bind_Ok _ _ _ _ _ HE). cbn.
    rewrite (go_bind_Ok (modify _) _ _ _ _ eq_refl), (go_bind_Ok _ _ _ _ _ HE'). done.
  - unfold Read. rewrite <- app_assoc, HD, HR. done.
  - by constructor.
Qed.

(** The payload of [m] can be sent with the compression its header names. *)
Definition compressible (m : Message) : Prop :=
  CompressType (m_header m) = None_ \/
  exists c z, lookup_compressor (CompressType (m_header m)) = Some c /\ Zip c (Payload m) = (z, None).

Lemma WriteTo_frame kvs m w :
  compressible m ->
  let pl := (compressPayload (m_header m) (Payload m)).2 in
  sent_header m = m_header m /\
  WriteTo buffer_Write kvs m w =
    (w ++ frame (m_header m) (ServicePath m) (ServiceMethod m) (encodeMetadata kvs) pl,
     (zlen pl, None)).
Proof.
  intros Hc pl. subst pl. unfold sent_header, compressPayload, WriteTo, buffer_Write.
  assert (forall pl,
    w ++ frame (m_header m) (ServicePath m) (ServiceMethod m) (encodeMetadata kvs) pl =
    (((((((((w ++ m_header m) ++
      PutUint32 (u32 (4 + slen (ServicePath m) + (4 + slen (ServiceMethod m)) +
        (4 + zlen (encodeMetadata kvs)) + (4 + zlen pl)))) ++
      PutUint32 (u32 (slen (ServicePath m)))) ++ string_bytes (ServicePath m)) ++
      PutUint32 (u32 (slen (ServiceMethod m)))) ++ string_bytes (ServiceMethod m)) ++
      PutUint32 (u32 (zlen (encodeMetadata kvs)))) ++ encodeMetadata kvs) ++
      PutUint32 (u32 (zlen pl))) ++ pl) as Hf.
  { intros pl. unfold frame, body. rewrite <- !app_assoc. do 3 f_equal.
    autorewrite with bytesdb. do 2 f_equal. lia. }
  destruct Hc as [H0|(c & z & Hc & Hz)].
  - rewrite (proj2 (Z.eqb_eq _ _) H0). cbn [negb fst snd]. split; [done|]. by rewrite Hf.
  - destruct (CompressType (m_header m) =? None_); cbn [negb fst snd].
    + split; [done|]. by rewrite Hf.
    + rewrite Hc, Hz. cbn [fst snd]. split; [done|]. by rewrite Hf.
Qed.

(** [WriteTo] on a writer that takes every byte writes exactly the bytes that [Encode]
    puts in its buffer, when the payload can be sent with the compression its header names;
    the count it returns is that of the payload alone. *)
Theorem WriteTo_Encode kvs pick m p w :
  pool_ok p -> msg_ok m -> compressible m ->
  exists p' data,
    EncodeSlicePointer kvs pick m p = (p', Ok (m, data)) /\
    WriteTo buffer_Write kvs m w =
      (w ++ s_bytes data, (zlen (compressPayload (m_header m) (Payload m)).2, None)).
Proof.
  intros Hp [Hh _ _] Hc. pose proof (EncodeSlicePointer_frame kvs pick m p Hp Hh) as HE.
  destruct (WriteTo_frame kvs m w Hc) as [Hsame HW]. unfold sent_header in Hsame. rewrite HW.
  destruct (compressPayload (m_header m) (Payload m)) as [h' pl']. cbn [fst snd] in *. subst h'.
  destruct HE as (p' & data & HE & _ & _ & Hd). exists p', data. rewrite Hd.
  split; [by destruct m|done].
Qed.
End Wire.

Section DecodeErrors.
Context {compressors : Compressors}.

(** Metadata are parsed soundly: the loop of [decodeMetadata] terminates on every input,
    and whenever it accepts a block of [l] bytes, these bytes are exactly the encoding of a
    list of entries, whose map it returns (a later entry replacing an earlier one). *)
Theorem decodeMetadata_sound l data :
  bytes_ok (s_buf data) -> 0 <= l < 2 ^ 32 ->
  is_Some (decodeMetadata_loop (S (Z.to_nat l)) l data 0 ∅) /\
  forall m, decodeMetadata l data = Ok (m, None) ->
  exists kvs, encodeMetadata kvs = sub (s_buf data) 0 l /\ m = insert_all ∅ kvs.
Proof.
  intros Hok Hl. assert (is_Some (decodeMetadata_loop (S (Z.to_nat l)) l data 0 ∅)) as Hs.
  { apply decodeMetadata_loop_terminates; [done|lia|done|lia]. }
  split; [done|]. intros m. unfold decodeMetadata. destruct Hs as [x Hx]. rewrite Hx.
  intros ->. eapply decodeMetadata_loop_sound; [done|lia|done|lia|done].
Qed.

(** A body that the stream does not hold in full. *)
Lemma read_short m n tail :
  s_wf (m_data m) -> 0 <= n -> zlen tail < n -> tail <> [] ->
  exists m', (_ ← alloc_data n; data ← read_data; parse_body data) (m, Reader tail EOF) =
    ((m', Reader [] EOF), Er ErrUnexpectedEOF).
Proof.
  intros Hw Hn Hlt Hne. eexists.
  unfold alloc_data. rewrite bind_upd_msg. apply go_bind_Er.
  unfold read_data. set (m' := if _ >=? _ then _ else _).
  assert (s_len (m_data m') = n) as Hl.
  { subst m'. destruct (_ >=? _); [done|]. cbn. unfold zlen. rewrite length_replicate. lia. }
  rewrite Hl. unfold ReadFull. cbn [r_data r_err].
  rewrite take_ge, drop_ge by (unfold zlen in *; lia).
  rewrite decide_False by (unfold zlen in *; lia). by rewrite decide_False.
Qed.

(** C32. What [Decode] does on a stream it cannot read: an exhausted stream gives its own
    error; a first byte that is not the magic number is refused after that byte alone; a
    length above [MaxMessageLength] is refused with the body left unread; a body cut short by
    the end of the stream gives [io.ErrUnexpectedEOF]. *)
Theorem Decode_rejects mx m h b n tail rest :
  header_ok h -> hget h 0 = magicNumber -> length (m_header m) = 12%nat -> s_wf (m_data m) ->
  0 <= n < 2 ^ 32 -> zlen tail < n -> tail <> [] -> b <> magicNumber ->
  (forall e, (Decode mx m (Reader [] e)).2 = Some e) /\
  (exists m', Decode mx m (Reader (b :: rest) EOF) =
    (m', Reader rest EOF, Some (errorString ("wrong magic number: " +:+ pretty b)))) /\
  (0 < mx < n -> Decode mx m (Reader (h ++ PutUint32 n ++ rest) EOF) =
    (set_header h m, Reader rest EOF, Some ErrMessageTooLong)) /\
  (mx <= 0 -> exists m', Decode mx m (Reader (h ++ PutUint32 n ++ tail) EOF) =
    (m', Reader [] EOF, Some ErrUnexpectedEOF)).
Proof.
  intros Hh Hmag Hm Hw Hn Hlt Hne Hb. split_and!.
  - intros e. by destruct e.
  - eexists. unfold Decode, decode_steps.
    assert (read_header 0 1 (m, Reader (b :: rest) EOF) =
      ((set_header (copy_at (m_header m) 0 [b]) m, Reader rest EOF), Ok tt)) as R1.
    { unfold read_header. change (b :: rest) with ([b] ++ rest). by rewrite ReadFull_app. }
    rewrite (go_bind_Ok _ _ _ _ _ R1), (go_bind_Ok get _ _ _ _ eq_refl).
    cbn [m_header set_header].
    assert (CheckMagicNumber (copy_at (m_header m) 0 [b]) = false) as ->.
    { unfold CheckMagicNumber. by apply Z.eqb_neq. }
    cbn [negb]. reflexivity.
  - intros Hmx. unfold Decode. rewrite decode_prefix by (done || lia).
    by rewrite !Z.gtb_ltb, (proj2 (Z.ltb_lt 0 mx)), (proj2 (Z.ltb_lt mx n)) by lia.
  - intros Hmx. unfold Decode. rewrite decode_prefix by (done || lia).
    rewrite Z.gtb_ltb, (proj2 (Z.ltb_ge 0 mx)) by lia. cbn [andb].
    destruct (read_short (set_header h m) n tail Hw) as [m' ->]; [lia|done|done|]. by exists m'.
Qed.

(** A frame whose body is too short for its first length field makes the parse panic;
    the panic is recovered and, the result of [Decode] having no name, reported as success:
    the caller gets a nil error and a message whose service path and method were never
    filled in. *)
Theorem Decode_panic_is_success mx h bd rest e :
  header_ok h -> hget h 0 = magicNumber -> zlen bd < 4 -> (0 < mx -> zlen bd <= mx) ->
  exists d,
    Decode mx NewMessage (Reader (h ++ PutUint32 (zlen bd) ++ bd ++ rest) e) =
    (set_data d (set_header h NewMessage), Reader rest e, None).
Proof.
  intros Hh Hmag Hl Hmx. pose proof (zlen_nonneg bd).
  unfold Decode. rewrite decode_prefix by (done || lia).
  assert ((mx >? 0) && (zlen bd >? mx) = false)%bool as ->.
  { rewrite !Z.gtb_ltb. destruct (0 <? mx) eqn:E; [|done]. zbool. cbn. apply Z.ltb_ge. auto. }
  assert (s_cap (m_data (set_header h NewMessage)) = 0) as Hcap by done.
  exists (of_bytes bd).
  destruct (Z.eq_dec (zlen bd) 0) as [H0|H0].
  - assert (bd = []) as -> by (destruct bd; [done|unfold zlen in H0; cbn in H0; lia]). done.
  - assert (alloc_data (zlen bd) (set_header h NewMessage, Reader (bd ++ rest) e) =
      ((set_data (of_bytes (replicate (length bd) 0)) (set_header h NewMessage),
        Reader (bd ++ rest) e), Ok tt)) as R1.
    { unfold alloc_data, upd_msg. rewrite Hcap, Z.geb_leb, (proj2 (Z.leb_gt _ _)) by lia.
      unfold zlen. by rewrite Nat2Z.id. }
    rewrite (go_bind_Ok _ _ _ _ _ R1).
    assert (read_data (set_data (of_bytes (replicate (length bd) 0)) (set_header h NewMessage),
        Reader (bd ++ rest) e) =
      ((set_data (of_bytes bd) (set_header h NewMessage), Reader rest e), Ok (of_bytes bd))) as R2.
    { unfold read_data. cbn [m_data set_data of_bytes s_len s_buf]. unfold zlen.
      rewrite length_replicate, Nat2Z.id, ReadFull_app by done. unfold copy_at.
      rewrite drop_ge by (rewrite length_replicate; cbn; lia). cbn [take app].
      rewrite take_0, app_nil_r. done. }
    rewrite (go_bind_Ok _ _ _ _ _ R2). unfold parse_body.
    rewrite (go_bind_Panic _ _ _ (set_data (of_bytes bd) (set_header h NewMessage), Reader rest e)
      "slice bounds out of range"); [done|].
    unfold lift, slice, of_bytes, s_cap. cbn [s_buf].
    by rewrite (proj2 (Z.leb_gt 4 (zlen bd))) by lia.
Qed.
End DecodeErrors.

(** ** Witnesses *)

(** A reversible stand-in for gzip: two magic bytes in front of the data. *)
Definition toy_Zip (d : bytes) : bytes * option error := (31 :: 139 :: d, None).
Definition toy_Unzip (d : bytes) : bytes * option error :=
  match d with
  | 31 :: 139 :: d => (d, None)
  | _ => ([], Some (errorString "gzip: invalid header"))
  end.

Definition toy_compressors : Compressors := defaultCompressors toy_Zip toy_Unzip.

Lemma toy_compressors_ok : CompressorsOk toy_compressors.
Proof.
  assert (forall ct c d z, toy_compressors ct = Some c -> bytes_ok d -> Zip c d = (z, None) ->
    Unzip c z = (d, None) /\ bytes_ok z) as H.
  { unfold toy_compressors, defaultCompressors. intros ct c d z Hc Hd Hz.
    destruct (ct =? None_); [|destruct (ct =? Gzip); [|done]]; injection Hc as <-;
      cbn in Hz; injection Hz as <-; split; try done.
    solve_bytes. }
  split; intros; by eapply H.
Qed.

Definition wit_msg : Message :=
  MkMessage (SetSeq 77 (SetCompressType Gzip newHeader)) "Arith" "Mul"
    (Some {["k" := "v"]}) [1; 2; 3] nil_slice.

Lemma wit_msg_ok : msg_ok wit_msg.
Proof.
  split; [|reflexivity|cbn [Payload wit_msg]; solve_bytes].
  cbn [m_header wit_msg]. auto with rpcx.
Qed.

Lemma wit_enum : enumerates [("k", "v")] (Metadata wit_msg).
Proof.
  unfold enumerates. change (default ∅ (Metadata wit_msg)) with ({["k" := "v"]} : meta).
  by rewrite map_to_list_singleton.
Qed.

Lemma wit_fits : @fits toy_compressors 1000 [("k", "v")] wit_msg.
Proof. split; [vm_compute; reflexivity|intros _; vm_compute; discriminate]. Qed.

Lemma decode_encode_witness :
  exists p' data m',
    @EncodeSlicePointer toy_compressors [("k", "v")] None wit_msg bufferPool =
      (p', Ok (set_header (@sent_header toy_compressors wit_msg) wit_msg, data)) /\
    pool_ok p' /\
    @Decode toy_compressors 1000 NewMessage (Reader (s_bytes data ++ [9]) EOF) =
      (m', Reader [9] EOF, None) /\
    same_message (@sent_header toy_compressors wit_msg) wit_msg m'.
Proof.
  apply (@decode_encode toy_compressors toy_compressors_ok).
  - exact bufferPool_ok.
  - exact wit_msg_ok.
  - exact wit_enum.
  - exact wit_fits.
Defined.

Lemma stream_roundtrip_witness :
  exists p' bs ms,
    @encode_all toy_compressors
      [([("k", "v")], None, wit_msg); ([("k", "v")], Some 0%nat, wit_msg)] bufferPool =
      (p', Ok bs) /\
    @read_all toy_compressors 1000 2 (Reader (bs ++ []) EOF) = Some (ms, Reader [] EOF) /\
    Forall2 (fun '(_, _, m) m' => same_message (@sent_header toy_compressors m) m m')
      [([("k", "v")], None, wit_msg); ([("k", "v")], Some 0%nat, wit_msg)] ms.
Proof.
  apply (@stream_roundtrip toy_compressors toy_compressors_ok).
  - exact bufferPool_ok.
  - assert (msg_ok wit_msg /\ enumerates [("k", "v")] (Metadata wit_msg) /\
      @fits toy_compressors 1000 [("k", "v")] wit_msg) as H
      by exact (conj wit_msg_ok (conj wit_enum wit_fits)).
    constructor; [exact H|]. constructor; [exact H|]. constructor.
Defined.

Lemma WriteTo_Encode_witness :
  exists p' data,
    @EncodeSlicePointer toy_compressors [("k", "v")] None wit_msg bufferPool =
      (p', Ok (wit_msg, data)) /\
    @WriteTo toy_compressors bytes buffer_Write [("k", "v")] wit_msg [] = (s_bytes data, (5, None)).
Proof.
  destruct (@WriteTo_Encode toy_compressors [("k", "v")] None wit_msg bufferPool [])
    as (p' & data & H1 & H2).
  - exact bufferPool_ok.
  - exact wit_msg_ok.
  - right. do 2 eexists. split; reflexivity.
  - exists p', data. split; [exact H1|exact H2].
Defined.

Lemma decodeMetadata_sound_witness :
  exists kvs, encodeMetadata kvs = sub (encodeMetadata [("k", "v")]) 0 10 /\
    insert_all ∅ [("k", "v")] = insert_all ∅ kvs.
Proof.
  apply (decodeMetadata_sound 10 (of_bytes (encodeMetadata [("k", "v")]))).
  - apply encodeMetadata_ok.
  - lia.
  - vm_compute. reflexivity.
Defined.

Lemma Decode_rejects_witness :
  @Decode toy_compressors 5 NewMessage (Reader (newHeader ++ PutUint32 9 ++ [1; 2]) EOF) =
    (set_header newHeader NewMessage, Reader [1; 2] EOF, Some ErrMessageTooLong).
Proof.
  apply (@Decode_rejects toy_compressors 5 NewMessage newHeader 7 9 [1; 2] [1; 2]).
  - auto with rpcx.
  - reflexivity.
  - reflexivity.
  - split; cbv; discriminate.
  - lia.
  - reflexivity.
  - discriminate.
  - discriminate.
  - lia.
Defined.

Lemma Decode_panic_is_success_witness :
  exists d,
    @Decode toy_compressors 0 NewMessage
      (Reader (newHeader ++ PutUint32 (zlen [1; 2]) ++ [1; 2] ++ []) EOF) =
    (set_data d (set_header newHeader NewMessage), Reader [] EOF, None).
Proof.
  apply (@Decode_panic_is_success toy_compressors).
  - auto with rpcx.
  - reflexivity.
  - reflexivity.
  - intros H. exfalso. lia.
Defined.
