(* ===== verification/Breaker.v ===== *)
(** The consecutive-failure circuit breaker of client/circuit_breaker.go, the interface the
    clients use it through, and its refinement of a specification over histories. *)

From S2P Require Import Prelude.

(** ** The interface ([Breaker] of client/client.go)

    The clock is an argument: every call of [time.Now] is one reading of it. *)

Class BreakerOps (B : Type) := {
  b_ready : Z -> Z -> B -> B * bool;
  b_success : Z -> B -> B;
  b_fail : Z -> B -> B;
}.

(** What a client relies on: a success closes the breaker for a caller that comes next, and
    [Ready] never changes a closed breaker into an open one. *)
Class BreakerLaws (B : Type) `{BreakerOps B} (valid : B -> Prop) := {
  ready_after_success t t1 t2 b : valid b -> snd (b_ready t1 t2 (b_success t b)) = true;
  ready_stable t1 t2 t3 t4 b :
    valid b -> t1 <= t3 -> snd (b_ready t1 t2 b) = true ->
    snd (b_ready t3 t4 (fst (b_ready t1 t2 b))) = true;
}.

(** ** The implementation *)

Record ConsecCircuitBreaker := CB {
  lastFailureTime : Z;   (* int64, nanoseconds *)
  failures : Z;          (* uint64 *)
  failureThreshold : Z;  (* uint64 *)
  window : Z;            (* time.Duration, int64 *)
}.

Definition NewConsecCircuitBreaker (threshold w : Z) : ConsecCircuitBreaker :=
  CB 0 0 threshold w.

(** [t.Sub(u)] saturates at the bounds of a [Duration]. *)
Definition time_sub (t u : Z) : Z := (- 2 ^ 63) `max` ((t - u) `min` (2 ^ 63 - 1)).

Definition reset (now : Z) (cb : ConsecCircuitBreaker) : ConsecCircuitBreaker :=
  CB now 0 (failureThreshold cb) (window cb).

Definition cb_ready (now now' : Z) (cb : ConsecCircuitBreaker) : ConsecCircuitBreaker * bool :=
  if time_sub now (lastFailureTime cb) >? window cb
  then (reset now' cb, true)
  else (cb, failures cb <? failureThreshold cb).

Definition cb_success (now : Z) (cb : ConsecCircuitBreaker) : ConsecCircuitBreaker :=
  reset now cb.

Definition cb_fail (now : Z) (cb : ConsecCircuitBreaker) : ConsecCircuitBreaker :=
  CB now (u64 (failures cb + 1)) (failureThreshold cb) (window cb).

Global Instance ConsecCircuitBreaker_ops : BreakerOps ConsecCircuitBreaker :=
  {| b_ready := cb_ready; b_success := cb_success; b_fail := cb_fail |}.

(** [Call(fn, d)]. [outcome] is what [fn] returns; with [d <> 0] the timer may fire first,
    which [timer_first] says. [t1], [t2] are the readings of the clock in [ready] and [t3]
    the one in [success] or [fail]. The result also says whether [fn] was started. *)
Definition Call (outcome : option error) (d : Z) (timer_first : bool) (t1 t2 t3 : Z)
    (cb : ConsecCircuitBreaker) : ConsecCircuitBreaker * option error * bool :=
  let '(cb, ok) := cb_ready t1 t2 cb in
  if negb ok then (cb, Some ErrBreakerOpen, false)
  else
    let err :=
      if d =? 0 then outcome
      else if timer_first then Some ErrBreakerTimeout else outcome in
    match err with
    | None => (cb_success t3 cb, err, true)
    | Some _ => (cb_fail t3 cb, err, true)
    end.

(** ** Histories *)

Inductive event := EReady (t t' : Z) | ESuccess (t : Z) | EFail (t : Z).

Definition step (cb : ConsecCircuitBreaker) (e : event) : ConsecCircuitBreaker :=
  match e with
  | EReady t t' => fst (cb_ready t t' cb)
  | ESuccess t => cb_success t cb
  | EFail t => cb_fail t cb
  end.

Definition run (cb : ConsecCircuitBreaker) (es : list event) : ConsecCircuitBreaker :=
  foldl step cb es.

(** The specification keeps the whole list of the failures since the breaker was last
    cleared, latest first, and the time from which the window is counted. *)
Record spec := Spec { since : Z; recent : list Z }.

Definition spec_expired (w now : Z) (s : spec) : Prop := w < time_sub now (since s).

Definition spec_step (w : Z) (s : spec) (e : event) : spec :=
  match e with
  | EReady t t' => if decide (w < time_sub t (since s)) then Spec t' [] else s
  | ESuccess t => Spec t []
  | EFail t => Spec t (t :: recent s)
  end.

Definition spec_run (w : Z) (es : list event) : spec := foldl (spec_step w) (Spec 0 []) es.

Definition spec_admits (threshold w now : Z) (s : spec) : Prop :=
  spec_expired w now s \/ zlen (recent s) < threshold.

(** The number of failures a history can record. *)
Definition is_fail (e : event) : bool := match e with EFail _ => true | _ => false end.
Definition fails (es : list event) : nat := length (filter is_fail es).

Lemma fails_app es e :
  fails (es ++ [e]) = (fails es + match e with EFail _ => 1 | _ => 0 end)%nat.
Proof. unfold fails. rewrite list.filter_app, length_app. destruct e; done. Qed.

Lemma recent_fails w es : (length (recent (spec_run w es)) <= fails es)%nat.
Proof.
  induction es as [|e es IH] using rev_ind; [done|].
  unfold spec_run in *. rewrite foldl_app, fails_app. cbn [foldl].
  destruct e; cbn [spec_step]; [|simpl; lia|simpl; lia]. case_decide; simpl; lia.
Qed.

Lemma breaker_sim threshold w es :
  Z.of_nat (fails es) < 2 ^ 64 ->
  let cb := run (NewConsecCircuitBreaker threshold w) es in
  let s := spec_run w es in
  lastFailureTime cb = since s /\ failures cb = zlen (recent s) /\
  failureThreshold cb = threshold /\ window cb = w.
Proof.
  induction es as [|e es IH] using rev_ind; [done|].
  rewrite fails_app. intros Hn. destruct IH as (IHt & IHf & IHth & IHw); [destruct e; lia|].
  pose proof (recent_fails w es) as Hr.
  unfold run, spec_run in *. rewrite !foldl_app. cbn [foldl].
  set (cb := foldl step _ es) in *. set (s := foldl (spec_step w) _ es) in *.
  destruct e as [t t'|t|t]; cbn [step spec_step].
  - unfold cb_ready. rewrite IHt, IHw. rewrite Z.gtb_ltb.
    case_decide as E.
    + rewrite (proj2 (Z.ltb_lt _ _)) by lia. done.
    + rewrite (proj2 (Z.ltb_ge _ _)) by lia. done.
  - done.
  - cbn. split_and!; [done| |done|done]. rewrite IHf. unfold zlen in *. cbn [length].
    rewrite wrap_small by lia. lia.
Qed.

(** C34. After any history of calls (with fewer than 2^64 failures), the breaker admits a call
    exactly when its window has elapsed since the last recorded event, or fewer failures than
    the threshold were reported since it was last cleared by a success or an expired window:
    the two machine words refine the specification that keeps all of them. *)
Theorem breaker_refines_history threshold w es now now' :
  Z.of_nat (fails es) < 2 ^ 64 ->
  snd (cb_ready now now' (run (NewConsecCircuitBreaker threshold w) es)) = true <->
  spec_admits threshold w now (spec_run w es).
Proof.
  intros Hn. destruct (breaker_sim threshold w es Hn) as (Ht & Hf & Hth & Hw).
  unfold cb_ready, spec_admits, spec_expired. rewrite Ht, Hf, Hth, Hw, Z.gtb_ltb.
  destruct (w <? time_sub now _) eqn:E; zbool; simpl; [naive_solver|].
  rewrite Z.ltb_lt. naive_solver lia.
Qed.

Lemma breaker_refines_history_witness :
  snd (cb_ready 12 12
         (run (NewConsecCircuitBreaker 2 100) [ESuccess 5; EFail 8; EFail 10])) = true <->
  spec_admits 2 100 12 (spec_run 100 [ESuccess 5; EFail 8; EFail 10]).
Proof. apply breaker_refines_history. vm_compute. reflexivity. Defined.

(** Consecutive failures pile up in the record of the specification. *)
Lemma spec_run_fails w es ts :
  recent (foldl (spec_step w) (spec_run w es) (EFail <$> ts)) =
  rev ts ++ recent (spec_run w es).
Proof.
  generalize (spec_run w es). induction ts as [|t ts IH]; intros s; [done|].
  cbn [fmap list_fmap foldl rev]. rewrite IH. cbn. by rewrite <- app_assoc.
Qed.

Lemma spec_run_since w es ts t :
  since (foldl (spec_step w) (spec_run w es) (EFail <$> (ts ++ [t]))) = t.
Proof. by rewrite fmap_app, foldl_app. Qed.

(** Once as many consecutive failures as the threshold are reported, [Call] runs
    nothing and returns [ErrBreakerOpen] until the window after the last of them has
    elapsed, whatever happened before, and the breaker is left as it was. *)
Theorem Call_open threshold w es ts t outcome d tf t1 t2 t3 :
  Z.of_nat (fails es + length ts + 1) < 2 ^ 64 ->
  threshold <= zlen (ts ++ [t]) -> time_sub t1 t <= w ->
  let cb := run (NewConsecCircuitBreaker threshold w) (es ++ (EFail <$> (ts ++ [t]))) in
  Call outcome d tf t1 t2 t3 cb = (cb, Some ErrBreakerOpen, false).
Proof.
  intros Hn Hth Hw.
  destruct (breaker_sim threshold w (es ++ (EFail <$> (ts ++ [t])))) as (Ht & Hf & Hth' & Hw').
  { unfold fails in *. rewrite list.filter_app, length_app.
    pose proof (list.length_filter is_fail (EFail <$> (ts ++ [t]))) as L.
    rewrite length_fmap, length_app in L. simpl in L. lia. }
  intros cb. fold cb in Ht, Hf, Hth', Hw'.
  unfold spec_run in Ht, Hf. rewrite foldl_app in Ht, Hf.
  fold (spec_run w es) in Ht, Hf. rewrite spec_run_since in Ht. rewrite spec_run_fails in Hf.
  unfold Call, cb_ready. rewrite Ht, Hw', Z.gtb_ltb, (proj2 (Z.ltb_ge _ _)) by lia.
  rewrite Hth', (proj2 (Z.ltb_ge _ _)); [done|].
  rewrite Hf. unfold zlen in *. rewrite length_app, length_rev. lia.
Qed.

Lemma Call_open_witness :
  let cb := run (NewConsecCircuitBreaker 2 100) ([] ++ (EFail <$> ([8] ++ [10]))) in
  Call None 0 false 50 50 50 cb = (cb, Some ErrBreakerOpen, false).
Proof. apply (Call_open 2 100 [] [8] 10); vm_compute; congruence. Defined.

(** [Call] on a breaker that lets the call through returns what the function returned (or
    [ErrBreakerTimeout] when the timer was first), closes the breaker on success and counts
    exactly one failure otherwise; after a success the next call is always let through. *)
Theorem Call_admitted outcome d tf t1 t2 t3 cb :
  snd (cb_ready t1 t2 cb) = true ->
  let err := if decide (d <> 0 /\ tf = true) then Some ErrBreakerTimeout else outcome in
  exists cb', Call outcome d tf t1 t2 t3 cb = (cb', err, true) /\
    match err with
    | None => failures cb' = 0 /\
        (0 < failureThreshold cb -> forall u u', snd (cb_ready u u' cb') = true)
    | Some _ => failures cb' = u64 (failures (fst (cb_ready t1 t2 cb)) + 1) /\
        lastFailureTime cb' = t3
    end.
Proof.
  intros Hr err. unfold Call. destruct (cb_ready t1 t2 cb) as [cb1 ok] eqn:E.
  cbn [snd] in Hr. subst ok. cbn [negb].
  assert ((if d =? 0 then outcome else if tf then Some ErrBreakerTimeout else outcome) = err)
    as ->.
  { subst err. destruct (d =? 0) eqn:Ed; zbool; case_decide as X; destruct tf; naive_solver. }
  assert (failureThreshold cb1 = failureThreshold cb) as Hth.
  { unfold cb_ready in E. destruct (_ >? _); simplify_eq; done. }
  destruct err; eexists; (split; [reflexivity|]); [done|].
  split; [done|]. intros Hpos u u'. unfold cb_ready. destruct (_ >? _); [done|].
  cbn. apply Z.ltb_lt. lia.
Qed.

Lemma Call_admitted_witness :
  exists cb', Call None 5 true 7 7 9 (NewConsecCircuitBreaker 2 100)
              = (cb', Some ErrBreakerTimeout, true) /\ failures cb' = u64 1 /\
              lastFailureTime cb' = 9.
Proof. apply (Call_admitted None 5 true 7 7 9 (NewConsecCircuitBreaker 2 100)). reflexivity.
Defined.

(** The implementation keeps the promises of the interface. *)
Global Instance ConsecCircuitBreaker_laws :
  BreakerLaws ConsecCircuitBreaker (fun cb => 0 < failureThreshold cb).
Proof.
  split.
  - intros t t1 t2 cb H. cbn. unfold cb_ready. destruct (_ >? _); [done|]. cbn.
    apply Z.ltb_lt. lia.
  - intros t1 t2 t3 t4 cb H Hle. change (@b_ready _ ConsecCircuitBreaker_ops) with cb_ready.
    unfold cb_ready at 1 3.
    destruct (time_sub t1 (lastFailureTime cb) >? window cb); cbn [fst snd]; intros Hr;
      unfold cb_ready; destruct (_ >? _); try done.
    cbn. apply Z.ltb_lt. lia.
Qed.
