(* ===== verification/GoStd.v ===== *)
(** What the program uses of Go's strings, strconv, net and net/url packages, on byte
    strings, and the address and metadata helpers of util/net.go. *)

From S2P Require Import Prelude.

(** ** strings *)

(** [strings.Cut(s, sep)] for a one-byte separator: before, after, found. *)
Fixpoint Cut (c : Z) (l : bytes) : bytes * bytes * bool :=
  match l with
  | [] => ([], [], false)
  | b :: r =>
      if b =? c then ([], r, true)
      else let '(x, y, f) := Cut c r in (b :: x, y, f)
  end.

Definition Contains (c : Z) (l : bytes) : bool := existsb (Z.eqb c) l.

Lemma Cut_app c x y : Contains c x = false -> Cut c (x ++ c :: y) = (x, y, true).
Proof.
  induction x as [|b x IH]; cbn; [by rewrite Z.eqb_refl|].
  intros H. zbool. rewrite (proj2 (Z.eqb_neq b c)) by lia. by rewrite IH.
Qed.

Lemma Cut_none c x : Contains c x = false -> Cut c x = (x, [], false).
Proof.
  induction x as [|b x IH]; cbn; [done|].
  intros H. zbool. rewrite (proj2 (Z.eqb_neq b c)) by lia. by rewrite IH.
Qed.

Lemma Cut_length c l : (length (snd (fst (Cut c l))) < S (length l))%nat.
Proof.
  induction l as [|b l IH]; cbn; [lia|].
  destruct (b =? c); [cbn; lia|]. destruct (Cut c l) as [[??]?]. cbn in *. lia.
Qed.

Lemma Contains_app c l k : Contains c (l ++ k) = Contains c l || Contains c k.
Proof. apply existsb_app. Qed.

(** ** strconv: decimal integers *)

Definition is_digit (b : Z) : bool := (48 <=? b) && (b <=? 57).

Definition dec_value (l : bytes) : Z := foldl (fun acc b => acc * 10 + (b - 48)) 0 l.

(** Digits of a number below [10^fuel]. *)
Fixpoint dec_digits (fuel : nat) (n : Z) : bytes :=
  match fuel with
  | O => []
  | S f => if n <? 10 then [48 + n] else dec_digits f (n / 10) ++ [48 + n mod 10]
  end.

(** [strconv.FormatInt(z, 10)]: an int64 has at most 19 digits. *)
Definition FormatInt (z : Z) : string :=
  bytes_string (if z <? 0 then 45 :: dec_digits 20 (- z) else dec_digits 20 z).

(** [strconv.ParseInt(s, 10, 64)], and [strconv.Atoi] on a 64-bit machine; the value Go
    returns beside an error is not used by the callers modelled here. *)
Definition parse_bytes (l : bytes) : option Z :=
  let '(neg, ds) :=
    match l with
    | 45 :: r => (true, r)
    | 43 :: r => (false, r)
    | _ => (false, l)
    end in
  if bool_decide (ds = []) || negb (forallb is_digit ds) then None
  else
    let v := if neg : bool then - dec_value ds else dec_value ds in
    if (- 2 ^ 63 <=? v) && (v <? 2 ^ 63) then Some v else None.

Definition ParseInt (s : string) : option Z := parse_bytes (string_bytes s).
Abbreviation Atoi := ParseInt.

Lemma dec_value_snoc l d : dec_value (l ++ [48 + d]) = dec_value l * 10 + d.
Proof. unfold dec_value. rewrite foldl_app. cbn [foldl]. lia. Qed.

Lemma dec_digits_spec f n :
  0 <= n < 10 ^ Z.of_nat f -> (0 < f)%nat ->
  dec_value (dec_digits f n) = n /\ Forall (fun b => 48 <= b <= 57) (dec_digits f n) /\
  dec_digits f n <> [].
Proof.
  revert n. induction f as [|f IH]; intros n Hn Hf; [lia|].
  cbn [dec_digits]. destruct (n <? 10) eqn:E; zbool.
  - split_and!; [unfold dec_value; cbn [foldl]; lia|repeat constructor; lia|done].
  - rewrite Nat2Z.inj_succ, Z.pow_succ_r in Hn by lia.
    assert (0 < f)%nat by (destruct f; simpl in *; lia).
    destruct (IH (n / 10)) as (Hv & Hd & Hne); [|done|].
    { split; [apply Z.div_pos; lia|]. apply Z.div_lt_upper_bound; lia. }
    pose proof (Z.mod_pos_bound n 10). pose proof (Z.div_mod n 10).
    split_and!; [rewrite dec_value_snoc, Hv; lia| |by destruct (dec_digits f _)].
    apply Forall_app. split; [done|]. repeat constructor; lia.
Qed.

Lemma digits_forallb l : Forall (fun b => 48 <= b <= 57) l -> forallb is_digit l = true.
Proof.
  intros H. apply forallb_forall. intros b Hb. rewrite Forall_forall in H.
  specialize (H b (proj2 (list_elem_of_In _ _) Hb)). unfold is_digit.
  apply andb_true_iff. split; apply Z.leb_le; lia.
Qed.

Lemma digits_bytes l : Forall (fun b => 48 <= b <= 57) l -> bytes_ok l.
Proof. intros H. eapply Forall_impl; [exact H|]. unfold is_byte. lia. Qed.

Lemma ParseInt_FormatInt z : - 2 ^ 63 <= z < 2 ^ 63 -> ParseInt (FormatInt z) = Some z.
Proof.
  intros Hz. unfold ParseInt, FormatInt.
  destruct (dec_digits_spec 20 (Z.abs z)) as (Hv & Hd & Hne); [lia|lia|].
  destruct (z <? 0) eqn:E; zbool.
  - rewrite string_bytes_string.
    2:{ rewrite bytes_ok_cons. split; [unfold is_byte; lia|].
        apply digits_bytes. by replace (- z) with (Z.abs z) by lia. }
    replace (- z) with (Z.abs z) by lia. cbn [parse_bytes].
    unfold parse_bytes. rewrite bool_decide_eq_false_2, digits_forallb by done.
    cbn [negb orb]. rewrite Hv.
    rewrite (proj2 (Z.leb_le _ _)), (proj2 (Z.ltb_lt _ _)) by lia. cbn. f_equal. lia.
  - replace z with (Z.abs z) at 1 by lia.
    rewrite string_bytes_string by by apply digits_bytes.
    unfold parse_bytes.
    assert (match dec_digits 20 (Z.abs z) with
            | 45 :: r => (true, r) | 43 :: r => (false, r)
            | _ => (false, dec_digits 20 (Z.abs z)) end = (false, dec_digits 20 (Z.abs z)))
      as ->.
    { destruct (dec_digits 20 (Z.abs z)) as [|b r]; [done|].
      apply Forall_cons_iff in Hd as [Hb _].
      assert (b = 48 \/ b = 49 \/ b = 50 \/ b = 51 \/ b = 52 \/ b = 53 \/ b = 54 \/ b = 55 \/
              b = 56 \/ b = 57) as Hc by lia.
      repeat (destruct Hc as [->|Hc]; [done|]). by subst. }
    rewrite bool_decide_eq_false_2, digits_forallb by done. cbn [negb orb]. rewrite Hv.
    rewrite (proj2 (Z.leb_le _ _)), (proj2 (Z.ltb_lt _ _)) by lia. cbn. f_equal. lia.
Qed.

(** ** net/url *)

Definition is_alnum (b : Z) : bool :=
  (48 <=? b) && (b <=? 57) || (65 <=? b) && (b <=? 90) || (97 <=? b) && (b <=? 122).

(** [shouldEscape(c, encodeQueryComponent)]: only letters, digits and [-_.~] are kept. *)
Definition shouldEscape (b : Z) : bool :=
  negb (is_alnum b || (b =? 45) || (b =? 95) || (b =? 46) || (b =? 126)).

Definition upperhex (d : Z) : Z := if d <? 10 then 48 + d else 55 + d.

Definition escape_byte (b : Z) : bytes :=
  if b =? 32 then [43]
  else if shouldEscape b then [37; upperhex (Z.shiftr b 4); upperhex (Z.land b 15)]
  else [b].

Definition escape (l : bytes) : bytes := l ≫= escape_byte.
Definition QueryEscape (s : string) : string := bytes_string (escape (string_bytes s)).

Definition unhex (b : Z) : option Z :=
  if (48 <=? b) && (b <=? 57) then Some (b - 48)
  else if (97 <=? b) && (b <=? 102) then Some (b - 97 + 10)
  else if (65 <=? b) && (b <=? 70) then Some (b - 65 + 10)
  else None.

Fixpoint unescape (l : bytes) : option bytes :=
  match l with
  | [] => Some []
  | 37 :: r =>
      match r with
      | h :: k :: r' =>
          x ← unhex h; y ← unhex k; t ← unescape r';
          Some (Z.lor (Z.shiftl x 4) y :: t)
      | _ => None
      end
  | 43 :: r => t ← unescape r; Some (32 :: t)
  | b :: r => t ← unescape r; Some (b :: t)
  end.

(** [url.Values]; the values of a key in order of appearance. *)
Abbreviation Values := (gmap string (list string)).
Definition Values_Get (v : Values) (k : string) : string :=
  match v !! k with Some (x :: _) => x | _ => "" end.

(** One ["key=value"] of a query; [None] when it is rejected, [Some v] otherwise. *)
Definition parse_pair (key : bytes) (m : Values) : option Values :=
  if Contains 59 key then None
  else match key with
  | [] => Some m
  | _ =>
      let '(k, v, _) := Cut 61 key in
      k ← unescape k; v ← unescape v;
      let k := bytes_string k in
      Some (<[k := default [] (m !! k) ++ [bytes_string v]]> m)
  end.

(** The loop of [parseQuery]: it goes on after a rejected pair and remembers that there was
    one. Every round consumes a byte, so [length query] rounds are enough. *)
Fixpoint parseQuery (fuel : nat) (query : bytes) (m : Values) (bad : bool) : Values * bool :=
  match fuel with
  | O => (m, bad)
  | S f =>
      match query with
      | [] => (m, bad)
      | _ =>
          let '(key, query', _) := Cut 38 query in
          match parse_pair key m with
          | Some m' => parseQuery f query' m' bad
          | None => parseQuery f query' m true
          end
      end
  end.

(** [url.ParseQuery]: the values, and whether an error comes with them. *)
Definition ParseQuery (s : string) : Values * bool :=
  let q := string_bytes s in parseQuery (S (length q)) q ∅ false.

(** *** A byte survives escaping *)

Lemma byte_cases (P : Z -> Prop) :
  Forall P (Z.of_nat <$> seq 0 256) -> forall b, is_byte b -> P b.
Proof.
  rewrite Forall_forall. intros H b [Hb Hb'].
  apply H, list_elem_of_fmap. exists (Z.to_nat b).
  split; [lia|]. apply elem_of_seq. lia.
Qed.

Definition plain_byte (b : Z) : bool :=
  negb ((b =? 38) || (b =? 59) || (b =? 61)) && (0 <=? b) && (b <? 256).

Lemma escape_byte_plain b : is_byte b -> forallb plain_byte (escape_byte b) = true.
Proof.
  revert b. apply byte_cases. repeat (constructor; [reflexivity|]). constructor.
Qed.

Lemma unescape_escape_byte b r :
  is_byte b -> unescape (escape_byte b ++ r) = t ← unescape r; Some (b :: t).
Proof.
  revert b. apply byte_cases. repeat (constructor; [reflexivity|]). constructor.
Qed.

Lemma unescape_escape l : bytes_ok l -> unescape (escape l) = Some l.
Proof.
  induction 1 as [|b l Hb _ IH]; [done|].
  unfold escape. rewrite bind_cons, unescape_escape_byte by done.
  fold (escape l). by rewrite IH.
Qed.

Lemma escape_plain l : bytes_ok l -> forallb plain_byte (escape l) = true.
Proof.
  induction 1 as [|b l Hb _ IH]; [done|].
  unfold escape. rewrite bind_cons, forallb_app, escape_byte_plain by done. done.
Qed.

Lemma plain_no c l :
  (c = 38 \/ c = 59 \/ c = 61) -> forallb plain_byte l = true -> Contains c l = false.
Proof.
  intros Hc. induction l as [|b l IH]; [done|]. cbn. intros H.
  apply andb_true_iff in H as [Hb Hl]. fold (Contains c l). rewrite IH by done. rewrite orb_false_r.
  unfold plain_byte in Hb. zbool. apply Z.eqb_neq.
  repeat match goal with H : _ || _ = false |- _ => apply orb_false_iff in H as [??] end.
  zbool. lia.
Qed.

Lemma plain_bytes_ok l : forallb plain_byte l = true -> bytes_ok l.
Proof.
  induction l as [|b l IH]; [constructor|]. cbn. intros H.
  apply andb_true_iff in H as [Hb Hl]. constructor; [|by apply IH].
  unfold plain_byte in Hb. zbool. unfold is_byte. lia.
Qed.

(** ** util/net.go: metadata strings *)

(** [ConvertMeta2Map]. *)
Definition ConvertMeta2Map (meta : string) : gmap string string :=
  if bool_decide (meta = ""%string) then ∅
  else
    let '(v, bad) := ParseQuery meta in
    if bad then ∅ else map_imap (fun k _ => Some (Values_Get v k)) v.

(** The loop of [ConvertMap2String] over the sorted keys; [buf] is the builder. *)
Fixpoint writePairs (buf : bytes) (kvs : list (string * string)) : bytes :=
  match kvs with
  | [] => buf
  | (k, v) :: r =>
      let buf := if zlen buf >? 0 then buf ++ [38] else buf in
      writePairs (buf ++ escape (string_bytes k) ++ [61] ++ escape (string_bytes v)) r
  end.

(** [sort.Strings] *)
Definition sort_keys (l : list string) : list string := merge_sort String.le l.

Definition ConvertMap2String (meta : gmap string string) : string :=
  let keys := sort_keys (fst <$> map_to_list meta) in
  bytes_string (writePairs [] ((fun k => (k, default ""%string (meta !! k))) <$> keys)).

Definition pair_bytes (kv : string * string) : bytes :=
  escape (string_bytes kv.1) ++ [61] ++ escape (string_bytes kv.2).

Lemma parse_pair_bytes kv m :
  m !! kv.1 = None ->
  parse_pair (pair_bytes kv) m = Some (<[kv.1 := [kv.2]]> m).
Proof.
  intros Hm. destruct kv as [k v]. cbn [fst snd] in *. unfold parse_pair, pair_bytes. cbn [fst snd].
  pose proof (escape_plain _ (string_bytes_ok k)) as Hk.
  pose proof (escape_plain _ (string_bytes_ok v)) as Hv.
  rewrite !Contains_app, (plain_no 59 _ ltac:(auto) Hk), (plain_no 59 _ ltac:(auto) Hv).
  change (false || (Contains 59 [61] || false)) with false. cbn iota.
  change ([61] ++ escape (string_bytes v)) with (61 :: escape (string_bytes v)).
  rewrite Cut_app by by (apply plain_no; auto).
  destruct (escape (string_bytes k) ++ 61 :: escape (string_bytes v)) eqn:E;
    [by destruct (escape (string_bytes k))|].
  rewrite !unescape_escape by apply string_bytes_ok. cbn.
  by rewrite !bytes_string_bytes, Hm.
Qed.

Lemma pair_no_amp kv : Contains 38 (pair_bytes kv) = false.
Proof.
  unfold pair_bytes. rewrite !Contains_app.
  rewrite (plain_no 38 (escape (string_bytes kv.1))) by (auto using escape_plain, string_bytes_ok).
  by rewrite (plain_no 38 (escape (string_bytes kv.2))) by (auto using escape_plain, string_bytes_ok).
Qed.

(** The separator-joined text of some pairs. *)
Fixpoint join_pairs (kvs : list (string * string)) : bytes :=
  match kvs with
  | [] => []
  | [kv] => pair_bytes kv
  | kv :: r => pair_bytes kv ++ 38 :: join_pairs r
  end.

Lemma writePairs_join buf kvs :
  buf <> [] -> writePairs buf kvs = buf ++ match kvs with [] => [] | _ => 38 :: join_pairs kvs end.
Proof.
  revert buf. induction kvs as [|[k v] kvs IH]; intros buf Hb; [by rewrite app_nil_r|].
  cbn [writePairs]. assert (zlen buf >? 0 = true) as ->.
  { unfold zlen. destruct buf; [done|]. rewrite Z.gtb_ltb. apply Z.ltb_lt. cbn [length]. lia. }
  rewrite IH by by destruct buf. cbn [join_pairs].
  unfold pair_bytes. cbn [fst snd]. destruct kvs; rewrite <- ?app_assoc; cbn; by rewrite ?app_nil_r.
Qed.

Lemma writePairs_nil kvs : writePairs [] kvs = join_pairs kvs.
Proof.
  destruct kvs as [|[k v] kvs]; [done|]. cbn [writePairs].
  change (zlen (@nil Z) >? 0) with false. cbn iota. rewrite app_nil_l.
  rewrite writePairs_join by by destruct (escape (string_bytes k)).
  destruct kvs; cbn [join_pairs]; unfold pair_bytes; cbn [fst snd]; by rewrite ?app_nil_r, <- ?app_assoc.
Qed.

Lemma join_pairs_ok kvs : bytes_ok (join_pairs kvs).
Proof.
  assert (forall kv, bytes_ok (pair_bytes kv)) as Hp.
  { intros kv. unfold pair_bytes. rewrite !bytes_ok_app, bytes_ok_cons.
    split_and!; [|unfold is_byte; lia|constructor|];
      apply plain_bytes_ok, escape_plain, string_bytes_ok. }
  induction kvs as [|kv kvs IH]; [constructor|]. cbn [join_pairs].
  destruct kvs as [|kv' kvs]; [apply Hp|].
  rewrite bytes_ok_app, bytes_ok_cons. split_and!; [apply Hp|unfold is_byte; lia|apply IH].
Qed.

(** Parsing the joined text adds the pairs one after the other. *)
Lemma parseQuery_join kvs f m :
  NoDup (fst <$> kvs) -> (forall k, k ∈ fst <$> kvs -> m !! k = None) ->
  (length kvs < f)%nat ->
  parseQuery f (join_pairs kvs) m false =
  (foldl (fun m kv => <[kv.1 := [kv.2]]> m) m kvs, false).
Proof.
  revert f m. induction kvs as [|kv kvs IH]; intros f m Hnd Hm Hf.
  { destruct f; [done|]. done. }
  destruct f as [|f]; [cbn in Hf; lia|]. cbn [fmap list_fmap] in Hnd.
  apply NoDup_cons in Hnd as [Hkv Hnd].
  assert (join_pairs (kv :: kvs) <> []) as Hne.
  { cbn [join_pairs]. unfold pair_bytes.
    destruct kvs; destruct (escape (string_bytes kv.1)); done. }
  assert (Cut 38 (join_pairs (kv :: kvs)) =
          (pair_bytes kv, join_pairs kvs, negb (bool_decide (kvs = [])))) as HC.
  { cbn [join_pairs]. destruct kvs as [|kv' kvs]; [by apply Cut_none, pair_no_amp|].
    apply Cut_app, pair_no_amp. }
  cbn [parseQuery]. destruct (join_pairs (kv :: kvs)) as [|b q] eqn:Eq; [done|].
  rewrite HC, parse_pair_bytes by (apply Hm; set_solver).
  rewrite IH; [done|done| |cbn in Hf; lia].
  intros k Hk. rewrite lookup_insert_ne by set_solver. apply Hm. set_solver.
Qed.

Lemma foldl_insert_map (kvs : list (string * string)) (m : Values) :
  NoDup (fst <$> kvs) -> (forall k, k ∈ fst <$> kvs -> m !! k = None) ->
  foldl (fun m kv => <[kv.1 := [kv.2]]> m) m kvs
  = ((fun v => [v]) <$> (list_to_map kvs : gmap string string)) ∪ m.
Proof.
  revert m. induction kvs as [|kv kvs IH]; intros m Hnd Hm; cbn.
  { by rewrite fmap_empty, (left_id_L ∅ (∪)). }
  cbn [fmap list_fmap] in Hnd. apply NoDup_cons in Hnd as [Hkv Hnd].
  rewrite IH; [|done|].
  - rewrite fmap_insert. rewrite <- insert_union_r, insert_union_l.
    + by destruct kv.
    + rewrite lookup_fmap, (not_elem_of_list_to_map_1 kvs kv.1) by done. done.
  - intros k Hk. rewrite lookup_insert_ne by set_solver. apply Hm. set_solver.
Qed.

Lemma length_join_pairs kvs : (length kvs <= length (join_pairs kvs))%nat.
Proof.
  assert (forall kv, 1 <= length (pair_bytes kv))%nat as Hp.
  { intros kv. unfold pair_bytes. rewrite !length_app. cbn. lia. }
  induction kvs as [|kv kvs IH]; [done|]. cbn [join_pairs length].
  pose proof (Hp kv). destruct kvs as [|kv' kvs]; [cbn; lia|].
  rewrite length_app. cbn [length] in *. lia.
Qed.

(** Parsing the joined text of pairs with distinct keys. *)
Lemma ConvertMeta2Map_join kvs :
  NoDup kvs.*1 -> ConvertMeta2Map (bytes_string (join_pairs kvs)) = list_to_map kvs.
Proof.
  intros Hnd. unfold ConvertMeta2Map. case_bool_decide as He.
  - destruct kvs as [|kv kvs]; [done|]. exfalso.
    apply (f_equal string_bytes) in He. rewrite string_bytes_string in He by apply join_pairs_ok.
    change (string_bytes "") with (@nil Z) in He.
    pose proof (length_join_pairs (kv :: kvs)) as L. rewrite He in L. cbn in L. lia.
  - unfold ParseQuery. rewrite string_bytes_string by apply join_pairs_ok.
    rewrite parseQuery_join; [|done|by intros; apply lookup_empty|].
    2:{ pose proof (length_join_pairs kvs). lia. }
    rewrite foldl_insert_map; [|done|by intros; apply lookup_empty].
    rewrite (right_id_L ∅ (∪)).
    apply map_eq. intros k. rewrite map_lookup_imap, lookup_fmap.
    destruct ((list_to_map kvs : gmap string string) !! k) as [v|] eqn:E; [|done]. cbn.
    unfold Values_Get. by rewrite lookup_fmap, E.
Qed.

(** Metadata printed by [ConvertMap2String] is read back by [ConvertMeta2Map] as the same
    map, whatever bytes its keys and values hold. *)
Theorem meta_roundtrip m : ConvertMeta2Map (ConvertMap2String m) = m.
Proof.
  unfold ConvertMap2String. rewrite writePairs_nil.
  set (keys := sort_keys _).
  set (kvs := (fun k => (k, default ""%string (m !! k))) <$> keys).
  assert (keys ≡ₚ (fst <$> map_to_list m)) as Hperm by apply merge_sort_Permutation.
  assert (fst <$> kvs = keys) as Hfst.
  { unfold kvs. rewrite <- list_fmap_compose. cbn. by rewrite list_fmap_id. }
  assert (NoDup (fst <$> kvs)) as Hnd.
  { rewrite Hfst, Hperm. apply NoDup_fst_map_to_list. }
  rewrite ConvertMeta2Map_join by done.
  apply map_eq. intros k. destruct (m !! k) as [v|] eqn:E.
  - apply elem_of_list_to_map_1; [done|]. unfold kvs.
    apply list_elem_of_fmap. exists k. rewrite E. split; [done|]. rewrite Hperm.
    apply list_elem_of_fmap. exists (k, v). split; [done|]. by apply elem_of_map_to_list.
  - apply not_elem_of_list_to_map_1. rewrite Hfst, Hperm. intros Hin.
    apply list_elem_of_fmap in Hin as ([k' v] & -> & Hin).
    apply elem_of_map_to_list in Hin. cbn in E. congruence.
Qed.

(** ** net: host and port *)

Definition IndexByte (c : Z) (l : bytes) : option nat :=
  let '(x, _, f) := Cut c l in if f : bool then Some (length x) else None.

Fixpoint LastIndexByte (c : Z) (l : bytes) : option nat :=
  match l with
  | [] => None
  | b :: r =>
      match LastIndexByte c r with
      | Some i => Some (S i)
      | None => if b =? c then Some O else None
      end
  end.

(** The [*net.AddrError] that [SplitHostPort] returns. *)
Definition addrErr (hostport : bytes) (why : string) : error :=
  errorString ("address " +:+ bytes_string hostport +:+ ": " +:+ why)%string.

Definition SplitHostPort (hostport : bytes) : res (bytes * bytes) :=
  match LastIndexByte 58 hostport with
  | None => Er (addrErr hostport "missing port in address")
  | Some i =>
      let finish (host : bytes) (j k : nat) :=
        if Contains 91 (drop j hostport) then Er (addrErr hostport "unexpected '[' in address")
        else if Contains 93 (drop k hostport)
        then Er (addrErr hostport "unexpected ']' in address")
        else Ok (host, drop (S i) hostport) in
      if bool_decide (head hostport = Some 91) then
        match IndexByte 93 hostport with
        | None => Er (addrErr hostport "missing ']' in address")
        | Some e =>
            if bool_decide (S e = length hostport)
            then Er (addrErr hostport "missing port in address")
            else if bool_decide (S e = i) then finish (drop 1 (take e hostport)) 1%nat (S e)
            else if bool_decide (hostport !! S e = Some 58)
            then Er (addrErr hostport "too many colons in address")
            else Er (addrErr hostport "missing port in address")
        end
      else
        let host := take i hostport in
        if Contains 58 host then Er (addrErr hostport "too many colons in address")
        else finish host 0%nat 0%nat
  end.

(** [ParseRpcxAddress]: network, ip and port. *)
Definition ParseRpcxAddress (addr : string) : res (string * string * Z) :=
  let l := string_bytes addr in
  match IndexByte 64 l with
  | None | Some O => Er (errorString ("invalid rpcx address: " +:+ addr)%string)
  | Some ati =>
      match SplitHostPort (drop (S ati) l) with
      | Er e => Er e
      | Panic w => Panic w
      | Ok (ip, portstr) =>
          match parse_bytes portstr with
          | Some port => Ok (bytes_string (take ati l), bytes_string ip, port)
          | None =>
              Er (errorString ("strconv.Atoi: parsing " +:+ bytes_string portstr)%string)
          end
      end
  end.

Lemma Contains_cons c b l : Contains c (b :: l) = (c =? b) || Contains c l.
Proof. reflexivity. Qed.

Lemma string_bytes_app s t : string_bytes (s +:+ t) = string_bytes s ++ string_bytes t.
Proof.
  unfold string_bytes. rewrite <- fmap_app. f_equal.
  induction s as [|a s IH]; [done|]. exact (f_equal (cons a) IH).
Qed.

Lemma LastIndexByte_none c l : Contains c l = false -> LastIndexByte c l = None.
Proof.
  induction l as [|b l IH]; [done|]. cbn. intros H. zbool. rewrite IH by done.
  by rewrite (proj2 (Z.eqb_neq b c)) by lia.
Qed.

Lemma LastIndexByte_app c x y :
  Contains c y = false -> LastIndexByte c (x ++ c :: y) = Some (length x).
Proof.
  intros Hy. induction x as [|b x IH]; cbn.
  - by rewrite LastIndexByte_none, Z.eqb_refl.
  - by rewrite IH.
Qed.

Lemma SplitHostPort_app host port :
  Contains 58 host = false -> Contains 91 host = false -> Contains 93 host = false ->
  Contains 58 port = false -> Contains 91 port = false -> Contains 93 port = false ->
  SplitHostPort (host ++ 58 :: port) = Ok (host, port).
Proof.
  intros H1 H2 H3 P1 P2 P3. unfold SplitHostPort. rewrite LastIndexByte_app by done.
  rewrite bool_decide_eq_false_2.
  - rewrite take_app_length, H1, !drop_0, !Contains_app, !Contains_cons, H2, H3, P2, P3.
    cbn [Z.eqb Pos.eqb orb]. rewrite drop_app_ge by lia.
    by replace (S (length host) - length host)%nat with 1%nat by lia.
  - destruct host as [|b host]; [done|]. intros [= ->]. by cbn in H2.
Qed.

Lemma digits_no c l :
  (c < 48 \/ 57 < c) -> Forall (fun b => 48 <= b <= 57) l -> Contains c l = false.
Proof.
  intros Hc. induction 1 as [|b l Hb _ IH]; [done|].
  rewrite Contains_cons, IH, orb_false_r. apply Z.eqb_neq. lia.
Qed.

Lemma FormatInt_nonneg z : 0 <= z < 2 ^ 63 ->
  Forall (fun b => 48 <= b <= 57) (string_bytes (FormatInt z)).
Proof.
  intros Hz. unfold FormatInt. rewrite (proj2 (Z.ltb_ge _ _)) by lia.
  destruct (dec_digits_spec 20 z) as (_ & Hd & _); [lia|lia|].
  by rewrite string_bytes_string by by apply digits_bytes.
Qed.

(** An address written as network, "@", host, ":", port is split back into its three
    parts, for every port a non-negative int can hold, a non-empty network without "@", and
    a host without colon or bracket. *)
Theorem ParseRpcxAddress_roundtrip network host port :
  network <> ""%string -> Contains 64 (string_bytes network) = false ->
  Contains 58 (string_bytes host) = false -> Contains 91 (string_bytes host) = false ->
  Contains 93 (string_bytes host) = false -> 0 <= port < 2 ^ 63 ->
  ParseRpcxAddress (network +:+ "@" +:+ host +:+ ":" +:+ FormatInt port)
  = Ok (network, host, port).
Proof.
  intros Hne Hn Hh1 Hh2 Hh3 Hp. unfold ParseRpcxAddress. rewrite !string_bytes_app.
  change (string_bytes "@") with [64]. change (string_bytes ":") with [58]. cbn [app].
  unfold IndexByte. rewrite Cut_app by done.
  destruct (length (string_bytes network)) as [|n] eqn:E.
  { destruct (string_bytes network) eqn:En; [|done]. destruct Hne. by apply string_bytes_inj. }
  rewrite <- E. rewrite drop_app_ge by lia.
  replace (S (length (string_bytes network)) - length (string_bytes network))%nat
    with 1%nat by lia. cbn [drop]. rewrite drop_0.
  pose proof (FormatInt_nonneg port Hp) as Hd.
  rewrite SplitHostPort_app by (done || (apply digits_no; [lia|done])).
  rewrite take_app_length, !bytes_string_bytes.
  change (parse_bytes (string_bytes (FormatInt port))) with (ParseInt (FormatInt port)).
  by rewrite ParseInt_FormatInt by lia.
Qed.

Lemma ParseRpcxAddress_roundtrip_witness :
  ParseRpcxAddress ("tcp" +:+ "@" +:+ "127.0.0.1" +:+ ":" +:+ FormatInt 8972)
  = Ok ("tcp"%string, "127.0.0.1"%string, 8972).
Proof. apply ParseRpcxAddress_roundtrip; first [reflexivity | lia | discriminate]. Defined.
