(* ===== verification/Http.v ===== *)
(** What the HTTP front ends of the server use of net/http, net/url and strconv: header maps
    with canonical keys, requests, response writers, [Values.Encode], unsigned integers and
    the texts of the errors. *)

From S2P Require Import Prelude GoStd.

(** ** Header keys ([textproto.CanonicalMIMEHeaderKey]) *)

(** The bytes of a header field name. *)
Definition is_token (b : Z) : bool :=
  is_alnum b || existsb (Z.eqb b) [33; 35; 36; 37; 38; 39; 42; 43; 45; 46; 94; 95; 96; 124; 126].

Definition to_upper (b : Z) : Z := if (97 <=? b) && (b <=? 122) then b - 32 else b.
Definition to_lower (b : Z) : Z := if (65 <=? b) && (b <=? 90) then b + 32 else b.

Fixpoint canonical_bytes (upper : bool) (l : bytes) : bytes :=
  match l with
  | [] => []
  | b :: r => (if upper then to_upper b else to_lower b) :: canonical_bytes (b =? 45) r
  end.

(** A name with another byte is left as it is. *)
Definition CanonicalHeaderKey (s : string) : string :=
  let l := string_bytes s in
  if forallb is_token l then bytes_string (canonical_bytes true l) else s.

(** ** Headers *)

Abbreviation HTTPHeader := (gmap string (list string)).

Definition Header_Get (h : HTTPHeader) (k : string) : string := Values_Get h (CanonicalHeaderKey k).
Definition Header_Set (k v : string) (h : HTTPHeader) : HTTPHeader :=
  <[CanonicalHeaderKey k := [v]]> h.

(** A header that the server has read has valid names as keys, in canonical form. *)
Definition canonical (h : HTTPHeader) : Prop :=
  forall k, is_Some (h !! k) ->
  forallb is_token (string_bytes k) = true /\ CanonicalHeaderKey k = k.

(** Evaluate the canonical forms of the names that occur. *)
Ltac canon :=
  unfold Header_Get, Header_Set;
  repeat match goal with
  | |- context [CanonicalHeaderKey ?k] =>
      let v := eval vm_compute in (CanonicalHeaderKey k) in change (CanonicalHeaderKey k) with v
  end.

(** ** Requests and responses *)

(** [rq_Body] is what [io.ReadAll] returns for the body. *)
Record HTTPRequest := MkRequest { rq_Header : HTTPHeader; rq_Body : bytes + error }.

(** A response writer: its headers, the status of the first [WriteHeader] or write, the body. *)
Record Writer := MkWriter { wr_Header : HTTPHeader; wr_status : option Z; wr_body : bytes }.

Definition newWriter : Writer := MkWriter ∅ None [].

Definition w_Set (k v : string) (w : Writer) : Writer :=
  MkWriter (Header_Set k v (wr_Header w)) (wr_status w) (wr_body w).

Definition WriteHeader (code : Z) (w : Writer) : Writer :=
  MkWriter (wr_Header w) (Some (default code (wr_status w))) (wr_body w).

Definition w_Write (data : bytes) (w : Writer) : Writer :=
  MkWriter (wr_Header w) (Some (default 200 (wr_status w))) (wr_body w ++ data).

(** [http.Error] *)
Definition http_Error (text : string) (code : Z) (w : Writer) : Writer :=
  w_Write (string_bytes text ++ [10])
    (WriteHeader code
       (w_Set "X-Content-Type-Options" "nosniff"
          (w_Set "Content-Type" "text/plain; charset=utf-8" w))).

(** The status that is sent in the end. *)
Definition status (w : Writer) : Z := default 200 (wr_status w).

(** ** Numbers *)

(** [strconv.Quote]; bytes above 127 are kept as they are. *)
Definition Quote (s : string) : string :=
  bytes_string ([34] ++ (string_bytes s ≫= fun b =>
    if (b =? 34) || (b =? 92) then [92; b] else if b =? 9 then [92; 116] else [b]) ++ [34]).

Definition numError (fn s : string) (why : string) : error :=
  errorString ("strconv." +:+ fn +:+ ": parsing " +:+ Quote s +:+ ": " +:+ why).

(** [strconv.ParseUint(s, 10, 64)] *)
Definition ParseUint (s : string) : res Z :=
  let l := string_bytes s in
  if bool_decide (l = []) || negb (forallb is_digit l)
  then Er (numError "ParseUint" s "invalid syntax")
  else if dec_value l <? 2 ^ 64 then Ok (dec_value l)
  else Er (numError "ParseUint" s "value out of range").

Definition FormatUint (z : Z) : string := bytes_string (dec_digits 20 z).

(** [strconv.Atoi], with its error. *)
Definition Atoi_err (s : string) : res Z :=
  match ParseInt s with
  | Some z => Ok z
  | None =>
      let l := string_bytes s in
      let ds := match l with 45 :: r | 43 :: r => r | _ => l end in
      Er (numError "Atoi" s (if bool_decide (ds = []) || negb (forallb is_digit ds)
                             then "invalid syntax" else "value out of range"))
  end.

Lemma ParseUint_FormatUint z : 0 <= z < 2 ^ 64 -> ParseUint (FormatUint z) = Ok z.
Proof.
  intros Hz. unfold ParseUint, FormatUint.
  destruct (dec_digits_spec 20 z) as (Hv & Hd & Hne); [lia|lia|].
  rewrite string_bytes_string by by apply digits_bytes.
  rewrite bool_decide_eq_false_2, digits_forallb by done. cbn [negb orb]. rewrite Hv.
  by rewrite (proj2 (Z.ltb_lt _ _)) by lia.
Qed.

Lemma dec_digits_not_empty z : 0 <= z < 2 ^ 64 -> bytes_string (dec_digits 20 z) <> ""%string.
Proof.
  intros Hz He. destruct (dec_digits_spec 20 z) as (Hv & Hd & Hne); [lia|lia|].
  apply (f_equal string_bytes) in He.
  rewrite string_bytes_string in He by by apply digits_bytes. done.
Qed.

Lemma Atoi_FormatInt z : 0 <= z < 2 ^ 63 -> Atoi_err (FormatInt z) = Ok z.
Proof. intros Hz. unfold Atoi_err. by rewrite ParseInt_FormatInt by lia. Qed.

(** ** Queries *)

(** The first bad escape of a query component: [None] when there is none. *)
Fixpoint bad_escape (l : bytes) : option bytes :=
  match l with
  | [] => None
  | 37 :: r =>
      match r with
      | h :: k :: r' =>
          match unhex h, unhex k with
          | Some _, Some _ => bad_escape r'
          | _, _ => Some [37; h; k]
          end
      | _ => Some (37 :: r)
      end
  | _ :: r => bad_escape r
  end.

Definition pair_error (key : bytes) : option error :=
  if Contains 59 key then Some (errorString "invalid semicolon separator in query")
  else
    let '(k, v, _) := Cut 61 key in
    let esc l := errorString ("invalid URL escape " +:+ Quote (bytes_string l)) in
    match bad_escape k with
    | Some l => Some (esc l)
    | None => esc <$> bad_escape v
    end.

(** The error of [url.ParseQuery]: the one of the first pair that is rejected. *)
Fixpoint query_error (fuel : nat) (query : bytes) : option error :=
  match fuel with
  | O => None
  | S f =>
      match query with
      | [] => None
      | _ =>
          let '(key, query', _) := Cut 38 query in
          match pair_error key with
          | Some e => Some e
          | None => query_error f query'
          end
      end
  end.

Definition ParseQuery_err (s : string) : option error :=
  let q := string_bytes s in query_error (S (length q)) q.

(** The map of the first values that both front ends build. *)
Definition first_values (v : Values) : gmap string string :=
  map_imap (fun _ vs => head vs) v.

(** [Values.Encode] *)
Definition Values_Encode (v : Values) : string :=
  let keys := sort_keys (fst <$> map_to_list v) in
  bytes_string (writePairs [] (keys ≫= fun k => (fun x => (k, x)) <$> default [] (v !! k))).

(** A [Values] with one value per key, filled by [Add] from a map. *)
Definition Values_of (m : gmap string string) : Values := (fun x => [x]) <$> m.

(** ** Rejected queries have an error *)

Lemma bad_escape_spec l : bad_escape l = None <-> is_Some (unescape l).
Proof.
  induction l as [l IH] using (induction_ltof1 _ (@length Z)). unfold ltof in IH.
  destruct l as [|b r]; [split; [eauto|done]|].
  destruct (decide (b = 37)) as [->|Hb].
  - destruct r as [|h [|k r']]; [split; [done|intros [? ?]; done]..|].
    cbn [bad_escape unescape].
    destruct (unhex h) as [x|]; [|split; [done|intros [? ?]; done]].
    destruct (unhex k) as [y|]; [|split; [done|intros [? ?]; done]].
    cbn [mbind option_bind]. rewrite (IH r') by (cbn; lia).
    destruct (unescape r'); cbn; split; intros [? ?]; eauto; done.
  - assert (bad_escape (b :: r) = bad_escape r) as ->.
    { cbn [bad_escape]. repeat (destruct b as [|b|b]; try done). }
    rewrite (IH r) by (cbn; lia).
    assert (is_Some (unescape (b :: r)) <-> is_Some (unescape r)) as ->; [|done].
    destruct (decide (b = 43)) as [->|Hb'].
    { cbn [unescape]. destruct (unescape r); cbn; split; intros [? ?]; eauto; done. }
    replace (unescape (b :: r)) with (t ← unescape r; Some (b :: t)).
    { destruct (unescape r); cbn; split; intros [? ?]; eauto; done. }
    cbn [unescape]. repeat (destruct b as [|b|b]; try done).
Qed.

Lemma pair_error_spec key m : pair_error key = None <-> is_Some (parse_pair key m).
Proof.
  unfold pair_error, parse_pair. destruct (Contains 59 key); [split; [done|intros [? ?]; done]|].
  destruct key as [|b r]; [cbn; split; eauto|].
  destruct (Cut 61 (b :: r)) as [[k v] f].
  pose proof (bad_escape_spec k) as Hk. pose proof (bad_escape_spec v) as Hv.
  destruct (bad_escape k), (unescape k) as [k'|]; cbn;
    [discriminate (proj2 Hk (ex_intro _ _ eq_refl))|split; [done|intros [? ?]; done]
    | |destruct (proj1 Hk eq_refl); discriminate].
  destruct (bad_escape v), (unescape v) as [v'|]; cbn;
    [discriminate (proj2 Hv (ex_intro _ _ eq_refl))|split; [done|intros [? ?]; done]
    |split; eauto|destruct (proj1 Hv eq_refl); discriminate].
Qed.

Lemma parseQuery_bad f q m bad :
  snd (parseQuery f q m bad) = false -> bad = false.
Proof.
  revert q m bad. induction f as [|f IH]; intros q m bad; [done|]. cbn [parseQuery].
  destruct q as [|b q]; [done|]. destruct (Cut 38 (b :: q)) as [[key q'] fl].
  destruct (parse_pair key m); intros H%IH; done.
Qed.

Lemma query_error_spec f q m : query_error f q = None <-> snd (parseQuery f q m false) = false.
Proof.
  revert q m. induction f as [|f IH]; intros q m; [done|]. cbn [parseQuery query_error].
  destruct q as [|b q]; [done|]. destruct (Cut 38 (b :: q)) as [[key q'] fl].
  pose proof (pair_error_spec key m) as Hp.
  destruct (pair_error key) as [e|], (parse_pair key m) as [m'|].
  - discriminate (proj2 Hp (ex_intro _ _ eq_refl)).
  - split; [done|]. by intros H%parseQuery_bad.
  - apply IH.
  - destruct (proj1 Hp eq_refl); discriminate.
Qed.

(** [ParseQuery_err] is an error exactly when [ParseQuery] reports one. *)
Lemma ParseQuery_err_spec s : ParseQuery_err s = None <-> snd (ParseQuery s) = false.
Proof. apply query_error_spec. Qed.

Lemma parseQuery_nonempty f q m bad :
  (forall k, m !! k <> Some []) -> forall k, fst (parseQuery f q m bad) !! k <> Some [].
Proof.
  revert q m bad. induction f as [|f IH]; intros q m bad Hm; [done|]. cbn [parseQuery].
  destruct q as [|b q]; [done|]. destruct (Cut 38 (b :: q)) as [[key q'] fl].
  destruct (parse_pair key m) as [m'|] eqn:Hp; apply IH; [|done].
  unfold parse_pair in Hp. destruct (Contains 59 key); [done|]. destruct key; [by injection Hp as <-|].
  destruct (Cut 61 _) as [[k v] fl']. destruct (unescape k) as [k'|]; [|done].
  cbn in Hp. destruct (unescape v) as [v'|]; [|done]. injection Hp as <-. intros k1.
  destruct (decide (bytes_string k' = k1)) as [<-|Hne].
  - rewrite lookup_insert_eq. intros [= H]. by destruct (default [] _).
  - by rewrite lookup_insert_ne.
Qed.

Lemma ParseQuery_nonempty s k : fst (ParseQuery s) !! k <> Some [].
Proof. apply parseQuery_nonempty. intros k'. by rewrite lookup_empty. Qed.

(** ** Values with one value per key print like metadata *)

Lemma first_values_Get v :
  (forall k, v !! k <> Some []) -> first_values v = map_imap (fun k _ => Some (Values_Get v k)) v.
Proof.
  intros Hne. apply map_eq. intros k. unfold first_values. rewrite !map_lookup_imap.
  unfold Values_Get. destruct (v !! k) as [[|x l]|] eqn:E; cbn; [by destruct (Hne k)|done|done].
Qed.

Lemma Values_of_keys m : (fst <$> map_to_list (Values_of m)) = (fst <$> map_to_list m).
Proof.
  unfold Values_of. rewrite map_to_list_fmap, <- list_fmap_compose.
  apply list_fmap_ext. by intros i [k x] _.
Qed.

Lemma Values_Encode_of m : Values_Encode (Values_of m) = ConvertMap2String m.
Proof.
  unfold Values_Encode, ConvertMap2String. rewrite Values_of_keys. do 2 f_equal.
  set (keys := sort_keys _).
  assert (forall k, k ∈ keys -> is_Some (m !! k)) as Hk.
  { intros k. unfold keys, sort_keys. rewrite merge_sort_Permutation.
    intros ([k' x] & -> & Hin)%list_elem_of_fmap. apply elem_of_map_to_list in Hin. eauto. }
  clearbody keys. induction keys as [|k keys IH]; [done|]. cbn [fmap list_fmap].
  rewrite bind_cons. rewrite IH by (intros; apply Hk; by constructor).
  destruct (Hk k) as [x Hx]; [by constructor|].
  unfold Values_of. rewrite lookup_fmap, Hx. done.
Qed.
