(* ===== verification/NetIP.v ===== *)
(** The part of Go's [net] and [net/netip] that the address lists use: [net.ParseIP] and
    [Contains] of [net.IPNet]. Addresses are lists of bytes, as [net.IP] is. *)

From S2P Require Import Prelude GoStd.

(** ** Parsing *)

Definition dec_digit (b : Z) : option Z := if (48 <=? b) && (b <=? 57) then Some (b - 48) else None.

Definition hex_digit (b : Z) : option Z :=
  if (48 <=? b) && (b <=? 57) then Some (b - 48)
  else if (97 <=? b) && (b <=? 102) then Some (b - 87)
  else if (65 <=? b) && (b <=? 70) then Some (b - 55)
  else None.

(** [parseIPv4Fields]: [cur] is the field being read, [None] before its first digit; a field
    has no leading zero and is at most 255. *)
Fixpoint parseIPv4Fields (l : bytes) (fields : list Z) (cur : option Z) : option bytes :=
  match l with
  | [] =>
      match cur with
      | Some v => if decide (length fields = 3%nat) then Some (fields ++ [v]) else None
      | None => None
      end
  | b :: l =>
      match dec_digit b with
      | Some d =>
          match cur with
          | Some 0 => None
          | Some v => if v * 10 + d >? 255 then None else parseIPv4Fields l fields (Some (v * 10 + d))
          | None => parseIPv4Fields l fields (Some d)
          end
      | None =>
          if b =? 46 then
            match cur with
            | Some v => if decide (length fields = 3%nat) then None else parseIPv4Fields l (fields ++ [v]) None
            | None => None
            end
          else None
      end
  end.

(** The digits of a group: at most four. *)
Fixpoint hex_group (n : nat) (l : bytes) (acc : Z) : option (Z * bytes) :=
  match l with
  | [] => Some (acc, [])
  | b :: r =>
      match hex_digit b with
      | None => Some (acc, l)
      | Some d => match n with O => None | S n => hex_group n r (Z.shiftl acc 4 + d) end
      end
  end.

(** The loop of [parseIPv6] over the groups, [done] bytes already filled; [fuel] bounds the
    groups. [ell] is the position of the [::]. *)
Fixpoint parseIPv6_loop (fuel : nat) (s : bytes) (filled : bytes) (ell : option nat) :
    option (bytes * option nat * bytes) :=
  match fuel with
  | O => Some (filled, ell, s)
  | S fuel =>
      match hex_group 4 s 0 with
      | None => None
      | Some (acc, r) =>
          if decide (length r = length s) then None
          else
            match r with
            | [] => Some (filled ++ [Z.shiftr acc 8; Z.land acc 255], ell, [])
            | c :: r =>
                if c =? 46 then
                  match ell with
                  | None => if decide (length filled = 12%nat) then
                              (fun v4 => (filled ++ v4, ell, [])) <$> parseIPv4Fields s [] None
                            else None
                  | Some _ => if decide (length filled + 4 <= 16)%nat then
                                (fun v4 => (filled ++ v4, ell, [])) <$> parseIPv4Fields s [] None
                              else None
                  end
                else if negb (c =? 58) then None
                else
                  let filled := filled ++ [Z.shiftr acc 8; Z.land acc 255] in
                  match r with
                  | [] => None
                  | c' :: r' =>
                      if c' =? 58 then
                        match ell with
                        | Some _ => None
                        | None =>
                            match r' with
                            | [] => Some (filled, Some (length filled), [])
                            | _ => parseIPv6_loop fuel r' filled (Some (length filled))
                            end
                        end
                      else parseIPv6_loop fuel r filled ell
                  end
            end
      end
  end.

(** [parseIPv6] of a text without a zone. *)
Definition parseIPv6 (s : bytes) : option bytes :=
  let '(s, ell) := match s with
                   | 58 :: 58 :: r => (r, Some 0%nat)
                   | _ => (s, None)
                   end in
  if bool_decide (s = []) && bool_decide (ell = Some 0%nat) then Some (replicate 16 0)
  else
    match parseIPv6_loop 8 s [] ell with
    | Some (filled, ell, []) =>
        if decide (length filled < 16)%nat then
          match ell with
          | Some e => Some (take e filled ++ replicate (16 - length filled) 0 ++ drop e filled)
          | None => None
          end
        else match ell with Some _ => None | None => Some filled end
    | _ => None
    end.

Definition v4InV6Prefix : bytes := replicate 10 0 ++ [255; 255].

(** [net.ParseIP]: the first of the bytes [.], [:] and [%] decides the form; an address with a
    zone is no IP. An IPv4 address has its 16-byte form. *)
Definition ParseIP (s : bytes) : option bytes :=
  match list_find (fun b => b = 46 \/ b = 58 \/ b = 37) s with
  | Some (_, 46) => (fun v4 => v4InV6Prefix ++ v4) <$> parseIPv4Fields s [] None
  | Some (_, 58) => if bool_decide (37 ∈ s) then None else parseIPv6 s
  | _ => None
  end.

(** ** Networks *)

Record IPNet := MkNet { n_IP : bytes; n_Mask : bytes }.

Definition To4 (ip : bytes) : option bytes :=
  if decide (length ip = 4%nat) then Some ip
  else if decide (length ip = 16%nat) then
    if decide (take 12 ip = v4InV6Prefix) then Some (drop 12 ip) else None
  else None.

Definition allFF (b : bytes) : bool := forallb (fun x => x =? 255) b.

(** [networkNumberAndMask]; nil is the empty list. *)
Definition networkNumberAndMask (n : IPNet) : bytes * bytes :=
  match match To4 (n_IP n) with
        | Some ip => Some ip
        | None => if decide (length (n_IP n) = 16%nat) then Some (n_IP n) else None
        end with
  | None => ([], [])
  | Some ip =>
      let m := n_Mask n in
      if decide (length m = 4%nat) then (if decide (length ip = 4%nat) then (ip, m) else ([], []))
      else if decide (length m = 16%nat) then
        (if decide (length ip = 4%nat) then (ip, drop 12 m) else (ip, m))
      else ([], [])
  end.

(** [Contains]; a nil address is [None]. *)
Definition Contains_ip (n : IPNet) (ip : option bytes) : bool :=
  let '(nn, m) := networkNumberAndMask n in
  let ip := default [] ip in
  let ip := default ip (To4 ip) in
  bool_decide (length ip = length nn) &&
  forallb (fun '(a, (b, k)) => Z.land a k =? Z.land b k) (zip nn (zip ip m)).

(** [net.CIDRMask]. *)
Fixpoint CIDRMask (ones len : nat) : bytes :=
  match len with
  | O => []
  | S len =>
      if (8 <=? ones)%nat then 255 :: CIDRMask (ones - 8) len
      else (256 - 2 ^ (8 - Z.of_nat ones)) mod 256 :: CIDRMask 0 len
  end.

Example ParseIP_v4 : ParseIP (string_bytes "172.17.0.9") = Some (v4InV6Prefix ++ [172; 17; 0; 9]).
Proof. reflexivity. Qed.
Example ParseIP_leading_zero : ParseIP (string_bytes "172.017.0.9") = None.
Proof. reflexivity. Qed.
Example ParseIP_v6 : ParseIP (string_bytes "fe80::1:2") = Some ([254; 128] ++ replicate 10 0 ++ [0; 1; 0; 2]).
Proof. reflexivity. Qed.
Example ParseIP_mapped : ParseIP (string_bytes "::ffff:1.2.3.4") = Some (v4InV6Prefix ++ [1; 2; 3; 4]).
Proof. reflexivity. Qed.
Example ParseIP_full : ParseIP (string_bytes "1:2:3:4:5:6:7:8") =
  Some [0; 1; 0; 2; 0; 3; 0; 4; 0; 5; 0; 6; 0; 7; 0; 8].
Proof. reflexivity. Qed.
Example ParseIP_bad : ParseIP <$> (string_bytes <$> ["1:2:3"; "1::2::3"; "1.2.3"; "12345::"; "g::"; "1:2:3:4:5:6:7::8"; "::1:"; ""]%string)
  = [None; None; None; None; None; None; None; None].
Proof. reflexivity. Qed.
