(* ===== verification/Share.v ===== *)
(** The share and errors packages: FNV hashing (share/hash.go), the request context with its
    shared metadata maps and their locks (share/context.go), collected errors
    (errors/error.go). *)

From S2P Require Import Prelude.

(** ** share/hash.go *)

(** [fnv.New64a]: offset basis, then for every byte exclusive or and multiplication. *)
Definition fnv64a (h : Z) (l : bytes) : Z :=
  foldl (fun h b => u64 (Z.lxor h b * 1099511628211)) h l.

Definition HashString (s : string) : Z := fnv64a 14695981039346656037 (string_bytes s).

Lemma HashString_range s : 0 <= HashString s < 2 ^ 64.
Proof.
  unfold HashString, fnv64a. generalize (string_bytes s) as l. intros l.
  induction l as [|b l _] using rev_ind; [cbn; lia|].
  rewrite foldl_app. cbn [foldl]. by apply wrap_range.
Qed.

(** ** errors/error.go *)

Definition NewMultiError (es : list error) : list error := es.
Definition MultiError_Append (es : list error) (e : error) : list error := es ++ [e].
Definition MultiError_ErrorOrNil (es : option (list error)) : option error :=
  match es with
  | None | Some [] => None
  | Some l => Some (MultiError l)
  end.

(** ** share/context.go

    Locations and locks are numbers drawn from one counter. A metadata map lives at a
    location of [metas]; the tags of a [*Context], which are mutable, at one of [tagss]. *)

Inductive key := KString (s : string) | KContextKey (s : string).

Global Instance key_eq_dec : EqDecision key.
Proof. solve_decision. Defined.

Global Instance key_countable : Countable key.
Proof.
  refine (inj_countable'
    (fun k => match k with KString s => (true, s) | KContextKey s => (false, s) end)
    (fun p => match p with (true, s) => KString s | (false, s) => KContextKey s end) _).
  by intros [].
Defined.

(** [VMeta None] is a nil [map[string]string]. *)
Inductive value := VNil | VBool (b : bool) | VLock (l : nat) | VMeta (m : option nat) | VOther (s : string).

(** A context is the chain of its wrappers; [ShareContext tags lock parent] is a [*Context]
    and [CancelCtx] what [WithCancel], [WithTimeout] and the like return. *)
Inductive context :=
  | Background
  | ValueCtx (parent : context) (k : key) (v : value)
  | CancelCtx (parent : context)
  | ShareContext (tags lock : nat) (parent : context).

(** An access to a metadata map: the lock held, the map, and whether it is a write. *)
Record access := Access { a_lock : option nat; a_map : nat; a_write : bool }.

Record heap := Heap {
  metas : gmap nat (gmap string string);
  tagss : gmap nat (gmap key value);
  next_loc : nat;
  accesses : list access;
}.

Definition ReqMetaDataKey := KContextKey "__req_metadata".
Definition ResMetaDataKey := KContextKey "__res_metadata".
Definition ContextTagsLock := KString "_tagsLock".
Definition isShareContext := KString "_isShareContext".

Definition put_meta (l : nat) (m : gmap string string) (h : heap) : heap :=
  Heap (<[l := m]> (metas h)) (tagss h) (next_loc h) (accesses h).
Definition put_tags (l : nat) (t : gmap key value) (h : heap) : heap :=
  Heap (metas h) (<[l := t]> (tagss h)) (next_loc h) (accesses h).
Definition log (lock : option nat) (l : nat) (w : bool) (h : heap) : heap :=
  Heap (metas h) (tagss h) (next_loc h) (accesses h ++ [Access lock l w]).
Definition alloc : Go heap nat := fun h =>
  (Heap (metas h) (tagss h) (S (next_loc h)) (accesses h), Ok (next_loc h)).

Definition tags_at (h : heap) (t : nat) : gmap key value := default ∅ (tagss h !! t).
Definition meta_at (h : heap) (l : nat) : gmap string string := default ∅ (metas h !! l).

(** [ctx.Value(key)] of any context. *)
Fixpoint Value (h : heap) (c : context) (k : key) : option value :=
  match c with
  | Background => None
  | ValueCtx p k' v => if decide (k = k') then Some v else Value h p k
  | CancelCtx p => Value h p k
  | ShareContext t _ p =>
      match tags_at h t !! k with
      | Some v => Some v
      | None => Value h p k
      end
  end.

Definition NewContext (ctx : context) : Go heap context :=
  lock ← alloc;
  t ← alloc;
  _ ← modify (put_tags t {[isShareContext := VBool true]});
  mret (ShareContext t lock (ValueCtx ctx ContextTagsLock (VLock lock))).

Definition SetValue (t : nat) (k : key) (v : value) : Go heap unit :=
  modify (fun h => put_tags t (<[k := v]> (tags_at h t)) h).

(** [DeleteKey(nil)] does nothing. *)
Definition DeleteKey (t : nat) (k : option key) : Go heap unit :=
  match k with
  | None => mret tt
  | Some k => modify (fun h => put_tags t (delete k (tags_at h t)) h)
  end.

(** The location of the request metadata seen from a [*Context], [None] for a nil map. *)
Definition getReqMetaData (t : nat) (p : context) : Go heap (option nat) := fun h =>
  match tags_at h t !! ReqMetaDataKey with
  | Some (VMeta m) => (h, Ok m)
  | Some _ => (h, Panic "interface conversion")
  | None =>
      match Value h p ReqMetaDataKey with
      | Some (VMeta m) => (h, Ok m)
      | _ => (h, Ok None)
      end
  end.

Definition GetReqMetaDataByKey (t lock : nat) (p : context) (k : string) : Go heap string :=
  m ← getReqMetaData t p;
  match m with
  | None => mret ""%string
  | Some l =>
      _ ← modify (log (Some lock) l false);
      h ← get; mret (default ""%string (meta_at h l !! k))
  end.

(** The keys come in the map's iteration order; [GetAllReqMetaDataKeys] is their set. *)
Definition GetAllReqMetaDataKeys (t lock : nat) (p : context) : Go heap (gset string) :=
  m ← getReqMetaData t p;
  match m with
  | None => mret ∅
  | Some l =>
      _ ← modify (log (Some lock) l false);
      h ← get; mret (dom (meta_at h l))
  end.

(** A copy of the map at [l], made while [lock] is held. *)
Definition copyMeta (lock : option nat) (l : nat) : Go heap nat :=
  _ ← modify (log lock l false);
  cp ← alloc;
  _ ← modify (fun h => put_meta cp (meta_at h l) h);
  mret cp.

Definition CopyReqMetaData (t lock : nat) (p : context) : Go heap (option nat) :=
  m ← getReqMetaData t p;
  match m with
  | None => mret None
  | Some l => cp ← copyMeta (Some lock) l; mret (Some cp)
  end.

Definition CopyReqMetaDataFromContext (ctx : context) : Go heap (option nat) :=
  match ctx with
  | ShareContext t lock p => CopyReqMetaData t lock p
  | _ =>
      h ← get;
      match Value h ctx ReqMetaDataKey with
      | Some (VMeta (Some l)) =>
          let lk := match Value h ctx ContextTagsLock with
                    | Some (VLock lk) => Some lk
                    | _ => None
                    end in
          cp ← copyMeta lk l; mret (Some cp)
      | _ => mret None
      end
  end.

Definition SetReqMetaData (t lock : nat) (p : context) (k v : string) : Go heap unit :=
  m ← getReqMetaData t p;
  l ← match m with
      | Some l => mret l
      | None =>
          l ← alloc;
          _ ← modify (put_meta l ∅);
          _ ← modify (fun h => put_tags t (<[ReqMetaDataKey := VMeta (Some l)]> (tags_at h t)) h);
          mret l
      end;
  _ ← modify (log (Some lock) l true);
  modify (fun h => put_meta l (<[k := v]> (meta_at h l)) h).

(** [WithValue]: a [*Context] with a lock of its own, which the chain does not carry. A nil
    key panics (every key modelled here is comparable). *)
Definition WithValue (parent : context) (k : option key) (v : value) : Go heap context :=
  match k with
  | None => panic "nil key"
  | Some k =>
      t ← alloc;
      lock ← alloc;
      _ ← modify (put_tags t {[k := v]});
      mret (ShareContext t lock parent)
  end.

Definition WithLocalValue (t : nat) (k : option key) (v : value) : Go heap unit :=
  match k with
  | None => panic "nil key"
  | Some k => modify (fun h => put_tags t (<[k := v]> (tags_at h t)) h)
  end.

Definition IsShareContext (h : heap) (c : context) : bool :=
  match Value h c isShareContext with
  | None | Some VNil => false
  | Some _ => true
  end.

(** ** Reads after writes, and snapshots *)

(** The metadata visible from a [*Context], [None] when there is none. *)
Definition visible (h : heap) (t : nat) (p : context) : option (gmap string string) :=
  match getReqMetaData t p h with
  | (_, Ok (Some l)) => Some (meta_at h l)
  | _ => None
  end.

(** The metadata a context chain resolves to is a map, not something else, and every
    location in use is below the counter. *)
Definition well_typed (h : heap) (t : nat) (p : context) : Prop :=
  (forall v, tags_at h t !! ReqMetaDataKey = Some v -> exists m, v = VMeta m) /\
  (forall l, snd (getReqMetaData t p h) = Ok (Some l) -> (l < next_loc h)%nat) /\
  (forall l m, metas h !! l = Some m -> (l < next_loc h)%nat).

Lemma getReqMetaData_ok h t p :
  well_typed h t p -> exists m, getReqMetaData t p h = (h, Ok m).
Proof.
  intros [Hm _]. unfold getReqMetaData.
  destruct (tags_at h t !! ReqMetaDataKey) as [v|] eqn:E.
  - destruct (Hm v eq_refl) as [m ->]. eauto.
  - destruct (Value h p ReqMetaDataKey) as [[]|]; eauto.
Qed.

Lemma tags_at_put h t x : tags_at (put_tags t x h) t = x.
Proof. unfold tags_at, put_tags. cbn. by rewrite lookup_insert_eq. Qed.

Lemma meta_at_put h l m : meta_at (put_meta l m h) l = m.
Proof. unfold meta_at, put_meta. cbn. by rewrite lookup_insert_eq. Qed.

(** Where [SetReqMetaData] leaves the heap. *)
Lemma SetReqMetaData_run h t lock p k v :
  well_typed h t p ->
  exists h' l,
    SetReqMetaData t lock p k v h = (h', Ok tt) /\
    getReqMetaData t p h' = (h', Ok (Some l)) /\
    meta_at h' l = <[k := v]> (default ∅ (visible h t p)) /\
    (forall l', l' <> l -> metas h' !! l' = metas h !! l') /\
    accesses h' = accesses h ++ [Access (Some lock) l true] /\
    (snd (getReqMetaData t p h) = Ok (Some l) \/
     snd (getReqMetaData t p h) = Ok None /\ l = next_loc h /\
     tags_at h' t !! ReqMetaDataKey = Some (VMeta (Some l))).
Proof.
  intros Hwt. destruct (getReqMetaData_ok h t p Hwt) as [m Hg].
  unfold SetReqMetaData. rewrite (go_bind_Ok _ _ _ _ _ Hg).
  unfold visible. rewrite Hg. destruct m as [l|].
  - eexists _, l. split; [reflexivity|]. cbn [fst snd default].
    split_and!.
    + unfold getReqMetaData in *. cbn. unfold tags_at in *. cbn.
      destruct (default ∅ (tagss h !! t) !! ReqMetaDataKey) as [[]|]; simplify_eq; try done.
      assert (Value _ p ReqMetaDataKey = Value h p ReqMetaDataKey) as ->.
      { clear. induction p; cbn; try done. by rewrite IHp. by rewrite IHp. }
      destruct (Value h p ReqMetaDataKey) as [[]|]; simplify_eq; done.
    + by rewrite meta_at_put.
    + intros l' Hl. cbn. by rewrite lookup_insert_ne.
    + done.
    + by left.
  - eexists _, (next_loc h). split; [reflexivity|]. cbn [default].
    split_and!.
    + unfold getReqMetaData. cbn. unfold tags_at. cbn. rewrite lookup_insert_eq. cbn.
      by rewrite lookup_insert_eq.
    + unfold meta_at. cbn. rewrite lookup_insert_eq. cbn. by rewrite lookup_insert_eq.
    + intros l' Hl. cbn. by rewrite !lookup_insert_ne.
    + done.
    + right. split_and!; [done|done|]. unfold tags_at. cbn. rewrite lookup_insert_eq. cbn.
      by rewrite lookup_insert_eq.
Qed.

Lemma GetReqMetaDataByKey_run h t lock p k l :
  getReqMetaData t p h = (h, Ok (Some l)) ->
  snd (GetReqMetaDataByKey t lock p k h) = Ok (default ""%string (meta_at h l !! k)).
Proof. intros Hg. unfold GetReqMetaDataByKey. by rewrite (go_bind_Ok _ _ _ _ _ Hg). Qed.

(** Request metadata set on a context is what a later read of that key returns, every
    other key still reads as before, and the map that is written is the only one changed,
    even when it belongs to an outer context and is shared. *)
Theorem SetReqMetaData_get h t lock p k v h' :
  well_typed h t p ->
  SetReqMetaData t lock p k v h = (h', Ok tt) ->
  (forall k', snd (GetReqMetaDataByKey t lock p k' h') =
     Ok (if decide (k' = k) then v else default ""%string (default ∅ (visible h t p) !! k'))) /\
  exists l, forall l', l' <> l -> metas h' !! l' = metas h !! l'.
Proof.
  intros Hwt Hrun.
  destruct (SetReqMetaData_run h t lock p k v Hwt) as (h2 & l & Hr & Hg & Hm & Ho & _).
  rewrite Hr in Hrun. simplify_eq. split; [|eauto].
  intros k'. erewrite GetReqMetaDataByKey_run by done. rewrite Hm.
  case_decide; simplify_map_eq; done.
Qed.

Lemma SetReqMetaData_get_witness :
  let h := Heap ∅ {[ 1%nat := {[isShareContext := VBool true]} ]} 2 [] in
  let h' := fst (SetReqMetaData 1 0 Background "k" "v" h) in
  (forall k', snd (GetReqMetaDataByKey 1 0 Background k' h') =
    Ok (if decide (k' = "k"%string) then "v"%string
        else default ""%string (default ∅ (visible h 1 Background) !! k'))) /\
  exists l, forall l', l' <> l -> metas h' !! l' = metas h !! l'.
Proof.
  intros h h'. apply (SetReqMetaData_get h 1 0 Background "k" "v" h'); [|reflexivity].
  split; [|split].
  - intros v. vm_compute. congruence.
  - intros l. vm_compute. congruence.
  - intros l m. vm_compute. congruence.
Defined.

(** *** Snapshots *)

(** No context of the heap, nor the chain [p], refers to the map at [l]. *)
Definition heap_unref (l : nat) (h : heap) : Prop :=
  forall t k, tags_at h t !! k <> Some (VMeta (Some l)).

Fixpoint ctx_unref (l : nat) (p : context) : Prop :=
  match p with
  | Background => True
  | ValueCtx p _ v => v <> VMeta (Some l) /\ ctx_unref l p
  | CancelCtx p | ShareContext _ _ p => ctx_unref l p
  end.

Lemma Value_unref l h p k :
  heap_unref l h -> ctx_unref l p -> Value h p k <> Some (VMeta (Some l)).
Proof.
  intros Hh. induction p as [|p IH k' v|p IH|t lk p IH]; cbn; [done| |done|].
  - intros [Hv Hp]. case_decide; [congruence|by apply IH].
  - intros Hp. destruct (tags_at h t !! k) as [v|] eqn:E; [|by apply IH].
    intros [= ->]. by apply (Hh t k).
Qed.

Lemma getReqMetaData_unref l h t p :
  heap_unref l h -> ctx_unref l p -> snd (getReqMetaData t p h) <> Ok (Some l).
Proof.
  intros Hh Hp. unfold getReqMetaData. pose proof (Value_unref l h p ReqMetaDataKey Hh Hp) as HV.
  revert HV. generalize (Value h p ReqMetaDataKey) as o. intros o HV.
  pose proof (Hh t ReqMetaDataKey) as HT. revert HT.
  generalize (tags_at h t !! ReqMetaDataKey) as o'. intros [[]|] HT; cbn; try congruence.
  destruct o as [[]|]; cbn; congruence.
Qed.

(** A write through a context that does not hold [l] leaves the map at [l] alone. *)
Lemma SetReqMetaData_unref l h t lock p k v h' r :
  heap_unref l h -> ctx_unref l p -> (l < next_loc h)%nat ->
  SetReqMetaData t lock p k v h = (h', r) ->
  meta_at h' l = meta_at h l /\ heap_unref l h' /\ (l < next_loc h')%nat.
Proof.
  intros Hh Hp Hl Hrun. pose proof (getReqMetaData_unref l h t p Hh Hp) as Hg.
  assert (fst (getReqMetaData t p h) = h) as Hst.
  { unfold getReqMetaData. destruct (tags_at h t !! ReqMetaDataKey) as [[]|]; try done.
    by destruct (Value h p ReqMetaDataKey) as [[]|]. }
  unfold SetReqMetaData in Hrun. unfold mbind at 1, go_bind in Hrun.
  destruct (getReqMetaData t p h) as [h0 [[l'|]|e|w]] eqn:E; cbn in Hst; subst h0.
  - gocbn_in Hrun. simplify_eq. cbn in Hg.
    split_and!; [|exact Hh|exact Hl]. unfold meta_at. cbn.
    rewrite lookup_insert_ne; [done|congruence].
  - gocbn_in Hrun. simplify_eq. split_and!; [| |cbn; lia].
    + unfold meta_at. cbn. rewrite !lookup_insert_ne by lia. done.
    + intros t' k'. unfold tags_at. cbn. destruct (decide (t' = t)) as [->|Hne].
      * rewrite lookup_insert_eq. cbn. destruct (decide (k' = ReqMetaDataKey)) as [->|Hk].
        -- rewrite lookup_insert_eq. intros [= Hx]. lia.
        -- rewrite lookup_insert_ne by done. apply (Hh t).
      * rewrite lookup_insert_ne by done. apply (Hh t').
  - by simplify_eq.
  - by simplify_eq.
Qed.

(** A sequence of writes, each through a context of its own. *)
Record mwrite := MWrite { w_tags : nat; w_lock : nat; w_parent : context; w_key : string; w_val : string }.

Definition do_writes (ws : list mwrite) (h : heap) : heap :=
  foldl (fun h w => fst (SetReqMetaData (w_tags w) (w_lock w) (w_parent w) (w_key w) (w_val w) h))
    h ws.

Lemma do_writes_unref l ws h :
  heap_unref l h -> (l < next_loc h)%nat -> Forall (fun w => ctx_unref l (w_parent w)) ws ->
  meta_at (do_writes ws h) l = meta_at h l.
Proof.
  intros Hh Hl Hws. revert h Hh Hl. induction Hws as [|w ws Hw _ IH]; intros h Hh Hl; [done|].
  unfold do_writes in *. cbn [foldl].
  destruct (SetReqMetaData (w_tags w) _ _ _ _ h) as [h' r] eqn:E. cbn [fst].
  destruct (SetReqMetaData_unref l h _ _ _ _ _ h' r Hh Hw Hl E) as (Hm & Hh' & Hl').
  by rewrite IH.
Qed.

(** The locations a heap or a chain mentions are below the counter. *)
Definition bounded (h : heap) : Prop :=
  forall t k l, tags_at h t !! k = Some (VMeta (Some l)) -> (l < next_loc h)%nat.

Lemma copyMeta_run lk l h :
  copyMeta lk l h =
  (Heap (<[next_loc h := meta_at h l]> (metas h)) (tagss h) (S (next_loc h))
     (accesses h ++ [Access lk l false]), Ok (next_loc h)).
Proof. reflexivity. Qed.

Lemma copy_fresh ctx h h1 cp :
  CopyReqMetaDataFromContext ctx h = (h1, Ok (Some cp)) ->
  cp = next_loc h /\ next_loc h1 = S (next_loc h) /\ tagss h1 = tagss h /\
  exists l, Value h ctx ReqMetaDataKey = Some (VMeta (Some l)) /\
            metas h1 = <[cp := meta_at h l]> (metas h).
Proof.
  assert (forall lk l, (copyMeta lk l ≫= fun cp => mret (Some cp)) h = (h1, Ok (Some cp)) ->
    cp = next_loc h /\ next_loc h1 = S (next_loc h) /\ tagss h1 = tagss h /\
    metas h1 = <[cp := meta_at h l]> (metas h)) as Hcp.
  { intros lk l. rewrite (go_bind_Ok _ _ _ _ _ (copyMeta_run lk l h)). by intros [= <- <-]. }
  unfold CopyReqMetaDataFromContext. intros H.
  destruct ctx as [|p k v|p|t lk p]; [done| | |].
  1,2: unfold mbind at 1, go_bind, get in H; cbv beta iota in H.
  1,2: match type of H with context [Value ?h ?c ReqMetaDataKey] =>
         revert H; generalize (Value h c ReqMetaDataKey) end.
  1,2: intros [[| | |[l|]|]|] H; try done; apply Hcp in H; naive_solver.
  unfold CopyReqMetaData, getReqMetaData in H. unfold mbind at 1, go_bind in H. cbn [Value].
  destruct (tags_at h t !! ReqMetaDataKey) as [[| | |[l|]|]|]; try done;
    [apply Hcp in H; naive_solver|].
  destruct (Value h p ReqMetaDataKey) as [[| | |[l|]|]|]; try done. apply Hcp in H. naive_solver.
Qed.

(** The map a client takes from its context before sending is a snapshot: it has the
    contents the context shows at that moment, and no later write through any context that
    existed then changes it, in whatever order the writes come. *)
Theorem copy_is_snapshot ctx h h1 cp ws :
  bounded h ->
  CopyReqMetaDataFromContext ctx h = (h1, Ok (Some cp)) ->
  Forall (fun w => ctx_unref cp (w_parent w)) ws ->
  exists l, Value h ctx ReqMetaDataKey = Some (VMeta (Some l)) /\
    meta_at (do_writes ws h1) cp = meta_at h l.
Proof.
  intros Hb Hc Hws. destruct (copy_fresh _ _ _ _ Hc) as (-> & Hn & Ht & l & Hv & Hm).
  exists l. split; [done|]. rewrite do_writes_unref; [|..|lia|done].
  - unfold meta_at. by rewrite Hm, lookup_insert_eq.
  - intros t k Hx. unfold tags_at in Hx. rewrite Ht in Hx. apply Hb in Hx. lia.
Qed.

Lemma copy_is_snapshot_witness :
  let h := Heap {[5%nat := {["a"%string := "b"%string]}]}
             {[ 1%nat := {[ReqMetaDataKey := VMeta (Some 5%nat)]} ]} 6 [] in
  let c := ShareContext 1 0 Background in
  exists l, Value h c ReqMetaDataKey = Some (VMeta (Some l)) /\
    meta_at (do_writes [MWrite 1 0 Background "a" "z"]
               (fst (CopyReqMetaDataFromContext c h))) 6 = meta_at h l.
Proof.
  intros h c.
  apply (copy_is_snapshot c h (fst (CopyReqMetaDataFromContext c h)) 6
           [MWrite 1 0 Background "a" "z"]); [|reflexivity|repeat constructor].
  intros t k l. unfold tags_at, h. cbn. destruct (decide (t = 1%nat)) as [->|Ht].
  - rewrite lookup_singleton_eq. cbn. intros H. apply lookup_singleton_Some in H as [_ [= <-]].
    cbn. lia.
  - rewrite lookup_singleton_ne by done. cbn. rewrite lookup_empty. congruence.
Defined.

(** *** Which lock protects the metadata *)

(** Contexts wrapped around [c] without touching the keys the package uses. *)
Inductive derived (c : context) : context -> Prop :=
  | derived_self : derived c c
  | derived_cancel d : derived c d -> derived c (CancelCtx d)
  | derived_value d k v :
      derived c d -> k <> ReqMetaDataKey -> k <> ContextTagsLock -> derived c (ValueCtx d k v).

(** What goroutines do with a context and with the contexts derived from it. *)
Inductive meta_op := OSet (k v : string) | OGet (k : string) | OKeys | OCopy (d : context).

Definition do_op (t lock : nat) (p : context) (o : meta_op) (h : heap) : heap :=
  match o with
  | OSet k v => fst (SetReqMetaData t lock p k v h)
  | OGet k => fst (GetReqMetaDataByKey t lock p k h)
  | OKeys => fst (GetAllReqMetaDataKeys t lock p h)
  | OCopy d => fst (CopyReqMetaDataFromContext d h)
  end.

Definition do_ops (t lock : nat) (p : context) (os : list meta_op) (h : heap) : heap :=
  foldl (fun h o => do_op t lock p o h) h os.

(** The accesses a heap adds to those of [h0] all hold [lock], and the chain still finds
    the lock under its key. *)
Definition disciplined (h0 : heap) (t lock : nat) (h : heap) : Prop :=
  tags_at h t !! ContextTagsLock = None /\
  exists new, accesses h = accesses h0 ++ new /\ Forall (fun a => a_lock a = Some lock) new.

Lemma disciplined_log h0 t lock h l w m n :
  disciplined h0 t lock h ->
  disciplined h0 t lock (Heap m (tagss h) n (accesses h ++ [Access (Some lock) l w])).
Proof.
  intros [Ht (new & Ha & Hn)]. split; [exact Ht|].
  exists (new ++ [Access (Some lock) l w]). cbn. rewrite Ha, app_assoc. split; [done|].
  apply Forall_app. split; [done|]. by repeat constructor.
Qed.

Lemma derived_lock h t lock p d :
  tags_at h t !! ContextTagsLock = None ->
  derived (ShareContext t lock (ValueCtx p ContextTagsLock (VLock lock))) d ->
  Value h d ContextTagsLock = Some (VLock lock).
Proof.
  intros Ht. induction 1 as [|d _ IH|d k v _ IH Hk1 Hk2]; cbn.
  - by rewrite Ht.
  - done.
  - by rewrite decide_False by done.
Qed.

Lemma getReqMetaData_state t p h : exists r, getReqMetaData t p h = (h, r).
Proof.
  unfold getReqMetaData. destruct (tags_at h t !! ReqMetaDataKey) as [[]|]; eauto.
  destruct (Value h p ReqMetaDataKey) as [[]|]; eauto.
Qed.

Ltac use_getReqMetaData t p h :=
  let r := fresh "r" in let E := fresh "E" in
  destruct (getReqMetaData_state t p h) as [r E];
  unfold mbind at 1, go_bind; rewrite E; destruct r as [[?l|]|?e|?w].

Lemma do_op_disciplined h0 t lock p o h :
  let c := ShareContext t lock (ValueCtx p ContextTagsLock (VLock lock)) in
  (forall d, o = OCopy d -> derived c d) ->
  disciplined h0 t lock h ->
  disciplined h0 t lock (do_op t lock (ValueCtx p ContextTagsLock (VLock lock)) o h).
Proof.
  set (q := ValueCtx p ContextTagsLock (VLock lock)). intros c Hd Hh.
  assert (forall d, derived c d -> disciplined h0 t lock (fst (CopyReqMetaData t lock q h))) as Hcopy.
  { intros _ _. unfold CopyReqMetaData. use_getReqMetaData t q h; try exact Hh.
    exact (disciplined_log h0 t lock h l false _ _ Hh). }
  destruct o as [k v|k| |d]; cbn [do_op].
  - unfold SetReqMetaData. use_getReqMetaData t q h; try exact Hh.
    + exact (disciplined_log h0 t lock h l true _ _ Hh).
    + destruct Hh as [Ht (new & Ha & Hn)]. split.
      * gocbn. unfold tags_at. cbn. rewrite lookup_insert_eq. cbn.
        by rewrite lookup_insert_ne.
      * gocbn. exists (new ++ [Access (Some lock) (next_loc h) true]).
        rewrite Ha, app_assoc. split; [done|]. apply Forall_app. split; [done|].
        by repeat constructor.
  - unfold GetReqMetaDataByKey. use_getReqMetaData t q h; try exact Hh.
    exact (disciplined_log h0 t lock h l false _ _ Hh).
  - unfold GetAllReqMetaDataKeys. use_getReqMetaData t q h; try exact Hh.
    exact (disciplined_log h0 t lock h l false _ _ Hh).
  - specialize (Hd d eq_refl). pose proof (derived_lock h t lock p d (proj1 Hh) Hd) as Hl.
    destruct d as [|d' k v|d'|t' lock' p']; cbn [CopyReqMetaDataFromContext];
      try (unfold mbind at 1, go_bind, get; rewrite Hl);
      lazymatch goal with
      | |- context [Value h ?c ReqMetaDataKey] =>
          destruct (Value h c ReqMetaDataKey) as [[| | |[l|]|]|]; try exact Hh;
          exact (disciplined_log h0 t lock h l false _ _ Hh)
      | _ => idtac
      end.
    inversion Hd; subst. by apply (Hcopy c), derived_self.
Qed.

(** All goroutines that set, read or copy the metadata of a context made by [NewContext],
    directly or through contexts derived from it, access the map holding that context's one
    lock, so that no two of them touch it at the same time. *)
Theorem metadata_one_lock ctx h0 os h1 :
  let t := S (next_loc h0) in
  let lock := next_loc h0 in
  let p := ValueCtx ctx ContextTagsLock (VLock lock) in
  NewContext ctx h0 = (h1, Ok (ShareContext t lock p)) ->
  (forall d, OCopy d ∈ os -> derived (ShareContext t lock p) d) ->
  exists new, accesses (do_ops t lock p os h1) = accesses h0 ++ new /\
              Forall (fun a => a_lock a = Some lock) new.
Proof.
  intros t lock p Hnew Hos.
  assert (disciplined h0 t lock h1) as Hinit.
  { unfold NewContext in Hnew. gocbn_in Hnew. simplify_eq. split.
    - unfold tags_at, t. cbn. by rewrite lookup_insert_eq.
    - exists []. by rewrite app_nil_r. }
  clear Hnew. revert h1 Hinit. induction os as [|o os IH]; intros h1 Hinit.
  { destruct Hinit as [_ H]. exact H. }
  apply IH; [intros d Hd; apply Hos; set_solver|].
  apply do_op_disciplined; [|done]. intros d ->. apply Hos. set_solver.
Qed.

Lemma metadata_one_lock_witness :
  let h0 := Heap ∅ ∅ 3 [] in
  let p := ValueCtx Background ContextTagsLock (VLock 3) in
  let c := ShareContext 4 3 p in
  let h1 := fst (NewContext Background h0) in
  exists new, accesses (do_ops 4 3 p [OSet "a" "b"; OCopy (CancelCtx c); OGet "a"] h1)
              = [] ++ new /\ Forall (fun a => a_lock a = Some 3%nat) new.
Proof.
  intros h0 p c h1.
  apply (metadata_one_lock Background h0 [OSet "a" "b"; OCopy (CancelCtx c); OGet "a"] h1);
    [reflexivity|].
  intros d Hd. assert (d = CancelCtx c) as -> by set_solver.
  apply derived_cancel, derived_self.
Defined.

(** A context made by [WithValue], as the server makes its own, is not covered: its lock
    is not in the chain. A copy taken through a context derived from it reads the very map
    that [SetReqMetaData] on it writes, but holds no lock at all, or the lock of some outer
    context. *)
Theorem WithValue_unlocked_copy k v h0 h1 t lock key val h2 :
  k <> ReqMetaDataKey -> k <> ContextTagsLock ->
  WithValue Background (Some k) v h0 = (h1, Ok (ShareContext t lock Background)) ->
  SetReqMetaData t lock Background key val h1 = (h2, Ok tt) ->
  exists l,
    accesses h2 = accesses h0 ++ [Access (Some lock) l true] /\
    accesses (fst (CopyReqMetaDataFromContext (CancelCtx (ShareContext t lock Background)) h2)) =
    accesses h0 ++ [Access (Some lock) l true; Access None l false].
Proof.
  intros Hk1 Hk2 Hw Hs. unfold WithValue in Hw. gocbn_in Hw. simplify_eq.
  exists (S (S (next_loc h0))). unfold SetReqMetaData in Hs.
  unfold mbind at 1, go_bind in Hs. unfold getReqMetaData in Hs. cbn in Hs.
  unfold tags_at in Hs. cbn in Hs.
  rewrite lookup_insert_eq in Hs. cbn in Hs. rewrite lookup_singleton_ne in Hs by done.
  gocbn_in Hs. simplify_eq. split; [done|].
  unfold CopyReqMetaDataFromContext. gocbn. unfold tags_at. cbn.
  repeat (rewrite lookup_insert_eq; cbn). rewrite lookup_insert_ne by done.
  rewrite lookup_singleton_ne by done. unfold copyMeta. gocbn. by rewrite <- app_assoc.
Qed.

Lemma WithValue_unlocked_copy_witness :
  let h0 := Heap ∅ ∅ 0 [] in
  let k := KContextKey "remote-conn" in
  let h1 := fst (WithValue Background (Some k) (VOther "conn") h0) in
  let h2 := fst (SetReqMetaData 0 1 Background "a" "b" h1) in
  exists l,
    accesses h2 = [] ++ [Access (Some 1%nat) l true] /\
    accesses (fst (CopyReqMetaDataFromContext (CancelCtx (ShareContext 0 1 Background)) h2)) =
    [] ++ [Access (Some 1%nat) l true; Access None l false].
Proof.
  intros h0 k h1 h2.
  apply (WithValue_unlocked_copy k (VOther "conn") h0 h1 0 1 "a" "b" h2);
    first [discriminate | reflexivity].
Defined.
