(* ===== verification/Selector.v ===== *)
(** Server selection: client/selector.go, client/hash_utils.go and
    client/smooth_weighted_round_robin.go, behind the [Selector] interface of the clients. *)

From S2P Require Import Prelude GoStd Share.

(** ** Modes (client/mode.go) *)

Inductive FailMode := Failover | Failfast | Failtry | Failbackup.
Global Instance FailMode_eq_dec : EqDecision FailMode.
Proof. solve_decision. Defined.
Inductive SelectMode :=
  | RandomSelect | RoundRobin | WeightedRoundRobin | WeightedICMP | ConsistentHash | Closest
  | SelectByUser.

(** ** The interface

    A call of [Select] gets the service path, the method and the text of the arguments
    ([fmt.Sprintf] prints them), and the random source; [rnd n] is a number below [n]. The
    servers of an update come in the iteration order of the map. *)

Class Selector (S : Type) := {
  Select : string -> string -> string -> (Z -> Z) -> S -> S * res string;
  UpdateServer : list (string * string) -> S -> S;
}.

Definition rnd_ok (rnd : Z -> Z) : Prop := forall n, 0 < n -> 0 <= rnd n < n.

(** What a client relies on: [serves s X] says that [s] selects among [X]. *)
Class SelectorLaws (S : Type) `{Selector S} (serves : S -> gset string -> Prop) := {
  select_member path method args rnd s X :
    rnd_ok rnd -> serves s X -> X <> ∅ ->
    exists s' k, Select path method args rnd s = (s', Ok k) /\ k ∈ X /\ serves s' X;
  select_none path method args rnd s :
    serves s ∅ -> exists s', Select path method args rnd s = (s', Ok ""%string) /\ serves s' ∅;
  update_serves kvs (m : gmap string string) s X :
    kvs ≡ₚ map_to_list m -> zlen kvs < 2 ^ 31 -> serves s X -> serves (UpdateServer kvs s) (dom m);
}.

Lemma elem_of_enum kvs (m : gmap string string) k :
  kvs ≡ₚ map_to_list m -> k ∈ kvs.*1 <-> k ∈ dom m.
Proof.
  intros ->. rewrite list_elem_of_fmap, elem_of_dom. split.
  - intros ([k' v] & -> & Hin). apply elem_of_map_to_list in Hin. by exists v.
  - intros [v Hv]. exists (k, v). split; [done|]. by apply elem_of_map_to_list.
Qed.

Lemma NoDup_enum kvs (m : gmap string string) : kvs ≡ₚ map_to_list m -> NoDup kvs.*1.
Proof. intros ->. apply NoDup_fst_map_to_list. Qed.

(** ** randomSelector *)

Record randomSelector := RandomSel { rs_servers : list string }.

Definition newRandomSelector (kvs : list (string * string)) : randomSelector :=
  RandomSel kvs.*1.

Definition randomSelector_Select (rnd : Z -> Z) (s : randomSelector) : res string :=
  let ss := rs_servers s in
  if zlen ss =? 0 then Ok ""%string
  else
    let i := rnd (u32 (zlen ss)) in
    match ss !! Z.to_nat i with
    | Some x => Ok x
    | None => Panic "index out of range"
    end.

Definition randomSelector_UpdateServer (kvs : list (string * string)) (s : randomSelector) :
    randomSelector :=
  RandomSel kvs.*1.

Global Instance randomSelector_Selector : Selector randomSelector := {|
  Select _ _ _ rnd s := (s, randomSelector_Select rnd s);
  UpdateServer := randomSelector_UpdateServer;
|}.

(** ** roundRobinSelector *)

Record roundRobinSelector := RRSel { rr_servers : list string; rr_i : Z }.

Definition newRoundRobinSelector (kvs : list (string * string)) : roundRobinSelector :=
  RRSel kvs.*1 0.

Definition roundRobinSelector_Select (s : roundRobinSelector) : roundRobinSelector * res string :=
  let ss := rr_servers s in
  if zlen ss =? 0 then (s, Ok ""%string)
  else
    let i := Z.rem (rr_i s) (zlen ss) in
    let s := RRSel ss (i + 1) in
    match ss !! Z.to_nat i with
    | Some x => (s, Ok x)
    | None => (s, Panic "index out of range")
    end.

Definition roundRobinSelector_UpdateServer (kvs : list (string * string))
    (s : roundRobinSelector) : roundRobinSelector :=
  RRSel kvs.*1 (rr_i s).

Global Instance roundRobinSelector_Selector : Selector roundRobinSelector := {|
  Select _ _ _ _ s := roundRobinSelector_Select s;
  UpdateServer := roundRobinSelector_UpdateServer;
|}.

(** ** weightedRoundRobinSelector

    The ring holds pointers to the weighted servers, of which only the [Server] name is read
    through the ring; it is kept as the list of its values from the current position on, and
    the nil ring is the empty list. *)

Record Weighted := MkWeighted {
  w_Server : string;
  w_Weight : Z;
  w_CurrentWeight : Z;
  w_EffectiveWeight : Z;
}.

Record weightedRoundRobinSelector := WRRSel {
  wr_servers : list Weighted;
  wr_totalWeight : Z;
  wr_rr : list (option string);
}.

Definition weight_of (metadata : string) : Z :=
  let '(v, bad) := ParseQuery metadata in
  if bad then 1
  else
    let ww := Values_Get v "weight" in
    if bool_decide (ww <> ""%string) then default 1 (Atoi ww) else 1.

Definition createWeighted (kvs : list (string * string)) : list Weighted :=
  (fun kv => MkWeighted kv.1 (weight_of kv.2) 0 0) <$> kvs.

Definition set_current (c : Z) (w : Weighted) : Weighted :=
  MkWeighted (w_Server w) (w_Weight w) c (w_EffectiveWeight w).

(** The loop of [next]: weights are added, and the first largest positive one is kept. *)
Fixpoint next_loop (i : nat) (ss : list Weighted) (m : Z) (flag : nat) : list Weighted * nat :=
  match ss with
  | [] => ([], flag)
  | w :: r =>
      let w := set_current (i64 (w_CurrentWeight w + w_Weight w)) w in
      let '(m, flag) := if w_CurrentWeight w >? m then (w_CurrentWeight w, i) else (m, flag) in
      let '(r, flag) := next_loop (S i) r m flag in
      (w :: r, flag)
  end.

(** [next]: the servers with their new current weights, and the index of the one it returns
    ([None] for a nil result). *)
Definition next (total : Z) (ss : list Weighted) : list Weighted * option nat :=
  match ss with
  | [] => (ss, None)
  | [_] => (ss, Some 0%nat)
  | _ =>
      let '(ss, flag) := next_loop 0 ss 0 0 in
      (alter (fun w => set_current (i64 (w_CurrentWeight w - total)) w) flag ss, Some flag)
  end.

Definition ring_New (n : Z) : list (option string) := replicate (Z.to_nat n) None.

(** [r.Value = v] and [r.Next()]. *)
Definition ring_set (v : option string) (r : list (option string)) : list (option string) :=
  match r with [] => [] | _ :: t => v :: t end.
Definition ring_Next (r : list (option string)) : list (option string) :=
  match r with [] => [] | x :: t => t ++ [x] end.

(** [n] rounds of the second loop of [buildRing]. *)
Fixpoint fillRing (n : nat) (total : Z) (ss : list Weighted) (rr : list (option string)) :
    list Weighted * list (option string) :=
  match n with
  | O => (ss, rr)
  | S k =>
      let '(ss, i) := next total ss in
      let v := i ≫= (fun i => w_Server <$> ss !! i) in
      fillRing k total ss (ring_Next (ring_set v rr))
  end.

Definition sum_weights (ss : list Weighted) : Z :=
  foldl (fun t w => i64 (t + w_Weight w)) 0 ss.

Definition buildRing (s : weightedRoundRobinSelector) : weightedRoundRobinSelector :=
  let total := sum_weights (wr_servers s) in
  let '(ss, rr) := fillRing (Z.to_nat total) total (wr_servers s) (ring_New total) in
  WRRSel ss total rr.

Definition newWeightedRoundRobinSelector (kvs : list (string * string)) :
    weightedRoundRobinSelector :=
  buildRing (WRRSel (createWeighted kvs) 0 []).

Definition weightedRoundRobinSelector_Select (s : weightedRoundRobinSelector) :
    weightedRoundRobinSelector * res string :=
  if zlen (wr_servers s) =? 0 then (s, Ok ""%string)
  else
    match wr_rr s with
    | [] => (s, Panic "nil pointer dereference")
    | val :: _ =>
        let s := WRRSel (wr_servers s) (wr_totalWeight s) (ring_Next (wr_rr s)) in
        match val with
        | Some x => (s, Ok x)
        | None => (s, Panic "interface conversion")
        end
    end.

(** The ring is built before the new servers are stored. *)
Definition weightedRoundRobinSelector_UpdateServer (kvs : list (string * string))
    (s : weightedRoundRobinSelector) : weightedRoundRobinSelector :=
  let ss := createWeighted kvs in
  let s := buildRing s in
  WRRSel ss (wr_totalWeight s) (wr_rr s).

Global Instance weightedRoundRobinSelector_Selector : Selector weightedRoundRobinSelector := {|
  Select _ _ _ _ s := weightedRoundRobinSelector_Select s;
  UpdateServer := weightedRoundRobinSelector_UpdateServer;
|}.

(** ** consistentHashSelector

    The hash ring is github.com/edwingeng/doublejump; what the selector relies on is that
    [Get] answers with one of the nodes that were added and not removed. *)

Class DoubleJump (H : Type) := {
  dj_NewHash : H;
  dj_Add : string -> H -> H;
  dj_Remove : string -> H -> H;
  dj_Get : Z -> H -> option string;
}.

Class DoubleJumpOk (H : Type) `{DoubleJump H} (nodes : H -> gset string) := {
  dj_nodes_new : nodes dj_NewHash = ∅;
  dj_nodes_add k h : nodes (dj_Add k h) = {[k]} ∪ nodes h;
  dj_nodes_remove k h : nodes (dj_Remove k h) = nodes h ∖ {[k]};
  dj_get_some key h : nodes h <> ∅ -> exists k, dj_Get key h = Some k /\ k ∈ nodes h;
}.

Record consistentHashSelector (H : Type) := CHSel { ch_h : H; ch_servers : list string }.
Arguments CHSel {H} _ _.
Arguments ch_h {H} _.
Arguments ch_servers {H} _.

(** [genKey(path, method, args)] on the printed options. *)
Definition genKey (options : list string) : Z :=
  HashString (foldl (fun k o => (k +:+ "/" +:+ o)%string) ""%string options).

Section ConsistentHash.
Context {H : Type} `{DoubleJump H}.

Definition newConsistentHashSelector (kvs : list (string * string)) :
    consistentHashSelector H :=
  CHSel (foldl (fun h k => dj_Add k h) dj_NewHash kvs.*1) (sort_keys kvs.*1).

Definition consistentHashSelector_Select (path method args : string)
    (s : consistentHashSelector H) : res string :=
  if zlen (ch_servers s) =? 0 then Ok ""%string
  else Ok (default ""%string (dj_Get (genKey [path; method; args]) (ch_h s))).

Definition consistentHashSelector_UpdateServer (kvs : list (string * string))
    (s : consistentHashSelector H) : consistentHashSelector H :=
  let h := foldl (fun h k => dj_Add k h) (ch_h s) kvs.*1 in
  let ss := sort_keys kvs.*1 in
  let h := foldl (fun h k => if bool_decide (k ∈ kvs.*1) then h else dj_Remove k h) h
             (ch_servers s) in
  CHSel h ss.

Global Instance consistentHashSelector_Selector : Selector (consistentHashSelector H) := {|
  Select path method args _ s := (s, consistentHashSelector_Select path method args s);
  UpdateServer := consistentHashSelector_UpdateServer;
|}.
End ConsistentHash.

(** ** geoSelector

    Distances are floating-point numbers, known through the two comparisons the code makes
    and the constant [math.MaxFloat64]; [distance] is [getDistanceFrom] applied to the
    position of the client, and [parse] is [strconv.ParseFloat]. *)

Record geoServer (F : Type) := GeoServer { g_Server : string; g_Latitude : F; g_Longitude : F }.
Arguments GeoServer {F} _ _ _.
Arguments g_Server {F} _.
Arguments g_Latitude {F} _.
Arguments g_Longitude {F} _.

Section Geo.
Context {F : Type} (flt feq : F -> F -> bool) (MaxFloat64 : F).
Context (ParseFloat : string -> option F) (distance : F -> F -> F).

Definition createGeoServer (kvs : list (string * string)) : list (geoServer F) :=
  omap (fun kv =>
    let '(v, bad) := ParseQuery kv.2 in
    if bad then None
    else
      let latStr := Values_Get v "latitude" in
      let lonStr := Values_Get v "longitude" in
      if bool_decide (latStr = ""%string \/ lonStr = ""%string) then None
      else lat ← ParseFloat latStr; lon ← ParseFloat lonStr;
           Some (GeoServer kv.1 lat lon)) kvs.

(** The loop of [Select]: the candidates so far and their distance. *)
Fixpoint geo_loop (gs : list (geoServer F)) (server : list string) (minNum : F) :
    list string * F :=
  match gs with
  | [] => (server, minNum)
  | g :: r =>
      let d := distance (g_Latitude g) (g_Longitude g) in
      if flt d minNum then geo_loop r [g_Server g] d
      else if feq d minNum then geo_loop r (server ++ [g_Server g]) minNum
      else geo_loop r server minNum
  end.

(** [rand.Intn] panics on a non-positive bound. *)
Definition geoSelector_Select (rnd : Z -> Z) (servers : list (geoServer F)) : res string :=
  if zlen servers =? 0 then Ok ""%string
  else
    let '(server, _) := geo_loop servers [] MaxFloat64 in
    match server with
    | [x] => Ok x
    | _ =>
        if zlen server <=? 0 then Panic "invalid argument to Intn"
        else match server !! Z.to_nat (rnd (zlen server)) with
             | Some x => Ok x
             | None => Panic "index out of range"
             end
    end.
End Geo.

(** ** weightedICMPSelector (client/ping_utils.go)

    [ping] stands for the average round-trip time, in milliseconds, that [Ping] measures. *)

Definition CalculateWeight (rtt : Z) : Z :=
  if (rtt >=? 0) && (rtt <=? 10) then 191
  else if (rtt >? 10) && (rtt <=? 200) then 201 - rtt
  else if (rtt >? 100) && (rtt <? 1000) then 1
  else 0.

(** [Ping]: the outcomes of making the pinger and of running it, the round trips it saw and their
    average, in nanoseconds. *)
Record pingRun := MkPing {
  pr_NewPinger : option error; pr_Run : option error; pr_Rtts : list Z; pr_AvgRtt : Z;
}.

Definition Ping (r : pingRun) : Z * option error :=
  match pr_NewPinger r with
  | Some err => (1000, Some err)
  | None =>
      match pr_Run r with
      | Some err => (1000, Some err)
      | None => if bool_decide (pr_Rtts r = []) then (1000, None) else (Z.quot (pr_AvgRtt r) 1000000, None)
      end
  end.

(** A server gets no weight exactly when it did not answer or took a second or more. *)
Lemma Ping_weightless r :
  0 <= pr_AvgRtt r ->
  CalculateWeight (Ping r).1 = 0 <->
  pr_NewPinger r <> None \/ pr_Run r <> None \/ pr_Rtts r = [] \/ 1000000000 <= pr_AvgRtt r.
Proof.
  intros Hp. unfold Ping. destruct (pr_NewPinger r); [split; [by left|done]|].
  destruct (pr_Run r); [split; [by right; left|done]|].
  case_bool_decide as Hr; [split; [by right; right; left|done]|].
  pose proof (Z.quot_rem' (pr_AvgRtt r) 1000000). pose proof (Z.rem_bound_pos (pr_AvgRtt r) 1000000).
  unfold CalculateWeight. cbn [fst]. split.
  - intros Hw. right; right; right. repeat case_match; zbool; lia.
  - intros [?|[?|[?|?]]]; [done..|]. repeat case_match; zbool; lia.
Qed.

(** [strings.Split(k, "@")[1]], which panics when there is no "@". *)
Definition second_part (k : string) : res bytes :=
  match Cut 64 (string_bytes k) with
  | (_, rest, true) => Ok (fst (fst (Cut 64 rest)))
  | _ => Panic "index out of range"
  end.

Fixpoint createICMPWeighted (ping : string -> Z) (kvs : list (string * string)) :
    res (list Weighted) :=
  match kvs with
  | [] => Ok []
  | (k, _) :: r =>
      match second_part k with
      | Ok server =>
          let host := match SplitHostPort server with Ok (h, _) => h | _ => [] end in
          let rtt := CalculateWeight (ping (bytes_string host)) in
          match createICMPWeighted ping r with
          | Ok ss => Ok (MkWeighted k rtt 0 rtt :: ss)
          | e => e
          end
      | Er e => Er e
      | Panic w => Panic w
      end
  end.

Definition newWeightedICMPSelector (ping : string -> Z) (kvs : list (string * string)) :
    res weightedRoundRobinSelector :=
  match createICMPWeighted ping kvs with
  | Ok ss => Ok (buildRing (WRRSel ss 0 []))
  | Er e => Er e
  | Panic w => Panic w
  end.

Definition weightedICMPSelector_UpdateServer (ping : string -> Z) (kvs : list (string * string))
    (s : weightedRoundRobinSelector) : res weightedRoundRobinSelector :=
  match createICMPWeighted ping kvs with
  | Ok ss => Ok (buildRing (WRRSel ss (wr_totalWeight s) (wr_rr s)))
  | Er e => Er e
  | Panic w => Panic w
  end.

(** ** newSelector *)

Inductive anySelector (H : Type) :=
  | SRandom (s : randomSelector)
  | SRoundRobin (s : roundRobinSelector)
  | SWeighted (s : weightedRoundRobinSelector)
  | SICMP (s : weightedRoundRobinSelector)
  | SHash (s : consistentHashSelector H)
  | SNil.
Arguments SRandom {H} s.
Arguments SRoundRobin {H} s.
Arguments SWeighted {H} s.
Arguments SICMP {H} s.
Arguments SHash {H} s.
Arguments SNil {H}.

Definition newSelector {H} `{DoubleJump H} (ping : string -> Z) (mode : SelectMode)
    (kvs : list (string * string)) : res (anySelector H) :=
  match mode with
  | RandomSelect => Ok (SRandom (newRandomSelector kvs))
  | RoundRobin => Ok (SRoundRobin (newRoundRobinSelector kvs))
  | WeightedRoundRobin => Ok (SWeighted (newWeightedRoundRobinSelector kvs))
  | WeightedICMP =>
      match newWeightedICMPSelector ping kvs with
      | Ok s => Ok (SICMP s)
      | Er e => Er e
      | Panic w => Panic w
      end
  | ConsistentHash => Ok (SHash (newConsistentHashSelector kvs))
  | SelectByUser => Ok SNil
  | Closest => Ok (SRandom (newRandomSelector kvs))
  end.

(** ** The promises of the interface *)

Lemma zlen_zero {A} (l : list A) : (zlen l =? 0) = true <-> l = [].
Proof. unfold zlen. rewrite Z.eqb_eq. destruct l; cbn; split; (done || lia). Qed.

Definition random_serves (s : randomSelector) (X : gset string) : Prop :=
  list_to_set (rs_servers s) = X /\ zlen (rs_servers s) < 2 ^ 31.

Lemma lookup_below {A} (l : list A) i :
  0 <= i < zlen l -> exists x, l !! Z.to_nat i = Some x.
Proof. unfold zlen. intros. apply lookup_lt_is_Some. lia. Qed.

Lemma list_to_set_nonempty (l : list string) :
  list_to_set (C := gset string) l <> ∅ -> (zlen l =? 0) = false /\ 0 < zlen l.
Proof. unfold zlen. destruct l; cbn [length]; [done|]. rewrite Z.eqb_neq. lia. Qed.

Lemma list_to_set_enum kvs (m : gmap string string) :
  kvs ≡ₚ map_to_list m -> list_to_set kvs.*1 = dom m.
Proof. intros Hk. apply set_eq. intros k. rewrite elem_of_list_to_set. by apply elem_of_enum. Qed.

Global Instance randomSelector_laws : SelectorLaws randomSelector random_serves.
Proof.
  split; cbn.
  - intros _ _ _ rnd s X Hr [<- Hlen] HX. destruct (list_to_set_nonempty _ HX) as [H0 Hpos].
    unfold randomSelector_Select. rewrite H0. rewrite wrap_small by lia.
    destruct (lookup_below (rs_servers s) (rnd (zlen (rs_servers s)))) as [x Hx];
      [by apply Hr|]. rewrite Hx. exists s, x. split_and!; [done| |done].
    apply elem_of_list_to_set. by eapply list_elem_of_lookup_2.
  - intros _ _ _ rnd s [Hs Hlen]. exists s.
    assert (rs_servers s = []) as E.
    { destruct (rs_servers s) as [|x l]; [done|]. set_solver. }
    unfold randomSelector_Select. rewrite E. done.
  - intros kvs m s X Hk Hlen _. split; [by apply list_to_set_enum|].
    cbn. unfold zlen in *. by rewrite length_fmap.
Qed.

Definition rr_serves (s : roundRobinSelector) (X : gset string) : Prop :=
  list_to_set (rr_servers s) = X /\ 0 <= rr_i s.

Lemma rr_select_step ss i :
  0 < zlen ss -> 0 <= i ->
  exists x, ss !! Z.to_nat (i mod zlen ss) = Some x /\
    roundRobinSelector_Select (RRSel ss i) = (RRSel ss (i mod zlen ss + 1), Ok x).
Proof.
  intros Hpos Hi. unfold roundRobinSelector_Select. cbn [rr_servers rr_i].
  assert ((zlen ss =? 0) = false) as -> by (apply Z.eqb_neq; lia).
  rewrite Z.rem_mod_nonneg by lia.
  destruct (lookup_below ss (i mod zlen ss)) as [x Hx]; [by apply Z.mod_pos_bound|].
  rewrite Hx. eauto.
Qed.

Global Instance roundRobinSelector_laws : SelectorLaws roundRobinSelector rr_serves.
Proof.
  split; cbn.
  - intros _ _ _ _ [ss i] X _ [<- Hi] HX. cbn in *.
    destruct (list_to_set_nonempty _ HX) as [_ Hpos].
    destruct (rr_select_step ss i Hpos Hi) as (x & Hx & ->).
    eexists _, x. split; [reflexivity|]. split.
    + apply elem_of_list_to_set. by eapply list_elem_of_lookup_2.
    + split; cbn; [done|]. pose proof (Z.mod_pos_bound i (zlen ss)). lia.
  - intros _ _ _ _ [ss i] [Hs Hi]. cbn in *. exists (RRSel ss i).
    assert (ss = []) as -> by (destruct ss as [|x l]; [done|]; set_solver). done.
  - intros kvs m s X Hk _ [_ Hi]. split; [by apply list_to_set_enum|done].
Qed.

Section ConsistentHashLaws.
Context {H : Type} `{DoubleJump H} (nodes : H -> gset string) `{!DoubleJumpOk H nodes}.

Definition ch_serves (s : consistentHashSelector H) (X : gset string) : Prop :=
  list_to_set (ch_servers s) = X /\ nodes (ch_h s) = X.

Lemma nodes_add_all l h :
  nodes (foldl (fun h k => dj_Add k h) h l) = list_to_set l ∪ nodes h.
Proof.
  revert h. induction l as [|k l IH]; intros h; cbn; [set_solver|].
  rewrite IH, dj_nodes_add. set_solver.
Qed.

Lemma nodes_remove_all keep l h :
  nodes (foldl (fun h k => if bool_decide (k ∈ keep) then h else dj_Remove k h) h l)
  = nodes h ∖ (list_to_set l ∖ list_to_set keep).
Proof.
  revert h. induction l as [|k l IH]; intros h; cbn; [set_solver|].
  rewrite IH. case_bool_decide; [set_solver|]. rewrite dj_nodes_remove. set_solver.
Qed.

Lemma sort_keys_set l : list_to_set (C := gset string) (sort_keys l) = list_to_set l.
Proof. apply list_to_set_perm_L, merge_sort_Permutation. Qed.

Global Instance consistentHashSelector_laws :
  SelectorLaws (consistentHashSelector H) ch_serves.
Proof.
  split; cbn.
  - intros path method args rnd s X _ [Hs Hn] HX.
    rewrite <- Hs in HX. destruct (list_to_set_nonempty _ HX) as [Hz _]. rewrite Hs in HX.
    unfold consistentHashSelector_Select. rewrite Hz.
    destruct (dj_get_some (nodes := nodes) (genKey [path; method; args]) (ch_h s))
      as (k & -> & Hk); [by rewrite Hn|]. exists s, k. rewrite Hn in Hk. done.
  - intros path method args rnd s [Hs Hn]. exists s.
    assert (ch_servers s = []) as E.
    { destruct (ch_servers s) as [|x l]; [done|]. set_solver. }
    unfold consistentHashSelector_Select. rewrite E. split; [done|]. split; [|done].
    by rewrite E.
  - intros kvs m s X Hk _ [Hs Hn]. unfold consistentHashSelector_UpdateServer.
    rewrite <- (list_to_set_enum _ _ Hk). split; cbn.
    + apply sort_keys_set.
    + rewrite nodes_remove_all, nodes_add_all, Hn, <- Hs. apply set_eq. intros x.
      destruct (decide (x ∈ kvs.*1)); set_solver.
Qed.

Lemma newConsistentHashSelector_serves kvs m :
  kvs ≡ₚ map_to_list m -> ch_serves (newConsistentHashSelector kvs) (dom m).
Proof.
  intros Hk. rewrite <- (list_to_set_enum _ _ Hk). split; cbn; [apply sort_keys_set|].
  rewrite nodes_add_all, dj_nodes_new. set_solver.
Qed.
End ConsistentHashLaws.

(** ** Fairness *)

(** [n] consecutive selections and their answers. *)
Fixpoint selects {T} `{Selector T} (path method args : string) (rnd : Z -> Z) (n : nat) :
    Go T (list string) :=
  match n with
  | O => mret []
  | S k => x ← (Select path method args rnd : Go T string);
           r ← selects path method args rnd k; mret (x :: r)
  end.

Lemma selects_S {T} `{Selector T} path method args rnd n s s1 x s2 l :
  Select path method args rnd s = (s1, Ok x) ->
  selects path method args rnd n s1 = (s2, Ok l) ->
  selects path method args rnd (S n) s = (s2, Ok (x :: l)).
Proof.
  intros H1 H2. cbn [selects].
  rewrite (go_bind_Ok (Select path method args rnd : Go T string) _ s s1 x H1).
  by rewrite (go_bind_Ok _ _ s1 s2 l H2).
Qed.

Lemma selects_app {T} `{Selector T} path method args rnd n k s s1 l s2 l' :
  selects path method args rnd n s = (s1, Ok l) ->
  selects path method args rnd k s1 = (s2, Ok l') ->
  selects path method args rnd (n + k) s = (s2, Ok (l ++ l')).
Proof.
  revert s l. induction n as [|n IH]; intros s l H1 H2.
  { cbn [selects] in H1. unfold mret, go_ret in H1. by simplify_eq. }
  cbn [selects] in H1. apply go_bind_inv_Ok in H1 as (u & x & Hx & H1).
  apply go_bind_inv_Ok in H1 as (u' & r & Hr & H1). unfold mret, go_ret in H1. simplify_eq.
  cbn [app Nat.add]. eapply selects_S; [exact Hx|]. by apply IH.
Qed.

(** From position [r], the next [k] answers are the servers from the [r]-th on. *)
Lemma rr_selects ss path method args rnd k :
  forall r i, 0 < zlen ss -> 0 <= i -> i mod zlen ss = Z.of_nat r ->
  (r + k <= length ss)%nat ->
  exists i', 0 <= i' /\ i' mod zlen ss = (Z.of_nat (r + k)) mod zlen ss /\
    selects path method args rnd k (RRSel ss i) = (RRSel ss i', Ok (take k (drop r ss))).
Proof.
  induction k as [|k IH]; intros r i Hpos Hi Hr Hk.
  { exists i. split_and!; [done| |done]. rewrite Nat.add_0_r, Hr.
    rewrite Z.mod_small; [done|]. pose proof (Z.mod_pos_bound i (zlen ss)). lia. }
  destruct (rr_select_step ss i Hpos Hi) as (x & Hx & Hsel). rewrite Hr, Nat2Z.id in Hx.
  assert (drop r ss = x :: drop (S r) ss) as Hd by by apply drop_S.
  rewrite Hr in Hsel. destruct k as [|k].
  { exists (Z.of_nat r + 1). split_and!; [lia| |].
    - f_equal. lia.
    - rewrite Hd. cbn [take]. rewrite take_0. by eapply selects_S. }
  destruct (IH (S r) (Z.of_nat r + 1)) as (i' & Hi' & Hm & Hsels); [done|lia| |lia|].
  { rewrite Z.mod_small; [lia|]. unfold zlen. lia. }
  exists i'. split_and!; [done|rewrite Hm; f_equal; lia|].
  rewrite Hd. cbn [take]. by eapply selects_S.
Qed.

(** Round robin is fair: as many consecutive selections as there are servers, from any
    position, answer with every server exactly once. *)
Theorem roundRobin_fair s path method args rnd :
  0 <= rr_i s ->
  exists s' l, selects path method args rnd (length (rr_servers s)) s = (s', Ok l) /\
    l ≡ₚ rr_servers s.
Proof.
  destruct s as [ss i]. cbn. intros Hi. destruct ss as [|x ss'] eqn:E.
  { exists (RRSel [] i), []. done. }
  rewrite <- E. assert (0 < zlen ss) as Hpos by (subst; unfold zlen; cbn; lia).
  pose proof (Z.mod_pos_bound i (zlen ss) Hpos) as Hb.
  set (r := Z.to_nat (i mod zlen ss)). assert (r < length ss)%nat as Hr by (unfold zlen in *; lia).
  destruct (rr_selects ss path method args rnd (length ss - r) r i) as (i1 & H1 & Hm & Hs1);
    [done|done|lia|lia|].
  destruct (rr_selects ss path method args rnd r 0 i1) as (i2 & H2 & _ & Hs2); [done|done| |lia|].
  { rewrite Hm. replace (r + (length ss - r))%nat with (length ss) by lia.
    by rewrite Z.mod_same by (unfold zlen in *; lia). }
  exists (RRSel ss i2). eexists. split.
  - replace (length ss) with ((length ss - r) + r)%nat at 1 by lia.
    eapply selects_app; [exact Hs1|exact Hs2].
  - rewrite drop_0, take_ge by (rewrite length_drop; lia).
    rewrite Permutation_app_comm. by rewrite take_drop.
Qed.

Lemma roundRobin_fair_witness :
  exists s' l, selects "p" "m" "" (fun _ => 0) 3 (RRSel ["a"; "b"; "c"]%string 2) = (s', Ok l) /\
    l ≡ₚ ["a"; "b"; "c"]%string.
Proof. apply (roundRobin_fair (RRSel ["a"; "b"; "c"]%string 2) "p" "m" "" (fun _ => 0)). cbn. lia.
Defined.

(** ** Clients of the interface *)

Inductive sel_op :=
  | OpSelect (path method args : string) (rnd : Z -> Z)
  | OpUpdate (kvs : list (string * string)).

Definition sel_step {T} `{Selector T} (s : T) (o : sel_op) : T :=
  match o with
  | OpSelect p m a rnd => fst (Select p m a rnd s)
  | OpUpdate kvs => UpdateServer kvs s
  end.

(** The servers of the last update, [X] before the first one. *)
Definition last_servers (X : gset string) (os : list sel_op) : gset string :=
  foldl (fun X o => match o with OpUpdate kvs => list_to_set kvs.*1 | _ => X end) X os.

Definition op_ok (o : sel_op) : Prop :=
  match o with
  | OpSelect _ _ _ rnd => rnd_ok rnd
  | OpUpdate kvs => zlen kvs < 2 ^ 31 /\ NoDup kvs.*1
  end.

Lemma sel_run_serves {T} `{SelectorLaws T serves} s X os :
  serves s X -> Forall op_ok os -> serves (foldl sel_step s os) (last_servers X os).
Proof.
  intros Hs Hos. revert s X Hs. induction Hos as [|o os Ho _ IH]; intros s X Hs; [done|].
  unfold last_servers. cbn [foldl]. apply IH. destruct o as [p m a rnd|kvs]; cbn.
  - destruct (decide (X = ∅)) as [->|HX].
    + destruct (select_none p m a rnd s Hs) as (s' & -> & Hs'). done.
    + destruct (select_member p m a rnd s X Ho Hs HX) as (s' & k & -> & _ & Hs'). done.
  - destruct Ho as [Hlen Hnd].
    assert (kvs ≡ₚ map_to_list (list_to_map kvs : gmap string string)) as Hk
      by (symmetry; by apply map_to_list_to_map).
    rewrite (list_to_set_enum kvs _ Hk). by eapply update_serves.
Qed.

(** A selector that keeps the promises of the interface, as random, round robin and
    consistent hashing do, always answers with one of the servers of the last update, whatever
    selections and updates came before, and with the empty name when that update left none. *)
Theorem selector_tracks_servers {T} `{HL : SelectorLaws T serves} s X os path method args rnd :
  serves s X -> Forall op_ok os -> rnd_ok rnd ->
  let Y := last_servers X os in
  exists k, snd (Select path method args rnd (foldl sel_step s os)) = Ok k /\
    (Y <> ∅ -> k ∈ Y) /\ (Y = ∅ -> k = ""%string).
Proof.
  intros Hs Hos Hr Y. pose proof (sel_run_serves (serves := serves) s X os Hs Hos) as HY. fold Y in HY.
  destruct (decide (Y = ∅)) as [E|E].
  - rewrite E in HY. destruct (select_none (serves := serves) path method args rnd _ HY) as (s' & -> & _).
    exists ""%string. split_and!; [done|done|done].
  - destruct (select_member (serves := serves) path method args rnd _ Y Hr HY E)
      as (s' & k & -> & Hk & _). exists k. split_and!; [done|done|by intros ->].
Qed.

Lemma rnd_zero_ok : rnd_ok (fun _ => 0).
Proof. intros n Hn. lia. Qed.

Lemma selector_tracks_servers_witness :
  let os := [OpSelect "p" "m" "" (fun _ => 0); OpUpdate [("tcp@x:1", ""); ("tcp@y:1", "")]]%string in
  let Y := last_servers {[ "tcp@a:1"%string ]} os in
  exists k, snd (Select "p" "m" "" (fun _ => 0)
                  (foldl sel_step (RRSel ["tcp@a:1"%string] 0) os)) = Ok k /\
    (Y <> ∅ -> k ∈ Y) /\ (Y = ∅ -> k = ""%string).
Proof.
  intros os Y.
  apply (selector_tracks_servers (serves := rr_serves) (RRSel ["tcp@a:1"%string] 0)
           {[ "tcp@a:1"%string ]} os "p" "m" "" (fun _ => 0)); [| |apply rnd_zero_ok].
  - split; [|cbn; lia]. cbn. apply set_eq. set_solver.
  - constructor; [exact rnd_zero_ok|]. constructor; [|constructor]. split; [done|].
    apply (bool_decide_unpack _). vm_compute. exact I.
Defined.

(** ** The nearest server *)

Section GeoSpec.
Context {F : Type} (flt feq : F -> F -> bool) (MaxFloat64 : F) (distance : F -> F -> F).

(** The order of the floating-point numbers: [None] for a NaN, which compares with
    nothing. *)
Context (rank : F -> option Z).
Hypothesis flt_rank : forall a b,
  flt a b = match rank a, rank b with Some x, Some y => x <? y | _, _ => false end.
Hypothesis feq_rank : forall a b,
  feq a b = match rank a, rank b with Some x, Some y => x =? y | _, _ => false end.

Definition dist (g : geoServer F) : F := distance (g_Latitude g) (g_Longitude g).

(** [g] is at distance rank [d]. *)
Definition at_rank (g : geoServer F) (d : Z) : Prop := rank (dist g) = Some d.

Lemma geo_loop_spec gs : forall done_ server minNum mn server' min',
  rank minNum = Some mn ->
  (forall g d, g ∈ done_ -> at_rank g d -> mn <= d) ->
  (forall x, x ∈ server <-> exists g, g ∈ done_ /\ at_rank g mn /\ g_Server g = x) ->
  geo_loop flt feq distance gs server minNum = (server', min') ->
  exists mn', rank min' = Some mn' /\ mn' <= mn /\
    (forall g d, g ∈ done_ ++ gs -> at_rank g d -> mn' <= d) /\
    (forall x, x ∈ server' <-> exists g, g ∈ done_ ++ gs /\ at_rank g mn' /\ g_Server g = x).
Proof.
  induction gs as [|g gs IH]; intros done_ server minNum mn server' min' Hm Hlow Hsrv Hl.
  { cbn in Hl. simplify_eq. exists mn. rewrite app_nil_r. split_and!; [done|lia|done|done]. }
  cbn [geo_loop] in Hl. fold (dist g) in Hl. rewrite flt_rank, feq_rank, Hm in Hl.
  rewrite (cons_middle g done_ gs), app_assoc.
  destruct (rank (dist g)) as [d|] eqn:Hd.
  - destruct (d <? mn) eqn:E1; [|destruct (d =? mn) eqn:E2]; zbool.
    + destruct (IH (done_ ++ [g]) [g_Server g] (dist g) d server' min' Hd)
        as (mn' & ? & ? & ? & ?); [| |exact Hl|].
      * intros h dh [Hin|Hin%list_elem_of_singleton]%elem_of_app Hh.
        -- specialize (Hlow h dh Hin Hh). lia.
        -- subst h. unfold at_rank in Hh. simplify_eq. lia.
      * intros x. rewrite list_elem_of_singleton. split.
        -- intros ->. exists g. split_and!; [set_solver|done|done].
        -- intros (h & [Hin|Hin%list_elem_of_singleton]%elem_of_app & Hh & <-); [|by subst].
           specialize (Hlow h d Hin Hh). lia.
      * exists mn'. split_and!; [done|lia|done|done].
    + subst d. eapply IH; [exact Hm| | |exact Hl].
      * intros h dh [Hin|Hin%list_elem_of_singleton]%elem_of_app Hh; [by eapply Hlow|].
        subst h. unfold at_rank in Hh. simplify_eq. lia.
      * intros x. rewrite elem_of_app, Hsrv, list_elem_of_singleton. split.
        -- intros [(h & ? & ? & ?)| ->]; [exists h; set_solver|exists g; set_solver].
        -- intros (h & [Hin|Hin%list_elem_of_singleton]%elem_of_app & Hh & <-);
             [left; eauto|right; by subst].
    + eapply IH; [exact Hm| | |exact Hl].
      * intros h dh [Hin|Hin%list_elem_of_singleton]%elem_of_app Hh; [by eapply Hlow|].
        subst h. unfold at_rank in Hh. simplify_eq. lia.
      * intros x. rewrite Hsrv. split; intros (h & Hin & Hh & <-); exists h; [set_solver|].
        apply elem_of_app in Hin as [Hin|Hin%list_elem_of_singleton]; [done|].
        subst h. unfold at_rank in Hh. simplify_eq.
  - eapply IH; [exact Hm| | |exact Hl].
    * intros h dh [Hin|Hin%list_elem_of_singleton]%elem_of_app Hh; [by eapply Hlow|].
      subst h. unfold at_rank in Hh. congruence.
    * intros x. rewrite Hsrv. split; intros (h & Hin & Hh & <-); exists h; [set_solver|].
      apply elem_of_app in Hin as [Hin|Hin%list_elem_of_singleton]; [done|].
      subst h. unfold at_rank in Hh. congruence.
Qed.

(** The geographic selector answers with a server at the smallest distance. It panics
    exactly when there are servers but none has a distance that compares below the largest
    float, as with a latitude of "NaN" in the metadata. *)
Theorem geo_select_nearest rnd servers top :
  rnd_ok rnd -> rank MaxFloat64 = Some top -> servers <> [] ->
  match geoSelector_Select flt feq MaxFloat64 distance rnd servers with
  | Ok x => exists g d, g ∈ servers /\ g_Server g = x /\ at_rank g d /\ d <= top /\
              forall h dh, h ∈ servers -> at_rank h dh -> d <= dh
  | Panic _ => forall h dh, h ∈ servers -> at_rank h dh -> top < dh
  | Er _ => False
  end.
Proof.
  intros Hr Htop Hne. unfold geoSelector_Select.
  assert ((zlen servers =? 0) = false) as ->.
  { destruct (zlen servers =? 0) eqn:E; [|done]. by apply zlen_zero in E. }
  destruct (geo_loop _ _ _ servers [] MaxFloat64) as [server min'] eqn:El.
  destruct (geo_loop_spec servers [] [] MaxFloat64 top server min') as (mn & Hmn & Hle & Hlow & Hsrv);
    [done|set_solver|set_solver|done|]. cbn [app] in Hlow, Hsrv.
  assert (forall x, x ∈ server -> exists g d, g ∈ servers /\ g_Server g = x /\ at_rank g d /\
    d <= top /\ forall h dh, h ∈ servers -> at_rank h dh -> d <= dh) as Hgood.
  { intros x (g & Hg & Hd & Hx)%Hsrv. exists g, mn. split_and!; done. }
  destruct server as [|x [|y server]].
  - cbn. intros h dh Hh Hdh. pose proof (Hlow h dh Hh Hdh).
    destruct (decide (top < dh)); [done|].
    (* then [dh] would have been kept *)
    exfalso. destruct (decide (mn = top)) as [->|Hmt].
    + assert (g_Server h ∈ []) as Hin; [|by apply elem_of_nil in Hin].
      apply Hsrv. exists h. split_and!; [done|unfold at_rank in *; rewrite Hdh; f_equal; lia|done].
    + revert El. clear -Htop Hmn Hmt flt_rank feq_rank.
      assert (forall gs s m, (s <> [] \/ rank m = Some top) ->
        forall s' m', geo_loop flt feq distance gs s m = (s', m') ->
        s' <> [] \/ rank m' = Some top) as Hinv.
      { induction gs as [|g gs IH]; intros s m Hs s' m'; cbn; [by intros [= <- <-]|].
        destruct (flt _ _); [apply IH; by left|]. destruct (feq _ _); [|by apply IH].
        apply IH. left. by destruct s. }
      intros El. destruct (Hinv servers [] MaxFloat64 (or_intror Htop) _ _ El); [done|congruence].
  - apply Hgood. set_solver.
  - assert (zlen (x :: y :: server) <=? 0 = false) as -> by (unfold zlen; apply Z.leb_gt; cbn [length]; lia).
    destruct (lookup_below (x :: y :: server) (rnd (zlen (x :: y :: server)))) as [z Hz].
    { apply Hr. unfold zlen. cbn [length]. lia. }
    rewrite Hz. apply Hgood. by eapply list_elem_of_lookup_2.
Qed.
End GeoSpec.

(** Ranks as the numbers themselves. *)
Definition toy_lt (a b : option Z) : bool :=
  match a, b with Some x, Some y => x <? y | _, _ => false end.
Definition toy_eq (a b : option Z) : bool :=
  match a, b with Some x, Some y => x =? y | _, _ => false end.

Lemma geo_select_nearest_witness :
  let servers := [GeoServer "far" (Some 9) (Some 0); GeoServer "near" (Some 2) (Some 0);
                  GeoServer "nan" None (Some 0)]%string in
  match geoSelector_Select toy_lt toy_eq (Some 1000) (fun a _ => a) (fun _ => 0) servers with
  | Ok x => exists g d, g ∈ servers /\ g_Server g = x /\ at_rank (fun a _ => a) id g d /\ d <= 1000 /\
              forall h dh, h ∈ servers -> at_rank (fun a _ => a) id h dh -> d <= dh
  | Panic _ => forall h dh, h ∈ servers -> at_rank (fun a _ => a) id h dh -> 1000 < dh
  | Er _ => False
  end.
Proof.
  intros servers.
  apply (geo_select_nearest toy_lt toy_eq (Some 1000) (fun a _ => a) id);
    [by intros [] []|by intros [] []|apply rnd_zero_ok|reflexivity|discriminate].
Defined.
