(* ===== verification/WeightedRR.v ===== *)
(** Correctness of the smooth weighted round robin of client/selector.go: exact shares over
    one turn of the ring, and what an update of the servers does to it. *)

From S2P Require Import Prelude GoStd Share Selector.

(** How often [x] occurs in a list. *)
Definition occ `{EqDecision A} (x : A) (l : list A) : Z := zlen (filter (eq x) l).

Lemma occ_app `{EqDecision A} (x : A) l k : occ x (l ++ k) = occ x l + occ x k.
Proof. unfold occ. by rewrite filter_app, zlen_app. Qed.

Lemma occ_one `{EqDecision A} (x y : A) : occ x [y] = if decide (x = y) then 1 else 0.
Proof. unfold occ. rewrite filter_cons, filter_nil. by case_decide. Qed.

Lemma occ_perm `{EqDecision A} (x : A) l k : l ≡ₚ k -> occ x l = occ x k.
Proof. intros Hp. unfold occ, zlen. by rewrite Hp. Qed.

Definition cw_sum (ss : list Weighted) : Z := foldr (fun w t => w_CurrentWeight w + t) 0 ss.
Definition wt_sum (ss : list Weighted) : Z := foldr (fun w t => w_Weight w + t) 0 ss.

Lemma cw_sum_cons w ss : cw_sum (w :: ss) = w_CurrentWeight w + cw_sum ss.
Proof. reflexivity. Qed.
Lemma wt_sum_cons w ss : wt_sum (w :: ss) = w_Weight w + wt_sum ss.
Proof. reflexivity. Qed.

Lemma wt_sum_nonneg ss : Forall (fun w => 0 <= w_Weight w) ss -> 0 <= wt_sum ss.
Proof. induction 1; rewrite ?wt_sum_cons; [done|lia]. Qed.

Definition bump (w : Weighted) : Weighted := set_current (w_CurrentWeight w + w_Weight w) w.

Lemma cw_sum_bump ss : cw_sum (bump <$> ss) = cw_sum ss + wt_sum ss.
Proof.
  induction ss as [|w ss IH]; [done|]. rewrite fmap_cons, !cw_sum_cons, wt_sum_cons, IH. cbn. lia.
Qed.

Lemma cw_sum_alter f ss i w :
  ss !! i = Some w ->
  cw_sum (alter f i ss) = cw_sum ss - w_CurrentWeight w + w_CurrentWeight (f w).
Proof.
  revert i. induction ss as [|x ss IH]; intros [|i]; [done..| |].
  - intros [= ->]. change (alter f 0%nat (w :: ss)) with (f w :: ss). rewrite !cw_sum_cons. lia.
  - intros Hi. change (alter f (S i) (x :: ss)) with (x :: alter f i ss).
    rewrite !cw_sum_cons, (IH i Hi). lia.
Qed.

Lemma cw_sum_nonpos ss : Forall (fun w => w_CurrentWeight w <= 0) ss -> cw_sum ss <= 0.
Proof. induction 1; rewrite ?cw_sum_cons; [done|lia]. Qed.

Lemma wt_le_sum ss w : Forall (fun w => 0 <= w_Weight w) ss -> w ∈ ss -> 0 <= w_Weight w <= wt_sum ss.
Proof.
  induction 1 as [|x ss Hx Hss IH]; [by intros ?%not_elem_of_nil|].
  rewrite elem_of_cons, wt_sum_cons. pose proof (wt_sum_nonneg ss Hss).
  intros [->|Hin]; [lia|]. specialize (IH Hin). lia.
Qed.

(** The loop adds every weight and picks a positive largest one, if there is one. *)
Lemma next_loop_spec ss :
  forall i m flag ss' f,
  Forall (fun w => - 2 ^ 63 <= w_CurrentWeight w + w_Weight w < 2 ^ 63) ss ->
  next_loop i ss m flag = (ss', f) ->
  ss' = bump <$> ss /\
  (f = flag /\ Forall (fun w => w_CurrentWeight w <= m) ss' \/
   exists j w, ss' !! j = Some w /\ f = (i + j)%nat /\ m < w_CurrentWeight w).
Proof.
  induction ss as [|w ss IH]; intros i m flag ss' f Hb Hl.
  { cbn in Hl. simplify_eq. split; [done|]. left. by split; [|constructor]. }
  apply Forall_cons in Hb as [Hw Hb]. cbn [next_loop] in Hl. rewrite i64_small in Hl by done.
  fold (bump w) in Hl.
  destruct (w_CurrentWeight (bump w) >? m) eqn:E; zbool.
  - destruct (next_loop (S i) ss _ _) as [r f'] eqn:El. simplify_eq.
    destruct (IH _ _ _ _ _ Hb El) as [-> [[-> Hle]|(j & x & Hj & -> & Hx)]]; (split; [done|]); right.
    + exists O, (bump w). split_and!; [done|lia|lia].
    + exists (S j), x. split_and!; [done|lia|lia].
  - destruct (next_loop (S i) ss _ _) as [r f'] eqn:El. simplify_eq.
    destruct (IH _ _ _ _ _ Hb El) as [-> [[-> Hle]|(j & x & Hj & -> & Hx)]]; (split; [done|]).
    + left. split; [done|]. constructor; [lia|done].
    + right. exists (S j), x. split_and!; [done|lia|lia].
Qed.

Section Fair.
Context (ss0 : list Weighted) (W : Z).
Hypothesis Hpos : Forall (fun w => 0 <= w_Weight w) ss0.
Hypothesis Hsum : wt_sum ss0 = W.
Hypothesis HW : 0 < W < 2 ^ 31.

(** After the picks [picks], server [i] has gained its weight once per pick and lost the
    total once per pick of its own. *)
Definition balanced (picks : list nat) (ss : list Weighted) : Prop :=
  length ss = length ss0 /\ cw_sum ss = 0 /\
  forall i w, ss !! i = Some w ->
    exists w0, ss0 !! i = Some w0 /\ w_Server w = w_Server w0 /\ w_Weight w = w_Weight w0 /\
      w_CurrentWeight w = zlen picks * w_Weight w0 - occ i picks * W /\
      - W < w_CurrentWeight w.

Lemma balanced_wt_sum picks ss : balanced picks ss -> wt_sum ss = W.
Proof.
  intros (Hl & _ & Hi). rewrite <- Hsum. clear HW Hpos Hsum.
  assert (w_Weight <$> ss = w_Weight <$> ss0) as E.
  { apply list_eq_same_length with (length ss0); [by rewrite length_fmap|by rewrite length_fmap|].
    intros i x y _ Hx Hy. apply list_lookup_fmap_Some in Hx as (w & -> & Hw).
    apply list_lookup_fmap_Some in Hy as (w0 & -> & Hw0).
    destruct (Hi i w Hw) as (w0' & Hw0' & _ & -> & _). congruence. }
  clear Hl Hi. revert E. generalize ss0 as ss1. induction ss as [|w ss IH]; intros [|w0 ss1] E; try done.
  injection E as Hw E. by rewrite !wt_sum_cons, Hw, (IH _ E).
Qed.

Lemma balanced_bounds picks ss w :
  balanced picks ss -> zlen picks < W -> w ∈ ss ->
  - 2 ^ 62 <= w_CurrentWeight w <= 2 ^ 62 /\ 0 <= w_Weight w <= W.
Proof.
  intros (_ & _ & Hi) Hk Hin. apply list_elem_of_lookup_1 in Hin as [i Hw].
  destruct (Hi i w Hw) as (w0 & Hw0 & _ & -> & -> & Hlow).
  assert (0 <= w_Weight w0 <= W) as Hw0'.
  { rewrite <- Hsum. apply wt_le_sum; [done|]. by eapply list_elem_of_lookup_2. }
  pose proof (zlen_nonneg picks). assert (0 <= occ i picks) by apply zlen_nonneg.
  split; [|done]. nia.
Qed.

(** One call of [next] keeps the balance. *)
Lemma next_balanced picks ss :
  balanced picks ss -> zlen picks < W ->
  exists ss' i, next W ss = (ss', Some i) /\ (i < length ss0)%nat /\
    balanced (picks ++ [i]) ss'.
Proof.
  intros Hb Hk. pose proof (balanced_wt_sum _ _ Hb) as Hws.
  assert (Forall (fun w => - 2 ^ 63 <= w_CurrentWeight w + w_Weight w < 2 ^ 63) ss) as Hbd.
  { apply Forall_forall. intros w Hw. destruct (balanced_bounds _ _ _ Hb Hk Hw). lia. }
  assert (forall (picks : list nat) i, zlen (picks ++ [i]) = zlen picks + 1) as Hz1.
  { intros. rewrite zlen_app. done. }
  destruct Hb as (Hl & Hs0 & Hi). destruct ss as [|w1 [|w2 ss]].
  { cbn in Hws. lia. }
  { (* a single server is returned as it is *)
    exists [w1], 0%nat. split_and!; [done|cbn in Hl; lia|].
    cbn in Hws, Hs0. split_and!; [done|cbn; lia|].
    intros [|i] w Hw; [|done]. injection Hw as <-.
    destruct (Hi 0%nat w1 eq_refl) as (w0 & H0 & Hsv & Hwt & Hcw & Hlow).
    exists w0. split_and!; try done. rewrite occ_app, occ_one, decide_True by done.
    rewrite Hz1. lia. }
  unfold next. set (ss1 := w1 :: w2 :: ss) in *.
  destruct (next_loop 0 ss1 0 0) as [ss2 f] eqn:El.
  destruct (next_loop_spec _ _ _ _ _ _ Hbd El) as [-> [[-> Hle]|(j & x & Hj & -> & Hx)]].
  { apply cw_sum_nonpos in Hle. rewrite cw_sum_bump in Hle. lia. }
  cbn [Nat.add]. pose proof Hj as Hj'. apply list_lookup_fmap_Some in Hj' as (w & -> & Hw).
  destruct (Hi j w Hw) as (w0 & H0 & Hsv & Hwt & Hcw & Hlow).
  assert (j < length ss0)%nat as Hjl by by eapply lookup_lt_Some.
  destruct (balanced_bounds picks ss1 w) as [Hcb Hwb];
    [by repeat split|done|by eapply list_elem_of_lookup_2|].
  eexists _, j. split; [reflexivity|]. split; [done|]. split_and!.
  - by rewrite length_alter, length_fmap.
  - rewrite (cw_sum_alter _ _ _ _ Hj), cw_sum_bump. cbn [w_CurrentWeight set_current].
    rewrite i64_small; cbn in *; lia.
  - intros i y Hy. destruct (decide (i = j)) as [->|Hne].
    + rewrite list_lookup_alter_eq, Hj in Hy. injection Hy as <-.
      exists w0. rewrite occ_app, occ_one, decide_True, Hz1 by done. cbn in *.
      rewrite i64_small by lia. split_and!; (done || lia).
    + rewrite list_lookup_alter_ne in Hy by done.
      apply list_lookup_fmap_Some in Hy as (z & -> & Hz).
      destruct (Hi i z Hz) as (z0 & Hz0 & Hzs & Hzw & Hzc & Hzl).
      assert (0 <= w_Weight z0).
      { rewrite Forall_lookup in Hpos. by eapply Hpos. }
      exists z0. rewrite occ_app, occ_one, decide_False, Hz1 by done. cbn.
      split_and!; (done || lia).
Qed.

Lemma balanced_init : Forall (fun w => w_CurrentWeight w = 0) ss0 -> balanced [] ss0.
Proof.
  intros H0. split_and!; [done|clear -H0; induction H0; rewrite ?cw_sum_cons; [done|lia]|].
  intros i w Hw. exists w. rewrite Forall_lookup in H0. specialize (H0 i w Hw).
  change (occ i []) with 0. change (zlen (@nil nat)) with 0.
  split_and!; (done || lia).
Qed.

(** The name of the server a pick stands for. *)
Definition name (i : nat) : option string := w_Server <$> ss0 !! i.

Lemma fillRing_picks n : forall picks ss rr,
  balanced picks ss -> zlen picks + Z.of_nat n <= W -> (n <= length rr)%nat ->
  exists ss' new, length new = n /\ Forall (fun i => (i < length ss0)%nat) new /\
    balanced (picks ++ new) ss' /\
    fillRing n W ss rr = (ss', drop n rr ++ (name <$> new)).
Proof.
  induction n as [|n IH]; intros picks ss rr Hb Hk Hn.
  { exists ss, []. rewrite !app_nil_r. by rewrite drop_0. }
  destruct (next_balanced _ _ Hb) as (ss1 & i & Hnx & Hil & Hb1); [lia|].
  destruct rr as [|r rr]; [cbn in Hn; lia|]. cbn in Hn.
  cbn [fillRing]. rewrite Hnx. cbn [ring_set ring_Next].
  assert ((Some i ≫= fun i => w_Server <$> ss1 !! i) = name i) as ->.
  { cbn. unfold name. destruct Hb1 as (Hl1 & _ & Hi1).
    destruct (lookup_lt_is_Some_2 ss1 i) as [w Hw]; [lia|]. rewrite Hw.
    destruct (Hi1 i w Hw) as (w0 & -> & Hsv & _). cbn. by rewrite Hsv. }
  destruct (IH (picks ++ [i]) ss1 (rr ++ [name i])) as (ss' & new & Hln & Hlt & Hb' & Hf);
    [done|rewrite zlen_app; change (zlen [i]) with 1; lia|rewrite length_app; cbn; lia|].
  exists ss', (i :: new). split_and!.
  - cbn. by rewrite Hln.
  - by constructor.
  - by rewrite <- app_assoc in Hb'.
  - rewrite Hf. rewrite drop_app_le by lia. by rewrite <- app_assoc.
Qed.

(** When the total of the weights is reached, every server has had its share and the
    current weights are back at zero. *)
Lemma balanced_full picks ss :
  balanced picks ss -> zlen picks = W ->
  forall i w0, ss0 !! i = Some w0 -> occ i picks = w_Weight w0.
Proof.
  intros (Hl & Hs0 & Hi) Hk.
  assert (Forall (fun w => 0 <= w_CurrentWeight w) ss) as Hnn.
  { apply Forall_lookup. intros i w Hw. destruct (Hi i w Hw) as (w0 & _ & _ & _ & Hc & Hlow).
    rewrite Hc, Hk in *. assert (occ i picks <= w_Weight w0) by nia. nia. }
  assert (Forall (fun w => w_CurrentWeight w = 0) ss) as Hz.
  { clear -Hs0 Hnn. induction Hnn as [|w ss Hw Hss IH]; [done|]. rewrite cw_sum_cons in Hs0.
    assert (0 <= cw_sum ss) by (clear -Hss; induction Hss; rewrite ?cw_sum_cons; [done|lia]).
    constructor; [lia|]. apply IH. lia. }
  intros i w0 Hw0. destruct (lookup_lt_is_Some_2 ss i) as [w Hw].
  { rewrite Hl. by eapply lookup_lt_Some. }
  destruct (Hi i w Hw) as (w0' & Hw0' & _ & _ & Hc & _). simplify_eq.
  rewrite Forall_lookup in Hz. rewrite (Hz i w Hw), Hk in Hc. nia.
Qed.
End Fair.

(** ** The ring *)

Lemma sum_weights_eq ss :
  Forall (fun w => 0 <= w_Weight w) ss -> wt_sum ss < 2 ^ 31 -> sum_weights ss = wt_sum ss.
Proof.
  unfold sum_weights. intros Hp Hw.
  assert (forall t, 0 <= t -> t + wt_sum ss < 2 ^ 32 ->
    foldl (fun t w => i64 (t + w_Weight w)) t ss = t + wt_sum ss) as Hg.
  2:{ rewrite Hg; lia. }
  clear Hw. induction Hp as [|w ss Hwp Hss IH]; intros t Ht Hw; cbn [foldl]; [change (wt_sum []) with 0; lia|].
  rewrite wt_sum_cons in *. pose proof (wt_sum_nonneg ss Hss).
  rewrite i64_small by lia. rewrite IH; lia.
Qed.

Definition wsel_ok (W : Z) (l : list string) (s : weightedRoundRobinSelector) : Prop :=
  wr_servers s <> [] /\ wr_rr s = Some <$> l /\ zlen l = W.

(** Selections walk the ring. *)
Lemma wrr_selects_walk path method args rnd a : forall ss t b,
  ss <> [] ->
  selects path method args rnd (length a) (WRRSel ss t (Some <$> (a ++ b)))
  = (WRRSel ss t (Some <$> (b ++ a)), Ok a).
Proof.
  induction a as [|x a IH]; intros ss t b Hss; [by rewrite app_nil_r|].
  cbn [length]. eapply selects_S.
  - cbn. unfold weightedRoundRobinSelector_Select. cbn [wr_servers wr_rr].
    assert ((zlen ss =? 0) = false) as ->.
    { destruct (zlen ss =? 0) eqn:E; [|done]. by apply zlen_zero in E. }
    cbn. reflexivity.
  - replace ((Some <$> a ++ b) ++ [Some x]) with (Some <$> (a ++ (b ++ [x])))
      by (rewrite !fmap_app, <- app_assoc; done).
    rewrite IH by done. by rewrite <- app_assoc.
Qed.

Lemma names_of_picks ss0 new :
  Forall (fun i => (i < length ss0)%nat) new -> exists l, name ss0 <$> new = Some <$> l.
Proof.
  induction 1 as [|i new Hi _ [l IH]]; [by exists []|].
  destruct (lookup_lt_is_Some_2 ss0 i Hi) as [w Hw].
  exists (w_Server w :: l). cbn. unfold name at 1. rewrite Hw. cbn. by rewrite IH.
Qed.

Lemma occ_names ss0 new l i w :
  NoDup (w_Server <$> ss0) -> ss0 !! i = Some w -> name ss0 <$> new = Some <$> l ->
  occ (w_Server w) l = occ i new.
Proof.
  intros Hnd Hw. revert l. induction new as [|j new IH]; intros [|x l] E; try done.
  cbn in E. injection E as Hx E.
  change (x :: l) with ([x] ++ l). change (j :: new) with ([j] ++ new).
  rewrite !occ_app, !occ_one, (IH _ E).
  unfold name in Hx. destruct (ss0 !! j) as [y|] eqn:Hj; [|done]. injection Hx as <-.
  destruct (decide (i = j)) as [->|Hne].
  - simplify_eq. by rewrite decide_True.
  - rewrite decide_False; [done|]. intros Heq. apply Hne.
    eapply (NoDup_lookup (w_Server <$> ss0)); [done| |].
    + by rewrite list_lookup_fmap, Hw.
    + rewrite list_lookup_fmap, Hj. cbn. by f_equal.
Qed.

(** One turn of a freshly built ring. *)
Lemma buildRing_exact ss0 t rr0 W :
  Forall (fun w => 0 <= w_Weight w) ss0 -> Forall (fun w => w_CurrentWeight w = 0) ss0 ->
  NoDup (w_Server <$> ss0) -> wt_sum ss0 = W -> 0 < W < 2 ^ 31 ->
  exists l ss, buildRing (WRRSel ss0 t rr0) = WRRSel ss W (Some <$> l) /\
    ss <> [] /\ zlen l = W /\
    forall i w, ss0 !! i = Some w -> occ (w_Server w) l = w_Weight w.
Proof.
  intros Hpos H0 Hnd Hsum HW. unfold buildRing. cbn [wr_servers].
  rewrite sum_weights_eq, Hsum by (done || lia).
  destruct (fillRing_picks ss0 W Hpos Hsum HW (Z.to_nat W) [] ss0 (ring_New W))
    as (ss & new & Hln & Hlt & Hb & Hf); [by apply balanced_init|unfold zlen; cbn [length]; lia|..].
  { unfold ring_New. rewrite length_replicate. lia. }
  destruct (names_of_picks _ _ Hlt) as [l Hl].
  assert (length l = length new) as Hll.
  { apply (f_equal length) in Hl. by rewrite !length_fmap in Hl. }
  exists l, ss. rewrite Hf, Hl. unfold ring_New. rewrite drop_ge by (rewrite length_replicate; lia).
  cbn [app] in *. split_and!; [done| |unfold zlen; lia|].
  - destruct Hb as (Hl0 & _). intros ->. destruct ss0; [|done]. cbn in Hsum. lia.
  - intros i w Hw. rewrite (occ_names _ _ _ _ _ Hnd Hw Hl).
    eapply balanced_full; [done..| |done]. unfold zlen. lia.
Qed.

(** Any number of selections turns the ring; it stays a rotation of itself. *)
Lemma wrr_selects_any path method args rnd n : forall ss t l,
  ss <> [] -> l <> [] ->
  exists l' ans, selects path method args rnd n (WRRSel ss t (Some <$> l))
    = (WRRSel ss t (Some <$> l'), Ok ans) /\ l' ≡ₚ l.
Proof.
  induction n as [|n IH]; intros ss t l Hss Hl; [by exists l, []|].
  destruct l as [|x l]; [done|].
  destruct (IH ss t (l ++ [x]) Hss) as (l' & ans & Hs & Hp); [by destruct l|].
  exists l', (x :: ans). split.
  - replace (S n) with (length [x] + n)%nat by done. change (x :: ans) with ([x] ++ ans).
    eapply selects_app; [|exact Hs]. by apply (wrr_selects_walk _ _ _ _ [x] ss t l).
  - rewrite Hp. apply Permutation_app_comm.
Qed.

(** C33. Smooth weighted round robin is exact: with non-negative weights (from the metadata of
    the servers) whose total [W] is positive and below 2^31, any [W] consecutive selections,
    starting anywhere in the ring, never panic and answer with each server exactly as many
    times as its weight. *)
Theorem weighted_exact_share kvs m W j path method args rnd :
  kvs ≡ₚ map_to_list m ->
  (forall k v, m !! k = Some v -> 0 <= weight_of v) ->
  wt_sum (createWeighted kvs) = W -> 0 < W < 2 ^ 31 ->
  exists s1 l1 s2 l2,
    selects path method args rnd j (newWeightedRoundRobinSelector kvs) = (s1, Ok l1) /\
    selects path method args rnd (Z.to_nat W) s1 = (s2, Ok l2) /\
    forall k v, m !! k = Some v -> occ k l2 = weight_of v.
Proof.
  intros Hk Hpos Hsum HW.
  assert (w_Server <$> createWeighted kvs = kvs.*1) as Hnames.
  { unfold createWeighted. rewrite <- list_fmap_compose. done. }
  destruct (buildRing_exact (createWeighted kvs) 0 [] W) as (l & ss & Hb & Hss & Hl & Hocc);
    [..|done|done|].
  { apply Forall_fmap, Forall_forall. intros [k v] Hin. cbn. rewrite Hk in Hin.
    apply elem_of_map_to_list in Hin. by eapply Hpos. }
  { by apply Forall_fmap, Forall_true. }
  { rewrite Hnames. by eapply NoDup_enum. }
  unfold newWeightedRoundRobinSelector. rewrite Hb.
  destruct (wrr_selects_any path method args rnd j ss W l Hss) as (l' & ans & Hs & Hp).
  { intros ->. unfold zlen in Hl. cbn in Hl. lia. }
  eexists _, ans, _, l'. split; [exact Hs|]. split.
  - replace (Z.to_nat W) with (length l') by (rewrite Hp; unfold zlen in Hl; lia).
    rewrite <- (app_nil_r l') at 2. by apply wrr_selects_walk.
  - intros k v Hkv. rewrite (occ_perm k _ _ Hp).
    apply elem_of_map_to_list in Hkv. rewrite <- Hk in Hkv.
    apply list_elem_of_lookup_1 in Hkv as [i Hi].
    apply (Hocc i (MkWeighted k (weight_of v) 0 0)).
    unfold createWeighted. by rewrite list_lookup_fmap, Hi.
Qed.

Definition kvs_demo : list (string * string) :=
  [("tcp@a:1", "weight=3"); ("tcp@b:1", "weight=2"); ("tcp@c:1", "group=g")]%string.

Lemma weighted_exact_share_witness :
  let m := list_to_map kvs_demo : gmap string string in
  exists s1 l1 s2 l2,
    selects "p" "m" "" (fun _ => 0) 4 (newWeightedRoundRobinSelector kvs_demo) = (s1, Ok l1) /\
    selects "p" "m" "" (fun _ => 0) (Z.to_nat 6) s1 = (s2, Ok l2) /\
    forall k v, m !! k = Some v -> occ k l2 = weight_of v.
Proof.
  intros m.
  assert (kvs_demo ≡ₚ map_to_list m) as Hk.
  { symmetry. apply map_to_list_to_map. apply (bool_decide_unpack _). vm_compute. exact I. }
  apply weighted_exact_share; [exact Hk| |vm_compute; reflexivity|lia].
  intros k v Hkv. apply elem_of_map_to_list in Hkv. rewrite <- Hk in Hkv.
  unfold kvs_demo in Hkv. repeat (apply elem_of_cons in Hkv as [[= -> ->]|Hkv];
    [apply Z.leb_le; vm_compute; reflexivity|]).
  by apply elem_of_nil in Hkv.
Defined.

(** ** Updating the servers *)

(** An update of the weighted selector does not reach its ring: the ring is rebuilt from
    the servers that were there before, so that, when the old weights are non-negative with a
    positive total, the next [W] selections are spread over the old servers, removed ones
    included, and a server that was added is never selected until a later update. *)
Theorem weighted_update_stale ss0 t rr0 W kvs path method args rnd :
  Forall (fun w => 0 <= w_Weight w) ss0 -> Forall (fun w => w_CurrentWeight w = 0) ss0 ->
  NoDup (w_Server <$> ss0) -> wt_sum ss0 = W -> 0 < W < 2 ^ 31 -> kvs <> [] ->
  exists s l,
    selects path method args rnd (Z.to_nat W)
      (weightedRoundRobinSelector_UpdateServer kvs (WRRSel ss0 t rr0)) = (s, Ok l) /\
    (forall w, w ∈ ss0 -> occ (w_Server w) l = w_Weight w) /\
    w_Server <$> wr_servers s = kvs.*1.
Proof.
  intros Hpos H0 Hnd Hsum HW Hkvs.
  destruct (buildRing_exact ss0 t rr0 W Hpos H0 Hnd Hsum HW) as (l & ss & Hb & Hss & Hl & Hocc).
  unfold weightedRoundRobinSelector_UpdateServer. rewrite Hb. cbn [wr_totalWeight wr_rr].
  eexists _, l. split_and!.
  - replace (Z.to_nat W) with (length l) by (unfold zlen in Hl; lia).
    rewrite <- (app_nil_r l) at 2. apply wrr_selects_walk. by destruct kvs.
  - intros w Hw. apply list_elem_of_lookup_1 in Hw as [i Hi]. by apply (Hocc i).
  - cbn. unfold createWeighted. by rewrite <- list_fmap_compose.
Qed.

Lemma weighted_update_stale_witness :
  let ss0 := [MkWeighted "tcp@old:1" 2 0 0] in
  exists s l,
    selects "p" "m" "" (fun _ => 0) (Z.to_nat 2)
      (weightedRoundRobinSelector_UpdateServer [("tcp@new:1", "")]%string (WRRSel ss0 2 []))
    = (s, Ok l) /\
    (forall w, w ∈ ss0 -> occ (w_Server w) l = w_Weight w) /\
    w_Server <$> wr_servers s = ["tcp@new:1"%string].
Proof.
  intros ss0. apply (weighted_update_stale ss0 2 [] 2 [("tcp@new:1", "")]%string);
    [repeat constructor; cbn; lia|repeat constructor|apply NoDup_singleton|reflexivity|lia|done].
Defined.

(** A weighted selector that starts without servers, as it does before discovery has
    found any, panics on the first selection after the first update brings some: the ring is
    still nil. *)
Theorem weighted_first_update_panics kvs :
  kvs <> [] ->
  snd (weightedRoundRobinSelector_Select
         (weightedRoundRobinSelector_UpdateServer kvs (newWeightedRoundRobinSelector [])))
  = Panic "nil pointer dereference".
Proof. by destruct kvs. Qed.

Lemma weighted_first_update_panics_witness :
  snd (weightedRoundRobinSelector_Select
         (weightedRoundRobinSelector_UpdateServer [("tcp@new:1", "")]%string
            (newWeightedRoundRobinSelector [])))
  = Panic "nil pointer dereference".
Proof. apply weighted_first_update_panics. discriminate. Defined.
