(* ===== verification/JumpHash.v ===== *)
(** client/hash_utils.go: the jump consistent hash.

    [Hash] computes with float64. The numbers are positive, so a float64 is a mantissa and an
    exponent here, and every operation rounds to 53 bits, to nearest, ties to even, as IEEE 754
    requires; the result of a loop is therefore the machine's, bit for bit. *)

From S2P Require Import Prelude Share Selector.

Module JumpHash.

(** ** float64, for numbers not below one *)

(** The integer nearest to [a / b]. *)
Definition rne (a b : Z) : Z :=
  let q := a / b in
  let r := a mod b in
  if 2 * r <? b then q else if 2 * r >? b then q + 1 else if Z.even q then q else q + 1.

(** [m * 2^e] *)
Record float64 := Float { f_man : Z; f_exp : Z }.

(** [a / b], rounded; [1 <= a / b]. *)
Definition fround (a b : Z) : float64 :=
  let e := Z.log2 (a / b) - 52 in
  if e <=? 0 then Float (rne (a * 2 ^ (- e)) b) e else Float (rne a (b * 2 ^ e)) e.

(** The product with an integer that is a float64, and the conversion to int64. *)
Definition fmul (n : Z) (x : float64) : float64 :=
  if f_exp x <=? 0 then fround (n * f_man x) (2 ^ (- f_exp x)) else fround (n * f_man x * 2 ^ f_exp x) 1.

Definition ftrunc (x : float64) : Z :=
  if f_exp x <=? 0 then f_man x / 2 ^ (- f_exp x) else f_man x * 2 ^ f_exp x.

(** ** Hash *)

Definition next_key (key : Z) : Z := u64 (key * 2862933555777941757 + 1).

(** [int64(float64(b+1) * (float64(int64(1)<<31) / float64((key>>33)+1)))] *)
Definition jump (key b : Z) : Z := ftrunc (fmul (b + 1) (fround (2 ^ 31) (Z.shiftr key 33 + 1))).

(** The loop; every round raises [j], so [buckets] rounds are enough. *)
Fixpoint hash_loop (fuel : nat) (key b j buckets : Z) : Z :=
  match fuel with
  | O => b
  | S fuel =>
      if j <? buckets then
        let key := next_key key in hash_loop fuel key j (jump key j) buckets
      else b
  end.

Definition Hash (key buckets : Z) : Z :=
  let buckets := if buckets <=? 0 then 1 else buckets in
  hash_loop (Z.to_nat buckets) key 0 0 buckets.

(** [i32] of the length, as the conversion does it. *)
Definition JumpConsistentHash (len : Z) (options : list string) : Z :=
  Hash (genKey options) (swrap 32 len).

(** ** A jump goes up *)

Lemma rne_ge a b k : 0 < b -> k * b <= a -> k <= rne a b.
Proof.
  intros Hb Hk. assert (k <= a / b) by (apply Z.div_le_lower_bound; lia).
  unfold rne. repeat case_match; lia.
Qed.

(** A float64 is at least [n]. *)
Definition fge (x : float64) (n : Z) : Prop :=
  if f_exp x <=? 0 then n * 2 ^ (- f_exp x) <= f_man x else n <= f_man x * 2 ^ f_exp x.

Lemma fround_ge a b n : 0 < b -> 0 <= n < 2 ^ 53 -> n * b <= a -> b <= a -> fge (fround a b) n.
Proof.
  intros Hb Hn Ha Hab. unfold fge, fround. set (e := Z.log2 (a / b) - 52).
  destruct (e <=? 0) eqn:E; cbn [f_exp f_man]; rewrite E; zbool.
  - apply rne_ge; [done|]. pose proof (Z.pow_pos_nonneg 2 (- e)). nia.
  - assert (1 <= a / b) by (apply Z.div_le_lower_bound; lia).
    assert (0 < 2 ^ e) by (apply Z.pow_pos_nonneg; lia).
    assert (2 ^ 52 <= rne a (b * 2 ^ e)); [apply rne_ge; [nia|]|].
    + assert (2 ^ (52 + e) <= a / b) as Hlog.
      { replace (52 + e) with (Z.log2 (a / b)) by lia. apply Z.log2_spec. lia. }
      rewrite Z.pow_add_r in Hlog by lia. pose proof (Z.mul_div_le a b). nia.
    + assert (2 <= 2 ^ e) by (replace 2 with (2 ^ 1) at 1 by done; apply Z.pow_le_mono_r; lia). nia.
Qed.

Lemma fmul_ge n x m : 0 < n < 2 ^ 53 -> fge x 1 -> m = n -> fge (fmul n x) m.
Proof.
  intros Hn Hx ->. unfold fge at 1 in Hx. unfold fmul. destruct (f_exp x <=? 0) eqn:E; zbool.
  - pose proof (Z.pow_pos_nonneg 2 (- f_exp x)). apply fround_ge; nia.
  - apply fround_ge; nia.
Qed.

Lemma ftrunc_ge x n : fge x n -> n <= ftrunc x.
Proof.
  unfold fge, ftrunc. destruct (f_exp x <=? 0) eqn:E; [|done]. zbool.
  pose proof (Z.pow_pos_nonneg 2 (- f_exp x)). intros H'. apply Z.div_le_lower_bound; lia.
Qed.

Lemma jump_up key b : 0 <= key < 2 ^ 64 -> 0 <= b < 2 ^ 53 - 1 -> b < jump key b.
Proof.
  intros Hk Hb. unfold jump. apply Z.lt_le_trans with (b + 1); [lia|]. apply ftrunc_ge.
  apply fmul_ge; [lia| |done].
  assert (0 <= Z.shiftr key 33 < 2 ^ 31).
  { rewrite Z.shiftr_div_pow2 by lia. split; [apply Z.div_pos; lia|].
    apply Z.div_lt_upper_bound; lia. }
  apply fround_ge; lia.
Qed.

(** ** Consistency *)

Lemma next_key_range key : 0 <= next_key key < 2 ^ 64.
Proof. apply wrap_range. lia. Qed.

Lemma hash_loop_over fuel key b j n : n <= j -> hash_loop fuel key b j n = b.
Proof. intros Hj. destruct fuel; cbn; [done|]. by rewrite (proj2 (Z.ltb_ge j n)). Qed.

Lemma hash_loop_range fuel key b j n :
  0 <= b < n -> 0 <= j -> n < 2 ^ 53 -> 0 <= hash_loop fuel key b j n < n.
Proof.
  revert key b j. induction fuel as [|fuel IH]; intros key b j Hb Hj Hn; [done|]. cbn.
  destruct (j <? n) eqn:E; zbool; [|done]. pose proof (next_key_range key).
  pose proof (jump_up (next_key key) j). apply IH; lia.
Qed.

(** Enough rounds: more of them change nothing. *)
Lemma hash_loop_fuel fuel fuel' key b j n :
  0 <= j -> n < 2 ^ 53 -> (Z.to_nat (n - j) <= fuel)%nat -> (fuel <= fuel')%nat ->
  hash_loop fuel' key b j n = hash_loop fuel key b j n.
Proof.
  revert fuel' key b j. induction fuel as [|fuel IH]; intros fuel' key b j Hj Hn Hf Hf'.
  { rewrite hash_loop_over by lia. done. }
  destruct fuel' as [|fuel']; [lia|]. cbn. destruct (j <? n) eqn:E; zbool; [|done].
  pose proof (next_key_range key). pose proof (jump_up (next_key key) j). apply IH; lia.
Qed.

Lemma hash_loop_step fuel key b j n :
  0 <= j -> n + 1 < 2 ^ 53 -> (Z.to_nat (n + 1 - j) <= fuel)%nat ->
  hash_loop fuel key b j (n + 1) = hash_loop fuel key b j n \/ hash_loop fuel key b j (n + 1) = n.
Proof.
  revert key b j. induction fuel as [|fuel IH]; intros key b j Hj Hn Hf; [by left|]. cbn.
  pose proof (next_key_range key). pose proof (jump_up (next_key key) j).
  destruct (j <? n + 1) eqn:E1; destruct (j <? n) eqn:E2; zbool; [apply IH; lia| |lia|by left].
  right. rewrite hash_loop_over by lia. lia.
Qed.

(** C38. The hash of a key is a bucket, and when one bucket is added a key stays where it was or
    moves to the new bucket, for every key and every number of buckets of an int32, with the
    rounding of float64. The loop has come to its end: more rounds do not change its result. *)
Theorem jump_hash_consistent key n :
  1 <= n < 2 ^ 31 - 1 ->
  0 <= Hash key n < n /\
  (Hash key (n + 1) = Hash key n \/ Hash key (n + 1) = n) /\
  (forall fuel, (Z.to_nat n <= fuel)%nat -> hash_loop fuel key 0 0 n = Hash key n).
Proof.
  intros Hn. unfold Hash. rewrite (proj2 (Z.leb_gt n 0)), (proj2 (Z.leb_gt (n + 1) 0)) by lia.
  split; [apply hash_loop_range; lia|]. split.
  - rewrite <- (hash_loop_fuel (Z.to_nat n) (Z.to_nat (n + 1)) key 0 0 n) by lia.
    apply hash_loop_step; lia.
  - intros fuel Hf. apply hash_loop_fuel; lia.
Qed.

(** Values that the machine computes. *)
Example hash_values : Hash 1 1 = 0 /\ Hash 3735883980 666 = 361 /\ Hash 42 57 = 43 /\ Hash 256 1024 = 520.
Proof. vm_compute. auto. Qed.

Lemma jump_hash_consistent_witness : 0 <= Hash 256 1024 < 1024 /\
  (Hash 256 (1024 + 1) = Hash 256 1024 \/ Hash 256 (1024 + 1) = 1024).
Proof. destruct (jump_hash_consistent 256 1024 ltac:(lia)) as (H1 & H2 & _). split; [exact H1|exact H2]. Defined.

Lemma JumpConsistentHash_range len options :
  1 <= len < 2 ^ 31 -> 0 <= JumpConsistentHash len options < len.
Proof.
  intros Hl. unfold JumpConsistentHash, Hash, swrap. change (32 - 1) with 31.
  rewrite Z.mod_small by lia. replace (len + 2 ^ 31 - 2 ^ 31) with len by lia.
  rewrite (proj2 (Z.leb_gt len 0)) by lia. apply hash_loop_range; lia.
Qed.
End JumpHash.
