(* ===== verification/Modes.v ===== *)
(** client/mode.go, failmode_enumer.go, selectmode_enumer.go: the names of the fail modes and of
    the select modes. The two generated files are one printer on a string of names and a table
    of offsets. *)

From S2P Require Import Prelude GoStd.

Module Modes.

(** ** The generated code *)

Section Enumer.
Context (typeName : string) (names : string) (index : list Z).

Definition substring (lo hi : Z) : string :=
  bytes_string (take (Z.to_nat (hi - lo)) (drop (Z.to_nat lo) (string_bytes names))).

Definition idx (i : Z) : Z := default 0 (index !! Z.to_nat i).

(** [String] *)
Definition enum_String (i : Z) : string :=
  if (i <? 0) || (i >=? zlen index - 1)
  then (typeName +:+ "(" +:+ FormatInt i +:+ ")")%string
  else substring (idx i) (idx (i + 1)).

(** The values, [0] to [zlen index - 2], and the map from names to values. *)
Definition enum_Values : list Z := Z.of_nat <$> seq 0 (length index - 1).

Definition nameToValue : list (string * Z) :=
  (fun i => (substring (idx i) (idx (i + 1)), i)) <$> enum_Values.

(** [FailModeString] and [SelectModeString] *)
Definition enum_FromString (s : string) : res Z :=
  match (list_to_map nameToValue : gmap string Z) !! s with
  | Some v => Ok v
  | None => Er (errorString (s +:+ " does not belong to " +:+ typeName +:+ " values"))
  end.

(** [IsAFailMode] and [IsASelectMode] *)
Definition enum_IsA (i : Z) : bool := existsb (Z.eqb i) enum_Values.

(** ** Round trip, from what is checked of the tables *)

(** The names differ, and none looks like the text of a value out of range. *)
Definition names_ok : Prop :=
  NoDup nameToValue.*1 /\
  forall x, (typeName +:+ "(" +:+ x)%string ∉ nameToValue.*1.

Lemma enum_IsA_range i : enum_IsA i = true <-> 0 <= i < zlen index - 1.
Proof using Type.
  unfold enum_IsA. rewrite existsb_exists. unfold enum_Values, zlen. split.
  - intros (x & Hx & E). apply list_elem_of_In, list_elem_of_fmap in Hx as (k & -> & Hk).
    apply elem_of_seq in Hk. apply Z.eqb_eq in E. lia.
  - intros Hi. exists i. split; [|apply Z.eqb_refl]. apply list_elem_of_In, list_elem_of_fmap.
    exists (Z.to_nat i). split; [lia|]. apply elem_of_seq. lia.
Qed.

Lemma nameToValue_In i : enum_IsA i = true -> (enum_String i, i) ∈ nameToValue.
Proof using Type.
  intros Hi. pose proof Hi as Hr. rewrite enum_IsA_range in Hr. unfold enum_String.
  rewrite (proj2 (Z.ltb_ge i 0)), Z.geb_leb, (proj2 (Z.leb_gt _ i)) by lia. cbn [orb].
  unfold nameToValue. apply list_elem_of_fmap. exists i. split; [done|].
  unfold enum_IsA in Hi. apply existsb_exists in Hi as (x & Hx & E).
  apply Z.eqb_eq in E as ->. by apply list_elem_of_In.
Qed.

Lemma nameToValue_inv s i : (s, i) ∈ nameToValue -> enum_IsA i = true /\ s = enum_String i.
Proof using Type.
  unfold nameToValue. intros (k & [= -> ->] & Hk)%list_elem_of_fmap.
  assert (enum_IsA k = true) as Hisa.
  { unfold enum_IsA. apply existsb_exists. exists k. split; [by apply list_elem_of_In|apply Z.eqb_refl]. }
  split; [done|]. apply enum_IsA_range in Hisa. unfold enum_String.
  by rewrite (proj2 (Z.ltb_ge k 0)), Z.geb_leb, (proj2 (Z.leb_gt _ k)) by lia.
Qed.

Lemma enum_FromString_Ok s i :
  names_ok -> enum_FromString s = Ok i <-> enum_IsA i = true /\ s = enum_String i.
Proof using Type.
  intros [Hnd _]. unfold enum_FromString.
  destruct (list_to_map nameToValue !! s) as [v|] eqn:E.
  - pose proof E as E'. apply elem_of_list_to_map_2, nameToValue_inv in E as [H1 H2].
    split; [intros [= <-]; done|]. intros [Hi Hs]. f_equal.
    apply nameToValue_In in Hi. rewrite <- Hs in Hi.
    apply (elem_of_list_to_map_1 nameToValue) in Hi; [congruence|done].
  - split; [done|]. intros [Hi ->]. apply nameToValue_In in Hi.
    apply (elem_of_list_to_map_1 nameToValue) in Hi; [congruence|done].
Qed.

Lemma enum_String_inverse i :
  names_ok ->
  enum_FromString (enum_String i) =
    if enum_IsA i then Ok i
    else Er (errorString (enum_String i +:+ " does not belong to " +:+ typeName +:+ " values")).
Proof using Type.
  intros Hok. destruct (enum_IsA i) eqn:E; [by apply (enum_FromString_Ok _ _ Hok)|].
  unfold enum_FromString. rewrite not_elem_of_list_to_map_1; [done|].
  assert (~ (0 <= i < zlen index - 1)) as Hr by (rewrite <- enum_IsA_range; by rewrite E).
  destruct Hok as [_ Hno]. unfold enum_String.
  assert ((i <? 0) || (i >=? zlen index - 1) = true) as ->; [|apply Hno].
  rewrite Z.geb_leb. destruct (i <? 0) eqn:E1; [done|]. zbool. apply Z.leb_le. lia.
Qed.
End Enumer.

(** ** The two tables *)

Definition FailModeName := "FailoverFailfastFailtryFailbackup"%string.
Definition FailModeIndex : list Z := [0; 8; 16; 23; 33].
Definition FailMode_String := enum_String "FailMode" FailModeName FailModeIndex.
Definition FailModeString := enum_FromString "FailMode" FailModeName FailModeIndex.
Definition FailModeValues : list Z := enum_Values FailModeIndex.
Definition IsAFailMode := enum_IsA FailModeIndex.

Definition SelectModeName := "RandomSelectRoundRobinWeightedRoundRobinWeightedICMPConsistentHashClosest"%string.
Definition SelectModeIndex : list Z := [0; 12; 22; 40; 52; 66; 73].
Definition SelectMode_String := enum_String "SelectMode" SelectModeName SelectModeIndex.
Definition SelectModeString := enum_FromString "SelectMode" SelectModeName SelectModeIndex.
Definition SelectModeValues : list Z := enum_Values SelectModeIndex.
Definition IsASelectMode := enum_IsA SelectModeIndex.
Definition SelectByUser : Z := 1000.

Lemma FailMode_names : nameToValue FailModeName FailModeIndex =
  [("Failover", 0); ("Failfast", 1); ("Failtry", 2); ("Failbackup", 3)]%string.
Proof. vm_compute. reflexivity. Qed.

Lemma SelectMode_names : nameToValue SelectModeName SelectModeIndex =
  [("RandomSelect", 0); ("RoundRobin", 1); ("WeightedRoundRobin", 2); ("WeightedICMP", 3);
   ("ConsistentHash", 4); ("Closest", 5)]%string.
Proof. vm_compute. reflexivity. Qed.

Lemma FailMode_ok : names_ok "FailMode" FailModeName FailModeIndex.
Proof.
  unfold names_ok. rewrite FailMode_names. split; [by apply (bool_decide_unpack _); vm_compute|].
  intros x H. cbn in H. repeat (apply elem_of_cons in H as [H|H]; [discriminate|]). by inversion H.
Qed.

Lemma SelectMode_ok : names_ok "SelectMode" SelectModeName SelectModeIndex.
Proof.
  unfold names_ok. rewrite SelectMode_names. split; [by apply (bool_decide_unpack _); vm_compute|].
  intros x H. cbn in H. repeat (apply elem_of_cons in H as [H|H]; [discriminate|]). by inversion H.
Qed.

(** The names of fail modes and of select modes are read back: a value of the enumeration is
    what its name is read as, a text is read as a value only if it is the name of that value,
    and the text of any other integer is refused. *)
Theorem mode_names_roundtrip i s :
  FailModeString (FailMode_String i) =
    (if IsAFailMode i then Ok i else Er (errorString (FailMode_String i +:+ " does not belong to FailMode values"))) /\
  (FailModeString s = Ok i <-> IsAFailMode i = true /\ s = FailMode_String i) /\
  SelectModeString (SelectMode_String i) =
    (if IsASelectMode i then Ok i else Er (errorString (SelectMode_String i +:+ " does not belong to SelectMode values"))) /\
  (SelectModeString s = Ok i <-> IsASelectMode i = true /\ s = SelectMode_String i).
Proof.
  pose proof (enum_String_inverse _ _ _ i FailMode_ok). pose proof (enum_String_inverse _ _ _ i SelectMode_ok).
  pose proof (enum_FromString_Ok _ _ _ s i FailMode_ok). pose proof (enum_FromString_Ok _ _ _ s i SelectMode_ok).
  done.
Qed.

(** The mode for a selector of the user has a text, but no name. *)
Example SelectByUser_unnamed : SelectMode_String SelectByUser = "SelectMode(1000)"%string /\ IsASelectMode SelectByUser = false.
Proof. split; reflexivity. Qed.
End Modes.
