(* ===== verification/Log.v ===== *)
(** log/logger.go, default_logger.go, dummy_logger.go: the package's logger, and the levels of
    the default one. What is printed is the list of lines; the colours of the level names are
    left out. *)

From S2P Require Import Prelude GoStd.

Module Log.

Definition LvPanic := 0.
Definition LvFatal := 1.
Definition LvError := 2.
Definition LvWarn := 3.
Definition LvInfo := 4.
Definition LvDebug := 5.
Definition LvMax := 6.

(** An entry of the table of output functions: [Output], [dropOutput], or nil. *)
Inductive outputFn := OutNil | OutLogger | OutDrop.

Record defaultLogger := MkLogger { lg_prefix : string; lg_out : list outputFn }.

(** The level: the argument, or an integer in the variable RPCX_LOG_LEVEL. *)
Definition effectiveLevel (env : string) (lv : Z) : Z :=
  if bool_decide (env = ""%string) then lv else default lv (ParseInt env).

(** The loop starts at [LvFatal]: entry 0 stays nil. *)
Definition NewDefaultLogger (env prefix : string) (lv : Z) : defaultLogger :=
  let level := effectiveLevel env lv in
  MkLogger prefix (OutNil :: ((fun i => if Z.of_nat i <=? level then OutLogger else OutDrop) <$> seq 1 5)).

(** ** Printing *)

(** The effects: a line, the end of the process, a panic. *)
Inductive effect := Line (s : string) | Exit (code : Z) | Panicked (s : string).

Definition header (lvl msg : string) : string := (lvl +:+ ": " +:+ msg)%string.

Definition output (l : defaultLogger) (lv : Z) (name msg : string) : res (list effect) :=
  match lg_out l !! Z.to_nat lv with
  | Some OutLogger => Ok [Line (lg_prefix l +:+ header name msg)]
  | Some OutDrop => Ok []
  | _ => Panic "invalid memory address or nil pointer dereference"
  end.

(** The methods of the interface [Logger], by their level. *)
Inductive level := Debug | Info | Warn | Error | Fatal | PanicLv.

Definition level_value (lv : level) : Z :=
  match lv with Debug => LvDebug | Info => LvInfo | Warn => LvWarn | Error => LvError | Fatal => LvFatal | PanicLv => LvPanic end.

Definition level_name (lv : level) : string :=
  match lv with Debug => "DEBUG" | Info => "INFO " | Warn => "WARN " | Error => "ERROR" | Fatal => "FATAL" | PanicLv => "" end%string.

(** [Fatal] and [Panic] go to the embedded logger, whatever the level. *)
Definition default_log (l : defaultLogger) (lv : level) (msg : string) : res (list effect) :=
  match lv with
  | Fatal => Ok [Line (lg_prefix l +:+ header (level_name lv) msg); Exit 1]
  | PanicLv => Ok [Line (lg_prefix l +:+ msg); Panicked msg]
  | _ => output l (level_value lv) (level_name lv) msg
  end.

(** A logger of the package: the default one, the silent one, or one of the application. *)
Inductive Logger := DefaultLogger (l : defaultLogger) | DummyLogger | UserLogger (f : level -> string -> list effect).

Definition log_with (l : Logger) (lv : level) (msg : string) : res (list effect) :=
  match l with
  | DefaultLogger l => default_log l lv msg
  | DummyLogger => Ok []
  | UserLogger f => Ok (f lv msg)
  end.

(** The package variable [l], and the functions on it. *)
Definition SetLogger (logger : Logger) (l : Logger) : Logger := logger.
Definition GetLogger (l : Logger) : Logger := l.
Definition SetDummyLogger (l : Logger) : Logger := DummyLogger.
Definition package_log (l : Logger) (lv : level) (msg : string) : res (list effect) := log_with l lv msg.

Definition initial (env : string) : Logger := DefaultLogger (NewDefaultLogger env "" LvError).

(** ** What is printed *)

Definition leveled (lv : level) : bool := match lv with Fatal | PanicLv => false | _ => true end.

Lemma out_lookup env prefix lv i :
  1 <= i < LvMax ->
  lg_out (NewDefaultLogger env prefix lv) !! Z.to_nat i =
    Some (if i <=? effectiveLevel env lv then OutLogger else OutDrop).
Proof.
  intros Hi. unfold NewDefaultLogger. cbn [lg_out].
  assert (i = 1 \/ i = 2 \/ i = 3 \/ i = 4 \/ i = 5) as H by (unfold LvMax in Hi; lia).
  by destruct H as [->|[->|[->|[->| ->]]]].
Qed.

(** No call of a logger made by [NewDefaultLogger] hits the missing entry of its table; a
    message below fatal is printed, once and with the name of its level, exactly when its level
    is at most the configured one; a fatal message is always printed, and ends the process. *)
Theorem log_levels env prefix lv l msg :
  default_log (NewDefaultLogger env prefix lv) l msg =
    if leveled l then
      Ok (if level_value l <=? effectiveLevel env lv
          then [Line (prefix +:+ level_name l +:+ ": " +:+ msg)%string] else [])
    else Ok [Line (prefix +:+ match l with Fatal => header "FATAL" msg | _ => msg end)%string;
             match l with Fatal => Exit 1 | _ => Panicked msg end].
Proof.
  destruct l; cbn [leveled]; try done; cbn [default_log]; unfold output;
    rewrite out_lookup by (unfold level_value, LvMax, LvDebug, LvInfo, LvWarn, LvError; lia); by destruct (_ <=? _).
Qed.

(** By default only errors are printed; the variable turns everything on. *)
Example default_is_error :
  package_log (initial "") Warn "w" = Ok [] /\ package_log (initial "") Error "e" = Ok [Line "ERROR: e"%string] /\
  package_log (initial "99") Debug "d" = Ok [Line "DEBUG: d"%string] /\
  package_log (SetDummyLogger (initial "99")) Fatal "f" = Ok [].
Proof. repeat split. Qed.
End Log.
