(* ===== verification/Interfaces.v ===== *)
(** util/net.go: the addresses of this machine and free ports.

    What [net.Interfaces] and [Addrs] return is an argument: a list of interfaces with their
    flags and addresses, each the bytes of an IP (4 or 16 of them), or none. *)

From S2P Require Import Prelude GoStd NetIP.

Module Interfaces.

Record netInterface := MkIface {
  if_up : bool;
  if_loopback : bool;
  if_Addrs : list (option bytes) + error;
}.

(** [IP.IsLoopback] *)
Definition IsLoopback (ip : bytes) : bool :=
  match To4 ip with
  | Some ip4 => bool_decide (head ip4 = Some 127)
  | None => bool_decide (ip = replicate 15 0 ++ [1])
  end.

(** [IP.To16] *)
Definition To16 (ip : bytes) : option bytes :=
  if (length ip =? 4)%nat then Some (v4InV6Prefix ++ ip)
  else if (length ip =? 16)%nat then Some ip
  else None.

Definition noNetwork : error := errorString "are you connected to the network?".

Section External.
(** [To4] or [To16]. *)
Context (conv : bytes -> option bytes).

Fixpoint first_addr (addrs : list (option bytes)) : option bytes :=
  match addrs with
  | [] => None
  | None :: r => first_addr r
  | Some ip :: r =>
      if IsLoopback ip then first_addr r
      else match conv ip with Some ip => Some ip | None => first_addr r end
  end.

Fixpoint external (ifaces : list netInterface) : res bytes :=
  match ifaces with
  | [] => Er noNetwork
  | i :: r =>
      if negb (if_up i) then external r
      else if if_loopback i then external r
      else match if_Addrs i with
           | inr err => Er err
           | inl addrs => match first_addr addrs with Some ip => Ok ip | None => external r end
           end
  end.

(** Where an address comes from: an interface that is up and not the loopback one, whose
    addresses before it were not usable. *)
Lemma first_addr_spec addrs ip :
  first_addr addrs = Some ip -> exists a, Some a ∈ addrs /\ IsLoopback a = false /\ conv a = Some ip.
Proof using Type.
  induction addrs as [|[a|] r IH]; cbn; [done| |].
  - destruct (IsLoopback a) eqn:E; [intros H; destruct (IH H) as (b & ? & ?); exists b; by split; [right|]|].
    destruct (conv a) eqn:Ec; [intros [= ->]; exists a; by split; [left|]|].
    intros H. destruct (IH H) as (b & ? & ?). exists b. by split; [right|].
  - intros H. destruct (IH H) as (b & ? & ?). exists b. by split; [right|].
Qed.

Lemma external_spec ifaces ip :
  external ifaces = Ok ip ->
  exists i addrs a, i ∈ ifaces /\ if_up i = true /\ if_loopback i = false /\
    if_Addrs i = inl addrs /\ Some a ∈ addrs /\ IsLoopback a = false /\ conv a = Some ip.
Proof using Type.
  induction ifaces as [|i r IH]; cbn; [done|].
  assert (external r = Ok ip -> exists i0 addrs a, i0 ∈ i :: r /\ if_up i0 = true /\ if_loopback i0 = false /\
    if_Addrs i0 = inl addrs /\ Some a ∈ addrs /\ IsLoopback a = false /\ conv a = Some ip) as Hr.
  { intros H. destruct (IH H) as (i0 & addrs & a & Hin & Hrest). exists i0, addrs, a. split; [by right|done]. }
  destruct (if_up i) eqn:E1; cbn; [|exact Hr]. destruct (if_loopback i) eqn:E2; [exact Hr|].
  destruct (if_Addrs i) as [addrs|err] eqn:E3; [|done].
  destruct (first_addr addrs) as [ip'|] eqn:E4; [|exact Hr]. intros [= ->].
  destruct (first_addr_spec _ _ E4) as (a & H1 & H2 & H3). exists i, addrs, a. by split; [left|].
Qed.
End External.

Definition ExternalIPV4 : list netInterface -> res bytes := external To4.
Definition ExternalIPV6 : list netInterface -> res bytes := external To16.

(** [GetFreePort]: the port that a listener on port 0 gets, which is closed again. *)
Definition GetFreePort (listen : string -> string -> res Z) : res Z := listen "tcp"%string "127.0.0.1:0"%string.

Lemma To4_length ip ip4 : To4 ip = Some ip4 -> length ip4 = 4%nat.
Proof.
  unfold To4. repeat case_decide; intros [= <-]; [done|]. rewrite length_drop. lia.
Qed.

(** [ExternalIPV4] returns an IPv4 address, not a loopback one, of an interface that is up
    and is not the loopback one. *)
Theorem external_ipv4 ifaces ip :
  ExternalIPV4 ifaces = Ok ip ->
  length ip = 4%nat /\ exists i addrs a, i ∈ ifaces /\ if_up i = true /\ if_loopback i = false /\
    if_Addrs i = inl addrs /\ Some a ∈ addrs /\ IsLoopback a = false /\ To4 a = Some ip.
Proof.
  intros H. destruct (external_spec To4 ifaces ip H) as (i & addrs & a & Hi & H1 & H2 & H3 & H4 & H5 & H6).
  split; [by eapply To4_length|]. by exists i, addrs, a.
Qed.

Definition eth0 : netInterface := MkIface true false (inl [Some [192; 168; 0; 7]; Some (32 :: 1 :: replicate 14 9)]).
Definition lo : netInterface := MkIface true true (inl [Some [127; 0; 0; 1]]).

Lemma external_ipv4_witness : length [192; 168; 0; 7] = 4%nat.
Proof. apply (external_ipv4 [lo; eth0] [192; 168; 0; 7]). reflexivity. Defined.

(** Every IPv4 address has a 16-byte form: a machine with both kinds of addresses that lists
    IPv4 first gets an IPv4 address from [ExternalIPV6]. *)
Example external_ipv6_is_ipv4 : exists ip, ExternalIPV6 [lo; eth0] = Ok ip /\ To4 ip = Some [192; 168; 0; 7].
Proof. eexists. split; reflexivity. Qed.
End Interfaces.
