(* ===== verification/Hooks.v ===== *)
(** The loops over hooks that the plugin containers of the clients (client/plugin.go) and of
    the server (server/plugin.go) run.

    A hook is any stateful function: it maps the world [W] its plugins live in to a new one
    and a result. A plugin implements some of the interfaces of the source: a hook it does not
    have is [None], the failed type assertion of the loop. *)

From S2P Require Import Prelude.

(** ** Loops over hooks *)

Section Loops.
Context {W : Type}.

(** [for i := range plugins { if plugin, ok := ...; ok { err := plugin.Hook(...);
    if err != nil { return err } } }; return nil] *)
Fixpoint run_until_error (hooks : list (option (W -> W * option error))) (w : W) :
    W * option error :=
  match hooks with
  | [] => (w, None)
  | None :: r => run_until_error r w
  | Some h :: r =>
      match h w with
      | (w, Some err) => (w, Some err)
      | (w, None) => run_until_error r w
      end
  end.

(** The same loop with a value that each hook replaces. *)
Fixpoint thread_until_error {A} (hooks : list (option (A -> W -> W * (A * option error))))
    (a : A) (w : W) : W * (A * option error) :=
  match hooks with
  | [] => (w, (a, None))
  | None :: r => thread_until_error r a w
  | Some h :: r =>
      match h a w with
      | (w, (a, Some err)) => (w, (a, Some err))
      | (w, (a, None)) => thread_until_error r a w
      end
  end.

(** Every hook runs; the errors are collected in order. *)
Fixpoint collect_errors (hooks : list (option (W -> W * option error))) (w : W) :
    W * list error :=
  match hooks with
  | [] => (w, [])
  | None :: r => collect_errors r w
  | Some h :: r =>
      let '(w, e) := h w in
      let '(w, es) := collect_errors r w in
      (w, match e with Some err => err :: es | None => es end)
  end.

(** Running hooks one after the other, whatever they return. *)
Definition run_all (hooks : list (option (W -> W * option error))) (w : W) : W :=
  foldl (fun w h => match h with Some h => fst (h w) | None => w end) w hooks.

(** Every hook of the list returns nil when run in turn from [w]. *)
Fixpoint all_nil (hooks : list (option (W -> W * option error))) (w : W) : Prop :=
  match hooks with
  | [] => True
  | None :: r => all_nil r w
  | Some h :: r => snd (h w) = None /\ all_nil r (fst (h w))
  end.

(** The loop runs the hooks in order up to the first one that fails. *)
Lemma run_until_error_spec hooks w :
  match run_until_error hooks w with
  | (w', None) => all_nil hooks w /\ w' = run_all hooks w
  | (w', Some err) =>
      exists pre h post, hooks = pre ++ Some h :: post /\ all_nil pre w /\
        h (run_all pre w) = (w', Some err)
  end.
Proof.
  revert w. induction hooks as [|[h|] r IH]; intros w; cbn [run_until_error]; [done| |].
  - destruct (h w) as [w1 [err|]] eqn:E.
    + exists [], h, r. done.
    + specialize (IH w1). destruct (run_until_error r w1) as [w' [err|]].
      * destruct IH as (pre & h' & post & -> & Hn & Hr).
        exists (Some h :: pre), h', post. unfold run_all in *. cbn. by rewrite E.
      * unfold run_all in *. cbn. rewrite E. by destruct IH.
  - specialize (IH w). destruct (run_until_error r w) as [w' [err|]]; [|done].
    destruct IH as (pre & h' & post & -> & Hn & Hr). by exists (None :: pre), h', post.
Qed.

Lemma collect_errors_run hooks w : fst (collect_errors hooks w) = run_all hooks w.
Proof.
  revert w. induction hooks as [|[h|] r IH]; intros w; cbn; [done| |by rewrite IH].
  specialize (IH (fst (h w))). destruct (h w) as [w1 e]. cbn in *.
  by destruct (collect_errors r w1) as [w2 es].
Qed.

Lemma collect_errors_nil hooks w : snd (collect_errors hooks w) = [] <-> all_nil hooks w.
Proof.
  revert w. induction hooks as [|[h|] r IH]; intros w; cbn; [done| |done].
  specialize (IH (fst (h w))). destruct (h w) as [w1 e]. cbn in *.
  destruct (collect_errors r w1) as [w2 es]. cbn in *. destruct e; naive_solver.
Qed.
End Loops.
