(* ===== verification/ClientPlugins.v ===== *)
(** The plugin container of the clients (client/plugin.go). *)

From S2P Require Import Prelude Header Message Hooks.

(** ** pluginContainer *)

Section Container.
Context {W C A R : Type}.

(** [SelectFunc]: the selection of a server is a stateful function. *)
Definition SelectFunc : Type := string -> string -> A -> W -> W * res string.

(** [pl_id] is the identity of the plugin, which [Remove] compares. [C] is [net.Conn], [A]
    and [R] the types of arguments and replies. *)
Record Plugin := MkPlugin {
  pl_id : nat;
  PreCall : option (string -> string -> A -> W -> W * option error);
  PostCall : option (string -> string -> A -> R -> option error -> W -> W * option error);
  ConnCreated : option (C -> W -> W * (C * option error));
  ConnCreateFailed : option (string -> string -> W -> W);
  ClientConnected : option (C -> W -> W * (C * option error));
  ClientConnectionClose : option (C -> W -> W * option error);
  ClientBeforeEncode : option (Message -> W -> W * (Message * option error));
  ClientAfterDecode : option (Message -> W -> W * (Message * option error));
  WrapSelect : option (SelectFunc -> SelectFunc);
}.

(** The container is the list of its plugins. *)
Local Abbreviation pluginContainer := (list Plugin).

Definition Add (plugin : Plugin) (p : pluginContainer) : pluginContainer := p ++ [plugin].

Definition Remove (plugin : Plugin) (p : pluginContainer) : pluginContainer :=
  filter (fun pp => pl_id pp <> pl_id plugin) p.

Definition DoPreCall (p : pluginContainer) (sp sm : string) (args : A) : W -> W * option error :=
  run_until_error ((fun pl => (fun h => h sp sm args) <$> PreCall pl) <$> p).

(** The error a hook returns is what the next one gets; the loop ends with nil. *)
Fixpoint DoPostCall (p : pluginContainer) (sp sm : string) (args : A) (reply : R)
    (err : option error) (w : W) : W * option error :=
  match p with
  | [] => (w, None)
  | pl :: r =>
      match PostCall pl with
      | None => DoPostCall r sp sm args reply err w
      | Some h =>
          match h sp sm args reply err w with
          | (w, Some err) => (w, Some err)
          | (w, None) => DoPostCall r sp sm args reply None w
          end
      end
  end.

Definition DoConnCreated (p : pluginContainer) (conn : C) : W -> W * (C * option error) :=
  thread_until_error (ConnCreated <$> p) conn.

Definition DoConnCreateFailed (p : pluginContainer) (network address : string) (w : W) : W :=
  foldl (fun w pl => match ConnCreateFailed pl with
                     | Some h => h network address w | None => w end) w p.

Definition DoClientConnected (p : pluginContainer) (conn : C) : W -> W * (C * option error) :=
  thread_until_error (ClientConnected <$> p) conn.

Definition DoClientConnectionClose (p : pluginContainer) (conn : C) : W -> W * option error :=
  run_until_error ((fun pl => (fun h => h conn) <$> ClientConnectionClose pl) <$> p).

(** The hooks change the message they are given. *)
Definition DoClientBeforeEncode (p : pluginContainer) (req : Message) :
    W -> W * (Message * option error) :=
  thread_until_error (ClientBeforeEncode <$> p) req.

Definition DoClientAfterDecode (p : pluginContainer) (req : Message) :
    W -> W * (Message * option error) :=
  thread_until_error (ClientAfterDecode <$> p) req.

Definition DoWrapSelect (p : pluginContainer) (fn : SelectFunc) : SelectFunc :=
  foldl (fun rt pl => match WrapSelect pl with Some h => h rt | None => rt end) fn p.

Lemma Remove_Add plugin p :
  (forall pl, pl ∈ p -> pl_id pl <> pl_id plugin) -> Remove plugin (Add plugin p) = p.
Proof.
  intros Hp. unfold Remove, Add. rewrite filter_app, filter_cons_False, filter_nil, app_nil_r.
  - induction p as [|q p IH]; [done|]. rewrite filter_cons_True.
    + f_equal. apply IH. intros pl Hpl. apply Hp. set_solver.
    + apply Hp. set_solver.
  - intros Hn. by apply Hn.
Qed.

(** A call is let through by the plugins exactly when every [PreCall] hook, run in the
    order the plugins were added, returns nil; otherwise the first error is returned and no
    later hook runs. *)
Theorem DoPreCall_spec p sp sm args w :
  let hooks := (fun pl => (fun h => h sp sm args) <$> PreCall pl) <$> p in
  match DoPreCall p sp sm args w with
  | (w', None) => all_nil hooks w /\ w' = run_all hooks w
  | (w', Some err) =>
      exists pre h post, hooks = pre ++ Some h :: post /\ all_nil pre w /\
        h (run_all pre w) = (w', Some err)
  end.
Proof. apply run_until_error_spec. Qed.

(** An error of the call survives the plugins only if a [PostCall] hook returns it: the
    container answers nil when every hook does, and the hooks after the first see nil instead
    of the error of the call. *)
Theorem DoPostCall_spec p sp sm args reply err w :
  (forall pl h, pl ∈ p -> PostCall pl = Some h ->
     forall e w, snd (h sp sm args reply e w) = None) ->
  snd (DoPostCall p sp sm args reply err w) = None.
Proof.
  revert err w. induction p as [|pl p IH]; intros err w Hp; [done|]. cbn.
  destruct (PostCall pl) as [h|] eqn:E.
  - specialize (Hp pl h ltac:(set_solver) E) as Hn. specialize (Hn err w).
    destruct (h sp sm args reply err w) as [w' e]. cbn in Hn. subst e.
    apply IH. intros pl' h' Hin. apply Hp. set_solver.
  - apply IH. intros pl' h' Hin. apply Hp. set_solver.
Qed.
End Container.
Arguments Plugin : clear implicits.
Abbreviation pluginContainer W C A R := (list (Plugin W C A R)).

(** A plugin without hooks, to build others from. *)
Definition no_hooks {W C A R} (i : nat) : Plugin W C A R :=
  MkPlugin i None None None None None None None None None.

Lemma DoPostCall_spec_witness :
  let p : pluginContainer unit unit unit unit :=
    [MkPlugin 1 None (Some (fun _ _ _ _ _ w => (w, None))) None None None None None None None] in
  snd (DoPostCall p "Arith" "Mul" tt tt (Some ErrShutdown) tt) = None.
Proof.
  intros p. apply DoPostCall_spec. intros pl h Hin.
  assert (pl = MkPlugin 1 None (Some (fun _ _ _ _ _ w => (w, None))) None None None None None None None)
    as -> by set_solver.
  cbn. by intros [= <-].
Defined.
