(* ===== verification/Client.v ===== *)
(** client/client.go: one connection to one server.

    The state is what [Client] holds, the calls it has handed out (heap objects, by number) and
    the connection. Every part of a method that runs under [client.mutex], or that owns the
    call it took out of [pending], is one definition; methods that only one goroutine runs are
    compositions of them, and the goroutines interleave them in the step relation at the end. *)

From stdpp Require Import pretty.
From S2P Require Import Prelude GoStd Header Message ClientPlugins.

(** ** Data *)

(** What an [interface{}] holds: nothing, a value the application or a service handed over
    ([V] is their type), or the bytes of a raw message. *)
Inductive iface (V : Type) := INil | IVal (v : V) | IBytes (b : bytes).
Arguments INil {V}.
Arguments IVal {V} v.
Arguments IBytes {V} b.

(** A codec of share.Codecs. [Decode] may change its target before it fails. *)
Record Codec (V : Type) := MkCodec {
  codec_Encode : iface V -> bytes * option error;
  codec_Decode : bytes -> iface V -> iface V * res unit;
}.
Arguments MkCodec {V} _ _.
Arguments codec_Encode {V} _ _.
Arguments codec_Decode {V} _ _ _.

(** The options the connection uses. *)
Record Option := MkOption {
  o_SerializeType : Z;
  o_CompressType : Z;
  o_BidirectionalBlock : bool;
}.

(** [c_Done = None] is the nil channel of a one-shot call. *)
Record Call (V : Type) := MkCall {
  c_ServicePath : string;
  c_ServiceMethod : string;
  c_Metadata : option meta;
  c_ResMetadata : option meta;
  c_Args : iface V;
  c_Reply : iface V;
  c_Error : option error;
  c_Done : option nat;
  c_Raw : bool;
}.
Arguments MkCall {V} _ _ _ _ _ _ _ _ _.
Arguments c_ServicePath {V} _.
Arguments c_ServiceMethod {V} _.
Arguments c_Metadata {V} _.
Arguments c_ResMetadata {V} _.
Arguments c_Args {V} _.
Arguments c_Reply {V} _.
Arguments c_Error {V} _.
Arguments c_Done {V} _.
Arguments c_Raw {V} _.

(** A channel of calls: its capacity and what is queued. *)
Record callChan := CallChan { ch_cap : nat; ch_queue : list nat }.

(** The channel for messages of the server, which the application owns and may close. *)
Record msgChan := MsgChan { mc_cap : nat; mc_closed : bool; mc_queue : list Message }.

Definition XVersion := "X-RPCX-Version"%string.
Definition XHeartbeat := "X-RPCX-Heartbeat"%string.
Definition XOneway := "X-RPCX-Oneway"%string.
Definition XMessageStatusType := "X-RPCX-MessageStatusType"%string.
Definition XSerializeType := "X-RPCX-SerializeType"%string.
Definition XMessageID := "X-RPCX-MessageID"%string.
Definition XServicePath := "X-RPCX-ServicePath"%string.
Definition XServiceMethod := "X-RPCX-ServiceMethod"%string.
Definition XMeta := "X-RPCX-Meta"%string.
Definition XErrorMessage := "X-RPCX-ErrorMessage"%string.

(** protocol.ServiceError *)
Definition ServiceErrorKey := "__rpcx_error__"%string.
Definition ServerAddressKey := "__ServerAddress"%string.

(** [urlencode]: the entries in the iteration order [kvs] of the map, joined; the separator
    after the last one is cut off. *)
Definition urlencode (kvs : list (string * string)) : string :=
  match kvs with
  | [] => ""
  | _ =>
      let s := foldl (fun buf kv => buf ++ pair_bytes kv ++ [38]) [] kvs in
      bytes_string (take (length s - 1) s)
  end.

(** [convertRes2Raw]: the metadata form of a response; [kvs] enumerates its metadata. *)
Definition convertRes2Raw (kvs : list (string * string)) (res : Message) : meta * bytes :=
  let h := m_header res in
  let m : meta := {[ XVersion := FormatInt (Version h) ]} in
  let m := if IsHeartbeat h then <[XHeartbeat := "true"%string]> m else m in
  let m := if IsOneway h then <[XOneway := "true"%string]> m else m in
  let m := <[XMessageStatusType :=
               if MessageStatusType h =? StatusError then "Error"%string else "Normal"%string]> m in
  let m := <[XMeta := urlencode kvs]> m in
  let m := <[XSerializeType := FormatInt (SerializeType h)]> m in
  let m := <[XMessageID := pretty (Z.to_N (Seq h))]> m in
  let m := <[XServicePath := ServicePath res]> m in
  let m := <[XServiceMethod := ServiceMethod res]> m in
  (m, Payload res).

Section Client.
Context {W V : Type}.
Context {compressors : Compressors}.
Context (Codecs : Z -> option (Codec V)).
Context (Plugins : option (pluginContainer W unit (iface V) (iface V))).
Context (ClientErrorFunc : option (Message -> string -> error)).
Context (option_ : Option).

(** [finished] lists the calls [done()] was run for, in order; [seqptr] holds the counters
    that [call] hands to [send] through the context; [closes] counts the runs of
    [DoClientConnectionClose]. *)
Record state := MkState {
  seq : Z;
  pending : gmap Z nat;
  closing : bool;
  shutdown : bool;
  pluginClosed : bool;
  calls : gmap nat (Call V);
  chans : gmap nat callChan;
  seqptr : gmap nat Z;
  finished : list nat;
  written : list Message;
  ServerMessageChan : option msgChan;
  world : W;
  closes : nat;
}.

Definition with_seq (s : Z) (st : state) : state :=
  MkState s (pending st) (closing st) (shutdown st) (pluginClosed st) (calls st) (chans st)
    (seqptr st) (finished st) (written st) (ServerMessageChan st) (world st) (closes st).
Definition with_pending (p : gmap Z nat) (st : state) : state :=
  MkState (seq st) p (closing st) (shutdown st) (pluginClosed st) (calls st) (chans st)
    (seqptr st) (finished st) (written st) (ServerMessageChan st) (world st) (closes st).
Definition with_flags (c s p : bool) (st : state) : state :=
  MkState (seq st) (pending st) c s p (calls st) (chans st)
    (seqptr st) (finished st) (written st) (ServerMessageChan st) (world st) (closes st).
Definition with_calls (cs : gmap nat (Call V)) (st : state) : state :=
  MkState (seq st) (pending st) (closing st) (shutdown st) (pluginClosed st) cs (chans st)
    (seqptr st) (finished st) (written st) (ServerMessageChan st) (world st) (closes st).
Definition with_done (cs : gmap nat callChan) (f : list nat) (st : state) : state :=
  MkState (seq st) (pending st) (closing st) (shutdown st) (pluginClosed st) (calls st) cs
    (seqptr st) f (written st) (ServerMessageChan st) (world st) (closes st).
Definition with_seqptr (p : gmap nat Z) (st : state) : state :=
  MkState (seq st) (pending st) (closing st) (shutdown st) (pluginClosed st) (calls st)
    (chans st) p (finished st) (written st) (ServerMessageChan st) (world st) (closes st).
Definition with_written (ms : list Message) (st : state) : state :=
  MkState (seq st) (pending st) (closing st) (shutdown st) (pluginClosed st) (calls st)
    (chans st) (seqptr st) (finished st) ms (ServerMessageChan st) (world st) (closes st).
Definition with_chan (c : option msgChan) (st : state) : state :=
  MkState (seq st) (pending st) (closing st) (shutdown st) (pluginClosed st) (calls st)
    (chans st) (seqptr st) (finished st) (written st) c (world st) (closes st).
Definition with_world (w : W) (n : nat) (st : state) : state :=
  MkState (seq st) (pending st) (closing st) (shutdown st) (pluginClosed st) (calls st)
    (chans st) (seqptr st) (finished st) (written st) (ServerMessageChan st) w n.

(** ** Calls *)

(** [call.done()]: a full channel drops the signal. *)
Definition done (c : nat) (st : state) : state :=
  let f := finished st ++ [c] in
  match calls st !! c ≫= c_Done with
  | None => with_done (chans st) f st
  | Some ch =>
      match chans st !! ch with
      | Some (CallChan cap q) =>
          if decide (length q < cap)%nat
          then with_done (<[ch := CallChan cap (q ++ [c])]> (chans st)) f st
          else with_done (chans st) f st
      | None => with_done (chans st) f st
      end
  end.

Definition set_error (e : option error) (call : Call V) : Call V :=
  MkCall (c_ServicePath call) (c_ServiceMethod call) (c_Metadata call) (c_ResMetadata call)
    (c_Args call) (c_Reply call) e (c_Done call) (c_Raw call).
Definition set_reply (r : iface V) (call : Call V) : Call V :=
  MkCall (c_ServicePath call) (c_ServiceMethod call) (c_Metadata call) (c_ResMetadata call)
    (c_Args call) r (c_Error call) (c_Done call) (c_Raw call).
Definition set_resmeta (m : option meta) (call : Call V) : Call V :=
  MkCall (c_ServicePath call) (c_ServiceMethod call) (c_Metadata call) m
    (c_Args call) (c_Reply call) (c_Error call) (c_Done call) (c_Raw call).
Definition set_callmeta (m : option meta) (call : Call V) : Call V :=
  MkCall (c_ServicePath call) (c_ServiceMethod call) m (c_ResMetadata call)
    (c_Args call) (c_Reply call) (c_Error call) (c_Done call) (c_Raw call).

Definition upd_call (c : nat) (f : Call V -> Call V) (st : state) : state :=
  with_calls (alter f c (calls st)) st.

(** [call.Error = e; call.done()] *)
Definition finish (c : nat) (e : option error) (st : state) : state :=
  done c (upd_call c (set_error e) st).

(** [lock; call = client.pending[s]; delete(client.pending, s); unlock] *)
Definition take_pending (s : Z) (st : state) : option nat * state :=
  (pending st !! s, with_pending (delete s (pending st)) st).

(** ** Sending *)

Definition isHeartbeatCall (call : Call V) : bool :=
  bool_decide (c_ServicePath call = ""%string /\ c_ServiceMethod call = ""%string).

Definition call_serializeType (call : Call V) : Z :=
  if isHeartbeatCall call then MsgPack else o_SerializeType option_.

(** The first part of [send], under the lock: the sequence number, or the end of the call. *)
Definition send_register (c : nat) (st : state) : state * option Z :=
  match calls st !! c with
  | None => (st, None)
  | Some call =>
      if shutdown st || closing st then (finish c (Some ErrShutdown) st, None)
      else
        match Codecs (call_serializeType call) with
        | None => (finish c (Some ErrUnsupportedCodec) st, None)
        | Some _ =>
            let s := seq st in
            (with_pending (<[s := c]> (pending st)) (with_seq (u64 (seq st + 1)) st), Some s)
        end
  end.

(** The request for a call, with the sequence number [s] and the encoded arguments. *)
Definition build_request (call : Call V) (s : Z) (data : bytes) : Message :=
  let h := newHeader in
  let h := SetMessageType Request h in
  let h := SetSeq s h in
  let h := match c_Reply call with INil => SetOneway true h | _ => h end in
  let h := if isHeartbeatCall call then SetSerializeType MsgPack (SetHeartbeat true h)
           else SetSerializeType (o_SerializeType option_) h in
  let h := if (zlen data >? 1024) && negb (o_CompressType option_ =? None_)
           then SetCompressType (o_CompressType option_) h else h in
  MkMessage h (c_ServicePath call) (c_ServiceMethod call) (c_Metadata call) data nil_slice.

(** The second part of [send], without the lock: the counter of the caller, the codec and
    the plugins; [None] when the call has ended. *)
Definition send_encode (c : nat) (s : Z) (st : state) : state * option Message :=
  match calls st !! c with
  | None => (st, None)
  | Some call =>
      let st := with_seqptr (<[c := s]> (seqptr st)) st in
      match Codecs (call_serializeType call) with
      | None => (st, None)
      | Some codec =>
          match codec_Encode codec (c_Args call) with
          | (_, Some err) =>
              let st := with_pending (delete s (pending st)) st in
              (finish c (Some err) st, None)
          | (data, None) =>
              let req := build_request call s data in
              match Plugins with
              | None => (st, Some req)
              | Some p =>
                  let '(w, (req, _)) := DoClientBeforeEncode p req (world st) in
                  (with_world w (closes st) st, Some req)
              end
          end
      end
  end.

Definition net_error (err : error) : error :=
  match err with
  | OpError _ (Some t) => errorString ("net.OpError: " +:+ t)
  | OpError _ None => errorString "net.OpError"
  | e => e
  end.

(** The rest of [send]: the frame goes to the connection, whose [Write] returns [werr]. *)
Definition send_write (s : Z) (req : Message) (werr : option error) (st : state) : state :=
  let '(h, _) := compressPayload (m_header req) (Payload req) in
  let req := set_header h req in
  match werr with
  | Some err =>
      let '(call, st) := take_pending s st in
      match call with
      | Some c => finish c (Some (net_error err)) st
      | None => st
      end
  | None =>
      let st := with_written (written st ++ [req]) st in
      if IsOneway (m_header req) then
        let '(call, st) := take_pending s st in
        match call with
        | Some c => done c st
        | None => st
        end
      else st
  end.

(** [send], run without interruption. *)
Definition send (c : nat) (werr : option error) (st : state) : state :=
  match send_register c st with
  | (st, None) => st
  | (st, Some s) =>
      match send_encode c s st with
      | (st, None) => st
      | (st, Some req) => send_write s req werr st
      end
  end.

(** [Go] allocates the call, with the metadata copied from the context; the goroutine it
    starts runs [send]. *)
Definition Go_ (c : nat) (sp sm : string) (md : option meta) (args r : iface V)
    (done_chan : option nat) (st : state) : state :=
  with_calls (<[c := MkCall sp sm md None args r None done_chan false]> (calls st)) st.

(** ** Receiving *)

(** [handleServerRequest]; [None]: the goroutine waits for room in the channel. A send on a
    closed channel panics, which is recovered by dropping the channel. *)
Definition handleServerRequest (msg : Message) (st : state) : option state :=
  match ServerMessageChan st with
  | None => Some st
  | Some (MsgChan cap closed q) =>
      if closed : bool then Some (with_chan None st)
      else if decide (length q < cap)%nat
      then Some (with_chan (Some (MsgChan cap closed (q ++ [msg]))) st)
      else if o_BidirectionalBlock option_ then None
      else Some st
  end.

Definition isServerMessage (res : Message) : bool :=
  let h := m_header res in
  (MessageType h =? Request) && negb (IsHeartbeat h) && IsOneway h.

Definition panicError : error := errorString "rpcx: client handleResponse panic".

Definition meta_get (m : option meta) (k : string) : string :=
  default ""%string (default ∅ m !! k).

Definition has_meta (res : Message) : bool := bool_decide (default ∅ (Metadata res) <> ∅).

(** What an error response does to its call; [Panic] when it stops before [done]. *)
Definition error_response (kvs : list (string * string)) (rs : Message) (call : Call V) :
    Call V * res unit :=
  let call :=
    if has_meta rs then
      let text := meta_get (Metadata rs) ServiceErrorKey in
      set_error (Some match ClientErrorFunc with Some f => f rs text | None => strErr text end)
        (set_resmeta (Metadata rs) call)
    else call in
  if c_Raw call then
    let '(m, payload) := convertRes2Raw kvs rs in
    let call := set_reply (IBytes payload) (set_callmeta (Some m) call) in
    match c_Error call with
    | Some e => (set_callmeta (Some (<[XErrorMessage := Error_text e]> m)) call, Ok tt)
    | None => (call, Panic "nil pointer dereference")
    end
  else if zlen (Payload rs) >? 0 then
    match Codecs (SerializeType (m_header rs)) with
    | None => (call, Ok tt)
    | Some codec =>
        let '(r, out) := codec_Decode codec (Payload rs) (c_Reply call) in
        (set_reply r call, match out with Panic w => Panic w | _ => Ok tt end)
    end
  else (call, Ok tt).

(** The same for a normal response; [Er] is the error that ends the connection. *)
Definition normal_response (kvs : list (string * string)) (rs : Message) (call : Call V) :
    Call V * res unit :=
  if c_Raw call then
    let '(m, payload) := convertRes2Raw kvs rs in
    (set_reply (IBytes payload) (set_callmeta (Some m) call), Ok tt)
  else
    let '(call, out) :=
      if zlen (Payload rs) >? 0 then
        match Codecs (SerializeType (m_header rs)) with
        | None => (set_error (Some (strErr (Error_text ErrUnsupportedCodec))) call, Ok tt)
        | Some codec =>
            let '(r, out) := codec_Decode codec (Payload rs) (c_Reply call) in
            let call := set_reply r call in
            match out with
            | Er e => (set_error (Some (strErr (Error_text e))) call, Er e)
            | o => (call, o)
            end
        end
      else (call, Ok tt) in
    match out with
    | Panic w => (call, Panic w)
    | _ => ((if has_meta rs then set_resmeta (Metadata rs) call else call), out)
    end.

(** [handleResponse]: the new state and the error returned; [None] while it waits in
    [handleServerRequest]. A panic is recovered into an error. *)
Definition handleResponse (kvs : list (string * string)) (res : Message) (st : state) :
    option (state * option error) :=
  let '(st, res) :=
    match Plugins with
    | None => (st, res)
    | Some p =>
        let '(w, (res, _)) := DoClientAfterDecode p res (world st) in
        (with_world w (closes st) st, res)
    end in
  if isServerMessage res then
    match ServerMessageChan st with
    | None => Some (st, None)
    | Some _ => st ← handleServerRequest res st; Some (st, None)
    end
  else
    let '(call, st) := take_pending (Seq (m_header res)) st in
    match call with
    | None => Some (st, None)
    | Some c =>
        match calls st !! c with
        | None => Some (st, None)
        | Some call =>
            let '(call, out) :=
              if MessageStatusType (m_header res) =? StatusError
              then error_response kvs res call else normal_response kvs res call in
            let st := with_calls (<[c := call]> (calls st)) st in
            match out with
            | Ok _ => Some (done c st, None)
            | Er e => Some (done c st, Some e)
            | Panic _ => Some (st, Some panicError)
            end
        end
    end.

(** ** Termination *)

(** The message that tells the application that the connection is gone. *)
Definition closing_message (addr : string) (err : error) : Message :=
  let h := SetMessageStatusType StatusError (SetMessageType Request newHeader) in
  MkMessage h "" "" (Some (<["server"%string := addr]> {[ServiceErrorKey := Error_text err]}))
    [] nil_slice.

Definition close_plugins (st : state) : state :=
  if pluginClosed st then st
  else
    let st :=
      match Plugins with
      | None => st
      | Some p => let '(w, _) := DoClientConnectionClose p tt (world st) in
                  with_world w (S (closes st)) st
      end in
    with_flags (closing st) (shutdown st) true st.

(** [err.Error()] of a [*net.OpError] whose [Err] is nil dereferences it. *)
Definition Error_panics (err : error) : bool :=
  match err with OpError _ None => true | _ => false end.

(** What [input] makes of the error, unlike [send]: with [Addr] set it reads [Err] although it is
    nil; [None] is the panic. *)
Definition input_error (err : error) : option error :=
  match err with
  | OpError _ (Some t) => Some (errorString ("net.OpError: " +:+ t))
  | OpError true None => None
  | OpError false None => Some (errorString "net.OpError")
  | e => Some e
  end.

Definition final_error (closing : bool) (err : error) : error :=
  match err with
  | EOF => if closing then ErrShutdown else ErrUnexpectedEOF
  | e => e
  end.

(** The end of [input], after the loop stopped with [err]: every pending call gets the
    error, in the iteration order [cs] of the map; the map is not cleared. [None] when the
    goroutine waits for room in the channel, or panics, which ends the process. *)
Definition input_end (addr : string) (cs : list nat) (err : error) (st : state) :
    option state :=
  st ← (match ServerMessageChan st with
        | Some _ =>
            if Error_panics err then None else handleServerRequest (closing_message addr err) st
        | None => Some st
        end);
  let st := close_plugins st in
  let st := with_flags (closing st) true (pluginClosed st) st in
  err ← input_error err;
  Some (foldl (fun st c => finish c (Some (final_error (closing st) err)) st) st cs).

(** The loop of [input] over what [Decode] returns: messages, then an error. *)
Fixpoint input (addr : string) (incoming : list (list (string * string) * Message))
    (stop : error) (cs : state -> list nat) (st : state) : option state :=
  match incoming with
  | [] => input_end addr (cs st) stop st
  | (kvs, res) :: rest =>
      match handleResponse kvs res st with
      | None => None
      | Some (st, None) => input addr rest stop cs st
      | Some (st, Some err) => input_end addr (cs st) err st
      end
  end.

(** [Close]: the pending calls end in the iteration order [cs]; [cerr] is what closing the
    connection returns. *)
Definition Close (cs : list nat) (cerr : option error) (st : state) : state * option error :=
  let st := foldl (fun st c => finish c (Some ErrShutdown) st) (with_pending ∅ st) cs in
  let err := if pluginClosed st then None else cerr in
  let st := close_plugins st in
  if closing st || shutdown st then (st, Some ErrShutdown)
  else (with_flags true (shutdown st) (pluginClosed st) st, err).

(** [call] after its context is done, with [ctx.Err() = e]: the counter may not have been
    set by [send] yet, and is 0 then. *)
Definition cancel (c : nat) (e : error) (st : state) : state :=
  let s := default 0 (seqptr st !! c) in
  let '(call, st) := take_pending s st in
  match call with
  | Some c' => finish c' (Some e) st
  | None => st
  end.

(** [call] after it received from [Done]: the response metadata the caller asked for. *)
Definition deliver_meta (addr : string) (call : Call V) (resMeta : option meta) : option meta :=
  match resMeta with
  | Some m =>
      if bool_decide (default ∅ (c_ResMetadata call) = ∅) then Some m
      else Some (<[ServerAddressKey := addr]> (default ∅ (c_ResMetadata call) ∪ m))
  | None => None
  end.

(** ** The synchronous call *)

Definition NewClient (w : W) : state := MkState 0 ∅ false false false ∅ ∅ ∅ [] [] None w 0.

Definition IsClosing (st : state) : bool := closing st.
Definition IsShutdown (st : state) : bool := shutdown st.

(** [call] up to its [select]: a counter that is still 0, a channel for ten signals, and [Go]. *)
Definition call_start (c ch : nat) (sp sm : string) (md : option meta) (args r : iface V) (st : state) : state :=
  Go_ c sp sm md args r (Some ch) (with_done (<[ch := CallChan 10 []]> (chans st)) (finished st) st).

(** What the [select] takes: the end of the context, or a call from [Done]. *)
Inductive wake := CtxDone (e : error) | FromDone (c : nat).

(** [call] from there on: the state, the caller's map of response metadata, and its result. *)
Definition call_end (addr : string) (c : nat) (by_ : wake) (resMeta : option meta) (st : state) :
    state * option meta * option error :=
  match by_ with
  | CtxDone e => (cancel c e st, resMeta, Some e)
  | FromDone c' =>
      match calls st !! c' with
      | Some call => (st, deliver_meta addr call resMeta, c_Error call)
      | None => (st, resMeta, None)
      end
  end.

(** ** Raw messages *)

(** [SendRaw] up to the write: the call goes into [pending] under the number the message
    carries. [md] is the metadata copied from the context. *)
Definition raw_register (c : nat) (ch : nat) (md : option meta) (r : Message)
    (st : state) : state * Message :=
  let rmeta := default ∅ (Metadata r) ∪ default ∅ md in
  let call := MkCall (ServicePath r) (ServiceMethod r)
                (match md with Some _ => Some rmeta | None => None end) None
                INil INil None (Some ch) true in
  let st := with_calls (<[c := call]> (calls st)) st in
  (with_pending (<[Seq (m_header r) := c]> (pending st)) st, set_meta (Some rmeta) r).

(** [SendRaw] after the write: [Some e] when it returns at once with [e]. *)
Definition raw_written (r : Message) (werr : option error) (st : state) :
    state * option (option error) :=
  let s := Seq (m_header r) in
  match werr with
  | Some err =>
      let '(call, st) := take_pending s st in
      (match call with Some c => finish c (Some err) st | None => st end, Some (Some err))
  | None =>
      let '(h, _) := compressPayload (m_header r) (Payload r) in
      let st := with_written (written st ++ [set_header h r]) st in
      if IsOneway (m_header r) then
        let '(call, st) := take_pending s st in
        (match call with Some c => done c st | None => st end, Some None)
      else (st, None)
  end.

(** [SendRaw] when its context ends first. *)
Definition raw_cancel (r : Message) (e : error) (st : state) : state :=
  let '(call, st) := take_pending (Seq (m_header r)) st in
  match call with Some c => finish c (Some e) st | None => st end.

(** What [SendRaw] returns for a finished call. *)
Definition raw_result (call : Call V) : option meta * option bytes * option error :=
  (c_ResMetadata call, match c_Reply call with IBytes b => Some b | _ => None end, c_Error call).

(** ** heartbeat *)

(** One tick: [Close] after a failed beat; the loop goes on until the client is closed. *)
Definition heartbeat_tick (beat : state -> state * (option error * option error))
    (cs : state -> list nat) (cerr : option error) (st : state) : state * bool :=
  if shutdown st || closing st then (st, false)
  else
    let '(st, (ctxErr, err)) := beat st in
    match ctxErr, err with
    | None, None => (st, true)
    | _, _ => (fst (Close (cs st) cerr st), true)
    end.
End Client.
