(* ===== verification/ClientProofs.v ===== *)
(** Correctness of client/client.go: the goroutines of a client as a step relation, and what
    holds in every state they can reach. *)

From S2P Require Import Prelude GoStd Header Message ClientPlugins Client.

Section Steps.
Context {W V : Type}.
Context {compressors : Compressors}.
Context (Codecs : Z -> option (Codec V)).
Context (Plugins : option (pluginContainer W unit (iface V) (iface V))).
Context (ClientErrorFunc : option (Message -> string -> error)).
Context (option_ : Option).

Local Abbreviation state := (state (W := W) (V := V)).

(** ** Goroutines *)

(** Where a goroutine that runs [send] or [SendRaw] stands; a raw message is registered when it
    starts, and its sender waits for the channel [ch]. *)
Inductive thread :=
  | TRegister (c : nat)
  | TEncode (c : nat) (s : Z)
  | TWrite (c : nat) (s : Z) (req : Message)
  | TRaw (c ch : nat) (r : Message)
  | TRawWait (c ch : nat) (r : Message).

(** Where the goroutine that runs [input] stands. *)
Inductive reading := Reading | Stopped (e : error) | Ended.

(** [regs] records every registration in [pending], and [hit] the calls on whose response the
    handler panicked; the program has neither. *)
Record sys := Sys {
  st : state; threads : list thread; rd : reading; issued : nat;
  regs : list (Z * nat); hit : list nat;
}.

(** [cs] is an iteration of the pending calls. *)
Definition pending_enum (cs : list nat) (s : state) : Prop :=
  cs ≡ₚ (map_to_list (pending s)).*2.

(** A response as the plugins leave it. *)
Definition seen (res : Message) (s : state) : Message :=
  match Plugins with
  | None => res
  | Some p => fst (snd (DoClientAfterDecode p res (world s)))
  end.

(** What a response does to its call. *)
Definition respond (kvs : list (string * string)) (res : Message) (call : Call V) : Call V * Prelude.res unit :=
  if MessageStatusType (m_header res) =? StatusError
  then error_response Codecs ClientErrorFunc kvs res call else normal_response Codecs kvs res call.

(** The call on whose response the handler panics. *)
Definition panicked (kvs : list (string * string)) (res : Message) (s : state) : list nat :=
  let res := seen res s in
  if isServerMessage res then []
  else
    match pending s !! Seq (m_header res) with
    | Some c =>
        match calls s !! c with
        | Some call => match snd (respond kvs res call) with Panic _ => [c] | _ => [] end
        | None => []
        end
    | None => []
    end.

Inductive step : sys -> sys -> Prop :=
  | step_go c sp sm md args r ch x :
      calls (st x) !! c = None ->
      step x (Sys (Go_ c sp sm md args r ch (st x)) (threads x ++ [TRegister c]) (rd x)
                (S (issued x)) (regs x) (hit x))
  | step_register x a b c s' r :
      threads x = a ++ TRegister c :: b ->
      send_register Codecs option_ c (st x) = (s', r) ->
      step x (Sys s' (a ++ match r with Some s => [TEncode c s] | None => [] end ++ b)
                (rd x) (issued x)
                (regs x ++ match r with Some s => [(s, c)] | None => [] end) (hit x))
  | step_encode x a b c s s' r :
      threads x = a ++ TEncode c s :: b ->
      send_encode Codecs Plugins option_ c s (st x) = (s', r) ->
      step x (Sys s' (a ++ match r with Some req => [TWrite c s req] | None => [] end ++ b)
                (rd x) (issued x) (regs x) (hit x))
  | step_write x a b c s req werr :
      threads x = a ++ TWrite c s req :: b ->
      step x (Sys (send_write s req werr (st x)) (a ++ b) (rd x) (issued x) (regs x) (hit x))
  | step_raw x c ch md r s' r' :
      (* [SendRaw] with a message of any number *)
      calls (st x) !! c = None -> chans (st x) !! ch = None ->
      raw_register c ch md r (with_done (<[ch := CallChan 10 []]> (chans (st x))) (finished (st x)) (st x))
        = (s', r') ->
      step x (Sys s' (threads x ++ [TRaw c ch r']) (rd x) (issued x)
                (regs x ++ [(Seq (m_header r'), c)]) (hit x))
  | step_raw_write x a b c ch r werr s' out :
      threads x = a ++ TRaw c ch r :: b ->
      raw_written r werr (st x) = (s', out) ->
      step x (Sys s' (a ++ match out with Some _ => [] | None => [TRawWait c ch r] end ++ b)
                (rd x) (issued x) (regs x) (hit x))
  | step_raw_cancel x a b c ch r e :
      threads x = a ++ TRawWait c ch r :: b ->
      step x (Sys (raw_cancel r e (st x)) (a ++ b) (rd x) (issued x) (regs x) (hit x))
  | step_raw_return x a b c ch r cap c' q :
      threads x = a ++ TRawWait c ch r :: b -> chans (st x) !! ch = Some (CallChan cap (c' :: q)) ->
      step x (Sys (with_done (<[ch := CallChan cap q]> (chans (st x))) (finished (st x)) (st x))
                (a ++ b) (rd x) (issued x) (regs x) (hit x))
  | step_receive x kvs res s' e :
      rd x = Reading -> enumerates kvs (Metadata res) ->
      handleResponse Codecs Plugins ClientErrorFunc option_ kvs res (st x) = Some (s', e) ->
      step x (Sys s' (threads x) (match e with Some e => Stopped e | None => Reading end)
                (issued x) (regs x) (hit x ++ panicked kvs res (st x)))
  | step_read_error x e :
      rd x = Reading -> step x (Sys (st x) (threads x) (Stopped e) (issued x) (regs x) (hit x))
  | step_input_end x addr cs e s' :
      rd x = Stopped e -> pending_enum cs (st x) ->
      input_end Plugins option_ addr cs e (st x) = Some s' ->
      step x (Sys s' (threads x) Ended (issued x) (regs x) (hit x))
  | step_close x cs cerr :
      pending_enum cs (st x) ->
      step x (Sys (fst (Close Plugins cs cerr (st x))) (threads x) (rd x) (issued x) (regs x) (hit x))
  | step_cancel x c e :
      step x (Sys (cancel c e (st x)) (threads x) (rd x) (issued x) (regs x) (hit x))
  | step_take x ch cap c q :
      (* a caller receives from its [Done] channel *)
      chans (st x) !! ch = Some (CallChan cap (c :: q)) ->
      step x (Sys (with_done (<[ch := CallChan cap q]> (chans (st x))) (finished (st x)) (st x))
                (threads x) (rd x) (issued x) (regs x) (hit x))
  | step_chan x mc :
      (* the application registers, closes or drains the channel for server messages *)
      step x (Sys (with_chan mc (st x)) (threads x) (rd x) (issued x) (regs x) (hit x)).

Inductive reachable : sys -> Prop :=
  | reach_init w chs :
      reachable (Sys (MkState 0 ∅ false false false ∅ chs ∅ [] [] None w 0) [] Reading 0 [] [])
  | reach_step x y : reachable x -> step x y -> reachable y.

(** ** What the operations change *)

(** The request a call stands for does not change. *)
Definition same_request (a b : Call V) : Prop :=
  c_ServicePath a = c_ServicePath b /\ c_ServiceMethod a = c_ServiceMethod b /\
  c_Args a = c_Args b /\ c_Raw a = c_Raw b /\ c_Done a = c_Done b.

(** What every operation but a registration does: it only takes calls out of [pending], and
    the calls it takes out are finished, but for those in [E]; once the client is closed or shut
    down, the calls that are left in [pending] are finished too. *)
Record evolves (E : nat -> Prop) (s s' : state) : Prop := {
  ev_seq : seq s' = seq s;
  ev_dom : dom (calls s') = dom (calls s);
  ev_same : forall c b, calls s' !! c = Some b ->
              exists a, calls s !! c = Some a /\ same_request a b;
  ev_finished : finished s ⊆ finished s';
  ev_pending : pending s' ⊆ pending s;
  ev_taken : forall k c, pending s !! k = Some c ->
               pending s' !! k = Some c \/ c ∈ finished s' \/ E c;
  ev_flags : closing s' || shutdown s' = true ->
               closing s || shutdown s = true \/
               forall k c, pending s' !! k = Some c -> c ∈ finished s';
  ev_closing : closing s = true -> closing s' = true;
  ev_shutdown : shutdown s = true -> shutdown s' = true;
}.
Definition nobody (c : nat) : Prop := False.

Lemma same_request_refl a : same_request a a.
Proof. done. Qed.

Lemma same_request_trans a b c : same_request a b -> same_request b c -> same_request a c.
Proof using Type.
  intros (A1 & A2 & A3 & A4 & A5) (B1 & B2 & B3 & B4 & B5).
  rewrite <- A1 in B1. rewrite <- A2 in B2. rewrite <- A3 in B3. rewrite <- A4 in B4.
  rewrite <- A5 in B5. done.
Qed.

Lemma evolves_refl E s : evolves E s s.
Proof. split; try done; eauto using same_request_refl. Qed.

Lemma evolves_weaken (E E' : nat -> Prop) s s' : (forall c, E c -> E' c) -> evolves E s s' -> evolves E' s s'.
Proof using Type.
  intros HE [a1 a2 a3 a4 a5 a6 a7 a8 a9]. split; try done.
  intros k c Hk. destruct (a6 k c Hk) as [?|[?|?]]; auto.
Qed.

Lemma evolves_trans E a b c : evolves E a b -> evolves E b c -> evolves E a c.
Proof using Type.
  intros [a1 a2 a3 a4 a5 a6 a7 a8 a9] [b1 b2 b3 b4 b5 b6 b7 b8 b9]. split.
  - by rewrite b1.
  - by rewrite b2.
  - intros x y Hy. destruct (b3 x y Hy) as (z & Hz & Hzy).
    destruct (a3 x z Hz) as (u & Hu & Huz). eauto using same_request_trans.
  - by etrans.
  - by etrans.
  - intros k x Hk. destruct (a6 k x Hk) as [Hb|[Hb|Hb]]; [by apply b6|right; left; by apply b4|auto].
  - intros Hf. destruct (b7 Hf) as [Hb|Hb]; [|by right].
    destruct (a7 Hb) as [Ha|Ha]; [by left|]. right. intros k x Hk.
    apply b4. apply (Ha k x). by eapply lookup_weaken.
  - auto.
  - auto.
Qed.

(** Two states that agree on what the relation looks at. *)
Lemma evolves_same E (s s' : state) :
  seq s' = seq s -> calls s' = calls s -> finished s' = finished s -> pending s' = pending s ->
  closing s' = closing s -> shutdown s' = shutdown s -> evolves E s s'.
Proof.
  intros H1 H2 H3 H4 H5 H6. split; rewrite ?H1, ?H2, ?H3, ?H4, ?H5, ?H6; try done;
    eauto using same_request_refl.
Qed.

Lemma done_fields c (s : state) :
  let s' := done c s in
  seq s' = seq s /\ pending s' = pending s /\ closing s' = closing s /\
  shutdown s' = shutdown s /\ calls s' = calls s /\ finished s' = finished s ++ [c] /\
  written s' = written s.
Proof. unfold done. repeat split_match; done. Qed.

Lemma done_evolves E c (s : state) : evolves E s (done c s).
Proof.
  destruct (done_fields c s) as (H1 & H2 & H3 & H4 & H5 & H6 & H7).
  split; rewrite ?H1, ?H2, ?H3, ?H4, ?H5, ?H6; try done;
    eauto using same_request_refl; set_solver.
Qed.

(** Changing a call in ways that keep its request. *)
Lemma upd_evolves E (s : state) c call call' :
  calls s !! c = Some call -> same_request call call' ->
  evolves E s (with_calls (<[c := call']> (calls s)) s).
Proof.
  intros Hc Hsame. split; cbn; try done; eauto.
  - rewrite dom_insert_L. assert (c ∈ dom (calls s)) by (apply elem_of_dom; eauto). set_solver.
  - intros x b Hb. destruct (decide (c = x)) as [->|Hne]; simplify_map_eq;
      eauto using same_request_refl.
Qed.

Lemma alter_evolves E (s : state) c f :
  (forall a, same_request a (f a)) -> evolves E s (upd_call c f s).
Proof.
  intros Hf. split; cbn; try done; eauto.
  - by rewrite dom_alter_L.
  - intros x b Hb. apply lookup_alter_Some in Hb as [(-> & y & Hy & ->)|[_ Hy]];
      eauto using same_request_refl.
Qed.

Lemma finish_evolves E c e (s : state) : evolves E s (finish c e s).
Proof. unfold finish. eapply evolves_trans; [by apply (alter_evolves E s c (set_error e))|apply done_evolves]. Qed.

Lemma finish_finished c e (s : state) : finished (finish c e s) = finished s ++ [c].
Proof. unfold finish. by destruct (done_fields c (upd_call c (set_error e) s)) as (_&_&_&_&_&->&_). Qed.

Lemma finish_pending c e (s : state) : pending (finish c e s) = pending s.
Proof. unfold finish. by destruct (done_fields c (upd_call c (set_error e) s)) as (_&->&_). Qed.

(** Taking a call out of [pending] and finishing it. *)
Lemma take_evolves (E : nat -> Prop) k (s s' : state) :
  evolves E (with_pending (delete k (pending s)) s) s' ->
  (forall c, pending s !! k = Some c -> c ∈ finished s' \/ E c) ->
  evolves E s s'.
Proof.
  intros [a1 a2 a3 a4 a5 a6 a7 a8 a9] Ht. cbn in *. split; try done.
  - etrans; [exact a5|]. apply delete_subseteq.
  - intros j c Hj. destruct (decide (j = k)) as [->|Hne]; [right; eauto|].
    apply a6. by rewrite lookup_delete_ne.
Qed.

Lemma take_finish_evolves E k e (s : state) :
  evolves E s (match pending s !! k with
             | Some c => finish c e (with_pending (delete k (pending s)) s)
             | None => with_pending (delete k (pending s)) s
             end).
Proof.
  apply (take_evolves E k); destruct (pending s !! k) as [c|] eqn:Ek.
  - apply finish_evolves.
  - apply evolves_refl.
  - intros c' [= ->]. rewrite finish_finished. set_solver.
  - done.
Qed.

Lemma take_done_evolves E k (s : state) :
  evolves E s (match pending s !! k with
             | Some c => done c (with_pending (delete k (pending s)) s)
             | None => with_pending (delete k (pending s)) s
             end).
Proof.
  apply (take_evolves E k); destruct (pending s !! k) as [c|] eqn:Ek.
  - apply done_evolves.
  - apply evolves_refl.
  - intros c' [= ->]. destruct (done_fields c' (with_pending (delete k (pending s)) s)) as (_&_&_&_&_&->&_). set_solver.
  - done.
Qed.

Lemma finish_all_evolves E (f : state -> option error) cs : forall s : state,
  let s' := foldl (fun s c => finish c (f s) s) s cs in
  evolves E s s' /\ pending s' = pending s /\ finished s' = finished s ++ cs /\
  written s' = written s.
Proof using Type.
  induction cs as [|c cs IH]; intros s; cbn.
  { rewrite app_nil_r. auto using evolves_refl. }
  destruct (IH (finish c (f s) s)) as (H1 & H2 & H3 & H4). split_and!.
  - eapply evolves_trans; [apply finish_evolves|done].
  - by rewrite H2, finish_pending.
  - by rewrite H3, finish_finished, <- app_assoc.
  - rewrite H4. unfold finish.
    by destruct (done_fields c (upd_call c (set_error (f s)) s)) as (_&_&_&_&_&_&->).
Qed.

Lemma finish_written c e (s : state) : written (finish c e s) = written s.
Proof. unfold finish. by destruct (done_fields c (upd_call c (set_error e) s)) as (_&_&_&_&_&_&->). Qed.

Lemma done_written c (s : state) : written (done c s) = written s.
Proof. by destruct (done_fields c s) as (_&_&_&_&_&_&->). Qed.

Lemma done_finished c (s : state) : finished (done c s) = finished s ++ [c].
Proof. by destruct (done_fields c s) as (_&_&_&_&_&->&_). Qed.

(** ** Each operation *)

Lemma cancel_evolves E c e (s : state) :
  evolves E s (cancel c e s) /\ written (cancel c e s) = written s.
Proof.
  unfold cancel, take_pending. split; [apply take_finish_evolves|].
  destruct (pending s !! _); [by rewrite finish_written|done].
Qed.

Lemma raw_cancel_evolves E r e (s : state) :
  evolves E s (raw_cancel r e s) /\ written (raw_cancel r e s) = written s.
Proof.
  unfold raw_cancel, take_pending. split; [apply take_finish_evolves|].
  destruct (pending s !! _); [by rewrite finish_written|done].
Qed.

(** What goes on the wire for a message. *)
Definition framed (r : Message) : Message :=
  set_header (fst (compressPayload (m_header r) (Payload r))) r.

Lemma send_write_evolves E k req werr (s : state) :
  evolves E s (send_write k req werr s) /\
  written (send_write k req werr s) = match werr with Some _ => written s | None => written s ++ [framed req] end.
Proof.
  unfold send_write, take_pending, framed.
  destruct (compressPayload (m_header req) (Payload req)) as [h p]. cbn [fst].
  destruct werr as [err|].
  - split; [apply take_finish_evolves|]. destruct (pending s !! k); [by rewrite finish_written|done].
  - set (req' := set_header h req). set (s1 := with_written _ s).
    assert (evolves E s s1) as H1 by by apply evolves_same.
    destruct (IsOneway (m_header req')); [|done].
    split; [eapply evolves_trans; [exact H1|apply take_done_evolves]|].
    destruct (pending s1 !! k); [by rewrite done_written|done].
Qed.

Lemma raw_written_evolves E r werr (s s' : state) out :
  raw_written r werr s = (s', out) ->
  evolves E s s' /\ written s' = match werr with Some _ => written s | None => written s ++ [framed r] end.
Proof.
  unfold raw_written, take_pending, framed.
  destruct (compressPayload (m_header r) (Payload r)) as [h p]. cbn [fst].
  destruct werr as [err|].
  - intros [= <- _]. split; [apply take_finish_evolves|]. destruct (pending s !! _); [by rewrite finish_written|done].
  - set (s1 := with_written _ s). assert (evolves E s s1) as H1 by by apply evolves_same.
    destruct (IsOneway (m_header r)); intros Hx; apply (f_equal fst) in Hx; cbn [fst] in Hx; subst s'; [|done].
    split; [eapply evolves_trans; [exact H1|apply take_done_evolves]|].
    destruct (pending s1 !! _); [by rewrite done_written|done].
Qed.

(** What [send_encode] returns is the request of the call, seen by the plugins. When the codec
    fails, the entry of [pending] goes, whoever is there by then. *)
Lemma send_encode_evolves c k (s s' : state) r :
  send_encode Codecs Plugins option_ c k s = (s', r) ->
  evolves (fun c' => pending s !! k = Some c' /\ c' <> c) s s' /\ written s' = written s /\
  forall req, r = Some req ->
    exists call codec data, calls s !! c = Some call /\
      Codecs (call_serializeType option_ call) = Some codec /\
      codec_Encode codec (c_Args call) = (data, None) /\
      match Plugins with
      | None => req = build_request option_ call k data
      | Some p => exists w w' e,
          DoClientBeforeEncode p (build_request option_ call k data) w = (w', (req, e))
      end.
Proof.
  unfold send_encode. destruct (calls s !! c) as [call|] eqn:Hc.
  2:{ intros [= <- <-]. split_and!; [apply evolves_refl|done|done]. }
  set (s1 := with_seqptr _ s).
  assert (forall E, evolves E s s1) as H1 by (intros E; by apply evolves_same).
  destruct (Codecs _) as [codec|] eqn:Hcd.
  2:{ intros [= <- <-]. split_and!; [done|done|done]. }
  destruct (codec_Encode codec (c_Args call)) as [data [err|]] eqn:He.
  - intros [= <- <-]. split_and!; [|by rewrite finish_written|done].
    eapply evolves_trans; [apply H1|]. apply (take_evolves _ k); [apply finish_evolves|].
    intros c' Hc'. rewrite finish_finished. cbn in *.
    destruct (decide (c' = c)) as [->|Hne]; [left; set_solver|by right].
  - destruct Plugins as [p|].
    + destruct (DoClientBeforeEncode p _ _) as [w [req e]] eqn:Ep. intros [= <- <-].
      split_and!; [|done|].
      * eapply evolves_trans; [apply H1|]. by apply evolves_same.
      * intros req' [= <-]. exists call, codec, data. split_and!; eauto.
    + intros [= <- <-]. split_and!; [done|done|].
      intros req' [= <-]. exists call, codec, data. split_and!; eauto.
Qed.

Lemma send_register_None E c (s s' : state) :
  send_register Codecs option_ c s = (s', None) ->
  evolves E s s' /\ written s' = written s /\ (c ∈ dom (calls s) -> c ∈ finished s').
Proof.
  unfold send_register. destruct (calls s !! c) as [call|] eqn:Hc.
  - destruct (shutdown s || closing s); [|destruct (Codecs _)]; intros [= <-].
    all: split_and!; [apply finish_evolves|apply finish_written|].
    all: intros _; rewrite finish_finished; set_solver.
  - intros [= <-]. split_and!; [apply evolves_refl|done|].
    intros Hd. apply elem_of_dom in Hd as [? ?]. congruence.
Qed.

Lemma send_register_Some c (s s' : state) k :
  send_register Codecs option_ c s = (s', Some k) ->
  k = seq s /\ shutdown s = false /\ closing s = false /\ c ∈ dom (calls s) /\
  s' = with_pending (<[k := c]> (pending s)) (with_seq (u64 (seq s + 1)) s).
Proof.
  unfold send_register. destruct (calls s !! c) as [call|] eqn:Hc; [|done].
  destruct (shutdown s) eqn:E1; [done|]. destruct (closing s) eqn:E2; [done|]. cbn.
  destruct (Codecs _); [|done]. intros [= <- <-]. split_and!; try done.
  apply elem_of_dom. eauto.
Qed.

Lemma handleServerRequest_evolves E msg (s s' : state) :
  handleServerRequest option_ msg s = Some s' ->
  evolves E s s' /\ written s' = written s /\ pending s' = pending s /\ finished s' = finished s.
Proof.
  unfold handleServerRequest. repeat split_match; intros [= <-];
    (split_and!; [by apply evolves_same|done|done|done]).
Qed.

Lemma close_plugins_evolves E (s : state) :
  evolves E s (close_plugins Plugins s) /\ written (close_plugins Plugins s) = written s /\
  pending (close_plugins Plugins s) = pending s /\
  finished (close_plugins Plugins s) = finished s.
Proof.
  unfold close_plugins. destruct (pluginClosed s); [by auto using evolves_refl|].
  destruct Plugins as [p|]; [destruct (DoClientConnectionClose p tt (world s))|];
    (split_and!; [by apply evolves_same|done|done|done]).
Qed.

Lemma pending_enum_elem cs (s : state) k c :
  pending_enum cs s -> pending s !! k = Some c -> c ∈ cs.
Proof.
  intros Hcs Hk. rewrite Hcs. apply list_elem_of_fmap. exists (k, c). split; [done|].
  by apply elem_of_map_to_list.
Qed.

(** The end of [input]: the flags, and an error for each call of the iteration. *)
Lemma input_end_inv addr cs e (s s' : state) :
  input_end Plugins option_ addr cs e s = Some s' ->
  exists s2 f, evolves nobody s s2 /\ written s2 = written s /\ pending s2 = pending s /\ finished s2 = finished s /\
    s' = foldl (fun s c => finish c (f s) s) (with_flags (closing s2) true (pluginClosed s2) s2) cs.
Proof.
  unfold input_end. destruct (match ServerMessageChan s with Some _ => _ | None => _ end) as [s1|] eqn:E1; [|done].
  assert (evolves nobody s s1 /\ written s1 = written s /\ pending s1 = pending s /\ finished s1 = finished s)
    as (H1 & Hw1 & Hp1 & Hf1).
  { destruct (ServerMessageChan s); [|injection E1 as <-; auto using evolves_refl].
    destruct (Error_panics e); [done|]. by apply (handleServerRequest_evolves nobody) in E1. }
  cbn [mbind option_bind]. destruct (input_error e) as [err|]; [|done]. cbn. intros [= <-].
  destruct (close_plugins_evolves nobody s1) as (H2 & Hw2 & Hp2 & Hf2).
  exists (close_plugins Plugins s1), (fun s => Some (final_error (closing s) err)).
  split_and!; [by eapply evolves_trans|congruence..|done].
Qed.

Lemma input_end_evolves addr cs e (s s' : state) :
  pending_enum cs s -> input_end Plugins option_ addr cs e s = Some s' ->
  evolves nobody s s' /\ written s' = written s.
Proof.
  intros Hcs (s2 & f & [a1 a2 a3 a4 a5 a6 a7 a8 a9] & Hw & Hp & Hf & ->)%input_end_inv.
  set (s3 := with_flags (closing s2) true (pluginClosed s2) s2).
  destruct (finish_all_evolves nobody f cs s3) as (H3 & Hp3 & Hf3 & Hw3).
  set (s4 := foldl _ s3 cs) in *. destruct H3 as [b1 b2 b3 b4 b5 b6 b7 b8 b9].
  cbn in *. split; [|by rewrite Hw3, Hw]. split.
  - by rewrite b1.
  - by rewrite b2.
  - intros c b Hb. destruct (b3 c b Hb) as (x & Hx & Hxb).
    destruct (a3 c x Hx) as (y & Hy & Hyx). eauto using same_request_trans.
  - set_solver.
  - by etrans.
  - intros k c Hk. destruct (a6 k c Hk) as [Hb|[Hb|[]]]; [by apply b6|right; set_solver].
  - intros _. right. intros k c Hk. rewrite Hp3, Hp in Hk. rewrite Hf3.
    apply elem_of_app. right. by eapply pending_enum_elem.
  - auto.
  - auto.
Qed.

Lemma Close_evolves cs cerr (s : state) :
  pending_enum cs s ->
  evolves nobody s (fst (Close Plugins cs cerr s)) /\
  written (fst (Close Plugins cs cerr s)) = written s /\
  pending (fst (Close Plugins cs cerr s)) = ∅.
Proof.
  intros Hcs. unfold Close.
  destruct (finish_all_evolves nobody (fun _ => Some ErrShutdown) cs (with_pending ∅ s))
    as (H1 & Hp1 & Hf1 & Hw1).
  set (s1 := foldl _ _ cs) in *.
  destruct (close_plugins_evolves nobody s1) as (H2 & Hw2 & Hp2 & Hf2).
  set (s2 := close_plugins Plugins s1) in *. cbn in *.
  assert (evolves nobody s s2) as H02.
  { assert (evolves nobody (with_pending ∅ s) s2) as [a1 a2 a3 a4 a5 a6 a7 a8 a9]
      by by eapply evolves_trans.
    cbn in *. split; try done.
    - etrans; [exact a5|]. apply map_empty_subseteq.
    - intros k c Hk. right. left. rewrite Hf2, Hf1. apply elem_of_app. right.
      by eapply pending_enum_elem. }
  destruct (closing s2 || shutdown s2) eqn:Ef.
  - cbn. split_and!; [done|by rewrite Hw2|by rewrite Hp2].
  - cbn. split_and!; [|by rewrite Hw2|by rewrite Hp2].
    destruct H02 as [a1 a2 a3 a4 a5 a6 a7 a8 a9]. split; cbn; try done; auto.
    intros _. right. intros k c Hk. rewrite Hp2, Hp1 in Hk. by rewrite lookup_empty in Hk.
Qed.

(** ** The response handler *)

Lemma error_response_same kvs rs call :
  same_request call (fst (error_response Codecs ClientErrorFunc kvs rs call)).
Proof.
  unfold error_response. set (call1 := if has_meta rs then _ else call).
  assert (same_request call call1) as Hs by (unfold call1; by destruct (has_meta rs)).
  destruct (c_Raw call1).
  - destruct (convertRes2Raw kvs rs) as [m payload]. by destruct (c_Error _).
  - destruct (zlen (Payload rs) >? 0); [|done]. destruct (Codecs _); [|done].
    by destruct (codec_Decode _ _ _) as [r out].
Qed.

Lemma normal_response_same kvs rs call :
  same_request call (fst (normal_response Codecs kvs rs call)).
Proof.
  unfold normal_response. destruct (c_Raw call); [by destruct (convertRes2Raw kvs rs)|].
  destruct (zlen (Payload rs) >? 0); [|by destruct (has_meta rs)].
  destruct (Codecs _); [|by destruct (has_meta rs)].
  destruct (codec_Decode _ _ _) as [r [[]|e|w]]; by destruct (has_meta rs).
Qed.

Lemma respond_same kvs rs call : same_request call (fst (respond kvs rs call)).
Proof.
  unfold respond. destruct (_ =? StatusError); [apply error_response_same|apply normal_response_same].
Qed.

(** [handleResponse] on a response to a pending call. *)
Lemma handleResponse_call kvs res (s : state) c call :
  isServerMessage (seen res s) = false -> pending s !! Seq (m_header (seen res s)) = Some c ->
  calls s !! c = Some call ->
  exists s' e, handleResponse Codecs Plugins ClientErrorFunc option_ kvs res s = Some (s', e) /\
    calls s' = <[c := fst (respond kvs (seen res s) call)]> (calls s) /\
    pending s' = delete (Seq (m_header (seen res s))) (pending s) /\
    seq s' = seq s /\ written s' = written s /\ closing s' = closing s /\ shutdown s' = shutdown s /\
    match snd (respond kvs (seen res s) call) with
    | Ok _ => e = None /\ finished s' = finished s ++ [c]
    | Er er => e = Some er /\ finished s' = finished s ++ [c]
    | Panic _ => e = Some panicError /\ finished s' = finished s
    end.
Proof.
  unfold handleResponse, seen.
  set (x := match Plugins with None => (s, res) | Some p => _ end).
  assert (snd x = match Plugins with None => res | Some p => fst (snd (DoClientAfterDecode p res (world s))) end /\
    pending (fst x) = pending s /\ calls (fst x) = calls s /\ seq (fst x) = seq s /\ written (fst x) = written s /\
    finished (fst x) = finished s /\ closing (fst x) = closing s /\ shutdown (fst x) = shutdown s)
    as (<- & X1 & X2 & X3 & X4 & X5 & X6 & X7).
  { unfold x. destruct Plugins as [p|]; [|done]. by destruct (DoClientAfterDecode p res (world s)) as [w [r er]]. }
  destruct x as [s1 r1]. cbn [fst snd] in *. intros Hsm Hp Hc. rewrite Hsm. unfold take_pending.
  rewrite X1, Hp. cbn [calls with_pending]. rewrite X2, Hc. fold (respond kvs r1 call).
  destruct (respond kvs r1 call) as [call' out]. cbn [fst snd].
  set (s3 := with_calls _ _). destruct (done_fields c s3) as (D1 & D2 & D3 & D4 & D5 & D6 & D7).
  destruct out as [u|er|w]; eexists _, _; (split; [reflexivity|]);
    rewrite ?D1, ?D2, ?D3, ?D4, ?D5, ?D6, ?D7; cbn; rewrite ?X1, ?X2, ?X3, ?X4, ?X5, ?X6, ?X7; by split_and!.
Qed.

Lemma handleResponse_evolves kvs res (s s' : state) e :
  (forall k c, pending s !! k = Some c -> c ∈ dom (calls s)) ->
  handleResponse Codecs Plugins ClientErrorFunc option_ kvs res s = Some (s', e) ->
  evolves (fun c => c ∈ panicked kvs res s) s s' /\ written s' = written s.
Proof.
  intros Hdom Hh. destruct (isServerMessage (seen res s)) eqn:Hsm;
    [|destruct (pending s !! Seq (m_header (seen res s))) as [c|] eqn:Hp].
  - revert Hh. unfold handleResponse. unfold seen in Hsm. destruct Plugins as [p|].
    1: destruct (DoClientAfterDecode p res (world s)) as [w [r er]]; cbn [fst snd] in Hsm.
    all: rewrite Hsm; destruct (ServerMessageChan _);
      [match goal with |- context [handleServerRequest _ ?r ?s1] => destruct (handleServerRequest option_ r s1) as [s2|] eqn:E2; [|done] end;
       match type of E2 with _ _ _ ?s1 = _ => destruct (handleServerRequest_evolves (fun c => c ∈ panicked kvs res s) _ _ _ E2) as (H2 & Hw2 & _) end;
       cbn; intros [= <- <-]; split; [eapply evolves_trans; [|exact H2]; by apply evolves_same|by rewrite Hw2]
      |intros [= <- <-]; split; [by apply evolves_same|done]].
  - assert (is_Some (calls s !! c)) as [call Hc] by (apply elem_of_dom; by eapply Hdom).
    destruct (handleResponse_call kvs res s c call Hsm Hp Hc) as (s1 & e1 & Hh1 & C1 & P1 & S1 & W1 & F1 & F2 & Ho).
    rewrite Hh1 in Hh. injection Hh as -> ->. split; [|done].
    pose proof (upd_evolves (fun c => c ∈ panicked kvs res s) s c call _ Hc (respond_same kvs (seen res s) call))
      as [_ u2 u3 _ _ _ _ _ _]. cbn in u2, u3.
    assert (finished s ⊆ finished s') as Hsub.
    { destruct (snd (respond _ _ _)); destruct Ho as [_ ->]; set_solver. }
    split; rewrite ?C1, ?P1, ?S1, ?F1, ?F2; try done; auto.
    + apply delete_subseteq.
    + intros k c' Hk. destruct (decide (k = Seq (m_header (seen res s)))) as [->|Hne].
      * right. assert (c' = c) as -> by congruence. unfold panicked. rewrite Hsm, Hp, Hc.
        destruct (snd (respond _ _ _)); destruct Ho as [_ ->]; set_solver.
      * left. by rewrite lookup_delete_ne.
  - revert Hh. unfold handleResponse. unfold seen in Hsm, Hp. destruct Plugins as [p|].
    1: destruct (DoClientAfterDecode p res (world s)) as [w [r er]]; cbn [fst snd] in Hsm, Hp.
    all: rewrite Hsm; unfold take_pending; cbn [pending with_world]; rewrite Hp; intros [= <- <-]; (split; [|done]).
    all: rewrite delete_id by done; by apply evolves_same.
Qed.

(** ** The invariant *)

(** The plugins may change a request, but not what it asks for. *)
Definition hooks_keep : Prop := forall p req w w' req' e,
  Plugins = Some p -> DoClientBeforeEncode p req w = (w', (req', e)) ->
  Seq (m_header req') = Seq (m_header req) /\ ServicePath req' = ServicePath req /\
  ServiceMethod req' = ServiceMethod req /\ Payload req' = Payload req.

(** [req] asks for call [c] under the number [k]. *)
Definition carries (s : state) (c : nat) (k : Z) (req : Message) : Prop :=
  exists call codec, calls s !! c = Some call /\ Seq (m_header req) = k /\
    ServicePath req = c_ServicePath call /\ ServiceMethod req = c_ServiceMethod call /\
    Codecs (call_serializeType option_ call) = Some codec /\
    codec_Encode codec (c_Args call) = (Payload req, None).

(** [c] is the call of a raw message. *)
Definition raw (s : state) (c : nat) : Prop :=
  exists call, calls s !! c = Some call /\ c_Raw call = true.

(** Another call was registered under the number of [c], and one of them is that of a raw message:
    the one that came second took the entry of the other. *)
Definition collided (rg : list (Z * nat)) (s : state) (c : nat) : Prop :=
  exists k c', (k, c) ∈ rg /\ (k, c') ∈ rg /\ c <> c' /\ (raw s c \/ raw s c').

Definition thread_ok (s : state) (rg : list (Z * nat)) (t : thread) : Prop :=
  match t with
  | TRegister c => c ∈ dom (calls s) /\ ~ raw s c
  | TEncode c k => (k, c) ∈ rg /\ ~ raw s c
  | TWrite c k req => (k, c) ∈ rg /\ ~ raw s c /\ (hooks_keep -> carries s c k req)
  | TRaw c _ r => (Seq (m_header r), c) ∈ rg /\ raw s c
  | TRawWait _ _ _ => True
  end.

(** What was written is a raw message or the request of a registered call. *)
Definition written_ok (s : state) (rg : list (Z * nat)) (req : Message) : Prop :=
  (exists c, (Seq (m_header req), c) ∈ rg /\ raw s c) \/
  (exists k c, (k, c) ∈ rg /\ ~ raw s c /\ (hooks_keep -> carries s c k req)).

Definition is_reg (t : thread) : bool := match t with TRegister _ => true | _ => false end.
Definition nreg (ts : list thread) : nat := length (filter is_reg ts).

Record inv (s : state) (ts : list thread) (n : nat) (rg : list (Z * nat)) (h : list nat) : Prop := {
  i_seq : 0 <= seq s /\ seq s + Z.of_nat (nreg ts) <= Z.of_nat n;
  i_lost : forall c, c ∈ dom (calls s) ->
    c ∈ finished s \/ TRegister c ∈ ts \/ (exists k, pending s !! k = Some c) \/ c ∈ h \/ collided rg s c;
  i_dead : closing s || shutdown s = true ->
    forall k c, pending s !! k = Some c -> c ∈ finished s \/ raw s c;
  i_pend : forall k c, pending s !! k = Some c -> (k, c) ∈ rg;
  i_rg : forall k c, (k, c) ∈ rg -> c ∈ dom (calls s) /\ (raw s c \/ 0 <= k < seq s);
  i_uniq : forall k c c', (k, c) ∈ rg -> (k, c') ∈ rg -> c = c' \/ raw s c \/ raw s c';
  i_thr : forall t, t ∈ ts -> thread_ok s rg t;
  i_written : forall req, req ∈ written s -> written_ok s rg req;
}.

Lemma carries_evolves E s s' c k req : evolves E s s' -> carries s c k req -> carries s' c k req.
Proof.
  intros He (call & codec & Hc & Hk & Hp & Hm & Hcd & Hen).
  assert (is_Some (calls s' !! c)) as [b Hb].
  { apply elem_of_dom. rewrite (ev_dom _ _ _ He). apply elem_of_dom. eauto. }
  destruct (ev_same _ _ _ He c b Hb) as (a & Ha & Hs). simplify_eq.
  destruct Hs as (S1 & S2 & S3 & _). exists b, codec.
  unfold call_serializeType, isHeartbeatCall in *. rewrite <- S1, <- S2, <- S3. done.
Qed.

Lemma raw_evolves E s s' c : evolves E s s' -> raw s c <-> raw s' c.
Proof.
  intros He. split.
  - intros (a & Ha & Hr). assert (is_Some (calls s' !! c)) as [b Hb].
    { apply elem_of_dom. rewrite (ev_dom _ _ _ He). apply elem_of_dom. eauto. }
    exists b. split; [done|]. destruct (ev_same _ _ _ He c b Hb) as (a' & Ha' & _ & _ & _ & Hs & _). congruence.
  - intros (b & Hb & Hr). destruct (ev_same _ _ _ He c b Hb) as (a & Ha & _ & _ & _ & Hs & _).
    exists a. split; [done|]. congruence.
Qed.

(** What the invariant says of a state carries over to one that knows at least as much. *)
Definition knows (s s' : state) (rg rg' : list (Z * nat)) : Prop :=
  (forall c, c ∈ dom (calls s) -> raw s c <-> raw s' c) /\
  (forall c, c ∈ dom (calls s) -> c ∈ dom (calls s')) /\
  (forall c k req, carries s c k req -> carries s' c k req) /\ rg ⊆ rg'.

Lemma knows_evolves E s s' rg : evolves E s s' -> knows s s' rg rg.
Proof.
  intros He. split_and!; [|by rewrite (ev_dom _ _ _ He)|eauto using carries_evolves|done].
  intros c _. by eapply raw_evolves.
Qed.

Lemma raw_dom s c : raw s c -> c ∈ dom (calls s).
Proof. intros (call & Hc & _). apply elem_of_dom. eauto. Qed.

Lemma collided_knows s s' rg rg' c : knows s s' rg rg' -> collided rg s c -> collided rg' s' c.
Proof.
  intros (K1 & _ & _ & K4) (k & c' & H1 & H2 & H3 & Hr). exists k, c'.
  split_and!; [by apply K4|by apply K4|done|].
  destruct Hr as [Hr|Hr]; [left|right]; apply K1; eauto using raw_dom.
Qed.

Lemma thread_ok_knows s s' rg rg' t :
  knows s s' rg rg' -> (forall k c, (k, c) ∈ rg -> c ∈ dom (calls s)) -> thread_ok s rg t -> thread_ok s' rg' t.
Proof.
  intros (K1 & K2 & K3 & K4) Hd. destruct t as [c|c k|c k req|c ch r|c ch r]; cbn; [..|done].
  - intros [H1 H2]. split; [auto|]. by rewrite <- K1.
  - intros [H1 H2]. split; [auto|]. rewrite <- K1; eauto.
  - intros (H1 & H2 & H3). split_and!; [auto| |auto]. rewrite <- K1; eauto.
  - intros [H1 H2]. split; [auto|]. rewrite <- K1; eauto.
Qed.

Lemma written_ok_knows s s' rg rg' req :
  knows s s' rg rg' -> (forall k c, (k, c) ∈ rg -> c ∈ dom (calls s)) -> written_ok s rg req -> written_ok s' rg' req.
Proof.
  intros (K1 & K2 & K3 & K4) Hd [(c & H1 & H2)|(k & c & H1 & H2 & H3)]; [left|right].
  - exists c. split; [auto|]. rewrite <- K1; eauto.
  - exists k, c. split_and!; [auto| |auto]. rewrite <- K1; eauto.
Qed.

(** Operations that keep the goroutines; a call that they take out and do not finish is accounted
    for in [h'], or had lost its number. *)
Lemma inv_evolves (E : nat -> Prop) s s' ts n rg h h' :
  inv s ts n rg h -> evolves E s s' -> written s' = written s -> h ⊆ h' ->
  (forall c, E c -> c ∈ h' \/ collided rg s c) -> inv s' ts n rg h'.
Proof.
  intros [j1 j2 j3 j4 j5 j6 j7 j8] He Hw Hh HE.
  pose proof (knows_evolves E s s' rg He) as Hk.
  assert (forall k c, (k, c) ∈ rg -> c ∈ dom (calls s)) as Hd by (intros k c Hc; apply (j5 k c Hc)).
  split.
  - by rewrite (ev_seq _ _ _ He).
  - intros c Hc. rewrite (ev_dom _ _ _ He) in Hc. destruct (j2 c Hc) as [Hf|[Hr|[[k Hp]|[Hi|Hi]]]].
    + left. by apply (ev_finished _ _ _ He).
    + auto.
    + destruct (ev_taken _ _ _ He k c Hp) as [?|[?|Hx]]; [eauto|auto|].
      destruct (HE c Hx) as [?|?]; [auto|]. right. right. right. right. by eapply collided_knows.
    + do 3 right. left. by apply Hh.
    + do 4 right. by eapply collided_knows.
  - intros Hf k c Hp. destruct (ev_flags _ _ _ He Hf) as [Hdd|Hdd]; [|left; by eapply Hdd].
    destruct (j3 Hdd k c) as [?|Hr]; [by eapply lookup_weaken; [|apply (ev_pending _ _ _ He)]
      |left; by apply (ev_finished _ _ _ He)|right; by apply (raw_evolves E s s' c He)].
  - intros k c Hp. apply j4. by eapply lookup_weaken; [|apply (ev_pending _ _ _ He)].
  - intros k c Hr. rewrite (ev_dom _ _ _ He), (ev_seq _ _ _ He), <- (raw_evolves E s s' c He). auto.
  - intros k c c' H1 H2. rewrite <- !(raw_evolves E s s' _ He). by eapply j6.
  - intros t Ht. by eapply thread_ok_knows; eauto.
  - intros req Hr. rewrite Hw in Hr. by eapply written_ok_knows; eauto.
Qed.

Lemma inv_still s s' ts n rg h :
  inv s ts n rg h -> evolves nobody s s' -> written s' = written s -> inv s' ts n rg h.
Proof. intros Hi He Hw. eapply inv_evolves; [exact Hi|exact He|done|done|]. by intros c []. Qed.

Lemma nreg_mid a t b : nreg (a ++ t :: b) = (nreg (a ++ b) + if is_reg t then 1 else 0)%nat.
Proof.
  unfold nreg. rewrite !filter_app. destruct t; cbn -[filter];
    first [rewrite filter_cons_True by done|rewrite filter_cons_False by (by intros [])];
    rewrite ?length_app; cbn; lia.
Qed.

(** A goroutine goes on, or ends. *)
Lemma inv_thread s a t t' b n rg h :
  is_reg t = false -> inv s (a ++ t :: b) n rg h ->
  match t' with Some t' => is_reg t' = false /\ thread_ok s rg t' | None => True end ->
  inv s (a ++ match t' with Some t' => [t'] | None => [] end ++ b) n rg h.
Proof.
  intros Ht [j1 j2 j3 j4 j5 j6 j7 j8] Ht'.
  assert (nreg (a ++ match t' with Some t' => [t'] | None => [] end ++ b) = nreg (a ++ b)) as Hn.
  { destruct t' as [t'|]; [|done]. destruct Ht' as [Hr _]. cbn. rewrite nreg_mid, Hr. lia. }
  split; try done.
  - rewrite Hn. rewrite nreg_mid, Ht in j1. lia.
  - intros c Hc. destruct (j2 c Hc) as [?|[Hr|?]]; auto. right. left.
    apply elem_of_app in Hr as [Hr|Hr]; [set_solver|].
    apply elem_of_cons in Hr as [<-|Hr]; [done|set_solver].
  - intros t0 H0. assert (t0 ∈ a ++ t :: b \/ exists t1, t' = Some t1 /\ t0 = t1) as [?|(t1 & -> & ->)]; [|auto|apply Ht'].
    destruct t' as [t1|]; set_solver.
Qed.

(** A registration that fails ends the goroutine, and the call is finished. *)
Lemma inv_register_None s a c b n rg h :
  inv s (a ++ TRegister c :: b) n rg h -> c ∈ finished s -> inv s (a ++ b) n rg h.
Proof.
  intros [j1 j2 j3 j4 j5 j6 j7 j8] Hf.
  assert (forall t', t' ∈ a ++ b -> t' ∈ a ++ TRegister c :: b) as Hin by set_solver.
  split; auto.
  - rewrite nreg_mid in j1. cbn in j1. lia.
  - intros c' Hc'. destruct (j2 c' Hc') as [?|[Hr|?]]; auto.
    apply elem_of_app in Hr as [Hr|Hr]; [right; left; set_solver|].
    apply elem_of_cons in Hr as [[= ->]|Hr]; [by left|right; left; set_solver].
Qed.

(** A new entry in [pending], by a registered call or a raw message: the call that it replaces has
    lost its number. *)
Lemma lost_insert s s' rg (ts : list thread) (h : list nat) k c :
  (forall c', c' ∈ dom (calls s) -> c' ∈ finished s \/ TRegister c' ∈ ts \/
     (exists k, pending s !! k = Some c') \/ c' ∈ h \/ collided rg s c') ->
  finished s' = finished s -> pending s' = <[k := c]> (pending s) -> knows s s' rg (rg ++ [(k, c)]) ->
  (forall c', pending s !! k = Some c' -> c' <> c -> collided (rg ++ [(k, c)]) s' c') ->
  forall c', c' ∈ dom (calls s) -> c' ∈ finished s' \/ TRegister c' ∈ ts \/
     (exists k, pending s' !! k = Some c') \/ c' ∈ h \/ collided (rg ++ [(k, c)]) s' c'.
Proof.
  intros Hl Hf Hp Hk Hx c' Hc'. rewrite Hf, Hp.
  destruct (Hl c' Hc') as [?|[?|[[k' Hk']|[?|?]]]]; auto.
  - destruct (decide (c' = c)) as [->|Hne]; [right; right; left; exists k; apply lookup_insert_eq|].
    destruct (decide (k' = k)) as [->|Hnk]; [do 4 right; by apply Hx|].
    right. right. left. exists k'. by rewrite lookup_insert_ne.
  - do 4 right. by eapply collided_knows.
Qed.

Lemma inv_register_Some s a c b n rg h :
  inv s (a ++ TRegister c :: b) n rg h -> Z.of_nat n < 2 ^ 64 ->
  shutdown s = false -> closing s = false ->
  inv (with_pending (<[seq s := c]> (pending s)) (with_seq (u64 (seq s + 1)) s))
    (a ++ TEncode c (seq s) :: b) n (rg ++ [(seq s, c)]) h.
Proof.
  intros Hi Hn Hs Hc. destruct (i_thr _ _ _ _ _ Hi (TRegister c)) as [Hd Hnr]; [set_solver|].
  destruct Hi as [j1 j2 j3 j4 j5 j6 j7 j8]. rewrite nreg_mid in j1. cbn [is_reg] in j1.
  assert (u64 (seq s + 1) = seq s + 1) as Hu by (apply wrap_small; lia).
  set (s' := with_pending _ _). set (rg' := rg ++ [(seq s, c)]).
  assert (knows s s' rg rg') as Hk by (split_and!; [done|done|done|unfold rg'; set_solver]).
  assert (forall c', (seq s, c') ∈ rg -> raw s c') as Hold.
  { intros c' Hc'. destruct (j5 _ _ Hc') as [_ [?|?]]; [done|lia]. }
  assert (forall k c', (k, c') ∈ rg -> c' ∈ dom (calls s)) as Hdm by (intros k c' H; apply (j5 k c' H)).
  assert (forall t, t ∈ a ++ TEncode c (seq s) :: b -> t = TEncode c (seq s) \/ t ∈ a ++ b) as Hin by set_solver.
  split; cbn.
  - rewrite Hu, nreg_mid. cbn [is_reg]. lia.
  - intros c' Hc'. destruct (lost_insert s s' rg (a ++ TRegister c :: b) h (seq s) c j2 eq_refl eq_refl Hk) with c'
      as [?|[Hr|?]]; auto.
    + intros c0 Hp Hne. exists (seq s), c. unfold rg'. split_and!; [apply j4 in Hp; set_solver|set_solver|done|].
      left. by apply Hold, j4.
    + destruct (decide (c' = c)) as [->|Hne]; [right; right; left; exists (seq s); apply lookup_insert_eq|].
      right. left. apply elem_of_app in Hr as [Hr|Hr]; [set_solver|].
      apply elem_of_cons in Hr as [[= ->]|Hr]; [done|set_solver].
  - rewrite Hs, Hc. done.
  - intros k c'. rewrite lookup_insert_Some. unfold rg'. intros [[<- <-]|[Hne Hp]]; [set_solver|].
    apply j4 in Hp. set_solver.
  - intros k c' [Hr|Hr]%elem_of_app.
    + destruct (j5 k c' Hr) as [? [?|?]]; [auto|]. split; [done|right; rewrite Hu; lia].
    + apply list_elem_of_singleton in Hr as [= -> ->]. split; [done|right; rewrite Hu; lia].
  - intros k c1 c2 [H1|H1]%elem_of_app [H2|H2]%elem_of_app.
    + by eapply j6.
    + apply list_elem_of_singleton in H2 as [= -> ->]. right. left. by apply Hold.
    + apply list_elem_of_singleton in H1 as [= -> ->]. right. right. by apply Hold.
    + apply list_elem_of_singleton in H1 as [= -> ->]. apply list_elem_of_singleton in H2 as [= ->]. by left.
  - intros t [->|Ht]%Hin; [cbn; split; [unfold rg'; set_solver|done]|].
    eapply (thread_ok_knows s s' rg rg' t Hk Hdm), j7. set_solver.
  - intros req Hr. by apply (written_ok_knows s s' rg rg' req Hk Hdm), j8.
Qed.

(** ** Sequence numbers on the wire *)

Lemma Seq_hset h i v : (i < 4)%nat -> Seq (hset h i v) = Seq h.
Proof. intros. unfold Seq, hset. by rewrite drop_insert_lt. Qed.

Lemma Seq_build (call : Call V) k data :
  0 <= k < 2 ^ 64 -> Seq (m_header (build_request option_ call k data)) = k.
Proof.
  intros Hk. unfold build_request. cbn [m_header].
  assert (Seq (SetSeq k (SetMessageType Request newHeader)) = k) as Hs.
  { pose proof (hview_SetSeq k (SetMessageType Request newHeader)) as H.
    apply (f_equal hv_seq) in H; [exact H|auto with rpcx|done]. }
  repeat match goal with
  | |- context [match ?x with _ => _ end] => destruct x
  end; unfold SetCompressType, SetSerializeType, SetHeartbeat, SetOneway;
    repeat rewrite Seq_hset by lia; exact Hs.
Qed.

Lemma Seq_compress h p : Seq (fst (compressPayload h p)) = Seq h.
Proof.
  unfold compressPayload, SetCompressType. repeat split_match; cbn [fst];
    rewrite ?Seq_hset by lia; done.
Qed.

(** A new call: what was known stays known. *)
Lemma knows_insert s s' rg rg' c call :
  calls s !! c = None -> calls s' = <[c := call]> (calls s) -> rg ⊆ rg' -> knows s s' rg rg'.
Proof.
  intros Hc Hs Hr.
  assert (forall c', c' ∈ dom (calls s) -> calls s' !! c' = calls s !! c') as Hsame.
  { intros c' Hd. rewrite Hs, lookup_insert_ne; [done|]. intros <-. apply elem_of_dom in Hd as [? ?]. congruence. }
  split_and!; [|rewrite Hs; set_solver| |done].
  - intros c' Hd. unfold raw. by rewrite (Hsame c' Hd).
  - intros c' k req (cl & codec & Hcl & Hrest). exists cl, codec. split; [|done].
    rewrite Hsame; [done|]. apply elem_of_dom. eauto.
Qed.

(** A call that is handed out is waiting to be registered. *)
Lemma inv_go s ts n rg h c sp sm md args r ch :
  inv s ts n rg h -> calls s !! c = None -> inv (Go_ c sp sm md args r ch s) (ts ++ [TRegister c]) (S n) rg h.
Proof.
  intros [j1 j2 j3 j4 j5 j6 j7 j8] Hc.
  set (s' := Go_ _ _ _ _ _ _ _ _). assert (knows s s' rg rg) as Hk by (by eapply knows_insert).
  pose proof Hk as (K1 & K2 & _).
  assert (forall k c', (k, c') ∈ rg -> c' ∈ dom (calls s)) as Hdm by (intros k c' H; apply (j5 k c' H)).
  split; cbn.
  - rewrite nreg_mid, app_nil_r. cbn [is_reg]. lia.
  - intros c' Hc'. rewrite dom_insert_L in Hc'. apply elem_of_union in Hc' as [->%elem_of_singleton|Hc']; [set_solver|].
    destruct (j2 c' Hc') as [?|[?|[?|[?|?]]]]; auto; [set_solver|]. do 4 right. by eapply collided_knows.
  - intros Hd k c' Hp. destruct (j3 Hd k c' Hp) as [?|Hr]; [auto|right]. apply K1; [by eapply raw_dom|done].
  - done.
  - intros k c' Hr. destruct (j5 k c' Hr) as [H1 H2]. split; [rewrite dom_insert_L; set_solver|]. by rewrite <- K1.
  - intros k c1 c2 H1 H2. rewrite <- !K1 by eauto. by eapply j6.
  - intros t [Ht|Ht]%elem_of_app; [eapply (thread_ok_knows s s' rg rg t Hk Hdm); auto|].
    apply list_elem_of_singleton in Ht as ->. cbn. split; [rewrite dom_insert_L; set_solver|].
    intros (call & Hcl & Hraw). cbn in Hcl. rewrite lookup_insert_eq in Hcl. injection Hcl as <-. done.
  - intros req Hr. by apply (written_ok_knows s s' rg rg req Hk Hdm), j8.
Qed.

(** A raw message is registered when it is sent. *)
Lemma inv_raw s ts n rg h c ch md r s' r' :
  inv s ts n rg h -> calls s !! c = None -> raw_register c ch md r s = (s', r') ->
  inv s' (ts ++ [TRaw c ch r']) n (rg ++ [(Seq (m_header r'), c)]) h.
Proof.
  intros [j1 j2 j3 j4 j5 j6 j7 j8] Hc. unfold raw_register. intros [= <- <-].
  cbn [m_header set_meta]. set (k := Seq (m_header r)). set (s' := with_pending _ _). set (rg' := rg ++ [(k, c)]).
  assert (knows s s' rg rg') as Hk by (eapply knows_insert; [done|reflexivity|unfold rg'; set_solver]).
  pose proof Hk as (K1 & K2 & _).
  assert (forall k c', (k, c') ∈ rg -> c' ∈ dom (calls s)) as Hdm by (intros k0 c' H; apply (j5 k0 c' H)).
  assert (raw s' c) as Hraw by (eexists; split; [apply lookup_insert_eq|done]).
  assert (c ∈ dom (calls s')) as Hcd by (by apply raw_dom).
  split; cbn.
  - rewrite nreg_mid, app_nil_r. cbn [is_reg]. lia.
  - intros c' Hc'. rewrite dom_insert_L in Hc'. apply elem_of_union in Hc' as [->%elem_of_singleton|Hc'].
    { right. right. left. exists k. apply lookup_insert_eq. }
    destruct (lost_insert s s' rg ts h k c j2 eq_refl eq_refl Hk) with c' as [?|[?|?]]; auto; [|set_solver].
    intros c0 Hp Hne. exists k, c. unfold rg'. split_and!; [apply j4 in Hp; set_solver|set_solver|done|by right].
  - intros Hd k' c'. rewrite lookup_insert_Some. intros [[<- <-]|[Hne Hp]]; [by right|].
    destruct (j3 Hd k' c' Hp) as [?|Hr]; [auto|right]. apply K1; [by eapply raw_dom|done].
  - intros k' c'. rewrite lookup_insert_Some. unfold rg'. intros [[<- <-]|[Hne Hp]]; [set_solver|].
    apply j4 in Hp. set_solver.
  - intros k' c' [Hr|Hr]%elem_of_app.
    + destruct (j5 k' c' Hr) as [H1 H2]. split; [auto|]. by rewrite <- K1.
    + apply list_elem_of_singleton in Hr as [= -> ->]. auto.
  - intros k' c1 c2 [H1|H1]%elem_of_app [H2|H2]%elem_of_app.
    + rewrite <- !K1 by eauto. by eapply j6.
    + apply list_elem_of_singleton in H2 as [= -> ->]. auto.
    + apply list_elem_of_singleton in H1 as [= -> ->]. auto.
    + apply list_elem_of_singleton in H1 as [= -> ->]. auto.
  - intros t [Ht|Ht]%elem_of_app; [eapply (thread_ok_knows s s' rg rg' t Hk Hdm); auto|].
    apply list_elem_of_singleton in Ht as ->. cbn. split; [unfold rg'; set_solver|done].
  - intros req Hr. by apply (written_ok_knows s s' rg rg' req Hk Hdm), j8.
Qed.

(** An encoded request carries the number and the contents of its call. *)
Lemma inv_encode s s' a b c k n rg h r :
  inv s (a ++ TEncode c k :: b) n rg h -> Z.of_nat n < 2 ^ 64 ->
  send_encode Codecs Plugins option_ c k s = (s', r) ->
  inv s' (a ++ match r with Some req => [TWrite c k req] | None => [] end ++ b) n rg h.
Proof.
  intros Hi Hn He. destruct (i_thr _ _ _ _ _ Hi (TEncode c k)) as [Hrg Hnr]; [set_solver|].
  destruct (send_encode_evolves c k s s' r He) as (Hev & Hw & Hreq).
  assert (inv s' (a ++ TEncode c k :: b) n rg h) as Hi'.
  { eapply inv_evolves; [exact Hi|exact Hev|done|done|]. intros c' [Hp Hne]. right.
    pose proof (i_pend _ _ _ _ _ Hi k c' Hp) as Hp'. exists k, c. split_and!; [done|done|done|].
    destruct (i_uniq _ _ _ _ _ Hi k c' c Hp' Hrg) as [?|?]; [done|done]. }
  replace (match r with Some req => [TWrite c k req] | None => [] end)
    with (match TWrite c k <$> r with Some t => [t] | None => [] end) by (by destruct r).
  eapply inv_thread; [|exact Hi'|]; [done|]. destruct r as [req|]; cbn; [|done]. split_and!; [done|done| |].
  { by rewrite <- (raw_evolves _ s s' c Hev). }
  intros Hkeep. eapply carries_evolves; [exact Hev|].
  destruct (Hreq req eq_refl) as (call & codec & data & Hcl & Hcd & Hen & Hp).
  assert (Seq (m_header (build_request option_ call k data)) = k) as Hsq.
  { apply Seq_build. destruct (i_rg _ _ _ _ _ Hi k c Hrg) as [_ [?|?]]; [done|].
    destruct (i_seq _ _ _ _ _ Hi). lia. }
  exists call, codec. destruct Plugins as [p|] eqn:EP.
  - destruct Hp as (w & w' & e & Hp).
    destruct (Hkeep p _ _ _ _ _ EP Hp) as (P1 & P2 & P3 & P4).
    rewrite P1, P2, P3, P4. done.
  - subst req. done.
Qed.

Lemma carries_framed s c k req : carries s c k req -> carries s c k (framed req).
Proof.
  intros (call & codec & Q1 & Q2 & Q3). exists call, codec. unfold framed.
  cbn [m_header set_header ServicePath ServiceMethod Payload]. by rewrite Seq_compress.
Qed.

(** What is written is the request of a registered call, or a raw message. *)
Lemma inv_wrote s s' a t t' b n rg h req (werr : option error) :
  inv s (a ++ t :: b) n rg h -> is_reg t = false -> (forall t0, t' = Some t0 -> is_reg t0 = false /\ forall s, thread_ok s rg t0) ->
  evolves nobody s s' ->
  written s' = match werr with Some _ => written s | None => written s ++ [framed req] end ->
  written_ok s rg (framed req) ->
  inv s' (a ++ match t' with Some t' => [t'] | None => [] end ++ b) n rg h.
Proof.
  intros Hi Ht Ht' Hev Hw Hok.
  assert (inv s (a ++ match t' with Some t' => [t'] | None => [] end ++ b) n rg h) as Hi1.
  { eapply inv_thread; [exact Ht|exact Hi|]. destruct t' as [t'|]; [|done]. by destruct (Ht' t' eq_refl). }
  assert (forall k c, (k, c) ∈ rg -> c ∈ dom (calls s)) as Hdm by (intros k c H; apply (i_rg _ _ _ _ _ Hi k c H)).
  destruct (inv_still s (with_written (written s) s') _ n rg h Hi1) as [j1 j2 j3 j4 j5 j6 j7 j8]; [|done|].
  { eapply evolves_trans; [exact Hev|]. by apply evolves_same. }
  split; try done. intros r Hr.
  assert (r ∈ written s \/ r = framed req) as [Hr'|Hr'] by (destruct werr; rewrite Hw in Hr; set_solver).
  - by apply (written_ok_knows s s' rg rg r (knows_evolves _ s s' rg Hev) Hdm), (i_written _ _ _ _ _ Hi).
  - subst r. by apply (written_ok_knows s s' rg rg _ (knows_evolves _ s s' rg Hev) Hdm).
Qed.

(** Every reachable state, as long as fewer than 2^64 calls were made. *)
Lemma reachable_inv x :
  reachable x -> Z.of_nat (issued x) < 2 ^ 64 -> inv (st x) (threads x) (issued x) (regs x) (hit x).
Proof.
  induction 1 as [w chs|x y Hx IH Hstep]; intros Hn.
  { cbn. split; cbn; set_solver. }
  assert (Z.of_nat (issued x) < 2 ^ 64) as Hnx by (inversion Hstep; subst; cbn in *; lia).
  specialize (IH Hnx). inversion Hstep as
    [c sp sm md args r ch y' Hc|y' a b c s' r Ht Hr|y' a b c k s' r Ht He|y' a b c k req werr Ht
    |y' c ch md r s' r' Hc Hch Hr|y' a b c ch r werr s' out Ht Hr|y' a b c ch r e Ht|y' a b c ch r cap c' q Ht Hch
    |y' kvs res s' e Hrd Hkv Hh|y' e Hrd|y' addr cs e s' Hrd Hcs Hin|y' cs cerr Hcs
    |y' c e|y' ch cap c q Hch|y' mc]; subst; cbn [st threads issued rd regs hit] in *.
  - by apply inv_go.
  - rewrite Ht in IH. destruct r as [k|].
    + destruct (send_register_Some _ _ _ _ Hr) as (-> & Hs & Hc & Hd & ->).
      by apply inv_register_Some.
    + destruct (send_register_None nobody _ _ _ Hr) as (He & Hw & Hf). rewrite app_nil_r.
      eapply inv_register_None; [by eapply inv_still|]. apply Hf.
      apply (i_thr _ _ _ _ _ IH (TRegister c)). set_solver.
  - rewrite Ht in IH. by eapply inv_encode.
  - rewrite Ht in IH. destruct (i_thr _ _ _ _ _ IH (TWrite c k req)) as (H1 & H2 & H3); [set_solver|].
    destruct (send_write_evolves nobody k req werr (st x)) as [Hev Hw].
    eapply (inv_wrote _ _ a _ None b _ _ _ req werr); [exact IH|done|done|exact Hev|exact Hw|].
    right. exists k, c. split_and!; [done|done|]. intros Hk. by apply carries_framed, H3.
  - assert (inv (with_done (<[ch:=CallChan 10 []]> (chans (st x))) (finished (st x)) (st x)) (threads x)
      (issued x) (regs x) (hit x)) as IH' by (eapply inv_still; [exact IH|by apply evolves_same|done]).
    by eapply inv_raw.
  - rewrite Ht in IH. destruct (i_thr _ _ _ _ _ IH (TRaw c ch r)) as (H1 & H2); [set_solver|].
    destruct (raw_written_evolves nobody r werr (st x) s' out Hr) as [Hev Hw].
    replace (match out with Some _ => [] | None => [TRawWait c ch r] end)
      with (match (match out with Some _ => None | None => Some (TRawWait c ch r) end) with Some t => [t] | None => [] end)
      by (by destruct out).
    eapply inv_wrote; [exact IH|done| |exact Hev|exact Hw|].
    + intros t0. destruct out; [done|]. by intros [= <-].
    + left. exists c. unfold framed. cbn [m_header set_header]. by rewrite Seq_compress.
  - rewrite Ht in IH. destruct (raw_cancel_evolves nobody r e (st x)).
    eapply inv_still; [|done|done]. by apply (inv_thread (st x) a (TRawWait c ch r) None b).
  - rewrite Ht in IH. eapply inv_still; [by apply (inv_thread (st x) a (TRawWait c ch r) None b)
      |by apply evolves_same|done].
  - destruct (handleResponse_evolves kvs res (st x) s' e) as [Hev Hw]; [|done|].
    { intros k c Hk. by destruct (i_rg _ _ _ _ _ IH k c (i_pend _ _ _ _ _ IH k c Hk)). }
    eapply inv_evolves; [exact IH|exact Hev|done|set_solver|]. intros c Hc. left. set_solver.
  - done.
  - destruct (input_end_evolves _ _ _ _ _ Hcs Hin). by eapply inv_still.
  - destruct (Close_evolves cs cerr (st x) Hcs) as (? & ? & _). by eapply inv_still.
  - destruct (cancel_evolves nobody c e (st x)). by eapply inv_still.
  - eapply inv_still; [exact IH|by apply evolves_same|done].
  - eapply inv_still; [exact IH|by apply evolves_same|done].
Qed.

(** ** Properties *)

(** C4. No call is lost but for two reasons. Whatever the interleaving of callers, senders of raw
    messages, the reader, cancellations and [Close], and whatever codecs and plugins do, a call that
    was handed out has been completed, or its goroutine has not registered it yet, or it is still in
    [pending]; or the handler panicked on its response (a decoder that panics, or an error response
    without metadata to a raw message); or a raw message and another call were registered under its
    number, and the second took the entry of the first. Once the client is closed or the connection
    has failed, every call whose goroutine has registered is completed, its [Done] channel was
    signalled, but for those two reasons and for raw messages, which are registered even then. Fewer
    than 2^64 calls are made. *)
Theorem no_call_lost x :
  reachable x -> Z.of_nat (issued x) < 2 ^ 64 ->
  forall c, c ∈ dom (calls (st x)) ->
    (c ∈ finished (st x) \/ TRegister c ∈ threads x \/ (exists k, pending (st x) !! k = Some c) \/
     c ∈ hit x \/ collided (regs x) (st x) c) /\
    (closing (st x) || shutdown (st x) = true -> TRegister c ∉ threads x ->
     c ∈ finished (st x) \/ c ∈ hit x \/ collided (regs x) (st x) c \/ raw (st x) c).
Proof.
  intros Hr Hn c Hc. pose proof (reachable_inv x Hr Hn) as [j1 j2 j3 j4 j5 j6 j7 j8].
  split; [by apply j2|]. intros Hd Hnt. destruct (j2 c Hc) as [?|[?|[[k Hk]|[?|?]]]]; auto; [done|].
  destruct (j3 Hd k c Hk); auto.
Qed.

(** C5. A response completes the call that sent the request it answers. If a request that was
    written and a response, as the plugins leave it, carry the same number, no raw message was sent
    under that number, and a call is pending under it, then that call is the one the request was
    made for (its path, its method, its encoded arguments), and no other call and no other entry of
    [pending] is touched. The call is finished; or else decoding panicked, the call is out of
    [pending] and not finished, and the connection ends. The plugins' [BeforeEncode] hooks keep the
    number, the path, the method and the payload of a request; fewer than 2^64 calls are made. *)
Theorem response_matches_request x req res kvs c :
  hooks_keep -> reachable x -> Z.of_nat (issued x) < 2 ^ 64 ->
  let res' := seen res (st x) in
  req ∈ written (st x) -> Seq (m_header res') = Seq (m_header req) ->
  (forall c', (Seq (m_header req), c') ∈ regs x -> ~ raw (st x) c') ->
  isServerMessage res' = false -> pending (st x) !! Seq (m_header res') = Some c ->
  carries (st x) c (Seq (m_header req)) req /\
  exists s' e call,
    handleResponse Codecs Plugins ClientErrorFunc option_ kvs res (st x) = Some (s', e) /\
    calls (st x) !! c = Some call /\
    calls s' = <[c := fst (respond kvs res' call)]> (calls (st x)) /\
    pending s' = delete (Seq (m_header res')) (pending (st x)) /\
    match snd (respond kvs res' call) with
    | Ok _ => e = None /\ finished s' = finished (st x) ++ [c]
    | Er er => e = Some er /\ finished s' = finished (st x) ++ [c]
    | Panic _ => e = Some panicError /\ finished s' = finished (st x)
    end.
Proof.
  intros Hkeep Hr Hn res' Hw Hseq Hnraw Hsm Hp.
  pose proof (reachable_inv x Hr Hn) as [j1 j2 j3 j4 j5 j6 j7 j8].
  destruct (j8 req Hw) as [(c0 & H0 & Hraw)|(k & c0 & H0 & Hnr & Hca)]; [by destruct (Hnraw c0 H0)|].
  specialize (Hca Hkeep). assert (k = Seq (m_header req)) as -> by (by destruct Hca as (?&?&?&<-&_)).
  pose proof (j4 _ _ Hp) as Hrg. rewrite Hseq in Hrg.
  assert (c0 = c) as ->.
  { destruct (j6 _ _ _ H0 Hrg) as [?|[?|Hrc]]; [done|done|by destruct (Hnraw c Hrg)]. }
  split; [done|]. destruct Hca as (call & codec & Hcl & _).
  destruct (handleResponse_call kvs res (st x) c call Hsm Hp Hcl) as (s' & e & Hh & C1 & P1 & _ & _ & _ & _ & Ho).
  by exists s', e, call.
Qed.
End Steps.

(** ** A concrete client *)

Definition toy_codec : Codec bytes :=
  MkCodec (fun v => (match v with IVal b | IBytes b => b | INil => [] end, None))
    (fun d _ => (IVal d, Ok tt)).
Definition toy_codecs (t : Z) : option (Codec bytes) := if t =? MsgPack then Some toy_codec else None.
Definition toy_option : Option := MkOption MsgPack None_ false.
Definition toy_compressors : Compressors := fun _ => None.

(** A plugin that tags requests and strips the metadata of responses. *)
Definition tag (req : Message) : Message := set_meta (Some (<["trace"%string := "1"%string]> (default ∅ (Metadata req)))) req.
Definition toy_plugin : Plugin unit unit (iface bytes) (iface bytes) :=
  MkPlugin 0%nat None None None None None None (Some (fun req w => (w, (tag req, None))))
    (Some (fun res w => (w, (set_meta None res, None)))) None.
Definition toy_plugins : option (pluginContainer unit unit (iface bytes) (iface bytes)) := Some [toy_plugin].

Lemma toy_keeps : hooks_keep toy_plugins.
Proof. intros p req w w' req' e [= <-]. cbn. by intros [= <- <- <-]. Qed.

Section Demo.
Local Existing Instance toy_compressors.
Local Abbreviation tsys := (sys (W := unit) (V := bytes)).
Local Abbreviation treach := (reachable (W := unit) toy_codecs toy_plugins None toy_option).

(** One call is made, registered, encoded and written. *)
Definition demo0 : state (W := unit) (V := bytes) :=
  MkState 0 ∅ false false false ∅ ({[0%nat := CallChan 10 []]}) ∅ [] [] None tt 0.
Definition demo1 := Go_ 7 "Arith" "Mul" None (IVal [1; 2]) (IVal []) (Some 0%nat) demo0.
Definition demo2 := fst (send_register toy_codecs toy_option 7 demo1).
Definition demo3 := fst (send_encode toy_codecs toy_plugins toy_option 7 0 demo2).
Definition demo_req := tag (build_request toy_option
  (MkCall "Arith" "Mul" None None (IVal [1; 2]) (IVal []) None (Some 0%nat) false) 0 [1; 2]).
Definition demo4 := send_write 0 demo_req None demo3.

Lemma demo_reach : treach (Sys demo4 [] Reading 1 [(0, 7%nat)] []).
Proof.
  eapply reach_step.
  2:{ apply (step_write _ _ _ _ (Sys demo3 [TWrite 7 0 demo_req] Reading 1 [(0, 7%nat)] []) [] [] 7 0 demo_req None).
      reflexivity. }
  eapply reach_step.
  2:{ apply (step_encode _ _ _ _ (Sys demo2 [TEncode 7 0] Reading 1 [(0, 7%nat)] []) [] [] 7 0 demo3 (Some demo_req));
      reflexivity. }
  eapply reach_step.
  2:{ apply (step_register _ _ _ _ (Sys demo1 [TRegister 7] Reading 1 [] []) [] [] 7 demo2 (Some 0));
      reflexivity. }
  eapply reach_step; [apply (reach_init _ _ _ _ tt {[0%nat := CallChan 10 []]})|].
  by apply step_go.
Qed.

(** A raw message with the number of the pending call, and then [Close]: call 7 is lost. *)
Definition clash : Message := MkMessage (SetSeq 0 (SetMessageType Request newHeader)) "Arith" "Mul" None [3] nil_slice.
Definition demo_raw := raw_register 8 1 None clash (with_done (<[1%nat := CallChan 10 []]> (chans demo4)) (finished demo4) demo4).
Definition demo5 := fst (Close toy_plugins [8%nat] None (fst demo_raw)).
Definition lost_x : tsys := Sys demo5 [TRaw 8 1 (snd demo_raw)] Reading 1 [(0, 7%nat); (0, 8%nat)] [].

Lemma no_call_lost_witness :
  finished (st lost_x) = [8%nat] /\ (closing (st lost_x) || shutdown (st lost_x)) = true /\
  (7%nat ∈ finished (st lost_x) \/ 7%nat ∈ hit lost_x \/ collided (regs lost_x) (st lost_x) 7 \/ raw (st lost_x) 7).
Proof.
  split; [vm_compute; reflexivity|]. split; [vm_compute; reflexivity|].
  assert (treach lost_x) as Hr; [|assert (7%nat ∈ dom (calls (st lost_x))) as Hd;
    [apply elem_of_dom; eexists; vm_compute; reflexivity|]].
  2:{ apply (no_call_lost toy_codecs toy_plugins None toy_option lost_x Hr eq_refl 7%nat Hd);
        [vm_compute; reflexivity|]. intros H. apply list_elem_of_singleton in H. discriminate. }
  eapply reach_step.
  2:{ apply (step_close _ _ _ _ (Sys (fst demo_raw) [TRaw 8 1 (snd demo_raw)] Reading 1 [(0, 7%nat); (0, 8%nat)] [])
        [8%nat] None). unfold pending_enum. vm_compute. reflexivity. }
  eapply reach_step; [exact demo_reach|].
  apply (step_raw _ _ _ _ (Sys demo4 [] Reading 1 [(0, 7%nat)] []) 8 1 None clash);
    [reflexivity|reflexivity|reflexivity].
Defined.

Definition demo_res : Message :=
  MkMessage (SetSerializeType MsgPack (SetSeq 0 (SetMessageType Response newHeader))) "" "" None
    [2] nil_slice.

Lemma response_matches_request_witness :
  carries toy_codecs toy_option demo4 7 (Seq (m_header demo_req)) demo_req /\
  exists s' e call,
    handleResponse toy_codecs toy_plugins None toy_option [] demo_res demo4 = Some (s', e) /\
    calls demo4 !! 7%nat = Some call /\
    calls s' = <[7%nat := fst (respond toy_codecs None [] demo_res call)]> (calls demo4) /\
    pending s' = delete (Seq (m_header demo_res)) (pending demo4) /\
    match snd (respond toy_codecs None [] demo_res call) with
    | Ok _ => e = None /\ finished s' = finished demo4 ++ [7%nat]
    | Er er => e = Some er /\ finished s' = finished demo4 ++ [7%nat]
    | Panic _ => e = Some panicError /\ finished s' = finished demo4
    end.
Proof.
  apply (response_matches_request toy_codecs toy_plugins None toy_option
           (Sys demo4 [] Reading 1 [(0, 7%nat)] []) demo_req demo_res []);
    [exact toy_keeps|exact demo_reach|vm_compute; reflexivity| |vm_compute; reflexivity| |vm_compute; reflexivity
    |vm_compute; reflexivity].
  - cbn [st]. apply list_elem_of_singleton. vm_compute. reflexivity.
  - intros c' Hc'. apply list_elem_of_singleton in Hc'. injection Hc' as ->.
    intros (call & Hcl & Hraw). vm_compute in Hcl. injection Hcl as <-. discriminate Hraw.
Defined.
End Demo.

(** ** Raw messages *)

Lemma urlencode_fold kvs buf :
  foldl (fun buf kv => buf ++ pair_bytes kv ++ [38]) buf kvs =
  buf ++ match kvs with [] => [] | _ => join_pairs kvs ++ [38] end.
Proof.
  revert buf. induction kvs as [|kv kvs IH]; intros buf; cbn; [by rewrite app_nil_r|].
  rewrite IH. destruct kvs; cbn; rewrite <- ?app_assoc; cbn; by rewrite ?app_nil_r, <- ?app_assoc.
Qed.

(** The metadata of a raw response, printed by [urlencode] in whatever order the map is
    iterated, is read back as the same map. *)
Theorem urlencode_roundtrip kvs (m : gmap string string) :
  kvs ≡ₚ map_to_list m -> ConvertMeta2Map (urlencode kvs) = m.
Proof.
  intros Hk.
  assert (NoDup kvs.*1) as Hnd by (rewrite Hk; apply NoDup_fst_map_to_list).
  assert (urlencode kvs = bytes_string (join_pairs kvs)) as ->.
  { destruct kvs as [|kv kvs]; [done|]. unfold urlencode. rewrite urlencode_fold.
    cbn [app]. rewrite length_app. cbn [length].
    replace (length (join_pairs (kv :: kvs)) + 1 - 1)%nat with (length (join_pairs (kv :: kvs)))
      by lia. by rewrite take_app_length. }
  rewrite ConvertMeta2Map_join by done.
  rewrite (list_to_map_proper kvs (map_to_list m) Hnd Hk). apply list_to_map_to_list.
Qed.

Lemma urlencode_roundtrip_witness :
  ConvertMeta2Map (urlencode [("k", "a&b=c")]%string) = {[ "k"%string := "a&b=c"%string ]}.
Proof. apply urlencode_roundtrip. vm_compute. reflexivity. Defined.

Section More.
Context {W V : Type}.
Context {compressors : Compressors}.
Context (Codecs : Z -> option (Codec V)).
Context (ClientErrorFunc : option (Message -> string -> error)).
Context (option_ : Option).
Local Abbreviation state := (state (W := W) (V := V)).

(** A raw call that is answered by an error response without metadata is never
    completed: the handler takes it out of [pending], panics on its nil error before it
    signals the caller, and turns the panic into the error that ends the connection; the
    calls that are then completed are the ones left in [pending]. *)
Theorem raw_error_never_completed (s : state) kvs res c call :
  isServerMessage res = false -> MessageStatusType (m_header res) = StatusError ->
  default ∅ (Metadata res) = ∅ ->
  pending s !! Seq (m_header res) = Some c ->
  (forall k, k <> Seq (m_header res) -> pending s !! k <> Some c) ->
  calls s !! c = Some call -> c_Raw call = true -> c_Error call = None -> c ∉ finished s ->
  exists s',
    handleResponse Codecs None ClientErrorFunc option_ kvs res s = Some (s', Some panicError) /\
    forall addr cs s'', pending_enum cs s' -> input_end None option_ addr cs panicError s' = Some s'' ->
      c ∉ finished s'' /\ forall k, pending s'' !! k <> Some c.
Proof.
  intros Hsm Hst Hmd Hp Huniq Hcl Hraw Herr Hnf. unfold handleResponse. rewrite Hsm.
  unfold take_pending. rewrite Hp.
  change (calls (with_pending _ s)) with (calls s). rewrite Hcl, Hst. cbn [Z.eqb StatusError].
  unfold error_response, has_meta. rewrite Hmd, bool_decide_eq_false_2 by auto.
  rewrite Hraw. destruct (convertRes2Raw kvs res) as [m payload]. cbn [c_Error set_reply set_callmeta].
  rewrite Herr. eexists. split; [reflexivity|]. set (s' := with_calls _ _).
  intros addr cs s'' Hcs Hend.
  assert (forall k, pending s' !! k <> Some c) as Hnp.
  { intros k. unfold s'. cbn. rewrite lookup_delete_Some. intros [Hne Hk].
    by eapply Huniq. }
  assert (c ∉ cs) as Hncs.
  { intros Hin. rewrite Hcs in Hin. apply list_elem_of_fmap in Hin as ([k c'] & -> & Hin).
    apply elem_of_map_to_list in Hin. by eapply Hnp. }
  apply input_end_inv in Hend as (s2 & f & _ & _ & P2 & F2 & ->).
  destruct (finish_all_evolves nobody f cs (with_flags (closing s2) true (pluginClosed s2) s2)) as (_ & P3 & F3 & _).
  rewrite P3, F3. cbn [with_flags pending finished]. rewrite P2, F2.
  split; [|done]. rewrite not_elem_of_app. split; [exact Hnf|done].
Qed.

(** A caller whose context ends before its goroutine has registered the call cancels
    somebody else: its counter is still 0, so the call pending under number 0 is taken out
    and completed with the error of the wrong context. *)
Theorem cancel_hits_first_call (s : state) c c' call e :
  seqptr s !! c = None -> pending s !! 0 = Some c' -> calls s !! c' = Some call ->
  let s' := cancel c e s in
  pending s' = delete 0 (pending s) /\ finished s' = finished s ++ [c'] /\
  calls s' !! c' = Some (set_error (Some e) call).
Proof.
  intros Hq Hp Hc. unfold cancel, take_pending. rewrite Hq. cbn [default]. rewrite Hp.
  rewrite finish_pending, finish_finished. split_and!; [done|done|].
  unfold finish. match goal with |- context [done c' ?s1] =>
    destruct (done_fields c' s1) as (_ & _ & _ & _ & -> & _) end.
  cbn. by rewrite lookup_alter_eq, Hc.
Qed.

(** The answer to a raw message comes without its metadata: whatever the response
    carries, what [SendRaw] returns beside the payload is the nil map. *)
Theorem raw_metadata_dropped kvs res (call : Call V) :
  c_Raw call = true -> c_ResMetadata call = None -> c_Error call = None ->
  raw_result (fst (normal_response Codecs kvs res call)) = (None, Some (Payload res), None).
Proof.
  intros Hr Hm He. unfold normal_response, raw_result. rewrite Hr.
  unfold convertRes2Raw. cbn. by rewrite Hm, He.
Qed.

(** ** Messages of the server *)

(** The reader hands over a series of messages. *)
Definition receive_all (ms : list (list (string * string) * Message)) (s : state) :
    option (state * option error) :=
  foldl (fun o m =>
    match o with
    | Some (s, None) => handleResponse Codecs None ClientErrorFunc option_ m.1 m.2 s
    | o => o
    end) (Some (s, None)) ms.

(** Messages the server pushes reach the application in the order they arrived: the
    channel holds what it held before followed by the messages, up to its capacity; the
    messages that do not fit are dropped, none is reordered, and no call is affected. *)
Theorem pushes_in_order (s : state) cap q ms :
  o_BidirectionalBlock option_ = false ->
  ServerMessageChan s = Some (MsgChan cap false q) -> (length q <= cap)%nat ->
  Forall (fun m => isServerMessage m.2 = true) ms ->
  exists s', receive_all ms s = Some (s', None) /\
    ServerMessageChan s' = Some (MsgChan cap false (take cap (q ++ ms.*2))) /\
    pending s' = pending s /\ calls s' = calls s /\ finished s' = finished s.
Proof.
  intros Hb Hch Hcap Hms. revert s q Hch Hcap.
  induction Hms as [|[kvs m] ms Hm _ IH]; intros s q Hch Hcap.
  { exists s. unfold receive_all. cbn. rewrite app_nil_r, take_ge by done. done. }
  cbn [snd] in Hm. unfold receive_all. cbn [foldl fst snd].
  unfold handleResponse at 2. rewrite Hm, Hch. unfold handleServerRequest. rewrite Hch.
  destruct (decide (length q < cap)%nat) as [Hlt|Hge].
  - cbn [mbind option_bind].
    destruct (IH (with_chan (Some (MsgChan cap false (q ++ [m]))) s) (q ++ [m]))
      as (s' & Hr & Hc' & Hrest); [done|rewrite length_app; cbn; lia|].
    exists s'. split; [exact Hr|]. rewrite Hc'. cbn. rewrite <- app_assoc. done.
  - rewrite Hb. cbn [mbind option_bind].
    destruct (IH s q Hch Hcap) as (s' & Hr & Hc' & Hrest).
    exists s'. split; [exact Hr|]. rewrite Hc'. cbn.
    rewrite !take_app_le by lia. done.
Qed.
End More.

Section MoreDemo.
Local Existing Instance toy_compressors.

Definition raw_call : Call bytes := MkCall "Arith" "Mul" None None INil INil None (Some 0%nat) true.
Definition raw_state : state (W := unit) (V := bytes) :=
  MkState 0 ({[3 := 5%nat]}) false false false ({[5%nat := raw_call]}) ∅ ∅ [] [] None tt 0.
Definition raw_err : Message :=
  MkMessage (SetMessageStatusType StatusError (SetSeq 3 (SetMessageType Response newHeader)))
    "" "" None [] nil_slice.

Lemma raw_error_never_completed_witness :
  exists s',
    handleResponse toy_codecs None None toy_option [] raw_err raw_state = Some (s', Some panicError) /\
    forall addr cs s'', pending_enum cs s' ->
      input_end None toy_option addr cs panicError s' = Some s'' ->
      5%nat ∉ finished s'' /\ forall k, pending s'' !! k <> Some 5%nat.
Proof.
  apply (raw_error_never_completed toy_codecs None toy_option raw_state [] raw_err 5 raw_call);
    [reflexivity|reflexivity|reflexivity|reflexivity| |reflexivity|reflexivity|reflexivity|].
  - intros k Hk. cbn. rewrite lookup_singleton_ne; [discriminate|]. intros <-. by apply Hk.
  - apply not_elem_of_nil.
Defined.

Definition first_state : state (W := unit) (V := bytes) :=
  MkState 1 ({[0 := 4%nat]}) false false false
    ({[4%nat := MkCall "Poll" "Wait" None None (IVal []) (IVal []) None (Some 0%nat) false;
       5%nat := MkCall "Arith" "Mul" None None (IVal []) (IVal []) None (Some 1%nat) false]})
    ∅ ({[4%nat := 0]}) [] [] None tt 0.

Lemma cancel_hits_first_call_witness :
  let s' := cancel 5 DeadlineExceeded first_state in
  pending s' = delete 0 (pending first_state) /\
  finished s' = finished first_state ++ [4%nat] /\
  calls s' !! 4%nat = Some (set_error (Some DeadlineExceeded)
    (MkCall "Poll" "Wait" None None (IVal []) (IVal []) None (Some 0%nat) false)).
Proof. apply cancel_hits_first_call; vm_compute; reflexivity. Defined.

Lemma raw_metadata_dropped_witness :
  raw_result (fst (normal_response toy_codecs []
    (MkMessage newHeader "" "" (Some {["k"%string := "v"%string]}) [9] nil_slice) raw_call))
  = (None, Some [9], None).
Proof.
  apply (raw_metadata_dropped toy_codecs []
    (MkMessage newHeader "" "" (Some {["k"%string := "v"%string]}) [9] nil_slice) raw_call);
    reflexivity.
Defined.

Definition push (b : Z) : Message :=
  MkMessage (SetOneway true newHeader) "" "" None [b] nil_slice.
Definition push_state : state (W := unit) (V := bytes) :=
  MkState 0 ∅ false false false ∅ ∅ ∅ [] [] (Some (MsgChan 2 false [])) tt 0.

Lemma pushes_in_order_witness :
  exists s', receive_all toy_codecs None toy_option [([], push 1); ([], push 2); ([], push 3)] push_state
    = Some (s', None) /\
    ServerMessageChan s' = Some (MsgChan 2 false
      (take 2 ([] ++ ([([], push 1); ([], push 2); ([], push 3)] : list (list (string * string) * Message)).*2))) /\
    pending s' = pending push_state /\ calls s' = calls push_state /\
    finished s' = finished push_state.
Proof.
  apply pushes_in_order; [reflexivity|reflexivity|cbn; lia|].
  repeat constructor; vm_compute; reflexivity.
Defined.
End MoreDemo.
