(* ===== verification/ServerPlugins.v ===== *)
(** The plugin container of the server (server/plugin.go).

    A hook that is given a pointer to a message may change the message: it returns the new
    one. [C] is [net.Conn], [A] an argument or a reply. A [PostWriteResponse] hook may panic, as
    the one of serverplugin/metrics.go does; the others return. *)

From S2P Require Import Prelude Header Message Hooks Share.

Section Container.
Context {W C A : Type}.

Record Plugin := MkPlugin {
  pl_id : nat;
  Register : option (string -> string -> W -> W * option error);
  Unregister : option (string -> W -> W * option error);
  RegisterFunction : option (string -> string -> string -> W -> W * option error);
  HandleConnAccept : option (C -> W -> W * (C * bool));
  HandleConnClose : option (C -> W -> W * bool);
  PreReadRequest : option (W -> W * option error);
  PostReadRequest : option (option error -> Message -> W -> W * (Message * option error));
  PreHandleRequest : option (Message -> W -> W * (Message * option error));
  PreCall : option (string -> string -> A -> W -> W * (A * option error));
  PostCall : option (string -> string -> A -> option error -> A -> W -> W * (A * option error));
  PreWriteResponse : option (Message -> option error -> option Message -> W ->
                             W * (option Message * option error));
  PostWriteResponse : option (Message -> Message -> option error -> W -> W * res unit);
  PreWriteRequest : option (W -> W * option error);
  PostWriteRequest : option (Message -> option error -> W -> W * option error);
  HeartbeatRequest : option (Message -> W -> W * (Message * option error));
}.

Local Abbreviation pluginContainer := (list Plugin).

Definition Add (plugin : Plugin) (p : pluginContainer) : pluginContainer := p ++ [plugin].

Definition Remove (plugin : Plugin) (p : pluginContainer) : pluginContainer :=
  filter (fun pp => pl_id pp <> pl_id plugin) p.

Definition multi (es : list error) : option error :=
  match es with [] => None | _ => Some (MultiError (NewMultiError es)) end.

Definition DoRegister (p : pluginContainer) (name metadata : string) (w : W) : W * option error :=
  let '(w, es) := collect_errors ((fun pl => (fun h => h name metadata) <$> Register pl) <$> p) w in
  (w, multi es).

Definition DoRegisterFunction (p : pluginContainer) (serviceName fname metadata : string) (w : W) :
    W * option error :=
  let '(w, es) :=
    collect_errors ((fun pl => (fun h => h serviceName fname metadata) <$> RegisterFunction pl) <$> p) w in
  (w, multi es).

Definition DoUnregister (p : pluginContainer) (name : string) (w : W) : W * option error :=
  let '(w, es) := collect_errors ((fun pl => (fun h => h name) <$> Unregister pl) <$> p) w in
  (w, multi es).

(** The connection is closed when a plugin refuses it: the last component says so. *)
Fixpoint DoPostConnAccept (p : pluginContainer) (conn : C) (w : W) : W * (C * bool) :=
  match p with
  | [] => (w, (conn, true))
  | pl :: r =>
      match HandleConnAccept pl with
      | None => DoPostConnAccept r conn w
      | Some h =>
          let '(w, (conn, flag)) := h conn w in
          if negb flag then (w, (conn, false)) else DoPostConnAccept r conn w
      end
  end.

Fixpoint DoPostConnClose (p : pluginContainer) (conn : C) (w : W) : W * bool :=
  match p with
  | [] => (w, true)
  | pl :: r =>
      match HandleConnClose pl with
      | None => DoPostConnClose r conn w
      | Some h =>
          let '(w, flag) := h conn w in
          if negb flag then (w, false) else DoPostConnClose r conn w
      end
  end.

Definition DoPreReadRequest (p : pluginContainer) : W -> W * option error :=
  run_until_error (PreReadRequest <$> p).

Definition DoPostReadRequest (p : pluginContainer) (r : Message) (e : option error) :
    W -> W * (Message * option error) :=
  thread_until_error ((fun pl => (fun h => h e) <$> PostReadRequest pl) <$> p) r.

Definition DoPreHandleRequest (p : pluginContainer) (r : Message) : W -> W * (Message * option error) :=
  thread_until_error (PreHandleRequest <$> p) r.

Definition DoPreCall (p : pluginContainer) (serviceName methodName : string) (args : A) :
    W -> W * (A * option error) :=
  thread_until_error ((fun pl => (fun h => h serviceName methodName) <$> PreCall pl) <$> p) args.

Definition DoPostCall (p : pluginContainer) (serviceName methodName : string) (args reply : A)
    (err : option error) : W -> W * (A * option error) :=
  thread_until_error
    ((fun pl => (fun h => h serviceName methodName args err) <$> PostCall pl) <$> p) reply.

(** [res] is nil for a one-way request. *)
Definition DoPreWriteResponse (p : pluginContainer) (req : Message) (res : option Message)
    (err : option error) : W -> W * (option Message * option error) :=
  thread_until_error ((fun pl => (fun h => h req err) <$> PreWriteResponse pl) <$> p) res.

(** It stops at the first hook that fails or panics. *)
Fixpoint DoPostWriteResponse (p : pluginContainer) (req resp : Message) (e : option error) (w : W) :
    W * res unit :=
  match p with
  | [] => (w, Ok tt)
  | pl :: r =>
      match PostWriteResponse pl with
      | None => DoPostWriteResponse r req resp e w
      | Some h =>
          match h req resp e w with
          | (w, Ok _) => DoPostWriteResponse r req resp e w
          | (w, out) => (w, out)
          end
      end
  end.

Definition DoPreWriteRequest (p : pluginContainer) : W -> W * option error :=
  run_until_error (PreWriteRequest <$> p).

Definition DoPostWriteRequest (p : pluginContainer) (r : Message) (e : option error) :
    W -> W * option error :=
  run_until_error ((fun pl => (fun h => h r e) <$> PostWriteRequest pl) <$> p).

Definition DoHeartbeatRequest (p : pluginContainer) (r : Message) : W -> W * (Message * option error) :=
  thread_until_error (HeartbeatRequest <$> p) r.

(** A panic comes from one of the hooks. *)
Definition post_write_panics (p : pluginContainer) (why : string) : Prop :=
  exists pl h req resp e w w', pl ∈ p /\ PostWriteResponse pl = Some h /\
    h req resp e w = (w', Panic why).

Lemma DoPostWriteResponse_panics p req resp e w w' why :
  DoPostWriteResponse p req resp e w = (w', Panic why) -> post_write_panics p why.
Proof.
  revert w. induction p as [|pl p IH]; intros w; cbn [DoPostWriteResponse]; [done|].
  assert (forall w1, DoPostWriteResponse p req resp e w1 = (w', Panic why) ->
    post_write_panics (pl :: p) why) as Hr.
  { intros w1 (pl' & h & req' & resp' & e' & w2 & w3 & Hin & Hh)%IH.
    exists pl', h, req', resp', e', w2, w3. split; [by apply list_elem_of_further|done]. }
  destruct (PostWriteResponse pl) as [h|] eqn:Hh; [|apply Hr].
  destruct (h req resp e w) as [w1 [[]|er|y]] eqn:Er; [apply Hr|done|].
  intros [= -> ->]. exists pl, h, req, resp, e, w, w'. split; [apply list_elem_of_here|done].
Qed.

(** Registration reaches every plugin: all the [Register] hooks run, in order, even after
    one has failed, and the result is nil exactly when none failed. *)
Theorem DoRegister_all p name metadata w :
  let hooks := (fun pl => (fun h => h name metadata) <$> Register pl) <$> p in
  fst (DoRegister p name metadata w) = run_all hooks w /\
  (snd (DoRegister p name metadata w) = None <-> all_nil hooks w).
Proof.
  intros hooks. unfold DoRegister. fold hooks.
  pose proof (collect_errors_run hooks w) as Hr. pose proof (collect_errors_nil hooks w) as Hn.
  destruct (collect_errors hooks w) as [w' es]. cbn [fst snd] in *. split; [done|].
  rewrite <- Hn. by destruct es.
Qed.
End Container.
Arguments Plugin : clear implicits.
Abbreviation pluginContainer W C A := (list (Plugin W C A)).

(** A plugin without hooks, to build others from. *)
Definition no_hooks {W C A} (i : nat) : Plugin W C A :=
  MkPlugin i None None None None None None None None None None None None None None None.

(** [MuxMatch]: the plugins that are a [CMuxPlugin] add their matchers to the multiplexer [M], in
    order; [None] for the others. *)
Definition MuxMatch {M} (plugins : list (option (M -> M))) (m : M) : M :=
  foldl (fun m p => match p with Some f => f m | None => m end) m plugins.
