(* ===== verification/Server.v ===== *)
(** server/server.go and server/service.go: the registry of services and the handling of
    requests on a connection.

    [W] is the world that services, handlers and plugins act on, [C] a connection, [V] the
    type of arguments and replies. Go's reflection on types is data here: a receiver is the
    list of its methods with the types that [reflect] tells of each. *)

From S2P Require Import Prelude GoStd Share Header Message Hooks ServerPlugins Client.

Definition AuthKey := "__AUTH"%string.
Definition ServerTimeoutKey := "__ServerTimeout"%string.
Definition ContextKeyHash := "__hash"%string.

(** What the server asks a [reflect.Type]: a pointer to another type, or a type with a name and
    the path of its package, both empty where Go has none. [ctx] says that it implements
    [context.Context]. *)
Inductive goType := TPtr (elem : goType) (ctx : bool) | TNamed (PkgPath Name : string) (ctx : bool).
Global Instance goType_eq_dec : EqDecision goType.
Proof. solve_decision. Defined.

Definition typeOfError : goType := TNamed "" "error" false.
Definition Implements_context (t : goType) : bool := match t with TPtr _ b | TNamed _ _ b => b end.
Definition Kind_is_Ptr (t : goType) : bool := match t with TPtr _ _ => true | TNamed _ _ _ => false end.

Section Server.
Context {W C V : Type}.
Context {compressors : Compressors}.

(** ** Services *)

(** A method or function that can be called: fresh objects for its argument and reply (from
    the pools of server/pool.go), and the call itself, which sees the request's metadata,
    fills the reply, may set response metadata through the context, and may panic. [mt_trace] is
    what [fmt] prints after the value of a panic: the name of the method or function, the
    argument and the stack. *)
Record methodType := MkMethod {
  mt_trace : iface V -> string;
  mt_newArg : iface V;
  mt_newReply : iface V;
  mt_fn : meta -> iface V -> iface V -> W -> W * (iface V * meta * res (option error));
}.

(** [sv_function = None] is the nil map of a service made by [register]. *)
Record service := MkService {
  sv_name : string;
  sv_method : gmap string methodType;
  sv_function : option (gmap string methodType);
}.

(** What [reflect] says about a method, whose receiver is its first parameter, or a function. *)
Record methodInfo := MkInfo {
  mi_name : string;
  mi_PkgPath : string;
  mi_In : list goType;
  mi_Out : list goType;
  mi_method : methodType;
}.

(** A receiver: the name of its type, its methods, and those of a pointer to it. *)
Record receiver := MkReceiver {
  rc_typeName : string;
  rc_methods : list methodInfo;
  rc_ptrMethods : list methodInfo;
}.

(** [isExported]: [unicode.IsUpper] of the first rune of a name. *)
Context (isExported : string -> bool).

Fixpoint isExportedOrBuiltinType (t : goType) : bool :=
  match t with
  | TPtr t _ => isExportedOrBuiltinType t
  | TNamed PkgPath Name _ => isExported Name || bool_decide (PkgPath = ""%string)
  end.

(** The checks of [suitableMethods] on a method, in their order. *)
Definition suitable (m : methodInfo) : bool :=
  if bool_decide (mi_PkgPath m <> ""%string) then false
  else
    match mi_In m with
    | [_; ctxType; argType; replyType] =>
        if negb (Implements_context ctxType) then false
        else if negb (isExportedOrBuiltinType argType) then false
        else if negb (Kind_is_Ptr replyType) then false
        else if negb (isExportedOrBuiltinType replyType) then false
        else match mi_Out m with [returnType] => bool_decide (returnType = typeOfError) | _ => false end
    | _ => false
    end.

Definition suitableMethods (ms : list methodInfo) : gmap string methodType :=
  foldl (fun acc m => if suitable m then <[mi_name m := mi_method m]> acc else acc) ∅ ms.

(** The texts of the errors below leave out the Go type or function type they quote. *)
Definition register (rcvr : receiver) (name : string) (useName : bool)
    (serviceMap : gmap string service) : gmap string service * (string * option error) :=
  let sname := if useName then name else rc_typeName rcvr in
  if bool_decide (sname = ""%string)
  then (serviceMap, (sname, Some (errorString "rpcx.Register: no service name for type")))
  else if negb useName && negb (isExported sname)
  then (serviceMap,
        (sname, Some (errorString ("rpcx.Register: type " +:+ sname +:+ " is not exported"))))
  else
    let method := suitableMethods (rc_methods rcvr) in
    if bool_decide (method = ∅) then
      let errorStr :=
        if bool_decide (suitableMethods (rc_ptrMethods rcvr) <> ∅)
        then ("rpcx.Register: type " +:+ sname +:+ " has no exported methods of suitable type (hint: pass a pointer to value of that type)")%string
        else ("rpcx.Register: type " +:+ sname +:+ " has no exported methods of suitable type")%string in
      (serviceMap, (sname, Some (errorString errorStr)))
    else (<[sname := MkService sname method None]> serviceMap, (sname, None)).

(** The function name after the last dot. *)
Definition lastPart (fname : string) : string :=
  let l := string_bytes fname in
  match LastIndexByte 46 l with
  | Some i => bytes_string (drop (S i) l)
  | None => fname
  end.

(** [registerFunction] of a function with the runtime name [mi_name f]; [isFunc] says that the
    value is a function. Storing into the nil map of a service made by [register] panics. *)
Definition registerFunction (servicePath : string) (f : methodInfo) (isFunc : bool)
    (name : string) (useName : bool) (serviceMap : gmap string service) :
    gmap string service * res (string * option error) :=
  let ss := default (MkService servicePath ∅ (Some ∅)) (serviceMap !! servicePath) in
  let er fname text := (serviceMap, Ok (fname, Some (errorString text))) in
  if negb isFunc then er ""%string "function must be func or bound method"%string
  else
    let fname := if useName then name else lastPart (mi_name f) in
    if bool_decide (fname = ""%string) then er fname "rpcx.registerFunction: no func name for type"%string
    else
      match mi_In f, mi_Out f with
      | [ctxType; argType; replyType], [returnType] =>
          if negb (Implements_context ctxType)
          then er fname "function must use context as  the first parameter"%string
          else if negb (isExportedOrBuiltinType argType)
          then er fname "function parameter type not exported"%string
          else if negb (Kind_is_Ptr replyType) then er fname "function reply type not a pointer"%string
          else if negb (isExportedOrBuiltinType replyType)
          then er fname "function reply type not exported"%string
          else if bool_decide (returnType <> typeOfError) then er fname "function returns not error"%string
          else
            match sv_function ss with
            | None => (serviceMap, Panic "assignment to entry in nil map")
            | Some fs =>
                (<[servicePath := MkService (sv_name ss) (sv_method ss)
                                    (Some (<[fname := mi_method f]> fs))]> serviceMap,
                 Ok (fname, None))
            end
      | [_; _; _], _ => er fname "rpcx.registerFunction: has wrong number of outs"%string
      | _, _ => er fname "rpcx.registerFunction: has wrong number of ins"%string
      end.

(** ** The server *)

Record Server := MkServer {
  serviceMap : gmap string service;
  router : gmap string (Message -> W -> W * list Message);
  Codecs : Z -> option (Codec V);
  Plugins : pluginContainer W C (iface V);
  AuthFunc : option (Message -> string -> W -> W * option error);
  HandleServiceError : option (error -> W -> W);
  ServerErrorFunc : option (Message -> error -> string);
}.

Variable s : Server.

Definition handleError (res : Message) (err : error) : Message * option error :=
  let res := set_header (SetMessageStatusType StatusError (m_header res)) res in
  let md := default ∅ (Metadata res) in
  let res := set_meta (Some md) res in
  let text := match ServerErrorFunc s with
              | Some f => f res err
              | None => Error_text err
              end in
  (set_meta (Some (<[ServiceErrorKey := text]> md)) res, Some err).

(** [service.call] and [service.callForFunction]: a panic becomes an error. *)
Definition call (mt : methodType) (reqMeta : meta) (argv replyv : iface V) (w : W) :
    W * (iface V * meta * option error) :=
  match mt_fn mt reqMeta argv replyv w with
  | (w, (r, m, Ok e)) => (w, (r, m, e))
  | (w, (r, m, Er e)) => (w, (r, m, Some e))
  | (w, (r, m, Panic why)) =>
      (w, (r, m, Some (errorString ("[service internal error]: " +:+ why +:+ mt_trace mt argv))))
  end.

(** The result of a handler: the world, the response metadata that was set, and the response
    with the error, or the panic of a decoder. *)
Definition handled := (W * meta * Prelude.res (Message * option error))%type.

Definition isINil (i : iface V) : bool := match i with INil => true | _ => false end.

(** The part that [handleRequest] and [handleRequestForFunction] share: codec, arguments,
    [PreCall] hooks, the call and the [PostCall] hooks; [on_error] is what each does when the
    call or a hook failed. *)
Definition invoke (req res : Message) (mtype : methodType)
    (on_error : Codec V -> iface V -> error -> Message * option error) (w : W) : handled :=
  let serviceName := ServicePath req in
  let methodName := ServiceMethod req in
  match Codecs s (SerializeType (m_header req)) with
  | None =>
      (w, ∅, Ok (handleError res
        (errorString ("can not find codec for " +:+ FormatInt (SerializeType (m_header req))))))
  | Some codec =>
      let '(argv, out) := codec_Decode codec (Payload req) (mt_newArg mtype) in
      match out with
      | Panic why => (w, ∅, Panic why)
      | Er err => (w, ∅, Ok (handleError res err))
      | Ok _ =>
          let replyv := mt_newReply mtype in
          let '(w, (argv, err)) := DoPreCall (Plugins s) serviceName methodName argv w in
          match err with
          | Some err => (w, ∅, Ok (handleError res err))
          | None =>
              let '(w, (replyv, resMeta, err)) :=
                call mtype (default ∅ (Metadata req)) argv replyv w in
              let '(w, (replyv, err1)) :=
                DoPostCall (Plugins s) serviceName methodName argv replyv err w in
              let err := match err with None => err1 | e => e end in
              match err with
              | Some err => (w, resMeta, Ok (on_error codec replyv err))
              | None =>
                  if negb (IsOneway (m_header req)) then
                    match codec_Encode codec replyv with
                    | (_, Some err) => (w, resMeta, Ok (handleError res err))
                    | (data, None) => (w, resMeta, Ok (set_payload data res, None))
                    end
                  else (w, resMeta, Ok (res, None))
              end
          end
      end
  end.

Definition newResponse (req : Message) : Message :=
  let res := Clone req in set_header (SetMessageType Response (m_header res)) res.

(** A method that fails still sends its reply, encoded. *)
Definition method_error (res : Message) (codec : Codec V) (replyv : iface V) (err : error) :
    Message * option error :=
  if negb (isINil replyv) then
    match codec_Encode codec replyv with
    | (_, Some err) => handleError res err
    | (data, None) => handleError (set_payload data res) err
    end
  else handleError res err.

Definition handleRequestForFunction (req : Message) (w : W) : handled :=
  let res := newResponse req in
  match serviceMap s !! ServicePath req with
  | None => (w, ∅, Ok (handleError res (errorString "rpcx: can't find service  for func raw function")))
  | Some service =>
      match default ∅ (sv_function service) !! ServiceMethod req with
      | None => (w, ∅, Ok (handleError res (errorString ("rpcx: can't find method " +:+ ServiceMethod req))))
      | Some mtype => invoke req res mtype (fun _ _ err => handleError res err) w
      end
  end.

Definition handleRequest (req : Message) (w : W) : handled :=
  let res := newResponse req in
  match serviceMap s !! ServicePath req with
  | None => (w, ∅, Ok (handleError res (errorString ("rpcx: can't find service " +:+ ServicePath req))))
  | Some service =>
      match sv_method service !! ServiceMethod req with
      | None =>
          match default ∅ (sv_function service) !! ServiceMethod req with
          | Some _ => handleRequestForFunction req w
          | None =>
              (w, ∅, Ok (handleError res (errorString ("rpcx: can't find method " +:+ ServiceMethod req))))
          end
      | Some mtype => invoke req res mtype (method_error res) w
      end
  end.

(** ** Writing responses *)

(** What goes to the connection for a message: its header may have lost the compression. *)
Definition on_wire (m : Message) : Message :=
  set_header (fst (compressPayload (m_header m) (Payload m))) m.

(** [sendResponse]: the messages written, and how it ends: a [PostWriteResponse] hook may panic,
    after the write. The errors of the hooks and of the write are dropped. *)
Definition sendResponse (err : option error) (req res : Message) (w : W) :
    W * (list Message * Prelude.res unit) :=
  let res :=
    if (zlen (Payload res) >? 1024) && negb (CompressType (m_header req) =? None_)
    then set_header (SetCompressType (CompressType (m_header req)) (m_header res)) res
    else res in
  let '(w, (res', _)) := DoPreWriteResponse (Plugins s) req (Some res) err w in
  let res := on_wire (default res res') in
  let '(w, out) := DoPostWriteResponse (Plugins s) req res err w in
  (w, ([res], match out with Panic why => Panic why | _ => Ok tt end)).

Definition report (err : error) (w : W) : W :=
  match HandleServiceError s with
  | Some h => h err w
  | None => w
  end.

(** The response metadata set through the context is added to the response, but never over a
    value that is already there. *)
Definition mergeResMeta (resMeta : meta) (res : Message) : Message :=
  if bool_decide (resMeta = ∅) then res
  else
    match Metadata res with
    | None => set_meta (Some resMeta) res
    | Some md =>
        set_meta (Some (map_imap (fun k v => Some (if bool_decide (v = ""%string)
                                                   then default v (resMeta !! k) else v)) md
                        ∪ resMeta)) res
    end.

(** [processOneRequest]: the messages written to the connection. A panic is recovered and
    logged; nothing is written then. *)
Definition processOneRequest (req : Message) (w : W) : W * list Message :=
  if IsHeartbeat (m_header req) then
    let '(w, (req, _)) := DoHeartbeatRequest (Plugins s) req w in
    (w, [on_wire (set_header (SetMessageType Response (m_header req)) req)])
  else
    let req := set_meta (Some (default ∅ (Metadata req))) req in
    let '(w, (req, _)) := DoPreHandleRequest (Plugins s) req w in
    match router s !! (ServicePath req +:+ "." +:+ ServiceMethod req)%string with
    | Some handler => handler req w
    | None =>
        match handleRequest req w with
        | (w, _, Panic _) => (w, [])
        | (w, _, Er _) => (w, [])
        | (w, resMeta, Ok (res, err)) =>
            let w := match err with Some e => report e w | None => w end in
            if negb (IsOneway (m_header req))
            then let '(w, (ms, _)) := sendResponse err req (mergeResMeta resMeta res) w in (w, ms)
            else (w, [])
        end
    end.

(** [parseServerTimeout]: the deadline a request carries, in nanoseconds. *)
Definition parseServerTimeout (req : Message) : option Z :=
  match Metadata req with
  | None => None
  | Some md =>
      let st := default ""%string (md !! ServerTimeoutKey) in
      if bool_decide (st = ""%string) then None
      else match ParseInt st with
           | None => None
           | Some timeout => Some (i64 (timeout * 1000000))
           end
  end.

(** ** Connections *)

(** [readRequest], given what [Decode] fills in and returns; a nil request when a hook refuses
    to read. *)
Definition readRequest (dec : Message * option error) (w : W) :
    W * (option Message * option error) :=
  let '(w, err) := DoPreReadRequest (Plugins s) w in
  match err with
  | Some _ => (w, (None, err))
  | None =>
      let '(req, err) := dec in
      match err with
      | Some EOF => (w, (Some req, err))
      | _ =>
          let '(w, (req, perr)) := DoPostReadRequest (Plugins s) req err w in
          (w, (Some req, match err with None => perr | e => e end))
      end
  end.

Definition auth (req : Message) (w : W) : W * option error :=
  match AuthFunc s with
  | Some f => f req (default ""%string (default ∅ (Metadata req) !! AuthKey)) w
  | None => (w, None)
  end.

(** What a round of the loop of [serveConn] does: a message it writes, or a request it hands
    to a goroutine. *)
Inductive effect := Wrote (m : Message) | Spawned (req : Message).

Inductive next_round := Again | Return | PanicRecovered.

(** The answer to a request that is refused before it is handled. *)
Definition refuse (req : Message) (err : error) (w : W) : W * (list effect * Prelude.res unit) :=
  if negb (IsOneway (m_header req)) then
    let '(res, _) := handleError (newResponse req) err in
    let '(w, (ms, out)) := sendResponse (Some err) req res w in
    (w, (Wrote <$> ms, out))
  else
    let '(w, _) := DoPreWriteResponse (Plugins s) req None (Some err) w in
    (w, ([], Ok tt)).

Definition serveRound (dec : Message * option error) (w : W) : W * list effect * next_round :=
  let '(w, (req, err)) := readRequest dec w in
  match err with
  | Some ErrReqReachLimit =>
      match req with
      | None => (w, [], PanicRecovered)
      | Some req =>
          let '(w, (es, out)) := refuse req ErrReqReachLimit w in
          (w, es, match out with Panic _ => PanicRecovered | _ => Again end)
      end
  | Some err => (report err w, [], Return)
  | None =>
      match req with
      | None => (w, [], Return)
      | Some req =>
          let '(w, err) := if negb (IsHeartbeat (m_header req)) then auth req w else (w, None) in
          match err with
          | Some err =>
              let '(w, (es, out)) := refuse req err w in
              match out with
              | Panic _ => (w, es, PanicRecovered)
              | _ => (report err w, es, Return)
              end
          | None => (w, [Spawned req], Again)
          end
      end
  end.

(** The loop of [serveConn] over what [Decode] returns, one entry per read; [down] says when
    the server is seen to be shutting down, before each read. *)
Fixpoint serveConn (incoming : list (Message * option error)) (down : list bool) (w : W) :
    W * list effect :=
  match incoming with
  | [] => (w, [])
  | dec :: rest =>
      if head down is Some true then (w, [])
      else
        match serveRound dec w with
        | (w, es, Again) =>
            let '(w, es') := serveConn rest (tail down) w in (w, es ++ es')
        | (w, es, _) => (w, es)
        end
  end.

(** [SendMessage]: the request pushed to a client; [seq] is the server's counter. *)
Definition SendMessage (seq : Z) (sp sm : string) (md : option meta) (data : bytes)
    (werr : option error) (w : W) : W * (Z * Message * option error) :=
  let '(w, _) := DoPreWriteRequest (Plugins s) w in
  let seq := u64 (seq + 1) in
  let h := SetSerializeType SerializeNone
             (SetOneway true (SetSeq seq (SetMessageType Request newHeader))) in
  let req := MkMessage h sp sm md data nil_slice in
  let '(w, _) := DoPostWriteRequest (Plugins s) req werr w in
  (w, (seq, req, werr)).
End Server.
