(* ===== verification/ObjectPool.v ===== *)
(** server/pool.go: the pools of argument and reply objects, and the way handleRequest and
    handleRequestForFunction (server/server.go) use them.

    Objects live in a heap; a pool holds references to them, and so do the requests that run, and
    so may a reply: a method can leave a pointer to its argument in it, and the argument is reset
    and pooled before the reply is encoded.
    Which pooled object [sync.Pool] hands out, and when it makes a new one, is up to the
    runtime. Requests run in goroutines of their own, so their steps interleave: the theorem of
    this file says that, whatever the interleaving and the choices of the runtime, the server
    with pools does what [Server.invoke] does, which gives every request fresh objects.

    The reply that a codec encodes is a copy. (ByteCodec returns the bytes of the reply object
    itself, but only for a reply of type pointer to []byte, which has no Reset method and is
    never pooled.) *)

From S2P Require Import Prelude GoStd Share Header Message Hooks ServerPlugins Client Server.

(** ** Types and the table of pools *)

(** A [reflect.Type] as the pools see it: [rt_ptr] for the kind [reflect.Ptr], with the name of
    the type it points to; otherwise the name of the type itself. *)
Record rtype := RType { rt_ptr : bool; rt_elem : string }.

Global Instance rtype_eq_dec : EqDecision rtype.
Proof. solve_decision. Defined.
Global Instance iface_eq_dec {V} `{EqDecision V} : EqDecision (iface V).
Proof. solve_decision. Defined.

Section Pools.
Context {V : Type}.

(** Go's types as parameters: the zero value of a named type, and the [Reset] method of the
    pointers to it, if they have one. *)
Context (zeroValue : string -> iface V).
Context (resetMethod : string -> option (iface V -> iface V)).

Definition loc := nat.

(** The value of an [interface{}] that holds an object: nil, or a pointer. *)
Definition ref := option loc.

(** The heap, and [reflectTypePools]: the keys of its map, and the pooled objects, each with
    the key of its pool. [holds] has the objects that hold a pointer to another one, with what
    they come to, given the value of the other. *)
Record typePools := MkTypePools {
  heap : list (iface V);
  tp_keys : list rtype;
  tp_free : list (rtype * loc);
  holds : gmap loc (loc * (iface V -> iface V));
}.

(** The value of an object, pointers followed. *)
Definition read (st : typePools) (r : ref) : iface V :=
  match r with
  | Some l =>
      match holds st !! l with
      | Some (l', f) => f (default INil (heap st !! l'))
      | None => default INil (heap st !! l)
      end
  | None => INil
  end.

Definition alloc (v : iface V) (st : typePools) : typePools * loc :=
  (MkTypePools (heap st ++ [v]) (tp_keys st) (tp_free st) (holds st), length (heap st)).

Definition write (l : loc) (v : iface V) (st : typePools) : typePools :=
  MkTypePools (<[l := v]> (heap st)) (tp_keys st) (tp_free st) (delete l (holds st)).

(** Object [l] now holds a pointer to object [l']. *)
Definition point (l l' : loc) (f : iface V -> iface V) (st : typePools) : typePools :=
  MkTypePools (heap st) (tp_keys st) (tp_free st) (<[l := (l', f)]> (holds st)).

(** [reflectTypePools.New]: both for a pointer type and for the type it points to, a pointer to
    a new zero value. *)
Definition typePools_New (t : rtype) : Go typePools loc := fun st =>
  let '(st, l) := alloc (zeroValue (rt_elem t)) st in (st, Ok l).

(** [Init] makes a new, empty pool; the objects of an earlier one of the type are dropped. *)
Definition typePools_Init (t : rtype) (st : typePools) : typePools :=
  MkTypePools (heap st) (t :: tp_keys st) (filter (fun e => e.1 <> t) (tp_free st)) (holds st).

(** [Get]: the entry [pick] of the pool, or a new object; a type without a pool is a nil
    pointer. *)
Definition typePools_Get (pick : option nat) (t : rtype) : Go typePools loc := fun st =>
  if bool_decide (t ∈ tp_keys st) then
    match pick ≫= (fun i => (fun e => (i, e)) <$> tp_free st !! i) with
    | Some (i, (t', l)) =>
        if bool_decide (t' = t)
        then (MkTypePools (heap st) (tp_keys st) (delete i (tp_free st)) (holds st), Ok l)
        else typePools_New t st
    | None => typePools_New t st
    end
  else (st, Panic "invalid memory address or nil pointer dereference").

(** [Put]: only what has a [Reset] method is kept, after it was reset. *)
Definition typePools_Put (t : rtype) (x : ref) : Go typePools unit := fun st =>
  match x with
  | None => (st, Ok tt)
  | Some l =>
      match resetMethod (rt_elem t) with
      | None => (st, Ok tt)
      | Some reset =>
          let st := write l (reset (read st x)) st in
          if bool_decide (t ∈ tp_keys st)
          then (MkTypePools (heap st) (tp_keys st) ((t, l) :: tp_free st) (holds st), Ok tt)
          else (st, Panic "invalid memory address or nil pointer dereference")
      end
  end.
End Pools.

(** ** A request, one step at a time

    The phases of the part that both handlers share, from the first [Get] to the return; [R] is
    what stands for an object: a reference in the server, its value in the specification. *)

Section Requests.
Context {W C V : Type} `{EqDecision V}.
Context {compressors : Compressors}.
Context (zeroValue : string -> iface V).
Context (resetMethod : string -> option (iface V -> iface V)).
Context (s : Server (W := W) (C := C) (V := V)).

Inductive phase (R : Type) :=
  | PGetArg
  | PDecode (arg : R)
  | PGetReply (arg : R)
  | PPreCall (arg reply : R)
  | PCall (arg reply : R)
  | PPostCall (arg reply : R) (resMeta : meta) (err : option error)
  | PPutArg (arg reply : R) (resMeta : meta) (err : option error)
  | PEncode (reply : R) (resMeta : meta) (err : option error)
  | PPutReply (reply : R) (resMeta : meta) (out : Message * option error)
  | PDone (resMeta : meta) (out : res (Message * option error)).
Arguments PGetArg {R}.
Arguments PDecode {R} arg.
Arguments PGetReply {R} arg.
Arguments PPreCall {R} arg reply.
Arguments PCall {R} arg reply.
Arguments PPostCall {R} arg reply resMeta err.
Arguments PPutArg {R} arg reply resMeta err.
Arguments PEncode {R} reply resMeta err.
Arguments PPutReply {R} reply resMeta out.
Arguments PDone {R} resMeta out.

(** A request that was found a method ([j_function = false]) or a function. *)
Record job := MkJob {
  j_req : Message;
  j_mtype : methodType (W := W) (V := V);
  j_ArgType : rtype;
  j_ReplyType : rtype;
  j_function : bool;
}.

(** What the runtime, the hooks and the method decide in a step: the pooled object that [Get]
    returns, whether a hook hands back another object than the one it was given, and whether the
    method leaves a pointer to its argument in its reply, which then comes to a function of it. *)
Record choice := MkChoice {
  c_pick : option nat; c_replace : bool; c_keep : option (iface V -> iface V);
}.

Definition failed (res : Message) (err : error) : Prelude.res (Message * option error) :=
  Ok (handleError s res err).

(** What is sent when the call or a hook failed, and when both went well. *)
Definition j_on_error (j : job) (codec : Codec V) (replyv : iface V) (err : error) :
    Message * option error :=
  let res := newResponse (j_req j) in
  if j_function j then handleError s res err else method_error s res codec replyv err.

Definition j_on_success (j : job) (codec : Codec V) (replyv : iface V) :
    Message * option error :=
  let res := newResponse (j_req j) in
  if negb (IsOneway (m_header (j_req j))) then
    match codec_Encode codec replyv with
    | (_, Some err) => handleError s res err
    | (data, None) => (set_payload data res, None)
    end
  else (res, None).

Definition j_codec (j : job) : option (Codec V) := Codecs s (SerializeType (m_header (j_req j))).

Definition no_codec (j : job) : Prelude.res (Message * option error) :=
  failed (newResponse (j_req j))
    (errorString ("can not find codec for " +:+ FormatInt (SerializeType (m_header (j_req j))))).

(** The object that an [interface{}] variable holds after a call that returned, or left behind,
    the value [v]: the same object, or another one. *)
Definition assign (replace : bool) (r : ref) (v : iface V) (st : typePools (V := V)) :
    typePools (V := V) * ref :=
  match v, r, replace with
  | INil, _, _ => (st, None)
  | _, Some l, false => (if decide (read st r = v) then st else write l v st, r)
  | _, _, _ => let '(st, l) := alloc v st in (st, Some l)
  end.

(** The reply after a method that left [v] in it: it may hold the argument. *)
Definition assign_reply (keep : option (iface V -> iface V)) (argv replyv : ref) (v : iface V)
    (st : typePools (V := V)) : typePools (V := V) * ref :=
  match keep, argv, replyv with
  | Some f, Some a, Some l =>
      if decide (f (read st argv) = v) then (point l a f st, replyv) else assign false replyv v st
  | _, _, _ => assign false replyv v st
  end.

(** A panic that nothing below recovers ends the request. *)
Definition or_panic {A} (x : typePools (V := V) * Prelude.res A) (w : W)
    (k : A -> typePools (V := V) -> typePools (V := V) * W * phase ref) :
    typePools (V := V) * W * phase ref :=
  match x with
  | (st, Ok a) => k a st
  | (st, Er e) => (st, w, PDone ∅ (Er e))
  | (st, Panic why) => (st, w, PDone ∅ (Panic why))
  end.

Definition hstep (j : job) (ch : choice) (ph : phase ref) (st : typePools (V := V)) (w : W) :
    typePools (V := V) * W * phase ref :=
  let req := j_req j in
  let res := newResponse req in
  let sp := ServicePath req in
  let sm := ServiceMethod req in
  match ph with
  | PGetArg =>
      or_panic (typePools_Get zeroValue (c_pick ch) (j_ArgType j) st) w
        (fun l st => (st, w, PDecode (Some l)))
  | PDecode argv =>
      match j_codec j with
      | None => (st, w, PDone ∅ (no_codec j))
      | Some codec =>
          let '(v, out) := codec_Decode codec (Payload req) (read st argv) in
          let '(st, argv) := assign false argv v st in
          match out with
          | Panic why => (st, w, PDone ∅ (Panic why))
          | Er err => (st, w, PDone ∅ (failed res err))
          | Ok _ => (st, w, PGetReply argv)
          end
      end
  | PGetReply argv =>
      or_panic (typePools_Get zeroValue (c_pick ch) (j_ReplyType j) st) w
        (fun l st => (st, w, PPreCall argv (Some l)))
  | PPreCall argv replyv =>
      let '(w, (v, err)) := DoPreCall (Plugins s) sp sm (read st argv) w in
      let '(st, argv) := assign (c_replace ch) argv v st in
      match err with
      | Some err => (st, w, PPutReply replyv ∅ (handleError s res err))
      | None => (st, w, PCall argv replyv)
      end
  | PCall argv replyv =>
      let '(w, (v, resMeta, err)) :=
        call (j_mtype j) (default ∅ (Metadata req)) (read st argv) (read st replyv) w in
      let '(st, replyv) := assign_reply (c_keep ch) argv replyv v st in
      (st, w, PPostCall argv replyv resMeta err)
  | PPostCall argv replyv resMeta err =>
      let '(w, (v, err1)) :=
        DoPostCall (Plugins s) sp sm (read st argv) (read st replyv) err w in
      let '(st, replyv) := assign (c_replace ch) replyv v st in
      (st, w, PPutArg argv replyv resMeta (match err with None => err1 | e => e end))
  | PPutArg argv replyv resMeta err =>
      or_panic (typePools_Put resetMethod (j_ArgType j) argv st) w
        (fun _ st => (st, w, PEncode replyv resMeta err))
  | PEncode replyv resMeta err =>
      match j_codec j with
      | None => (st, w, PDone ∅ (no_codec j))
      | Some codec =>
          let out := match err with
                     | Some err => j_on_error j codec (read st replyv) err
                     | None => j_on_success j codec (read st replyv)
                     end in
          (st, w, PPutReply replyv resMeta out)
      end
  | PPutReply replyv resMeta out =>
      or_panic (typePools_Put resetMethod (j_ReplyType j) replyv st) w
        (fun _ st => (st, w, PDone resMeta (Ok out)))
  | PDone resMeta out => (st, w, ph)
  end.

(** ** The specification: the same steps with a fresh object for every request *)

Definition fstep (j : job) (ph : phase (iface V)) (w : W) : W * phase (iface V) :=
  let req := j_req j in
  let res := newResponse req in
  let sp := ServicePath req in
  let sm := ServiceMethod req in
  match ph with
  | PGetArg => (w, PDecode (mt_newArg (j_mtype j)))
  | PDecode argv =>
      match j_codec j with
      | None => (w, PDone ∅ (no_codec j))
      | Some codec =>
          let '(v, out) := codec_Decode codec (Payload req) argv in
          match out with
          | Panic why => (w, PDone ∅ (Panic why))
          | Er err => (w, PDone ∅ (failed res err))
          | Ok _ => (w, PGetReply v)
          end
      end
  | PGetReply argv => (w, PPreCall argv (mt_newReply (j_mtype j)))
  | PPreCall argv replyv =>
      let '(w, (v, err)) := DoPreCall (Plugins s) sp sm argv w in
      match err with
      | Some err => (w, PPutReply replyv ∅ (handleError s res err))
      | None => (w, PCall v replyv)
      end
  | PCall argv replyv =>
      let '(w, (v, resMeta, err)) :=
        call (j_mtype j) (default ∅ (Metadata req)) argv replyv w in
      (w, PPostCall argv v resMeta err)
  | PPostCall argv replyv resMeta err =>
      let '(w, (v, err1)) := DoPostCall (Plugins s) sp sm argv replyv err w in
      (w, PPutArg argv v resMeta (match err with None => err1 | e => e end))
  | PPutArg argv replyv resMeta err => (w, PEncode replyv resMeta err)
  | PEncode replyv resMeta err =>
      match j_codec j with
      | None => (w, PDone ∅ (no_codec j))
      | Some codec =>
          let out := match err with
                     | Some err => j_on_error j codec replyv err
                     | None => j_on_success j codec replyv
                     end in
          (w, PPutReply replyv resMeta out)
      end
  | PPutReply replyv resMeta out => (w, PDone resMeta (Ok out))
  | PDone resMeta out => (w, ph)
  end.

(** Run alone, the nine steps are [Server.invoke]. *)
Fixpoint fsteps (n : nat) (j : job) (ph : phase (iface V)) (w : W) : W * phase (iface V) :=
  match n with
  | O => (w, ph)
  | S n => let '(w, ph) := fstep j ph w in fsteps n j ph w
  end.

Definition j_invoke (j : job) (w : W) : handled (W := W) :=
  let res := newResponse (j_req j) in
  invoke s (j_req j) res (j_mtype j)
    (if j_function j then fun _ _ err => handleError s res err else method_error s res) w.

Lemma fsteps_done n j resMeta out w : fsteps n j (PDone resMeta out) w = (w, PDone resMeta out).
Proof. induction n as [|n IH]; [done|]. cbn. apply IH. Qed.

Lemma fsteps_invoke j w :
  fsteps 9 j PGetArg w =
  let '(w', resMeta, out) := j_invoke j w in (w', PDone resMeta out).
Proof.
  unfold j_invoke, invoke. cbn -[fsteps j_codec].
  change (Codecs s _) with (j_codec j).
  cbn [fsteps fstep]. destruct (j_codec j) as [codec|] eqn:Hc; [|done].
  destruct (codec_Decode codec _ _) as [argv [[]|e|why]]; [|done..].
  cbn [fsteps fstep].
  destruct (DoPreCall _ _ _ argv w) as [w1 [argv1 [e1|]]]; [done|].
  cbn [fsteps fstep].
  destruct (call _ _ _ _ _) as [w2 [[r m] e]].
  cbn [fsteps fstep].
  destruct (DoPostCall _ _ _ _ _ _ _) as [w3 [r3 e3]].
  cbn [fsteps fstep]. rewrite Hc. cbn [fsteps fstep].
  unfold j_on_error, j_on_success.
  destruct e as [e|]; [by destruct (j_function j)|].
  destruct e3 as [e3|]; [by destruct (j_function j)|].
  destruct (negb _); [|done]. by destruct (codec_Encode codec r3) as [d [e|]].
Qed.

(** ** The invariant

    [own] lists the objects that running requests refer to: no object is there twice, none is
    both there and in a pool, and what is in a pool has the zero value of its type. *)

Definition ref_list (r : ref) : list loc := match r with Some l => [l] | None => [] end.

Definition refs (ph : phase ref) : list loc :=
  match ph with
  | PGetArg | PDone _ _ => []
  | PDecode a | PGetReply a => ref_list a
  | PPreCall a r | PCall a r | PPostCall a r _ _ | PPutArg a r _ _ => ref_list a ++ ref_list r
  | PEncode r _ _ | PPutReply r _ _ => ref_list r
  end.

Record owned (st : typePools (V := V)) (own : list loc) : Prop := {
  ow_nodup : NoDup (own ++ (tp_free st).*2);
  ow_bound : Forall (fun l => l < length (heap st))%nat (own ++ (tp_free st).*2);
  ow_zero : Forall (fun e => heap st !! e.2 = Some (zeroValue (rt_elem e.1))) (tp_free st);
  ow_flat : holds st = ∅;
}.

(** [Reset] brings an object back to the zero value of its type. *)
Definition ResetOk : Prop :=
  forall elem reset v, resetMethod elem = Some reset -> reset v = zeroValue elem.

(** [st'] has the pools of [st] and the same objects at the locations [own]. *)
Definition framed (st st' : typePools (V := V)) (own : list loc) : Prop :=
  tp_keys st' = tp_keys st /\ holds st' = holds st /\ forall l, l ∈ own -> heap st' !! l = heap st !! l.

Lemma framed_refl st own : framed st st own.
Proof. by split. Qed.

Lemma framed_trans st1 st2 st3 own : framed st1 st2 own -> framed st2 st3 own -> framed st1 st3 own.
Proof. intros (K1 & V1 & H1) (K2 & V2 & H2). split_and!; [congruence..|]. intros l Hl. by rewrite H2, H1. Qed.

Lemma framed_app st st' a b : framed st st' (a ++ b) <-> framed st st' a /\ framed st st' b.
Proof.
  unfold framed. setoid_rewrite elem_of_app. split.
  - intros (? & ? & Hh). split; split_and!; try done; intros l Hl; apply Hh; auto.
  - intros [(? & ? & H1) (_ & _ & H2)]. split_and!; [done..|]. intros l [?|?]; auto.
Qed.

Lemma framed_read st st' r : holds st = ∅ -> framed st st' (ref_list r) -> read st' r = read st r.
Proof.
  intros Hv (_ & Hv' & Hh). destruct r as [l|]; cbn; [|done].
  rewrite Hv', Hv, lookup_empty, Hh; [done|apply list_elem_of_here].
Qed.

Lemma owned_drop st a own : owned st (a ++ own) -> owned st own.
Proof.
  intros [Hn Hb Hz Hv]. rewrite <- app_assoc in Hn, Hb.
  split; [by apply NoDup_app in Hn as (_ & _ & ?)|by apply Forall_app in Hb as [_ ?]|done|done].
Qed.

Lemma owned_perm st own own' : own ≡ₚ own' -> owned st own -> owned st own'.
Proof. intros Hp [Hn Hb Hz Hv]. split; [by rewrite <- Hp..|done|done]. Qed.

Lemma alloc_owned st own v :
  owned st own ->
  owned (fst (alloc v st)) (snd (alloc v st) :: own) /\ framed st (fst (alloc v st)) own /\
  read (fst (alloc v st)) (Some (snd (alloc v st))) = v.
Proof.
  intros [Hn Hb Hz Hv]. unfold alloc, read. cbn. rewrite Hv, lookup_empty. split; [|split].
  - rewrite Forall_forall in Hb. split; cbn; [| | |done].
    + constructor; [|done]. intros Hin. specialize (Hb _ Hin). lia.
    + rewrite length_app. cbn. constructor; [lia|]. rewrite Forall_forall.
      intros l Hl. specialize (Hb _ Hl). lia.
    + rewrite Forall_forall in Hz |- *. intros e He.
      rewrite lookup_app_l; [by apply Hz|]. apply Hb. apply elem_of_app. right.
      by apply list_elem_of_fmap_2.
  - split_and!; [done|done|]. intros l Hl. cbn. apply lookup_app_l.
    rewrite Forall_app in Hb. destruct Hb as [Hb _]. rewrite Forall_forall in Hb. by apply Hb.
  - by rewrite lookup_app_r, Nat.sub_diag by lia.
Qed.

Lemma write_owned st own l v :
  owned st (l :: own) ->
  owned (write l v st) (l :: own) /\ framed st (write l v st) own /\
  read (write l v st) (Some l) = v.
Proof.
  intros [Hn Hb Hz Hv]. cbn in Hn, Hb. apply NoDup_cons in Hn as [Hl Hn].
  apply Forall_cons_iff in Hb as [Hb0 Hb]. unfold write, read. cbn. rewrite Hv, delete_empty, lookup_empty.
  split; [|split].
  - split; cbn; [by constructor|rewrite length_insert; by constructor| |done].
    rewrite Forall_forall in Hz |- *. intros e He. rewrite list_lookup_insert_ne; [by apply Hz|].
    intros ->. apply Hl, elem_of_app. right. by apply list_elem_of_fmap_2.
  - split_and!; [done|done|]. intros l' Hl'. cbn. apply list_lookup_insert_ne. intros ->.
    apply Hl, elem_of_app. by left.
  - by rewrite list_lookup_insert_eq.
Qed.

Lemma Get_owned pick t st own :
  owned st own -> t ∈ tp_keys st ->
  exists st' l, typePools_Get zeroValue pick t st = (st', Ok l) /\ owned st' (l :: own) /\
    framed st st' own /\ read st' (Some l) = zeroValue (rt_elem t).
Proof.
  intros How Ht. unfold typePools_Get. rewrite bool_decide_eq_true_2 by done.
  assert (exists st' l, typePools_New zeroValue t st = (st', Ok l) /\ owned st' (l :: own) /\
    framed st st' own /\ read st' (Some l) = zeroValue (rt_elem t)) as Hnew.
  { destruct (alloc_owned st own (zeroValue (rt_elem t)) How) as (? & ? & ?). eauto 10. }
  destruct pick as [i|]; [|done]. cbn.
  destruct (tp_free st !! i) as [[t' l]|] eqn:Hi; [|done]. cbn.
  case_bool_decide as Htt; [subst t'|done].
  eexists _, l. split; [done|]. destruct How as [Hn Hb Hz Hv].
  assert (own ++ (tp_free st).*2 ≡ₚ l :: own ++ (delete i (tp_free st)).*2) as Hp.
  { rewrite (delete_Permutation _ _ _ Hi) at 1. cbn. symmetry. apply Permutation_middle. }
  split; [split; cbn|split; [done|]].
  - by rewrite <- Hp.
  - by rewrite <- Hp.
  - by apply Forall_delete.
  - done.
  - rewrite Forall_lookup in Hz. specialize (Hz _ _ Hi). cbn in *. by rewrite Hv, lookup_empty, Hz.
Qed.

Lemma Put_owned t x st own :
  ResetOk -> owned st (ref_list x ++ own) -> t ∈ tp_keys st ->
  exists st', typePools_Put resetMethod t x st = (st', Ok tt) /\ owned st' own /\
    framed st st' own.
Proof.
  intros Hreset How Ht. unfold typePools_Put.
  destruct x as [l|]; [|by eexists]. cbn in How.
  destruct (resetMethod (rt_elem t)) as [reset|] eqn:Hr.
  2:{ eexists; split; [done|]. split; [by eapply owned_drop with (a := [l])|done]. }
  rewrite (Hreset _ _ _ Hr).
  destruct (write_owned st own l (zeroValue (rt_elem t)) How) as ([Hn Hb Hz Hv] & Hf & Hrd).
  cbv zeta. rewrite bool_decide_eq_true_2 by done.
  eexists; split; [done|]. split; [|done]. split; cbn.
  - by rewrite <- Permutation_middle.
  - by rewrite <- Permutation_middle.
  - constructor; [|done]. cbn. apply list_lookup_insert_eq. cbn in Hb.
    apply Forall_cons_iff in Hb as [Hb _]. cbn in Hb. by rewrite length_insert in Hb.
  - done.
Qed.

Lemma assign_owned b r v st own :
  owned st (ref_list r ++ own) ->
  exists st' r', assign b r v st = (st', r') /\ owned st' (ref_list r' ++ own) /\
    framed st st' own /\ read st' r' = v.
Proof.
  intros How. unfold assign.
  assert (exists st' r', (let '(st, l) := alloc v st in (st, Some l)) = (st', r') /\
    owned st' (ref_list r' ++ own) /\ framed st st' own /\ read st' r' = v) as Hal.
  { destruct (alloc_owned st own v (owned_drop _ _ _ How)) as (? & ? & ?). eauto 10. }
  assert (forall l, r = Some l -> exists st' r', (if decide (read st r = v) then st else write l v st, r) = (st', r') /\
    owned st' (ref_list r' ++ own) /\ framed st st' own /\ read st' r' = v) as Hwr.
  { intros l ->. destruct (write_owned st own l v How) as (? & ? & ?).
    eexists _, _; split; [done|]. case_decide; [|done]. split_and!; [done|apply framed_refl|done]. }
  destruct v, r as [l|], b; try done; try (by apply Hwr);
    eexists _, _; (split; [done|]); (split; [by eapply owned_drop|]); done.
Qed.

(** ** Simulation of one step *)

Definition phase_map {R S} (f : R -> S) (ph : phase R) : phase S :=
  match ph with
  | PGetArg => PGetArg
  | PDecode a => PDecode (f a)
  | PGetReply a => PGetReply (f a)
  | PPreCall a r => PPreCall (f a) (f r)
  | PCall a r => PCall (f a) (f r)
  | PPostCall a r m e => PPostCall (f a) (f r) m e
  | PPutArg a r m e => PPutArg (f a) (f r) m e
  | PEncode r m e => PEncode (f r) m e
  | PPutReply r m o => PPutReply (f r) m o
  | PDone m o => PDone m o
  end.

Definition abs (st : typePools (V := V)) : phase ref -> phase (iface V) := phase_map (read st).

Lemma framed_abs st st' ph : holds st = ∅ -> framed st st' (refs ph) -> abs st' ph = abs st ph.
Proof.
  intros Hv. unfold abs. destruct ph; cbn; rewrite ?framed_app; intros Hf; f_equal;
    first [done | by apply framed_read | by apply framed_read; [|apply Hf]].
Qed.

(** The types of a job have pools, and their zero values are what its method starts from. *)
Record job_ok (st : typePools (V := V)) (j : job) : Prop := {
  jo_arg : j_ArgType j ∈ tp_keys st;
  jo_reply : j_ReplyType j ∈ tp_keys st;
  jo_newArg : zeroValue (rt_elem (j_ArgType j)) = mt_newArg (j_mtype j);
  jo_newReply : zeroValue (rt_elem (j_ReplyType j)) = mt_newReply (j_mtype j);
}.

Definition simulates (j : job) (ch : choice) (ph : phase ref) (st : typePools (V := V)) (w : W)
    (F : list loc) : Prop :=
  exists st' w' ph', hstep j ch ph st w = (st', w', ph') /\ owned st' (refs ph' ++ F) /\
    framed st st' F /\ fstep j (abs st ph) w = (w', abs st' ph').

(** Getting an object: the next phase holds it besides what was held. *)
Lemma sim_get ch st w F t (own : list loc) (k : loc -> phase ref) (phf : phase (iface V)) :
  owned st (own ++ F) -> t ∈ tp_keys st ->
  (forall l, refs (k l) ≡ₚ l :: own) ->
  (forall st' l, framed st st' own -> read st' (Some l) = zeroValue (rt_elem t) ->
     abs st' (k l) = phf) ->
  exists st' w' ph',
    or_panic (typePools_Get zeroValue (c_pick ch) t st) w (fun l st => (st, w, k l)) = (st', w', ph') /\
    owned st' (refs ph' ++ F) /\ framed st st' F /\ (w, phf) = (w', abs st' ph').
Proof.
  intros How Ht Hrefs Habs.
  destruct (Get_owned (c_pick ch) t st _ How Ht) as (st' & l & -> & How' & Hf & Hrd).
  apply framed_app in Hf as [Hf1 Hf2].
  eexists _, _, _. cbn. split; [done|]. split_and!; [|done|].
  - eapply owned_perm; [|exact How']. by rewrite Hrefs.
  - by rewrite (Habs st' l Hf1 Hrd).
Qed.

Lemma sim_put st w F t (x : ref) (own : list loc) (ph : phase ref) (phf : phase (iface V)) :
  ResetOk -> owned st (ref_list x ++ own ++ F) -> t ∈ tp_keys st -> refs ph = own ->
  (forall st', framed st st' own -> abs st' ph = phf) ->
  exists st' w' ph',
    or_panic (typePools_Put resetMethod t x st) w (fun _ st => (st, w, ph)) = (st', w', ph') /\
    owned st' (refs ph' ++ F) /\ framed st st' F /\ (w, phf) = (w', abs st' ph').
Proof.
  intros Hreset How Ht Hrefs Habs.
  destruct (Put_owned t x st _ Hreset How Ht) as (st' & -> & How' & Hf).
  apply framed_app in Hf as [Hf1 Hf2].
  eexists _, _, _. cbn. split; [done|]. rewrite Hrefs. split_and!; [done..|].
  by rewrite (Habs st' Hf1).
Qed.

(** Assigning to a variable while the rest of the request and the frame stay. *)
Lemma sim_assign b r v st (own F : list loc) :
  owned st (ref_list r ++ own ++ F) ->
  exists st' r', assign b r v st = (st', r') /\ owned st' (ref_list r' ++ own ++ F) /\
    owned st' (own ++ F) /\ owned st' F /\ framed st st' own /\ framed st st' F /\
    read st' r' = v.
Proof.
  intros How. destruct (assign_owned b r v st _ How) as (st' & r' & Ha & Ho & Hf & Hr).
  apply framed_app in Hf as [? ?].
  assert (owned st' (own ++ F)) by (by eapply owned_drop).
  eexists _, _. split_and!; try done. by eapply owned_drop.
Qed.

Lemma sim_decode j ch argv st w F :
  owned st (ref_list argv ++ F) -> simulates j ch (PDecode argv) st w F.
Proof.
  intros How. unfold simulates, hstep, fstep, abs. cbn -[assign].
  destruct (j_codec j) as [codec|].
  2:{ eexists _, _, _. split; [done|]. split_and!; try done. by eapply owned_drop. }
  destruct (codec_Decode codec _ (read st argv)) as [v out].
  destruct (sim_assign false argv v st [] F How) as (st' & r' & -> & ? & _ & ? & _ & ? & Hr).
  destruct out as [[]|e|why]; eexists _, _, _; (split; [done|]); split_and!; try done.
  cbn. by rewrite Hr.
Qed.

Lemma sim_precall j ch argv replyv st w F :
  owned st (ref_list argv ++ ref_list replyv ++ F) ->
  simulates j ch (PPreCall argv replyv) st w F.
Proof.
  intros How. unfold simulates, hstep, fstep, abs. cbn -[assign].
  destruct (DoPreCall _ _ _ (read st argv) w) as [w1 [v err]].
  destruct (sim_assign (c_replace ch) argv v st _ F How)
    as (st' & r' & -> & ? & ? & ? & Hfr & ? & Hr).
  destruct err as [err|]; eexists _, _, _; (split; [done|]); cbn;
    rewrite <- ?app_assoc, ?Hr, (framed_read _ _ _ (ow_flat _ _ How) Hfr); by split_and!.
Qed.

(** The reply is assigned, by the method or by a hook, while the argument is held. *)
Lemma sim_reply b argv replyv v st (F : list loc) :
  owned st ((ref_list argv ++ ref_list replyv) ++ F) ->
  exists st' r', assign b replyv v st = (st', r') /\
    owned st' ((ref_list argv ++ ref_list r') ++ F) /\ framed st st' F /\
    read st' r' = v /\ read st' argv = read st argv.
Proof.
  intros How.
  assert (forall a b : list loc, (a ++ b) ++ F ≡ₚ b ++ a ++ F) as Hp.
  { intros. rewrite app_assoc. apply Permutation_app_tail, Permutation_app_comm. }
  apply (owned_perm _ _ _ (Hp _ _)) in How.
  destruct (sim_assign b replyv v st _ F How) as (st' & r' & Ha & ? & _ & _ & Hfr & ? & Hr).
  eexists _, _. split; [done|]. split_and!; try done; [|apply framed_read; [apply How|done]].
  by eapply owned_perm; [symmetry; apply Hp|].
Qed.

Lemma hstep_simulates j ch ph st w F :
  ResetOk -> c_keep ch = None -> job_ok st j -> owned st (refs ph ++ F) -> simulates j ch ph st w F.
Proof.
  intros Hreset Hkeep [Ha Hr Hza Hzr] How. pose proof (ow_flat _ _ How) as Hv.
  destruct ph as [|argv|argv|argv replyv|argv replyv|argv replyv resMeta err
    |argv replyv resMeta err|replyv resMeta err|replyv resMeta out|resMeta out]; cbn [refs] in How.
  - unfold simulates. cbn [hstep fstep abs phase_map].
    eapply (sim_get ch st w F _ []); try done. intros st' l _ Hl. unfold abs. cbn -[read]. by rewrite Hl, Hza.
  - by apply sim_decode.
  - unfold simulates. cbn [hstep fstep abs phase_map].
    eapply (sim_get ch st w F _ (ref_list argv)); try done.
    + intros l. cbn. by rewrite Permutation_app_comm.
    + intros st' l Hf Hl. unfold abs. cbn -[read]. by rewrite Hl, Hzr, (framed_read _ _ _ Hv Hf).
  - rewrite <- app_assoc in How. by apply sim_precall.
  - unfold simulates, hstep, fstep, abs, assign_reply. rewrite Hkeep. cbn -[assign].
    destruct (call _ _ _ _ w) as [w1 [[v resMeta] err]].
    destruct (sim_reply false argv replyv v st F How) as (st' & r' & -> & ? & ? & Hrv & Hargv).
    eexists _, _, _. split; [done|]. cbn. by rewrite Hrv, Hargv.
  - unfold simulates, hstep, fstep, abs. cbn -[assign].
    destruct (DoPostCall _ _ _ _ _ _ w) as [w1 [v err1]].
    destruct (sim_reply (c_replace ch) argv replyv v st F How)
      as (st' & r' & -> & ? & ? & Hrv & Hargv).
    eexists _, _, _. split; [done|]. cbn. by rewrite Hrv, Hargv.
  - unfold simulates. cbn [hstep fstep abs phase_map]. rewrite <- app_assoc in How.
    eapply (sim_put st w F _ argv (ref_list replyv)); try done.
    intros st' Hf. cbn. by rewrite (framed_read _ _ _ Hv Hf).
  - unfold simulates, hstep, fstep, abs. cbn.
    destruct (j_codec j); eexists _, _, _; (split; [done|]); cbn; [done|].
    split_and!; try done. by eapply owned_drop.
  - unfold simulates. cbn [hstep fstep abs phase_map].
    by eapply (sim_put st w F _ replyv []).
  - by eexists _, _, _.
Qed.

(** ** Many requests *)

(** The pools, the world that services and plugins act on, and the requests with their phases. *)
Record system := MkSystem {
  sy_pools : typePools (V := V);
  sy_world : W;
  sy_jobs : list (job * phase ref);
}.

(** The goroutine of request [i] runs for one step. *)
Definition sys_step (e : nat * choice) (sy : system) : system :=
  match sy_jobs sy !! e.1 with
  | None => sy
  | Some (j, ph) =>
      let '(st, w, ph) := hstep j e.2 ph (sy_pools sy) (sy_world sy) in
      MkSystem st w (<[e.1 := (j, ph)]> (sy_jobs sy))
  end.

Definition run_sys (sched : list (nat * choice)) (sy : system) : system :=
  foldl (fun sy e => sys_step e sy) sy sched.

Definition fsystem := (W * list (job * phase (iface V)))%type.

Definition fsys_step (i : nat) (fs : fsystem) : fsystem :=
  match fs.2 !! i with
  | None => fs
  | Some (j, ph) => let '(w, ph) := fstep j ph fs.1 in (w, <[i := (j, ph)]> fs.2)
  end.

Definition run_fsys (sched : list nat) (fs : fsystem) : fsystem :=
  foldl (fun fs i => fsys_step i fs) fs sched.

Definition abs_sys (sy : system) : fsystem :=
  (sy_world sy, prod_map id (abs (sy_pools sy)) <$> sy_jobs sy).

(** The objects that requests hold. *)
Definition held (jobs : list (job * phase ref)) : list loc := jobs ≫= (fun x => refs x.2).

Record sys_ok (sy : system) : Prop := {
  so_owned : owned (sy_pools sy) (held (sy_jobs sy));
  so_jobs : Forall (fun x => job_ok (sy_pools sy) x.1) (sy_jobs sy);
}.

Lemma delete_insert_list {A} (l : list A) i x : delete i (<[i := x]> l) = delete i l.
Proof. revert i. induction l as [|y l IH]; intros [|i]; cbn; [done..|]. f_equal. apply IH. Qed.

Lemma elem_of_delete_ne {A} (l : list A) i k x : l !! k = Some x -> k <> i -> x ∈ delete i l.
Proof.
  intros Hk Hne. destruct (decide (k < i)%nat).
  - apply (list_elem_of_lookup_2 _ k). by rewrite list_lookup_delete_lt.
  - apply (list_elem_of_lookup_2 _ (Nat.pred k)). rewrite list_lookup_delete_ge by lia.
    by replace (S (Nat.pred k)) with k by lia.
Qed.

Lemma held_perm jobs i j ph :
  jobs !! i = Some (j, ph) -> held jobs ≡ₚ refs ph ++ held (delete i jobs).
Proof. intros Hi. unfold held. by rewrite (delete_Permutation _ _ _ Hi) at 1. Qed.

Lemma job_ok_framed st st' own j : framed st st' own -> job_ok st j -> job_ok st' j.
Proof. intros (Hk & _ & _) [? ? ? ?]. by split; rewrite ?Hk. Qed.

Lemma sys_step_sim e sy :
  ResetOk -> c_keep e.2 = None -> sys_ok sy ->
  sys_ok (sys_step e sy) /\ abs_sys (sys_step e sy) = fsys_step e.1 (abs_sys sy).
Proof.
  intros Hreset Hkeep [How Hjobs]. destruct e as [i ch], sy as [st w jobs].
  unfold sys_step, fsys_step, abs_sys. cbn [fst snd sy_jobs sy_world sy_pools] in *.
  rewrite list_lookup_fmap. destruct (jobs !! i) as [[j ph]|] eqn:Hi; [|done].
  cbn [fmap option_fmap option_map]. change (prod_map id (abs st) (j, ph)) with (j, abs st ph).
  cbn [fst snd].
  assert (job_ok st j) as Hj by (rewrite Forall_lookup in Hjobs; exact (Hjobs _ _ Hi)).
  pose proof (owned_perm _ _ _ (held_perm _ _ _ _ Hi) How) as How'.
  destruct (hstep_simulates j ch ph st w _ Hreset Hkeep Hj How')
    as (st' & w' & ph' & -> & Hown' & Hf & ->).
  cbn [sy_world sy_pools sy_jobs]. split; [split; cbn|f_equal].
  - eapply owned_perm; [|exact Hown'].
    rewrite (held_perm (<[i := (j, ph')]> jobs) i j ph').
    + by rewrite delete_insert_list.
    + apply list_lookup_insert_eq. by eapply lookup_lt_Some.
  - apply Forall_insert; [|by eapply job_ok_framed].
    eapply Forall_impl; [exact Hjobs|]. intros x. by apply (job_ok_framed _ _ _ _ Hf).
  - rewrite list_fmap_insert. apply list_eq. intros k.
    destruct (decide (k = i)) as [->|Hk].
    { rewrite !list_lookup_insert_eq; [done|..]; rewrite length_fmap; by eapply lookup_lt_Some. }
    rewrite !list_lookup_insert_ne, !list_lookup_fmap by done.
    destruct (jobs !! k) as [[j1 ph1]|] eqn:Hk1; [|done]. cbn. unfold prod_map. cbn.
    do 2 f_equal. apply framed_abs; [apply How|]. destruct Hf as (Hkeys & Hviews & Hf). split_and!; [done|done|].
    intros l Hl. apply Hf. apply list_elem_of_bind. exists (j1, ph1).
    split; [done|]. by eapply elem_of_delete_ne.
Qed.

(** No method leaves a pointer to its argument in its reply. *)
Definition keeps_no_argument (sched : list (nat * choice)) : Prop := Forall (fun e => c_keep e.2 = None) sched.

Lemma run_sys_sim sched sy :
  ResetOk -> keeps_no_argument sched -> sys_ok sy ->
  sys_ok (run_sys sched sy) /\ abs_sys (run_sys sched sy) = run_fsys sched.*1 (abs_sys sy).
Proof.
  intros Hreset Hks. revert sy. induction Hks as [|e sched Hk _ IH]; intros sy Hok; [done|].
  destruct (sys_step_sim e sy Hreset Hk Hok) as [Hok' Habs].
  destruct (IH _ Hok') as [H1 H2]. split; [exact H1|].
  unfold run_sys, run_fsys in *. cbn. by rewrite H2, Habs.
Qed.

(** Requests that start, from any state of the pools. *)
Definition start (st : typePools (V := V)) (w : W) (jobs : list job) : system :=
  MkSystem st w ((fun j => (j, PGetArg)) <$> jobs).

Lemma held_start jobs : held ((fun j => (j, PGetArg)) <$> jobs) = [].
Proof. unfold held. induction jobs as [|j jobs IH]; [done|]. cbn. exact IH. Qed.

Lemma start_ok st w jobs :
  owned st [] -> Forall (job_ok st) jobs -> sys_ok (start st w jobs).
Proof.
  intros How Hj. split; cbn; [by rewrite held_start|]. by apply Forall_fmap.
Qed.

Lemma owned_fresh h keys : owned (MkTypePools h keys [] ∅) [].
Proof. split; cbn; [constructor|constructor|constructor|done]. Qed.


Lemma run_fsys_alone n j ph w :
  run_fsys (replicate n 0%nat) (w, [(j, ph)]) =
  let '(w', ph') := fsteps n j ph w in (w', [(j, ph')]).
Proof.
  revert ph w. induction n as [|n IH]; intros ph w; [done|].
  unfold run_fsys in *. cbn. unfold fsys_step. cbn. destruct (fstep j ph w) as [w1 ph1]. apply IH.
Qed.

(** A request served alone, with whatever earlier requests left in the pools, ends after
    nine steps with exactly what [Server.invoke] returns, and leaves the pools as clean as it
    found them. *)
Theorem pooled_request_is_invoke j st w chs :
  ResetOk -> Forall (fun ch => c_keep ch = None) chs -> job_ok st j -> owned st [] -> length chs = 9%nat ->
  let '(w', resMeta, out) := j_invoke j w in
  exists st', run_sys ((fun ch => (0%nat, ch)) <$> chs) (start st w [j]) =
    MkSystem st' w' [(j, PDone resMeta out)] /\ owned st' [].
Proof.
  intros Hreset Hkeep Hj How Hlen.
  destruct (run_sys_sim ((fun ch => (0%nat, ch)) <$> chs) (start st w [j]) Hreset) as [Hok Habs].
  { by apply Forall_fmap. }
  { apply start_ok; [done|]. by constructor. }
  assert (((fun ch : choice => (0%nat, ch)) <$> chs).*1 = replicate 9 0%nat) as Hs.
  { rewrite <- list_fmap_compose, <- Hlen. clear. induction chs; cbn; congruence. }
  rewrite Hs in Habs. unfold abs_sys at 2 in Habs. cbn [start sy_world sy_jobs sy_pools fmap list_fmap] in Habs.
  change (prod_map id (abs st) (j, PGetArg)) with (j, @PGetArg (iface V)) in Habs.
  rewrite run_fsys_alone, fsteps_invoke in Habs.
  destruct (j_invoke j w) as [[w' resMeta] out].
  destruct (run_sys _ _) as [st' w1 jobs]. unfold abs_sys in Habs. cbn in Habs.
  injection Habs as -> Hjobs. exists st'.
  destruct jobs as [|[j1 ph1] [|]]; try done. cbn in Hjobs. injection Hjobs as -> Hph.
  destruct ph1; try done. injection Hph as -> ->. split; [done|].
  by apply so_owned in Hok.
Qed.
End Requests.

(** ** Examples *)

Module ObjectPoolDemo.
Local Instance no_compressors : Compressors := fun _ => None.

(** A decoder that, like encoding/json, leaves alone what the payload does not mention. *)
Definition keep_codec : Codec bytes :=
  MkCodec (fun v => match v with IVal b => (b, None) | _ => ([], Some EOF) end)
    (fun data v => (match data with [] => v | _ => IVal data end, Ok tt)).

(** A method that returns its argument. *)
Definition echo : methodType (W := unit) (V := bytes) :=
  MkMethod (fun _ => ""%string) (IVal []) (IVal []) (fun _ a _ w => (w, (a, ∅, Ok None))).

Definition echo_server : Server (W := unit) (C := unit) (V := bytes) :=
  MkServer ∅ ∅ (fun _ => Some keep_codec) [] None None None.

Definition T : rtype := RType true "T".

Definition echo_job (payload : bytes) : job (W := unit) (V := bytes) :=
  MkJob (set_payload payload NewMessage) echo T T false.

Definition zero_T (_ : string) : iface bytes := IVal [].
Definition reset_T (_ : string) : option (iface bytes -> iface bytes) := Some (fun _ => IVal []).
Definition lazy_reset (_ : string) : option (iface bytes -> iface bytes) := Some id.

Definition pools0 : typePools (V := bytes) := typePools_Init T (MkTypePools [] [] [] ∅).
Definition pick (i : nat) : choice (V := bytes) := MkChoice (Some i) false None.

Definition payload_of (ph : phase ref) : option bytes :=
  match ph with PDone _ _ (Ok (m, _)) => Some (Payload m) | _ => None end.

(** The first request ends, then the second gets its objects. *)
Definition in_turn : list (nat * choice (V := bytes)) :=
  ((fun i => (i, pick 0)) <$> replicate 9 0%nat) ++ ((fun i => (i, pick 0)) <$> replicate 9 1%nat).

Lemma echo_job_ok p : job_ok zero_T pools0 (echo_job p).
Proof. split; [by left|by left|done|done]. Qed.


Lemma pooled_request_is_invoke_witness :
  let st := MkTypePools [IVal []] [T] [(T, 0%nat)] ∅ in
  exists st', run_sys zero_T reset_T echo_server ((fun ch => (0%nat, ch)) <$> replicate 9 (pick 0))
      (start st tt [echo_job [7]]) =
    MkSystem st' tt [(echo_job [7], PDone _ ∅ (Ok (set_payload [7] (newResponse (set_payload [7] NewMessage)), None)))] /\
    owned zero_T st' [].
Proof.
  apply (pooled_request_is_invoke zero_T reset_T echo_server (echo_job [7])
           (MkTypePools [IVal []] [T] [(T, 0%nat)] ∅) tt (replicate 9 (pick 0))).
  - intros elem reset v [= <-]. reflexivity.
  - by repeat constructor.
  - split; [by left|by left|done|done].
  - split; cbn; repeat constructor; set_solver.
  - reflexivity.
Defined.

(** A [Reset] that does not clear its object: the second client, whose payload is empty, is
    answered with the data of the first. *)
Example partial_reset_leaks :
  payload_of <$> (run_sys zero_T lazy_reset echo_server in_turn
    (start pools0 tt [echo_job [1; 2]; echo_job []])).(sy_jobs).*2 = [Some [1; 2]; Some [1; 2]].
Proof. vm_compute. reflexivity. Qed.

(** A method whose reply points to its argument: the argument is reset, and what is sent is the zero
    value, where fresh objects would have sent the argument. *)
Definition keeping : list (nat * choice (V := bytes)) :=
  (fun i => (i, MkChoice None false (Some id))) <$> replicate 9 0%nat.

Example kept_argument_is_reset :
  payload_of <$> (run_sys zero_T reset_T echo_server keeping (start pools0 tt [echo_job [1; 2]])).(sy_jobs).*2 = [Some []] /\
  (j_invoke echo_server (echo_job [1; 2]) tt).2 =
    Ok (set_payload [1; 2] (newResponse (set_payload [1; 2] NewMessage)), None).
Proof. vm_compute. done. Qed.

Example full_reset_separates :
  payload_of <$> (run_sys zero_T reset_T echo_server in_turn
    (start pools0 tt [echo_job [1; 2]; echo_job []])).(sy_jobs).*2 = [Some [1; 2]; Some []].
Proof. vm_compute. reflexivity. Qed.
End ObjectPoolDemo.
