(* ===== verification/Registry.v ===== *)
(** The registry of services (server/service.go): what [register] and [registerFunction] leave
    in the service map, on every branch. *)

From S2P Require Import Prelude GoStd Share Header Message Hooks ServerPlugins Client Server.

Section Registry.
Context {W V : Type}.
Implicit Types (rcvr : receiver (W := W) (V := V)) (sm : gmap string (service (W := W) (V := V)))
  (m f : methodInfo (W := W) (V := V)) (ms : list (methodInfo (W := W) (V := V))).

Context (isExported : string -> bool).
Local Abbreviation suitable := (suitable isExported).
Local Abbreviation suitableMethods := (suitableMethods isExported).
Local Abbreviation registerFunction := (registerFunction isExported).

(** ** Which methods can be called *)

(** A type that is exported or built in, once its pointers are taken away. *)
Inductive exported : goType -> Prop :=
  | exp_ptr t b : exported t -> exported (TPtr t b)
  | exp_name pkg n b : isExported n = true -> exported (TNamed pkg n b)
  | exp_builtin n b : exported (TNamed "" n b).

(** The parameters [(ctx, arg, *reply)] and the result [error] of what can be called. *)
Inductive rpc_signature : list goType -> list goType -> Prop :=
  | rpc_sig ctx arg reply b :
      Implements_context ctx = true -> exported arg -> exported reply ->
      rpc_signature [ctx; arg; TPtr reply b] [typeOfError].

(** An exported method with such a signature, after its receiver. *)
Inductive rpc_method m : Prop :=
  | rpc_method_sig recv ins :
      mi_PkgPath m = ""%string -> mi_In m = recv :: ins -> rpc_signature ins (mi_Out m) -> rpc_method m.

Lemma exported_spec t : isExportedOrBuiltinType isExported t = true <-> exported t.
Proof using Type.
  induction t as [t IH b|pkg n b]; cbn.
  - rewrite IH. split; [by constructor|]. by inversion 1.
  - rewrite orb_true_iff, bool_decide_eq_true. split.
    + intros [?| ->]; by constructor.
    + inversion 1; auto.
Qed.

Lemma suitable_spec m : suitable m = true <-> rpc_method m.
Proof using Type.
  unfold Server.suitable. split.
  - case_bool_decide as Hp; [done|].
    destruct (mi_In m) as [|recv [|ctx [|arg [|reply [|? ?]]]]] eqn:Hi; try done.
    destruct (Implements_context ctx) eqn:Hc; [|done]. cbn [negb].
    destruct (isExportedOrBuiltinType _ arg) eqn:Ha; [|done]. apply exported_spec in Ha. cbn [negb].
    destruct reply as [reply b|]; [|done]. cbn [Kind_is_Ptr negb].
    destruct (isExportedOrBuiltinType _ (TPtr reply b)) eqn:Hr; [|done]. apply exported_spec in Hr. cbn [negb].
    destruct (mi_Out m) as [|out [|? ?]] eqn:Ho; [done| |done]. rewrite bool_decide_eq_true. intros ->.
    econstructor; [done|done|]. rewrite Ho. inversion Hr; subst. by constructor.
  - intros [recv ins Hp Hi Hs]. rewrite bool_decide_eq_false_2 by (by intros ?). rewrite Hi.
    inversion Hs as [ctx arg reply b Hc Ha Hr E1 E2]; subst. rewrite Hc. cbn [negb].
    rewrite (proj2 (exported_spec arg) Ha). cbn [negb Kind_is_Ptr].
    by rewrite (proj2 (exported_spec (TPtr reply b)) (exp_ptr _ _ Hr)).
Qed.

(** The methods of a list that are suitable and have a name. *)
Definition suitable_named (n : string) ms : list (methodInfo (W := W) (V := V)) :=
  filter (fun m => suitable m = true /\ mi_name m = n) ms.

Lemma suitableMethods_app ms m :
  suitableMethods (ms ++ [m]) =
  if suitable m then <[mi_name m := mi_method m]> (suitableMethods ms) else suitableMethods ms.
Proof using Type. unfold Server.suitableMethods. by rewrite foldl_app. Qed.

(** The table of a receiver has, for each name, the last suitable method of that name. *)
Lemma suitableMethods_lookup ms n :
  suitableMethods ms !! n = mi_method <$> last (suitable_named n ms).
Proof using Type.
  induction ms as [|m ms IH] using rev_ind; [done|].
  rewrite suitableMethods_app. unfold suitable_named in *. rewrite filter_app.
  destruct (suitable m) eqn:Es.
  - destruct (decide (mi_name m = n)) as [<-|Hne].
    + rewrite lookup_insert_eq, (filter_cons_True _ m) by done. by rewrite filter_nil, last_snoc.
    + rewrite lookup_insert_ne by done. rewrite (filter_cons_False _ m) by tauto.
      by rewrite filter_nil, app_nil_r.
  - rewrite (filter_cons_False _ m) by (intros [? _]; congruence). by rewrite filter_nil, app_nil_r.
Qed.

Lemma suitableMethods_empty ms : suitableMethods ms = ∅ <-> ~ Exists rpc_method ms.
Proof using Type.
  rewrite Exists_exists. split.
  - intros He (m & Hm & Es%suitable_spec).
    pose proof (suitableMethods_lookup ms (mi_name m)) as Hl. rewrite He, lookup_empty in Hl.
    symmetry in Hl. apply fmap_None, last_None in Hl.
    assert (m ∈ suitable_named (mi_name m) ms) as Hin by (by apply list_elem_of_filter).
    rewrite Hl in Hin. by apply elem_of_nil in Hin.
  - intros Hall. apply map_eq. intros n. rewrite suitableMethods_lookup, lookup_empty.
    destruct (last (suitable_named n ms)) as [m|] eqn:El; [|done]. destruct Hall.
    apply last_Some_elem_of, list_elem_of_filter in El as [[Hs _] Hin]. exists m. by rewrite <- suitable_spec.
Qed.

(** With the names of Go's method sets, which are distinct: the table has the methods that can be
    called, under their names. *)
Lemma suitableMethods_table ms n mt :
  NoDup (mi_name <$> ms) ->
  suitableMethods ms !! n = Some mt <-> exists m, m ∈ ms /\ rpc_method m /\ mi_name m = n /\ mi_method m = mt.
Proof using Type.
  intros Hnd. rewrite suitableMethods_lookup, fmap_Some. split.
  - intros (m & Hl & ->). apply last_Some_elem_of, list_elem_of_filter in Hl as [[Hs Hn] Hin].
    exists m. by rewrite <- suitable_spec.
  - intros (m & Hin & Hm%suitable_spec & Hn & <-). exists m. split; [|done].
    assert (m ∈ suitable_named n ms) as Hf by (by apply list_elem_of_filter).
    destruct (last (suitable_named n ms)) as [m'|] eqn:El.
    + apply last_Some_elem_of, list_elem_of_filter in El as [[_ Hn'] Hin']. f_equal. subst n.
      apply list_elem_of_lookup in Hin as [i Hi], Hin' as [j Hj].
      assert (j = i) as ->; [|congruence].
      apply (NoDup_lookup _ _ _ (mi_name m) Hnd); rewrite list_lookup_fmap; [by rewrite Hj; cbn; f_equal|by rewrite Hi].
    + apply last_None in El. rewrite El in Hf. by apply elem_of_nil in Hf.
Qed.

(** [registerFunction] adds a suitable function to the functions of its service, which it
    makes when there is none, and touches nothing else; a function of another shape leaves the
    map as it was. But on a service that [register] made, whose table of functions is nil, it
    panics. *)
Definition registrable_function f (isFunc : bool) (fname : string) : Prop :=
  isFunc = true /\ fname <> ""%string /\ rpc_signature (mi_In f) (mi_Out f).

Lemma registerFunction_accepts (servicePath : string) f (isFunc : bool) (name : string) (useName : bool) sm :
  let fname := if useName then name else lastPart (mi_name f) in
  registrable_function f isFunc fname ->
  registerFunction servicePath f isFunc name useName sm =
    let ss := default (MkService servicePath ∅ (Some ∅)) (sm !! servicePath) in
    match sv_function ss with
    | None => (sm, Panic "assignment to entry in nil map")
    | Some fs => (<[servicePath := MkService (sv_name ss) (sv_method ss) (Some (<[fname := mi_method f]> fs))]> sm,
                  Ok (fname, None))
    end.
Proof using Type.
  intros fname (-> & Hn & Hs). unfold Server.registerFunction. fold fname. cbn [negb].
  rewrite bool_decide_eq_false_2 by done.
  inversion Hs as [ctx arg reply b Hc Ha Hr E1 E2]. rewrite Hc, (proj2 (exported_spec arg) Ha). cbn [negb Kind_is_Ptr].
  by rewrite (proj2 (exported_spec (TPtr reply b)) (exp_ptr _ _ Hr)).
Qed.

Lemma registerFunction_refuses (servicePath : string) f (isFunc : bool) (name : string) (useName : bool) sm :
  let fname := if useName then name else lastPart (mi_name f) in
  ~ registrable_function f isFunc fname ->
  exists n e, registerFunction servicePath f isFunc name useName sm = (sm, Ok (n, Some e)).
Proof using Type.
  intros fname Hno. unfold Server.registerFunction. fold fname. destruct isFunc; cbn [negb]; [|by eauto].
  case_bool_decide as Hn; [by eauto|].
  destruct (mi_In f) as [|ctx [|arg [|reply [|? ?]]]] eqn:Hi; try by eauto.
  destruct (mi_Out f) as [|out [|? ?]] eqn:Ho; try by eauto.
  destruct (Implements_context ctx) eqn:Hc; cbn [negb]; [|by eauto].
  destruct (isExportedOrBuiltinType _ arg) eqn:Ha; cbn [negb]; [|by eauto].
  destruct reply as [reply b|]; cbn [Kind_is_Ptr negb]; [|by eauto].
  destruct (isExportedOrBuiltinType _ (TPtr reply b)) eqn:Hr; cbn [negb]; [|by eauto].
  case_bool_decide as Hout; [by eauto|]. destruct Hno.
  apply exported_spec in Ha, Hr. inversion Hr; subst. split_and!; [done|done|]. rewrite Hi, Ho. by constructor.
Qed.

Theorem registerFunction_spec (servicePath : string) f (isFunc : bool) (name : string) (useName : bool) sm :
  let fname := if useName then name else lastPart (mi_name f) in
  let '(sm', out) := registerFunction servicePath f isFunc name useName sm in
  (~ registrable_function f isFunc fname -> sm' = sm /\ exists n e, out = Ok (n, Some e)) /\
  (registrable_function f isFunc fname ->
    match sm !! servicePath with
    | Some (MkService _ _ None) => sm' = sm /\ exists why, out = Panic why
    | old =>
        out = Ok (fname, None) /\ (forall p, p <> servicePath -> sm' !! p = sm !! p) /\
        exists sv fs, sm' !! servicePath = Some sv /\ sv_function sv = Some fs /\
          sv_method sv = default ∅ (sv_method <$> old) /\ fs !! fname = Some (mi_method f) /\
          forall n, n <> fname -> fs !! n = default ∅ (old ≫= sv_function) !! n
    end).
Proof using Type.
  intros fname. destruct (registerFunction servicePath f isFunc name useName sm) as [sm' out] eqn:E. split.
  - intros Hno. destruct (registerFunction_refuses servicePath f isFunc name useName sm Hno) as (n & e & E').
    rewrite E' in E. injection E as <- <-. eauto.
  - intros Hyes. rewrite (registerFunction_accepts servicePath f isFunc name useName sm Hyes) in E. fold fname in E.
    destruct (sm !! servicePath) as [[nm meth [fs|]]|] eqn:El; cbn in E; injection E as <- <-; [|by eauto|].
    all: split_and!; [done|intros p Hp; by rewrite lookup_insert_ne|].
    all: eexists _, _; rewrite lookup_insert_eq; split_and!; cbn; try done.
    all: first [by rewrite lookup_insert_eq|intros n Hn; by rewrite lookup_insert_ne].
Qed.

(** When [register] accepts a receiver: it has a name, an exported one unless the caller gave
    it, and at least one method that can be called. *)
Definition registrable rcvr (name : string) (useName : bool) : Prop :=
  let sname := if useName then name else rc_typeName rcvr in
  sname <> ""%string /\ (useName = true \/ isExported sname = true) /\
  Exists rpc_method (rc_methods rcvr).

Lemma register_table rcvr (name : string) (useName : bool) sm :
  let '(sm', (sname, err)) := register isExported rcvr name useName sm in
  sname = (if useName then name else rc_typeName rcvr) /\
  (err = None <-> registrable rcvr name useName) /\
  (err <> None -> sm' = sm) /\
  (err = None ->
   (forall p, p <> sname -> sm' !! p = sm !! p) /\
   sm' !! sname = Some (MkService sname (suitableMethods (rc_methods rcvr)) None)).
Proof using Type.
  unfold register, registrable. set (sname := if useName then name else _) in *.
  case_bool_decide as E1; [naive_solver|].
  destruct (negb useName && negb (isExported sname)) eqn:E2.
  { destruct useName, (isExported sname); naive_solver. }
  case_bool_decide as E3.
  { rewrite suitableMethods_empty in E3. split_and!; [done| |done|done]. split; [done|]. by intros (_ & _ & ?). }
  split; [done|]. split; [|split; [done|]].
  - split; [intros _|done]. split_and!; [done|destruct useName, (isExported sname); auto|].
    rewrite suitableMethods_empty in E3. destruct (decide (Exists (fun m => suitable m = true) (rc_methods rcvr))) as [He|He].
    + eapply Exists_impl; [exact He|]. intros m. apply suitable_spec.
    + destruct E3. intros He'. apply He. eapply Exists_impl; [exact He'|]. intros m. apply suitable_spec.
  - intros _. split; [intros p Hp; by rewrite lookup_insert_ne|]. by rewrite lookup_insert_eq.
Qed.

(** C36. [register] accepts a receiver exactly when it has a service name, which must be exported
    in [Register] and is anything but empty in [RegisterName], whatever the name of the type, and a
    method that can be called: an exported one that takes, after its receiver, a type that
    implements [context.Context], an argument of an exported or built-in type, and a pointer to one
    for the reply, and returns one [error]. It then stores, under the service name and nothing else,
    a service whose table has, under their names, exactly these methods of the receiver, whose names
    are distinct as in every method set of Go, and that has no functions, whatever was registered
    under the name before. A receiver it refuses leaves the map as it was. *)
Theorem register_spec rcvr (name : string) (useName : bool) sm :
  NoDup (mi_name <$> rc_methods rcvr) ->
  let '(sm', (sname, err)) := register isExported rcvr name useName sm in
  sname = (if useName then name else rc_typeName rcvr) /\
  (err = None <-> sname <> ""%string /\ (useName = true \/ isExported sname = true) /\
                  Exists rpc_method (rc_methods rcvr)) /\
  (err <> None -> sm' = sm) /\
  (err = None ->
   (forall p, p <> sname -> sm' !! p = sm !! p) /\
   exists sv, sm' !! sname = Some sv /\ sv_name sv = sname /\ sv_function sv = None /\
     forall n mt, sv_method sv !! n = Some mt <->
       exists m, m ∈ rc_methods rcvr /\ rpc_method m /\ mi_name m = n /\ mi_method m = mt).
Proof using Type.
  intros Hnd. pose proof (register_table rcvr name useName sm) as Hr.
  destruct (register isExported rcvr name useName sm) as [sm' [sname err]].
  destruct Hr as (Hn & Hiff & Hno & Hyes). split_and!; [done|by subst sname|done|].
  intros He. destruct (Hyes He) as [Hp Hs]. split; [done|]. eexists. split_and!; [exact Hs|done|done|].
  intros n mt. by apply suitableMethods_table.
Qed.

(** ** The registering methods of the server *)

Context {C : Type}.
Local Abbreviation pluginContainer := (list (Plugin W C (iface V))).

(** [RegisterName] when [useName], else [Register]: plugins are told of a service that was
    stored, under its name; their errors do not take it out again. *)
Definition Server_Register (plugins : pluginContainer) rcvr (name : string) (useName : bool) (metadata : string)
    sm (w : W) : gmap string (service (W := W) (V := V)) * W * option error :=
  let '(sm, (sname, err)) := register isExported rcvr name useName sm in
  match err with
  | Some e => (sm, w, Some e)
  | None => let '(w, e) := DoRegister plugins (if useName then name else sname) metadata w in (sm, w, e)
  end.

(** [RegisterFunctionName] when [useName], else [RegisterFunction]. *)
Definition Server_RegisterFunction (plugins : pluginContainer) (servicePath : string) f (isFunc : bool)
    (name : string) (useName : bool) (metadata : string) sm (w : W) :
    gmap string (service (W := W) (V := V)) * W * res (option error) :=
  let '(sm, out) := registerFunction servicePath f isFunc name useName sm in
  match out with
  | Ok (_, Some e) => (sm, w, Ok (Some e))
  | Ok (fname, None) =>
      let '(w, e) := DoRegisterFunction plugins servicePath (if useName then name else fname) metadata w in
      (sm, w, Ok e)
  | Er e => (sm, w, Er e)
  | Panic why => (sm, w, Panic why)
  end.

(** [unregisterAll] tells the plugins of every service, in the order [ks] of the map; the
    services stay in the map. *)
Fixpoint unregister_each (plugins : pluginContainer) (ks : list string) (w : W) : W * list error :=
  match ks with
  | [] => (w, [])
  | k :: ks =>
      let '(w, e) := DoUnregister plugins k w in
      let '(w, es) := unregister_each plugins ks w in
      (w, match e with Some err => err :: es | None => es end)
  end.

Definition UnregisterAll (plugins : pluginContainer) (ks : list string) sm (w : W) :
    gmap string (service (W := W) (V := V)) * W * option error :=
  let '(w, es) := unregister_each plugins ks w in (sm, w, multi es).

(** A service that [Server_Register] accepts is announced under the name it is stored under,
    and stays registered when an announcement fails. *)
Lemma Server_Register_announced plugins rcvr name useName metadata sm w :
  registrable rcvr name useName ->
  let sname := if useName then name else rc_typeName rcvr in
  exists sm', Server_Register plugins rcvr name useName metadata sm w =
    (sm', fst (DoRegister plugins sname metadata w), snd (DoRegister plugins sname metadata w)) /\
    is_Some (sm' !! sname).
Proof using Type.
  intros Hr sname. unfold Server_Register.
  pose proof (register_table rcvr name useName sm) as Hs.
  destruct (register isExported rcvr name useName sm) as [sm' [sn err]].
  destruct Hs as (Hsn & Hiff & _ & Hok). assert (err = None) as -> by (by apply Hiff).
  destruct (Hok eq_refl) as [_ Hsv]. exists sm'.
  replace (if useName then name else sn) with sname by (unfold sname; subst sn; by destruct useName).
  replace sn with sname in Hsv by done.
  destruct (DoRegister _ _ _ _). split; [done|by eexists].
Qed.
End Registry.

(** ** An instance *)

Definition upper (n : string) : bool :=
  match string_bytes n with b :: _ => (65 <=? b) && (b <=? 90) | [] => false end.
Definition ctx_type : goType := TNamed "context" "Context" true.
Definition add_method : methodInfo (W := unit) (V := unit) :=
  MkInfo "Add" "" [TPtr (TNamed "demo" "arith" false) false; ctx_type; TNamed "demo" "Args" false;
    TPtr (TNamed "" "int" false) false] [typeOfError]
    (MkMethod (fun _ => ""%string) INil INil (fun _ _ _ w => (w, (INil, ∅, Ok None)))).
Definition sum_method : methodInfo (W := unit) (V := unit) :=
  MkInfo "Sum" "" [TPtr (TNamed "demo" "arith" false) false; ctx_type; TNamed "demo" "Args" false;
    TNamed "" "int" false] [typeOfError] (mi_method add_method).
Definition demo_receiver : receiver (W := unit) (V := unit) := MkReceiver "arith" [add_method; sum_method] [].

(** [RegisterName] accepts the receiver of an unexported type, [Register] does not. *)
Lemma register_spec_witness :
  (register upper demo_receiver "Arith" true ∅).2 = ("Arith"%string, None) /\
  (register upper demo_receiver "" false ∅).2.2 <> None /\
  exists sv, (register upper demo_receiver "Arith" true ∅).1 !! "Arith"%string = Some sv /\
    (sv_method sv !! "Sum"%string = Some (mi_method sum_method) ->
     exists m, m ∈ [add_method; sum_method] /\ rpc_method upper m /\ mi_name m = "Sum"%string).
Proof.
  split; [reflexivity|]. split; [by vm_compute|].
  pose proof (register_spec upper demo_receiver "Arith" true ∅) as H.
  assert (NoDup (mi_name <$> rc_methods demo_receiver)) as Hnd by (by apply (bool_decide_unpack _)).
  specialize (H Hnd).
  assert ((register upper demo_receiver "Arith" true ∅).2 = ("Arith"%string, None)) as E by reflexivity.
  destruct (register upper demo_receiver "Arith" true ∅) as [sm' [sname err]]. injection E as -> ->.
  destruct H as (_ & _ & _ & H). destruct (H eq_refl) as [_ (sv & Hs & _ & _ & Ht)].
  exists sv. split; [exact Hs|]. intros Hl. apply Ht in Hl as (m & Hin & Hm & Hn & _). by exists m.
Defined.
