(* ===== verification/Reflection.v ===== *)
(** reflection/server_reflection.go: the plugin that describes the registered services.

    Go's reflection on a receiver is data, as in Server: the list of its methods. The JSON text of
    a type's zero value (encoding/json) and the definition gojson makes of it are parameters. *)

From S2P Require Import Prelude GoStd Share Header Message Hooks ServerPlugins Client Server Registry.

Module Reflection.

(** ** strings *)

Fixpoint hasPrefix (p l : bytes) : bool :=
  match p, l with
  | [], _ => true
  | a :: p, b :: l => (a =? b) && hasPrefix p l
  | _, [] => false
  end.

(** [strings.ReplaceAll(s, old, new)] for an [old] that is not empty. *)
Fixpoint replaceAll (fuel : nat) (old new l : bytes) : bytes :=
  match fuel with
  | O => l
  | S fuel =>
      match l with
      | [] => []
      | b :: r =>
          if hasPrefix old l then new ++ replaceAll fuel old new (drop (length old) l)
          else b :: replaceAll fuel old new r
      end
  end.

Definition ReplaceAll (s old new : string) : string :=
  bytes_string (replaceAll (S (length (string_bytes s))) (string_bytes old) (string_bytes new) (string_bytes s)).

(** [filepath.Base] of a path without a trailing slash. *)
Definition Base (l : bytes) : bytes :=
  match l with
  | [] => [46]
  | _ => match LastIndexByte 47 l with Some i => drop (S i) l | None => l end
  end.

(** [strings.TrimSpace] of a text whose first and last characters are ASCII, as those of a JSON
    text are. *)
Definition isSpace (b : Z) : bool := (9 <=? b) && (b <=? 13) || (b =? 32).

Fixpoint trimSpaceLeft (l : bytes) : bytes :=
  match l with b :: r => if isSpace b then trimSpaceLeft r else l | [] => [] end.

Definition TrimSpace (s : string) : string :=
  bytes_string (rev (trimSpaceLeft (rev (trimSpaceLeft (string_bytes s))))).

Definition nl : string := bytes_string [10].
Definition tab : string := bytes_string [9].

(** ** Data *)

Record MethodInfo := MkMethodInfo {
  m_Name : string; m_ReqName : string; m_Req : string; m_ReplyName : string; m_Reply : string;
}.

Record ServiceInfo := MkServiceInfo { si_Name : string; si_PkgPath : string; si_Methods : list MethodInfo }.

(** [ServiceInfo.String]: the template [siTemplate]. *)
Definition method_text (name : string) (m : MethodInfo) : string :=
  (nl +:+ m_Req m +:+ nl +:+ m_Reply m +:+ nl +:+ "type (s *" +:+ name +:+ ") " +:+ m_Name m +:+
   "(ctx context.Context, arg *" +:+ m_ReqName m +:+ ", reply *" +:+ m_ReplyName m +:+ ") error {" +:+ nl +:+
   tab +:+ "return nil" +:+ nl +:+ "}" +:+ nl)%string.

Definition ServiceInfo_String (si : ServiceInfo) : string :=
  ("package " +:+ si_PkgPath si +:+ nl +:+ nl +:+ "type " +:+ si_Name si +:+ " struct{}" +:+ nl +:+ nl +:+
   sconcat "" (method_text (si_Name si) <$> si_Methods si) +:+ nl)%string.

(** The name of a package as [Register] takes it from its path. *)
Definition package_name (pkgPath : string) : string :=
  let l := string_bytes pkgPath in
  let l := match IndexByte 46 l with
           | Some (S _) => match LastIndexByte 46 l with Some i => drop (S i) l | None => l end
           | _ => l
           end in
  ReplaceAll (bytes_string (Base l)) "-" "_".

Section Reflection.
Context {W V : Type} (isExported : string -> bool).
Local Abbreviation suitable := (suitable isExported).
Local Abbreviation suitableMethods := (suitableMethods isExported).
Local Abbreviation suitable_named := (suitable_named isExported).
Local Abbreviation methodInfo := (methodInfo (W := W) (V := V)).
Local Abbreviation receiver := (receiver (W := W) (V := V)).

(** The names of the argument and reply types of a method, without pointers, and what
    [generateJSON] marshals their zero values to. *)
Context (reqName replyName reqJSON replyJSON : methodInfo -> string).

(** [gojson.Generate(r, ParseJson, name, pkg, nil, false, true)]. *)
Context (gojson_Generate : string -> string -> string -> res string).

Record Reflection := MkReflection { Services : gmap string ServiceInfo }.

Definition New : Reflection := MkReflection ∅.

(** [generateTypeDefination]: no definition for a type that marshals to nothing or to an empty
    string, or when gojson fails; else its output without empty tags and package clause. *)
Definition generateTypeDefination (name pkg jsonValue : string) : string :=
  let jsonValue := TrimSpace jsonValue in
  if bool_decide (jsonValue = ""%string) || bool_decide (jsonValue = bytes_string [34; 34]) then ""%string
  else match gojson_Generate jsonValue name pkg with
       | Ok output =>
           let rt := ReplaceAll output (bytes_string [96; 96]) "" in
           ReplaceAll rt ("package " +:+ pkg +:+ nl +:+ nl) ""
       | _ => ""%string
       end.

(** The checks of [Register] on a method are those of [Server.suitable]. *)
Definition method_info (pkg : string) (m : methodInfo) : option MethodInfo :=
  if suitable m then
    Some (MkMethodInfo (mi_name m)
      (reqName m) (generateTypeDefination (reqName m) pkg (reqJSON m))
      (replyName m) (generateTypeDefination (replyName m) pkg (replyJSON m)))
  else None.

Definition service_info (rcvr : receiver) (pkgPath : string) : ServiceInfo :=
  let pkg := package_name pkgPath in
  MkServiceInfo (rc_typeName rcvr) pkg (omap (method_info pkg) (rc_methods rcvr)).

Definition Register (name : string) (rcvr : receiver) (pkgPath : string) (r : Reflection) : Reflection :=
  let si := service_info rcvr pkgPath in
  match si_Methods si with
  | [] => r
  | _ => MkReflection (<[name := si]> (Services r))
  end.

Definition Unregister (name : string) (r : Reflection) : Reflection := MkReflection (delete name (Services r)).

Definition GetService (r : Reflection) (s : string) : res string :=
  match Services r !! s with
  | None => Er (errorString ("not found service " +:+ s))
  | Some si => Ok (ServiceInfo_String si)
  end.

(** [GetServices], in the order [sis] in which the map is iterated: the header of the first
    service's package is taken out of every text, and put in front. *)
Definition package_header (si : ServiceInfo) : string := ("package " +:+ si_PkgPath si +:+ nl +:+ nl)%string.

Definition GetServices (sis : list ServiceInfo) : string :=
  match sis with
  | [] => ""%string
  | si :: _ =>
      let pkg := package_header si in
      (pkg +:+ sconcat "" ((fun si => ReplaceAll (ServiceInfo_String si) pkg "") <$> sis))%string
  end.

(** ** Agreement with the server *)

Lemma method_info_name pkg (ms : list methodInfo) :
  (m_Name <$> omap (method_info pkg) ms) = (mi_name <$> filter (fun m => suitable m = true) ms).
Proof using Type.
  induction ms as [|m ms IH]; [done|]. destruct (suitable m) eqn:E.
  - rewrite filter_cons_True by done. cbn [omap list_omap]. unfold method_info at 1. rewrite E.
    rewrite !fmap_cons. by f_equal.
  - rewrite filter_cons_False by (by rewrite E). cbn [omap list_omap]. unfold method_info at 1. by rewrite E.
Qed.

Lemma suitableMethods_dom (ms : list methodInfo) n :
  is_Some (suitableMethods ms !! n) <-> n ∈ (mi_name <$> filter (fun m => suitable m = true) ms).
Proof using Type.
  rewrite suitableMethods_lookup, fmap_is_Some, list_elem_of_fmap. split.
  - intros [m Hm]. apply last_Some_elem_of, list_elem_of_filter in Hm as [[Hs Hn] Hin].
    exists m. split; [done|]. by apply list_elem_of_filter.
  - intros (m & -> & Hm). apply list_elem_of_filter in Hm as [Hs Hin].
    destruct (last (suitable_named (mi_name m) ms)) as [x|] eqn:El; [by eexists|].
    apply last_None in El. assert (m ∈ suitable_named (mi_name m) ms) as Hx by (by apply list_elem_of_filter).
    rewrite El in Hx. by apply elem_of_nil in Hx.
Qed.

(** The plugin describes what the server serves: when the server registers a receiver under
    a name, [GetService] of that name succeeds after the plugin's hook, and the methods it
    describes are exactly those of the server's table; when the server refuses the receiver for
    having no suitable method, the plugin keeps what it had. *)
Theorem reflection_agrees rcvr name pkgPath r sm :
  name <> ""%string ->
  let '(sm', (_, err)) := register isExported rcvr name true sm in
  match err with
  | None => exists si sv, Services (Register name rcvr pkgPath r) !! name = Some si /\
      sm' !! name = Some sv /\ GetService (Register name rcvr pkgPath r) name = Ok (ServiceInfo_String si) /\
      forall n, n ∈ (m_Name <$> si_Methods si) <-> is_Some (sv_method sv !! n)
  | Some _ => Register name rcvr pkgPath r = r /\ sm' = sm
  end.
Proof using Type.
  intros Hn. unfold register. rewrite bool_decide_eq_false_2 by done. cbn [negb andb].
  assert (suitableMethods (rc_methods rcvr) = ∅ <-> si_Methods (service_info rcvr pkgPath) = []) as Hemp.
  { cbn [service_info si_Methods]. split.
    - intros He. apply (fmap_nil_inv m_Name). rewrite method_info_name.
      destruct (mi_name <$> filter _ _) as [|n l] eqn:El; [done|].
      assert (is_Some (suitableMethods (rc_methods rcvr) !! n)) as Hs.
      { apply suitableMethods_dom. rewrite El. apply list_elem_of_here. }
      rewrite He, lookup_empty in Hs. by destruct Hs.
    - intros He. apply map_eq. intros n. rewrite lookup_empty. apply eq_None_not_Some.
      rewrite suitableMethods_dom, <- (method_info_name (package_name pkgPath)), He. by intros ?%elem_of_nil. }
  destruct (bool_decide (suitableMethods (rc_methods rcvr) = ∅)) eqn:Ed.
  - apply bool_decide_eq_true in Ed. split; [|done]. unfold Register. by rewrite (proj1 Hemp Ed).
  - apply bool_decide_eq_false in Ed.
    assert (Services (Register name rcvr pkgPath r) !! name = Some (service_info rcvr pkgPath)) as Hr.
    { unfold Register. destruct (si_Methods _) eqn:Es; [by destruct (Ed (proj2 Hemp eq_refl))|].
      cbn. by rewrite lookup_insert_eq. }
    eexists _, _. split; [exact Hr|]. split; [by rewrite lookup_insert_eq|].
    split; [unfold GetService; by rewrite Hr|]. intros n. cbn [sv_method si_Methods service_info].
    by rewrite method_info_name, suitableMethods_dom.
Qed.
End Reflection.

(** ** Examples *)

Definition mul : methodInfo (W := unit) (V := unit) :=
  MkInfo "Mul" "" [TNamed "demo" "Arith" false; TNamed "context" "Context" true; TPtr (TNamed "demo" "Args" false) false;
    TPtr (TNamed "demo" "Reply" false) false] [typeOfError] (MkMethod (fun _ => ""%string) INil INil (fun _ _ _ w => (w, (INil, ∅, Ok None)))).
Definition helper : methodInfo (W := unit) (V := unit) :=
  MkInfo "Helper" "" [TNamed "demo" "Arith" false; TNamed "context" "Context" true] [typeOfError] (MkMethod (fun _ => ""%string) INil INil (fun _ _ _ w => (w, (INil, ∅, Ok None)))).
Definition arith : receiver (W := unit) (V := unit) := MkReceiver "Arith" [helper; mul] [helper; mul].

(** A stand-in for gojson: a clause, and the JSON text as a comment. *)
Definition gojson_demo (json name pkg : string) : res string :=
  Ok ("package " +:+ pkg +:+ nl +:+ nl +:+ "type " +:+ name +:+ " // " +:+ json)%string.

Local Abbreviation reg :=
  (Register (fun _ => true) (fun _ => "Args"%string) (fun _ => "Reply"%string) (fun _ => "{}"%string) (fun _ => "{}"%string) gojson_demo).

Lemma reflection_agrees_witness :
  exists si sv, Services (reg "Arith"%string arith "example.com/demo" New) !! "Arith"%string = Some si /\
    (register (fun _ => true) arith "Arith" true ∅).1 !! "Arith"%string = Some sv /\
    forall n, n ∈ (m_Name <$> si_Methods si) <-> is_Some (sv_method sv !! n).
Proof.
  pose proof (reflection_agrees (fun _ => true) (fun _ => "Args"%string) (fun _ => "Reply"%string) (fun _ => "{}"%string)
    (fun _ => "{}"%string) gojson_demo arith "Arith" "example.com/demo" New ∅ ltac:(discriminate)) as H.
  destruct (register (fun _ => true) arith "Arith" true ∅) as [sm' [n err]] eqn:E.
  assert (err = None) as -> by (vm_compute in E; congruence).
  destruct H as (si & sv & H1 & H2 & _ & H4). exists si, sv. split; [exact H1|]. split; [exact H2|exact H4].
Defined.

(** The text of a service: the types, then the methods, which [GetService] prints as types. *)
Example GetService_text :
  GetService (reg "Arith"%string arith "example.com/demo" New) "Arith" =
    Ok (sconcat nl ["package demo"; ""; "type Arith struct{}"; ""; ""; "type Args // {}"; "type Reply // {}";
      "type (s *Arith) Mul(ctx context.Context, arg *Args, reply *Reply) error {"; tab +:+ "return nil"; "}"; ""; ""]%string).
Proof. vm_compute. reflexivity. Qed.

(** Two services of different packages: the second keeps its package clause, in the middle of
    the text. *)
Example GetServices_two_packages :
  GetServices [MkServiceInfo "A" "p" []; MkServiceInfo "B" "q" []] =
    ("package p" +:+ nl +:+ nl +:+ "type A struct{}" +:+ nl +:+ nl +:+ nl +:+
     "package q" +:+ nl +:+ nl +:+ "type B struct{}" +:+ nl +:+ nl +:+ nl)%string.
Proof. vm_compute. reflexivity. Qed.

Example package_name_dashes : package_name "github.com/acme/my-svc" = "my_svc"%string.
Proof. vm_compute. reflexivity. Qed.
End Reflection.
