(* ===== verification/XGen.v ===== *)
(** tool/xgen: the generator of server programs. parser/parser.go finds the service types of Go
    files, given as syntax trees; xgen.go prints a program that registers them. *)

From S2P Require Import Prelude GoStd.

Module XGen.

(** ** Syntax trees, as far as the visitor looks *)

(** The type of a field: an identifier, a selector [x.s] on an identifier, or another. *)
Inductive texpr := TIdent (n : string) | TSelector (x s : string) | TOther.

(** A list of fields, each with the number of its names. *)
Abbreviation fields := (list (nat * texpr)).

Definition NumFields (l : fields) : nat := sum_list_with (fun f => Nat.max 1 f.1) l.

(** Type declarations, functions with their receiver's type, and what the visitor passes by. *)
Inductive decl :=
  | TypeSpec (name : string)
  | FuncDecl (recv : option string) (params results : fields)
  | OtherDecl.

Record file := MkFile { f_Name : string; f_Decls : list decl }.

(** ** The visitor *)

Record visitor := MkVisitor { v_PkgName : string; v_StructNames : gset string; v_name : string }.

Section Parser.
(** [unicode.IsUpper] of the first rune. *)
Context (isExported : string -> bool).

(** The shape of a method of a service: three parameters, the first a [context.Context], and
    one result, [error]. The result's type is asserted to be an identifier. *)
Definition isService (params results : fields) : res bool :=
  if (NumFields params =? 3)%nat && (NumFields results =? 1)%nat then
    match results with
    | (_, TIdent n) :: _ =>
        if negb (bool_decide (n = "error"%string)) then Ok false
        else match params with
             | (_, TSelector x s) :: _ => Ok (bool_decide ((x +:+ "." +:+ s)%string = "context.Context"%string))
             | _ => Ok false
             end
    | _ => Panic "interface conversion: ast.Expr is not *ast.Ident"
    end
  else Ok false.

(** [Visit] on a declaration. A function counts for the type declared last, whatever its
    receiver is. *)
Definition Visit (v : visitor) (d : decl) : res visitor :=
  match d with
  | TypeSpec name => Ok (MkVisitor (v_PkgName v) (v_StructNames v) name)
  | FuncDecl _ params results =>
      if isExported (v_name v) then
        match isService params results with
        | Ok true => Ok (MkVisitor (v_PkgName v) ({[v_name v]} ∪ v_StructNames v) (v_name v))
        | Ok false => Ok v
        | Er e => Er e
        | Panic w => Panic w
        end
      else Ok v
  | OtherDecl => Ok v
  end.

Fixpoint visit_all (v : visitor) (ds : list decl) : res visitor :=
  match ds with
  | [] => Ok v
  | d :: ds => match Visit v d with Ok v => visit_all v ds | Er e => Er e | Panic w => Panic w end
  end.

(** [ast.Walk] over a file. *)
Definition walk_file (v : visitor) (f : file) : res visitor :=
  visit_all (MkVisitor (f_Name f) (v_StructNames v) (v_name v)) (f_Decls f).

(** [Parse] of a file. *)
Definition Parse (f : file) : res visitor := walk_file (MkVisitor "" ∅ "") f.

(** ** What the visitor finds *)

(** Every method follows the declaration of its type, before the next type. *)
Fixpoint grouped (last : string) (ds : list decl) : Prop :=
  match ds with
  | [] => True
  | TypeSpec name :: ds => grouped name ds
  | FuncDecl recv _ _ :: ds => recv = Some last /\ grouped last ds
  | OtherDecl :: ds => grouped last ds
  end.

(** The result of every function is a plain identifier, where the visitor asks. *)
Definition plain_results (d : decl) : Prop :=
  match d with FuncDecl _ ps rs => forall w, isService ps rs <> Panic w | _ => True end.

Definition service_method (t : string) (d : decl) : Prop :=
  exists ps rs, d = FuncDecl (Some t) ps rs /\ isService ps rs = Ok true.

Lemma isService_not_Er ps rs e : isService ps rs <> Er e.
Proof using Type. unfold isService. by repeat case_match. Qed.

Lemma visit_all_grouped ds v :
  grouped (v_name v) ds -> Forall plain_results ds ->
  exists v', visit_all v ds = Ok v' /\
    forall t, t ∈ v_StructNames v' <->
      t ∈ v_StructNames v \/ isExported t = true /\ Exists (service_method t) ds.
Proof using Type.
  revert v. induction ds as [|d ds IH]; intros v Hg Hp.
  { exists v. split; [done|]. intros t. rewrite Exists_nil. tauto. }
  apply Forall_cons_iff in Hp as [Hd Hp].
  assert (forall t, ~ service_method t d -> Exists (service_method t) (d :: ds) <-> Exists (service_method t) ds) as Hskip.
  { intros t Hn. rewrite Exists_cons. tauto. }
  assert (forall v1, Visit v d = Ok v1 -> grouped (v_name v1) ds -> v_StructNames v1 = v_StructNames v ->
    (forall t, isExported t = true -> ~ service_method t d) ->
    exists v', visit_all v (d :: ds) = Ok v' /\ forall t, t ∈ v_StructNames v' <->
      t ∈ v_StructNames v \/ isExported t = true /\ Exists (service_method t) (d :: ds)) as Hpass.
  { intros v1 Hv Hg1 Hs Hno. cbn [visit_all]. rewrite Hv.
    destruct (IH v1 Hg1 Hp) as (v' & Hr & Ht). exists v'. split; [done|]. intros t.
    rewrite Ht, Hs. destruct (isExported t) eqn:Et; [by rewrite (Hskip t (Hno t Et))|]. split; intros [?|[? _]]; auto; done. }
  destruct d as [name|recv ps rs|].
  - eapply Hpass; [done|exact Hg|done|]. by intros t _ (? & ? & [=] & _).
  - destruct Hg as [-> Hg]. cbn [plain_results] in Hd. pose proof (isService_not_Er ps rs) as He.
    destruct (isExported (v_name v)) eqn:Ex.
    + destruct (isService ps rs) as [[]|e|w] eqn:Es; [| |by destruct (He e)|by destruct (Hd w)].
      * cbn [visit_all Visit]. rewrite Ex, Es.
        destruct (IH (MkVisitor (v_PkgName v) ({[v_name v]} ∪ v_StructNames v) (v_name v)) Hg Hp) as (v' & Hr & Ht).
        exists v'. split; [done|]. intros t. rewrite Ht. cbn [v_StructNames]. rewrite elem_of_union, elem_of_singleton, Exists_cons.
        split.
        -- intros [[->|?]|[? ?]]; auto. right. split; [done|]. left. by exists ps, rs.
        -- intros [?|[? [(ps' & rs' & [= -> <- <-] & _)|?]]]; auto.
      * eapply (Hpass v); [cbn; by rewrite Ex, Es|exact Hg|done|].
        intros t _ (ps' & rs' & [= _ <- <-] & Hs). congruence.
    + eapply (Hpass v); [cbn; by rewrite Ex|exact Hg|done|].
      intros t Ht (ps' & rs' & [= <- _ _] & _). congruence.
  - eapply (Hpass v); [done|exact Hg|done|]. by intros t _ (? & ? & [=] & _).
Qed.

Lemma visit_all_pkg ds v v' : visit_all v ds = Ok v' -> v_PkgName v' = v_PkgName v.
Proof using Type.
  revert v. induction ds as [|d ds IH]; intros v; cbn; [by intros [= ->]|].
  destruct (Visit v d) as [v1|e|w] eqn:E; [|done..]. intros H. rewrite (IH v1 H).
  destruct d; cbn in E; repeat case_match; by simplify_eq.
Qed.

Lemma Parse_finds_services f :
  grouped "" (f_Decls f) -> Forall plain_results (f_Decls f) ->
  exists v, Parse f = Ok v /\ v_PkgName v = f_Name f /\
    forall t, t ∈ v_StructNames v <-> isExported t = true /\ Exists (service_method t) (f_Decls f).
Proof using Type.
  intros Hg Hp. destruct (visit_all_grouped (f_Decls f) (MkVisitor (f_Name f) ∅ "") Hg Hp) as (v & Hr & Ht).
  exists v. split; [exact Hr|]. split; [by apply visit_all_pkg in Hr|].
  intros t. rewrite Ht. cbn [v_StructNames]. rewrite elem_of_empty. tauto.
Qed.
End Parser.

(** ** generate *)

Section Generate.
(** The flags -tags and -r. *)
Context (buildTags registry : string).

(** A parsed file or package, with the order in which its map of names is iterated. *)
Record parsed := MkParsed { p_PkgFullName : string; p_PkgName : string; p_StructNames : list string }.

Definition dq : string := bytes_string [34].
Definition quoted (s : string) : string := (dq +:+ s +:+ dq)%string.

(** The import lines: a package once. *)
Fixpoint importLines (seen : gset string) (ps : list parsed) : list string :=
  match ps with
  | [] => []
  | p :: ps =>
      if bool_decide (p_PkgFullName p ∈ seen) then importLines seen ps
      else ("  " +:+ quoted (p_PkgFullName p))%string :: importLines ({[p_PkgFullName p]} ∪ seen) ps
  end.

Definition registerLine (p : parsed) (n : string) : string :=
  ("	s.Register(new(" +:+ p_PkgName p +:+ "." +:+ n +:+ "), " +:+ quoted "" +:+ ")")%string.

Definition registerLines (ps : list parsed) : list string :=
  ps ≫= (fun p => registerLine p <$> p_StructNames p).

Definition has_rAddr : bool := bool_decide (registry ∈ ["etcd"; "consul"; "zookeeper"]%string).

Definition mainFn : list string :=
  [""; "var ("; ("	addr     = flag.String(" +:+ quoted "addr" +:+ ", " +:+ quoted "localhost:8972" +:+ ", " +:+ quoted "server address" +:+ ")")]%string ++
  (if has_rAddr then [("	rAddr = flag.String(" +:+ quoted "rAddr" +:+ ", " +:+ quoted "localhost:2379" +:+ ", " +:+ quoted "register address" +:+ ")")%string] else []) ++
  [("	basePath = flag.String(" +:+ quoted "base" +:+ ", " +:+ quoted "/rpcx" +:+ ", " +:+ quoted "prefix path" +:+ ")"); ")"; "	";
   "func main() {"; "	flag.Parse()"; ""; "	_ = time.Second"; "	_ = metrics.UseNilMetrics"; "	_ = serverplugin.GetFunctionName"; "";
   "	s := server.NewServer()"; "	addRegistryPlugin(s)"; ""; "	registerServices(s)"; "";
   ("	s.Serve(" +:+ quoted "tcp" +:+ ", *addr)"); "}"]%string.

(** The plugin of the registry that was asked for. *)
Definition pluginLines : list string :=
  let plugin (name servers pad : string) :=
    ["	// add registery"; ("	r := &serverplugin." +:+ name +:+ "{");
     ("		ServiceAddress: " +:+ pad +:+ quoted "tcp@" +:+ " + *addr,");
     ("		" +:+ servers +:+ "[]string{*rAddr},"); ("		BasePath:       " +:+ pad +:+ "*basePath,");
     ("		Metrics:        " +:+ pad +:+ "metrics.NewRegistry(),");
     ("		UpdateInterval: " +:+ pad +:+ "time.Minute,"); "	}"]%string in
  if bool_decide (registry = "etcd"%string) then plugin "EtcdRegisterPlugin"%string "EtcdServers:    "%string ""%string
  else if bool_decide (registry = "consul"%string) then plugin "ConsulRegisterPlugin"%string "ConsulServers:  "%string ""%string
  else if bool_decide (registry = "zookeeper"%string)
  then plugin "ZooKeeperRegisterPlugin"%string "ZooKeeperServers: "%string "  "%string
  else if bool_decide (registry = "mdns"%string)
  then [""; ("			r := serverplugin.NewMDNSRegisterPlugin(" +:+ quoted "tcp@" +:+ "+*addr, 8972, metrics.NewRegistry(), time.Minute, " +:+ quoted "" +:+ ")")]%string
  else [""; "		"]%string.

Definition useRegistry : bool := bool_decide (registry ∈ ["etcd"; "consul"; "zookeeper"; "mdns"]%string).

(** The lines of the program. *)
Definition generate (ps : list parsed) : list string :=
  (if bool_decide (buildTags = ""%string) then [] else [("// +build  " +:+ buildTags)%string; ""%string]) ++
  ["// AUTOGENERATED FILE: rpcx server stub code"; "// compilable during generation."; ""; "package main"; "";
   "import ("; ("  " +:+ quoted "flag"); ("  " +:+ quoted "time"); "";
   ("  metrics " +:+ quoted "github.com/rcrowley/go-metrics");
   ("  " +:+ quoted "github.com/thkhxm/rpcx/v2/server"); ("  " +:+ quoted "github.com/thkhxm/rpcx/v2/serverplugin")]%string ++
  importLines ∅ ps ++ [")"; ""]%string ++ mainFn ++
  ["func registerServices(s *server.Server) {"%string] ++ registerLines ps ++ ["}"%string] ++
  ["func addRegistryPlugin(s *server.Server) {"%string] ++ pluginLines ++
  (if useRegistry then [""; "	err := r.Start()"; "	if err != nil {"; "		//log.Fatal(err)"; "	}"; "	s.Plugins.Add(r)"]%string else []) ++
  ["}"%string].

(** Every service type that was found is registered, and every package is imported, once. *)
Lemma importLines_spec seen ps :
  forall s, s ∈ importLines seen ps <->
    exists p, p ∈ ps /\ p_PkgFullName p ∉ seen /\ s = ("  " +:+ quoted (p_PkgFullName p))%string.
Proof using Type.
  revert seen. induction ps as [|p ps IH]; intros seen s; cbn [importLines].
  { split; [by intros ?%elem_of_nil|]. by intros (p & ?%elem_of_nil & _). }
  case_bool_decide as Hs; [|rewrite elem_of_cons]; rewrite IH.
  - split; [intros (q & Hq & Hr); exists q; split; [by right|done]|].
    intros (q & [->|Hq]%elem_of_cons & Hn & Hr); [done|]. by exists q.
  - split.
    + intros [->|(q & Hq & Hn & ->)]; [exists p; split; [by left|done]|].
      exists q. split; [by right|]. split; [intros Hin; apply Hn, elem_of_union; by right|done].
    + intros (q & [->|Hq]%elem_of_cons & Hn & ->); [by left|].
      destruct (decide (p_PkgFullName q = p_PkgFullName p)) as [->|Hne]; [by left|].
      right. exists q. split; [done|]. split; [by intros [?%elem_of_singleton|?]%elem_of_union|done].
Qed.

Lemma generate_registers ps p n :
  p ∈ ps -> n ∈ p_StructNames p -> registerLine p n ∈ generate ps /\ ("  " +:+ quoted (p_PkgFullName p))%string ∈ generate ps.
Proof using Type.
  intros Hp Hn. split.
  - unfold generate. rewrite !elem_of_app. do 6 right. left. apply list_elem_of_bind.
    exists p. split; [|done]. by apply list_elem_of_fmap_2.
  - unfold generate. rewrite !elem_of_app. do 2 right. left. apply importLines_spec.
    exists p. split; [done|]. split; [apply not_elem_of_empty|done].
Qed.

(** From a source file in which the methods of a type follow its declaration to the program:
    the parser finds exactly the exported types with a method of the shape of a service, and,
    whatever the order of its map, the generated program imports the package and registers each
    of them. *)
Theorem xgen_registers_services isExported f full :
  grouped "" (f_Decls f) -> Forall plain_results (f_Decls f) ->
  exists v, Parse isExported f = Ok v /\
    (forall t, t ∈ v_StructNames v <-> isExported t = true /\ Exists (service_method t) (f_Decls f)) /\
    forall names t, names ≡ₚ elements (v_StructNames v) -> isExported t = true -> Exists (service_method t) (f_Decls f) ->
      let ps := [MkParsed full (f_Name f) names] in
      registerLine (MkParsed full (f_Name f) names) t ∈ generate ps /\ ("  " +:+ quoted full)%string ∈ generate ps.
Proof using Type.
  intros Hg Hp. destruct (Parse_finds_services isExported f Hg Hp) as (v & Hv & _ & Ht).
  exists v. split; [done|]. split; [done|]. intros names t Hperm He Hs ps.
  apply (generate_registers ps (MkParsed full (f_Name f) names)); [apply list_elem_of_here|].
  cbn. rewrite Hperm. apply elem_of_elements, Ht. done.
Qed.

(** ** main *)

(** What the program printed, and the file that -o names, once it was created. *)
Record output := MkOutput { o_stdout : list string; o_file : option (list string) }.

(** [generate], whose error main drops: the file is created anew, the terminal is written on. *)
Definition write_program (specifiedName : string) (created : bool) (ps : list parsed) (o : output) : output :=
  if bool_decide (specifiedName = ""%string) then MkOutput (o_stdout o ++ generate ps) (o_file o)
  else if created then MkOutput (o_stdout o) (Some (generate ps)) else o.

(** How the program ends. *)
Inductive ending := Fatal (why : string) | Usage | Crashed (e : error) | Stopped (why : string) | Finished.

(** The file system and go/parser: [stat] says whether a path is a directory, [abs] is
    [filepath.Abs] of a path that is not absolute, [rel] the path under GOPATH/src. *)
Context (GOPATH : string).
Context (stat : string -> res bool) (abs rel : string -> res string) (parse : string -> bool -> res parsed).
Context (specifiedName : string) (created : bool).

Fixpoint main_loop (files : list string) (parsers : list parsed) (o : output) : output * ending :=
  match files with
  | [] => (o, Finished)
  | fname :: files =>
      match stat fname with
      | Ok isDir =>
          match abs fname with
          | Ok fname =>
              match rel fname with
              | Ok relDir =>
                  match parse fname isDir with
                  | Ok p =>
                      let parsers := parsers ++ [MkParsed relDir (p_PkgName p) (p_StructNames p)] in
                      main_loop files parsers (write_program specifiedName created parsers o)
                  | Er e => (MkOutput (o_stdout o ++ [("Error parsing " +:+ fname +:+ ": " +:+ Error_text e)%string]) (o_file o),
                             Stopped "parse")
                  | Panic why => (o, Crashed (errorString why))
                  end
              | Er e => (MkOutput (o_stdout o ++ [("provided directory not under GOPATH (" +:+ GOPATH +:+ "): " +:+ Error_text e)%string]) (o_file o),
                         Stopped "not under GOPATH")
              | Panic why => (o, Crashed (errorString why))
              end
          | Er e => (o, Crashed e)
          | Panic why => (o, Crashed (errorString why))
          end
      | Er e => (o, Crashed e)
      | Panic why => (o, Crashed (errorString why))
      end
  end.

(** [join] is the path of a package under GOPATH/src, used with -pkg. *)
Definition xgen_main (processPkg : bool) (join : string -> string) (args : list string) : output * ending :=
  let o := MkOutput [] None in
  if processPkg && bool_decide (args = []) then (o, Fatal "not set packages")
  else
    let files := if processPkg then join <$> args else args in
    if bool_decide (files = []) then (o, Usage) else main_loop files [] o.

(** A file that is read without trouble. *)
Definition reads (fname : string) (p : parsed) : Prop :=
  exists isDir full r, stat fname = Ok isDir /\ abs fname = Ok full /\ rel full = Ok (p_PkgFullName p) /\
    parse full isDir = Ok r /\ p_PkgName r = p_PkgName p /\ p_StructNames r = p_StructNames p.

Lemma main_loop_reads files ps done_ o :
  Forall2 reads files ps ->
  main_loop files done_ o =
    (foldl (fun o n => write_program specifiedName created (done_ ++ take (S n) ps) o) o (seq 0 (length ps)), Finished).
Proof using Type.
  intros Hr. revert done_ o. induction Hr as [|fname p files ps Hf _ IH]; intros done_ o; [done|].
  destruct Hf as (isDir & full & r & H1 & H2 & H3 & H4 & H5 & H6). cbn [main_loop]. rewrite H1, H2, H3, H4, H5, H6.
  assert (MkParsed (p_PkgFullName p) (p_PkgName p) (p_StructNames p) = p) as -> by (by destruct p).
  rewrite IH. cbn [length seq foldl take]. f_equal. rewrite <- fmap_S_seq.
  change (take 0 ps) with (@nil parsed). generalize (write_program specifiedName created (done_ ++ [p]) o) as o1. clear.
  generalize (seq 0 (length ps)) as ns. intros ns o1. revert o1. induction ns as [|n ns IH]; intros o1; [done|].
  cbn [fmap list_fmap foldl]. rewrite <- app_assoc. exact (IH _).
Qed.

(** With -o, the file holds the program of all files in the end. Without it the program is
    printed after every file, for the files so far: with several files the text on the terminal
    is no Go program. *)
Theorem xgen_output (processPkg : bool) (join : string -> string) args files ps :
  args <> [] -> files = (if processPkg then join <$> args else args) -> Forall2 reads files ps ->
  (specifiedName <> ""%string -> created = true ->
     xgen_main processPkg join args = (MkOutput [] (Some (generate ps)), Finished)) /\
  (specifiedName = ""%string ->
     xgen_main processPkg join args =
       (MkOutput (concat ((fun n => generate (take (S n) ps)) <$> seq 0 (length ps))) None, Finished)).
Proof using Type.
  intros Ha -> Hr. unfold xgen_main. rewrite (bool_decide_eq_false_2 (args = [])) by done. rewrite andb_false_r.
  assert ((if processPkg then join <$> args else args) <> []) as Hne by (destruct processPkg; [by intros ?%fmap_nil_inv|done]).
  rewrite (bool_decide_eq_false_2 _ Hne).
  rewrite (main_loop_reads _ ps [] _ Hr). unfold write_program. split.
  - intros Hs ->. f_equal. destruct ps as [|p ps].
    { apply Forall2_nil_inv_r in Hr. destruct processPkg; [by apply fmap_nil_inv in Hr|done]. }
    rewrite bool_decide_eq_false_2 by done. clear. cbn [app].
    assert (forall ns o, ns <> [] -> foldl (fun o n => MkOutput (o_stdout o) (Some (generate (take (S n) (p :: ps))))) o ns =
      MkOutput (o_stdout o) (Some (generate (take (S (List.last ns 0%nat)) (p :: ps))))) as Hf.
    { intros ns. induction ns as [|n ns IH]; intros o Hn; [done|]. destruct ns as [|m ns]; [done|].
      cbn [foldl] in *. rewrite (IH _ ltac:(done)). done. }
    rewrite Hf by done. cbn [o_stdout]. do 3 f_equal.
    assert (List.last (seq 0 (length (p :: ps))) 0%nat = length ps) as ->.
    { cbn [length]. rewrite seq_S. apply last_last. }
    cbn [take]. f_equal. apply take_ge. lia.
  - intros ->. f_equal. rewrite bool_decide_eq_true_2 by done. cbn [app].
    assert (forall ns o, foldl (fun o n => MkOutput (o_stdout o ++ generate (take (S n) ps)) (o_file o)) o ns =
      MkOutput (o_stdout o ++ concat ((fun n => generate (take (S n) ps)) <$> ns)) (o_file o)) as Hf.
    { intros ns. induction ns as [|n ns IH]; intros o; cbn; [rewrite app_nil_r; by destruct o|].
      rewrite IH. cbn. by rewrite <- app_assoc. }
    by rewrite Hf.
Qed.
End Generate.

(** ** Examples *)

Definition serve_params : fields := [(1%nat, TSelector "context" "Context"); (1%nat, TOther); (1%nat, TOther)].
Definition serve_results : fields := [(0%nat, TIdent "error")].
Definition upper (s : string) : bool := match string_bytes s with b :: _ => (65 <=? b) && (b <=? 90) | [] => false end.

Definition good_file : file :=
  MkFile "demo" [TypeSpec "Args"; TypeSpec "Arith"; FuncDecl (Some "Arith"%string) serve_params serve_results].

Lemma xgen_registers_services_witness :
  registerLine (MkParsed "demo" "demo" ["Arith"%string]) "Arith" ∈
    generate "" "mdns" [MkParsed "demo" "demo" ["Arith"%string]].
Proof.
  destruct (xgen_registers_services "" "mdns" upper good_file "demo") as (v & Hv & _ & Hg).
  - repeat split.
  - repeat constructor. intros w. vm_compute. discriminate.
  - vm_compute in Hv. injection Hv as <-.
    apply (Hg ["Arith"%string] "Arith"%string); [reflexivity|reflexivity|].
    right. right. left. eexists _, _. split; reflexivity.
Defined.

(** A method that is declared after another type counts for that type: the program registers
    [Reply], and not [Arith]. *)
Example xgen_misattributes :
  exists v, Parse upper (MkFile "demo" [TypeSpec "Arith"; TypeSpec "Reply"; FuncDecl (Some "Arith"%string) serve_params serve_results]) = Ok v /\
    v_StructNames v = {["Reply"%string]}.
Proof. eexists. split; [reflexivity|vm_compute; reflexivity]. Qed.

(** A function with three parameters that returns a pointer stops the generator. *)
Example xgen_panics :
  Parse upper (MkFile "demo" [TypeSpec "Arith"; FuncDecl None serve_params [(0%nat, TOther)]]) =
    Panic "interface conversion: ast.Expr is not *ast.Ident".
Proof. reflexivity. Qed.
End XGen.
