(* ===== verification/ServerProofs.v ===== *)
(** Correctness of the request handling of server/server.go. *)

From S2P Require Import Prelude GoStd Share Header Message Hooks ServerPlugins Client Server.

(** ** Headers of responses *)

(** [m] answers [req]: same call, same number, a response. *)
Definition response_to (req m : Message) : Prop :=
  ServicePath m = ServicePath req /\ ServiceMethod m = ServiceMethod req /\
  Seq (m_header m) = Seq (m_header req) /\
  MessageType (m_header m) = Response /\
  IsHeartbeat (m_header m) = IsHeartbeat (m_header req) /\
  IsOneway (m_header m) = IsOneway (m_header req) /\
  SerializeType (m_header m) = SerializeType (m_header req) /\ header_ok (m_header m).

(** The fields of a header that decide what it answers. *)
Definition core (h : Header) : Z * Z * bool * bool * Z :=
  let v := hview h in (hv_seq v, hv_type v, hv_heartbeat v, hv_oneway v, hv_serialize v).

Lemma CompressType_byte h : header_ok h -> is_byte (CompressType h).
Proof.
  intros Hh. unfold CompressType. pose proof (hget_byte h 2 Hh) as Hb. revert Hb.
  generalize (hget h 2) as b. intros b Hb.
  assert ((0 <=? Z.shiftr (Z.land b 28) 2) && (Z.shiftr (Z.land b 28) 2 <? 256) = true) as H.
  { revert b Hb. by_bytes1 (fun b => (0 <=? Z.shiftr (Z.land b 28) 2) && (Z.shiftr (Z.land b 28) 2 <? 256)). }
  unfold is_byte. zbool. lia.
Qed.

Lemma core_SetCompressType ct h : header_ok h -> is_byte ct -> core (SetCompressType ct h) = core h.
Proof. intros. unfold core. by rewrite hview_SetCompressType. Qed.

Lemma core_SetStatus st h : header_ok h -> is_byte st -> core (SetMessageStatusType st h) = core h.
Proof. intros. unfold core. by rewrite hview_SetMessageStatusType. Qed.

Lemma core_compress `{Compressors} h p :
  header_ok h -> core (fst (compressPayload h p)) = core h /\ header_ok (fst (compressPayload h p)).
Proof.
  intros Hh. unfold compressPayload.
  assert (is_byte None_) by (unfold is_byte, None_; lia).
  repeat split_match; cbn [fst]; rewrite ?core_SetCompressType by done; auto with rpcx.
Qed.

Lemma type_or_response h : header_ok h -> Z.lor (MessageType h) (Response mod 2) = Response.
Proof.
  intros Hh. unfold MessageType. pose proof (hget_byte h 2 Hh) as Hb. revert Hb.
  generalize (hget h 2) as b. intros b Hb. apply Z.eqb_eq.
  revert b Hb. by_bytes1 (fun b => Z.lor (Z.shiftr (Z.land b 128) 7) (Response mod 2) =? Response).
Qed.

Lemma response_to_core req m :
  ServicePath m = ServicePath req -> ServiceMethod m = ServiceMethod req ->
  header_ok (m_header m) ->
  core (m_header m) = (Seq (m_header req), Response, IsHeartbeat (m_header req),
                       IsOneway (m_header req), SerializeType (m_header req)) ->
  response_to req m.
Proof. intros H1 H2 H3 [= H4 H5 H6 H7 H8]. split_and!; done. Qed.

(** The response that [handleRequest] starts from. *)
Lemma newResponse_answers req :
  header_ok (m_header req) -> response_to req (newResponse req).
Proof.
  intros Hh. assert (is_byte None_) as H0 by (unfold is_byte, None_; lia).
  assert (is_byte Response) as H1 by (unfold is_byte, Response; lia).
  apply response_to_core; [done|done| |].
  { apply header_ok_SetMessageType. by apply header_ok_SetCompressType. }
  unfold core.
  change (m_header (newResponse req))
    with (SetMessageType Response (SetCompressType None_ (m_header req))).
  rewrite hview_SetMessageType, hview_SetCompressType by auto with rpcx.
  cbn [hv_seq hv_type hv_heartbeat hv_oneway hv_serialize hview].
  by rewrite type_or_response.
Qed.

(** Changes that keep what a message answers. *)
Lemma response_to_same req m m' :
  response_to req m -> ServicePath m' = ServicePath m -> ServiceMethod m' = ServiceMethod m ->
  core (m_header m') = core (m_header m) -> header_ok (m_header m') -> response_to req m'.
Proof.
  intros (H1 & H2 & H3 & H4 & H5 & H6 & H7 & H8) Hp Hm Hc Hok.
  apply response_to_core; [congruence|congruence|done|]. rewrite Hc. unfold core.
  unfold Response in *. cbn. by rewrite H3, H4, H5, H6, H7.
Qed.

Section Handling.
Context {W C V : Type}.
Context {compressors : Compressors}.
Context (s : Server (W := W) (C := C) (V := V)).

Lemma handled_inj {A B X} (a a' : A) (b b' : B) (x y : X) :
  (a, b, Ok x) = (a', b', Ok y) -> x = y.
Proof. congruence. Qed.

Lemma handleError_answers req m err :
  response_to req m -> response_to req (fst (handleError s m err)).
Proof.
  intros H. assert (is_byte StatusError) as Hb by (unfold is_byte, StatusError; lia).
  assert (header_ok (m_header m)) as Hok by apply H.
  eapply response_to_same; [exact H|done|done| |]; [by apply core_SetStatus|by apply header_ok_SetMessageStatusType].
Qed.

Lemma on_wire_answers req m : response_to req m -> response_to req (on_wire m).
Proof.
  intros H. assert (header_ok (m_header m)) as Hok by apply H.
  destruct (core_compress (m_header m) (Payload m) Hok).
  by eapply response_to_same; [exact H|..].
Qed.

Lemma mergeResMeta_answers req m rm : response_to req m -> response_to req (mergeResMeta rm m).
Proof.
  intros H. unfold mergeResMeta. assert (header_ok (m_header m)) as Hok by apply H.
  repeat split_match; try done; by eapply response_to_same; [exact H|..].
Qed.

(** Whatever happens in the service, the response answers the request. *)
Lemma invoke_answers req mt on_error w w' rm m e :
  (forall codec r err, response_to req (fst (on_error codec r err))) ->
  header_ok (m_header req) ->
  invoke s req (newResponse req) mt on_error w = (w', rm, Ok (m, e)) -> response_to req m.
Proof.
  intros Hon Hh. pose proof (newResponse_answers req Hh) as Hn. unfold invoke.
  assert (forall err m e, handleError s (newResponse req) err = (m, e) -> response_to req m) as Hhe.
  { intros err m' e' He. change m' with (fst (m', e')). rewrite <- He. by apply handleError_answers. }
  destruct (Codecs s _) as [codec|]; [|intros H%handled_inj; exact (Hhe _ _ _ H)].
  destruct (codec_Decode codec _ _) as [argv [[]|err|why]]; [|intros H%handled_inj; exact (Hhe _ _ _ H)|done].
  destruct (DoPreCall _ _ _ argv w) as [w1 [argv1 [err|]]]; [intros H%handled_inj; exact (Hhe _ _ _ H)|].
  destruct (call mt _ argv1 _ w1) as [w2 [[r rm'] err]].
  destruct (DoPostCall _ _ _ argv1 r err w2) as [w3 [r' err1]].
  destruct (match err with None => err1 | e => e end) as [err2|].
  - intros H%handled_inj. change m with (fst (m, e)). rewrite <- H. apply Hon.
  - destruct (negb (IsOneway (m_header req))).
    + destruct (codec_Encode codec r') as [data [err2|]]; intros H%handled_inj; [exact (Hhe _ _ _ H)|].
      injection H as <- _. by eapply response_to_same; [exact Hn|..]; try done; apply Hn.
    + intros H%handled_inj. injection H as <- _. done.
Qed.

Lemma handleRequest_answers req w w' rm m e :
  header_ok (m_header req) -> handleRequest s req w = (w', rm, Ok (m, e)) -> response_to req m.
Proof.
  intros Hh. pose proof (newResponse_answers req Hh) as Hn.
  assert (forall err m e, handleError s (newResponse req) err = (m, e) -> response_to req m) as Hhe.
  { intros err m' e' He. change m' with (fst (m', e')). rewrite <- He. by apply handleError_answers. }
  unfold handleRequest, handleRequestForFunction.
  destruct (serviceMap s !! ServicePath req) as [sv|]; [|intros H%handled_inj; exact (Hhe _ _ _ H)].
  destruct (sv_method sv !! ServiceMethod req) as [mt|].
  - apply invoke_answers; [|done]. intros codec r err. unfold method_error.
    destruct (negb (isINil r)); [|by apply handleError_answers].
    destruct (codec_Encode codec r) as [data [err2|]]; apply handleError_answers; [done|].
    by eapply response_to_same; [exact Hn|..]; try done; apply Hn.
  - destruct (default ∅ (sv_function sv) !! ServiceMethod req) as [mt|].
    + apply invoke_answers; [|done]. intros codec r err. by apply handleError_answers.
    + intros H%handled_inj; exact (Hhe _ _ _ H).
Qed.

(** What a response is made of: the encoded reply, with the error on top when there is one. *)
Definition outcome (req : Message) (r : Message * option error) : Prop :=
  exists data,
    match r.2 with
    | Some err => r = handleError s (set_payload data (newResponse req)) err
    | None => r = (set_payload data (newResponse req), None)
    end.

Lemma outcome_error req err : outcome req (handleError s (newResponse req) err).
Proof. by exists []. Qed.

Lemma invoke_outcome req mt on_error w w' rm r :
  (forall codec r err, outcome req (on_error codec r err)) ->
  invoke s req (newResponse req) mt on_error w = (w', rm, Ok r) -> outcome req r.
Proof.
  intros Hon. unfold invoke. pose proof (outcome_error req) as Hhe.
  assert (forall (a : W * meta) r', (a, Ok r') = (w', rm, Ok r) -> outcome req r' -> outcome req r) as Hin
    by (intros a r' [= _ <-]; done).
  destruct (Codecs s _) as [codec|]; [|intros H; exact (Hin _ _ H (Hhe _))].
  destruct (codec_Decode codec _ _) as [argv [[]|err|why]]; [|intros H; exact (Hin _ _ H (Hhe _))|done].
  destruct (DoPreCall _ _ _ argv w) as [w1 [argv1 [err|]]]; [intros H; exact (Hin _ _ H (Hhe _))|].
  destruct (call mt _ argv1 _ w1) as [w2 [[v rm'] err]].
  destruct (DoPostCall _ _ _ argv1 v err w2) as [w3 [v' err1]].
  destruct (match err with None => err1 | e => e end) as [err2|];
    [intros H; exact (Hin _ _ H (Hon _ _ _))|].
  destruct (negb (IsOneway (m_header req))).
  - destruct (codec_Encode codec v') as [data [err2|]]; intros H; apply (Hin _ _ H); [apply Hhe|].
    by exists data.
  - intros H; apply (Hin _ _ H). by exists [].
Qed.

Lemma handleRequest_outcome req w w' rm r :
  handleRequest s req w = (w', rm, Ok r) -> outcome req r.
Proof.
  pose proof (outcome_error req) as Hhe.
  assert (forall (a : W * meta) r', (a, Ok r') = (w', rm, Ok r) -> outcome req r' -> outcome req r) as Hin
    by (intros a r' [= _ <-]; done).
  unfold handleRequest, handleRequestForFunction.
  destruct (serviceMap s !! ServicePath req) as [sv|]; [|intros H; exact (Hin _ _ H (Hhe _))].
  destruct (sv_method sv !! ServiceMethod req) as [mt|].
  - apply invoke_outcome. intros codec v err. unfold method_error.
    destruct (negb (isINil v)); [|apply Hhe].
    destruct (codec_Encode codec v) as [data [err2|]]; [apply Hhe|]. by exists data.
  - destruct (default ∅ (sv_function sv) !! ServiceMethod req) as [mt|];
      [|intros H; exact (Hin _ _ H (Hhe _))].
    apply invoke_outcome. intros codec v err. apply Hhe.
Qed.

(** A method sees the metadata of its request as a map, nil or not. *)
Lemma handleRequest_nil_meta req w :
  handleRequest s (set_meta (Some (default ∅ (Metadata req))) req) w = handleRequest s req w.
Proof. by destruct req as [h sp sm [md|] p d]. Qed.

(** ** Exactly one response *)

(** The hooks around a request leave it and its response as they are. *)
Definition transparent : Prop :=
  (forall req w, exists w' e, DoPreHandleRequest (Plugins s) req w = (w', (req, e))) /\
  (forall req res err w, exists w' e,
     DoPreWriteResponse (Plugins s) req res err w = (w', (res, e))).

(** The codec of the request panics on its payload, for some argument. *)
Definition decoder_panics (req : Message) (why : string) : Prop :=
  exists codec r, Codecs s (SerializeType (m_header req)) = Some codec /\
    snd (codec_Decode codec (Payload req) r) = Panic why.

Definition decodes (req : Message) : Prop := forall why, ~ decoder_panics req why.

(** A request is handled to its end, or its decoder panics. *)
Definition ends (req : Message) (h : handled (W := W)) : Prop :=
  match h with
  | (_, _, Ok _) => True
  | (_, _, Panic why) => decoder_panics req why
  | (_, _, Er _) => False
  end.

Lemma invoke_ends req res mt on_error w : ends req (invoke s req res mt on_error w).
Proof using Type.
  unfold invoke. destruct (Codecs s _) as [codec|] eqn:Ec; [|done].
  destruct (codec_Decode codec _ _) as [argv [[]|err|why]] eqn:Ed; [|done|].
  - repeat split_match; done.
  - exists codec, (mt_newArg mt). by rewrite Ed.
Qed.

Lemma handleRequest_ends req w : ends req (handleRequest s req w).
Proof using Type.
  unfold handleRequest, handleRequestForFunction.
  repeat split_match; try done; apply invoke_ends.
Qed.

Lemma handleRequest_returns req w :
  decodes req -> exists w' rm m, handleRequest s req w = (w', rm, Ok m).
Proof using Type.
  intros Hd. pose proof (handleRequest_ends req w) as He.
  destruct (handleRequest s req w) as [[w' rm] [m|e|why]]; [eauto|done|by destruct (Hd why)].
Qed.

Lemma sendResponse_answers err req m w :
  transparent -> header_ok (m_header req) -> response_to req m ->
  exists w' m' out, sendResponse s err req m w = (w', ([m'], out)) /\ response_to req m' /\
    (out = Ok tt \/ exists why, out = Panic why /\ post_write_panics (Plugins s) why).
Proof.
  intros [_ Hpw] Hreq Hm. unfold sendResponse.
  set (m1 := if _ && _ then _ else m).
  assert (response_to req m1) as Hm1.
  { unfold m1. destruct (_ && _)%bool; [|done]. assert (header_ok (m_header m)) as Hok by apply Hm.
    pose proof (CompressType_byte _ Hreq).
    eapply response_to_same; [exact Hm|done|done|by apply core_SetCompressType|].
    by apply header_ok_SetCompressType. }
  destruct (Hpw req (Some m1) err w) as (w1 & e & ->). cbn [default].
  destruct (DoPostWriteResponse _ _ _ _ w1) as [w2 e2] eqn:Ep.
  eexists _, _, _. split; [reflexivity|]. split; [by apply on_wire_answers|].
  destruct e2 as [[]|e2|why]; [by left|by left|]. right. exists why.
  split; [done|]. by eapply DoPostWriteResponse_panics.
Qed.

Lemma processOneRequest_answers req w :
  transparent -> header_ok (m_header req) -> IsHeartbeat (m_header req) = false ->
  router s !! (ServicePath req +:+ "." +:+ ServiceMethod req)%string = None ->
  exists w' ms, processOneRequest s req w = (w', ms) /\
    ((if IsOneway (m_header req) then ms = [] else exists m, ms = [m] /\ response_to req m) \/
     ms = [] /\ exists why, decoder_panics req why).
Proof.
  intros Htr Hok Hhb Hrt. unfold processOneRequest. rewrite Hhb.
  set (req1 := set_meta (Some (default ∅ (Metadata req))) req).
  destruct (proj1 Htr req1 w) as (w1 & e & ->).
  change (ServicePath req1) with (ServicePath req).
  change (ServiceMethod req1) with (ServiceMethod req). rewrite Hrt.
  pose proof (handleRequest_ends req1 w1) as He.
  destruct (handleRequest s req1 w1) as [[w2 rm] [[m err]|er|why]] eqn:Hh; [|done|].
  2:{ eexists _, _. split; [reflexivity|]. right. split; [done|]. by exists why. }
  change (m_header req1) with (m_header req).
  destruct (IsOneway (m_header req)); cbn [negb]; [eexists _, _; split; [reflexivity|by left]|].
  assert (response_to req1 m) as Hm by by eapply handleRequest_answers.
  destruct (sendResponse_answers err req1 (mergeResMeta rm m)
              (match err with Some e => report s e w2 | None => w2 end))
    as (w3 & m' & out & -> & Hm' & _); [done|done|by apply mergeResMeta_answers|].
  eexists _, _. split; [reflexivity|]. left. eauto.
Qed.


(** ** Authentication *)

Lemma refuse_no_spawn req err w w' es out :
  refuse s req err w = (w', (es, out)) -> forall r, Spawned r ∉ es.
Proof.
  unfold refuse. destruct (negb _).
  - destruct (handleError s _ err) as [res e]. destruct (sendResponse _ _ _ _ _) as [w1 [ms o]].
    intros [= _ <- _] r Hr. apply list_elem_of_fmap in Hr as (m & ? & _). done.
  - destruct (DoPreWriteResponse _ _ _ _ _) as [w1 e]. intros [= _ <- _] r. apply not_elem_of_nil.
Qed.

Lemma serveRound_spawn dec w w' es nx r :
  serveRound s dec w = (w', es, nx) -> Spawned r ∈ es ->
  IsHeartbeat (m_header r) = true \/ exists w1 w2, auth s r w1 = (w2, None).
Proof.
  unfold serveRound. destruct (readRequest s dec w) as [w1 [[req|] err]] eqn:Er.
  - destruct err as [err|].
    + intros H Hr.
      destruct err; simplify_eq; try by apply elem_of_nil in Hr.
      destruct (refuse s req ErrReqReachLimit w1) as [w2 [es2 out]] eqn:E2. simplify_eq.
      by destruct (refuse_no_spawn _ _ _ _ _ _ E2 r).
    + destruct (negb (IsHeartbeat (m_header req))) eqn:Eh.
      * destruct (auth s req w1) as [w2 [err|]] eqn:Ea.
        -- destruct (refuse s req err w2) as [w3 [es3 out]] eqn:E3.
           pose proof (refuse_no_spawn _ _ _ _ _ _ E3 r) as Hn.
           destruct out; intros [= _ <- _] Hr; by destruct Hn.
        -- intros [= _ <- _] Hr. apply list_elem_of_singleton in Hr as [= ->]. right. eauto.
      * intros [= _ <- _] Hr. apply list_elem_of_singleton in Hr as [= ->]. left.
        by apply negb_false_iff.
  - destruct err as [[]|]; intros [= _ <- _] Hr; by apply elem_of_nil in Hr.
Qed.

(** C35. No request reaches a service, a handler or a worker before it is authenticated: every
    request a connection hands on is a heartbeat, or [AuthFunc] has accepted it with the token
    of its metadata. *)
Theorem serveConn_authenticated incoming down w w' es r :
  serveConn s incoming down w = (w', es) -> Spawned r ∈ es ->
  IsHeartbeat (m_header r) = true \/ exists w1 w2, auth s r w1 = (w2, None).
Proof.
  revert down w w' es. induction incoming as [|dec rest IH]; intros down w w' es; cbn [serveConn].
  { intros [= _ <-] Hr. by apply elem_of_nil in Hr. }
  destruct (head down) as [[]|]; [intros [= _ <-] Hr; by apply elem_of_nil in Hr| |].
  all: destruct (serveRound s dec w) as [[w1 es1] nx] eqn:E1; destruct nx.
  all: try (intros [= _ <-] Hr; by eapply serveRound_spawn).
  all: destruct (serveConn s rest (tail down) w1) as [w2 es2] eqn:E2; intros [= _ <-] Hr;
       apply elem_of_app in Hr as [Hr|Hr]; [by eapply serveRound_spawn|by eapply IH].
Qed.

(** A request that fails authentication is the last one of its connection: nothing that
    follows it is read, and all the client gets is one error response to it. *)
Theorem auth_failure_ends_connection req rest down w w1 w2 err :
  transparent ->
  readRequest s (req, None) w = (w1, (Some req, None)) ->
  IsHeartbeat (m_header req) = false -> auth s req w1 = (w2, Some err) ->
  header_ok (m_header req) -> head down <> Some true ->
  exists w' es, serveConn s ((req, None) :: rest) down w = (w', es) /\
    if IsOneway (m_header req) then es = []
    else exists m, es = [Wrote m] /\ response_to req m.
Proof.
  intros Htr Hread Hhb Hauth Hok Hdown. cbn [serveConn].
  assert (forall A (x y : A), match head down with Some true => x | _ => y end = y) as Hd.
  { intros A x y. destruct (head down) as [[]|]; done. }
  rewrite Hd. unfold serveRound. rewrite Hread, Hhb. cbn [negb]. rewrite Hauth.
  unfold refuse. destruct (IsOneway (m_header req)); cbn [negb].
  - destruct (DoPreWriteResponse _ _ _ _ _) as [w3 e3]. cbn. eauto.
  - pose proof (handleError_answers req (newResponse req) err (newResponse_answers req Hok)) as He.
    destruct (handleError s (newResponse req) err) as [res e]. cbn [fst] in He.
    destruct (sendResponse_answers (Some err) req res w2) as (w3 & m & out & -> & Hm & _); [done..|].
    destruct out; eexists _, _; (split; [reflexivity|]); eauto.
Qed.
End Handling.

(** ** A concrete server *)

Definition demo_codec : Codec bytes :=
  MkCodec (fun v => (match v with IVal b | IBytes b => b | INil => [] end, None))
    (fun d _ => (IVal d, Ok tt)).

(** [Arith.Rev] answers with its argument reversed, and panics on the empty one. *)
Definition demo_method : methodType (W := unit) (V := bytes) :=
  MkMethod (fun _ => ", method: Rev"%string) (IVal []) (IVal []) (fun _ argv _ w =>
    match argv with
    | IVal (b :: l) => (w, (IVal (rev (b :: l)), ∅, Ok None))
    | _ => (w, (IVal [], ∅, Panic "empty"))
    end).

Definition demo_server (auth : option (Message -> string -> unit -> unit * option error)) :
    Server (W := unit) (C := unit) (V := bytes) :=
  MkServer {["Arith"%string := MkService "Arith" {["Rev"%string := demo_method]} None]} ∅
    (fun t => if t =? MsgPack then Some demo_codec else None) [] auth None None.

Definition demo_request (data : bytes) : Message :=
  MkMessage (SetSerializeType MsgPack (SetSeq 5 newHeader)) "Arith" "Rev" None data nil_slice.

Lemma demo_transparent a : transparent (demo_server a).
Proof. split; cbn; eauto. Qed.

Lemma demo_decodes a req : decodes (demo_server a) req.
Proof. intros why (codec & r & Hc & Hd). cbn in Hc. destruct (_ =? MsgPack); [|done]. by injection Hc as <-. Qed.

Lemma demo_header_ok data : header_ok (m_header (demo_request data)).
Proof. cbn [m_header demo_request]. auto with rpcx. Qed.

Section Demo.
Local Instance demo_compressors : Compressors := fun _ => None.


Lemma serveConn_authenticated_witness :
  let s := demo_server (Some (fun _ token w => (w, if decide (token = "t"%string) then None else Some ErrNotAccept))) in
  let r := set_meta (Some {[AuthKey := "t"%string]}) (demo_request [1]) in
  IsHeartbeat (m_header r) = true \/ exists w1 w2, auth s r w1 = (w2, None).
Proof.
  intros s r.
  apply (serveConn_authenticated s [(r, None)] [] tt tt [Spawned r] r);
    [vm_compute; reflexivity|by apply list_elem_of_singleton].
Defined.

Lemma auth_failure_ends_connection_witness :
  let s := demo_server (Some (fun _ _ w => (w, Some ErrNotAccept))) in
  exists w' es,
    serveConn s [(demo_request [1], None); (demo_request [2], None)] [] tt = (w', es) /\
    if IsOneway (m_header (demo_request [1])) then es = []
    else exists m, es = [Wrote m] /\ response_to (demo_request [1]) m.
Proof.
  intros s.
  apply (auth_failure_ends_connection s (demo_request [1]) [(demo_request [2], None)] [] tt tt tt ErrNotAccept);
    [apply demo_transparent|reflexivity|reflexivity|reflexivity|apply demo_header_ok|discriminate].
Defined.
End Demo.
