(* ===== verification/Codecs.v ===== *)
(** codec/codec.go and the table of codecs in share/share.go.

    A value that is encoded is [nil], bytes, or a value of the application, about which a codec
    asks through type assertions: each assertion is a function to an option here. The encodings
    themselves (encoding/json, protobuf, msgpack, thrift) are parameters. *)

From S2P Require Import Prelude GoStd Share Header Message Hooks ServerPlugins Client Server ServerProofs.

Module Codecs.

Section Codecs.
Context {V : Type}.

(** What the codecs ask a value: the text of its type; whether it is a [*[]byte] (with the
    bytes it points to); whether it is a pointer to any type that is a slice of bytes
    underneath, which [SetBytes] can set; whether it has the methods of gogo/protobuf, of
    protobuf, of msgp, of thrift, each with what the method returns. What decodes may panic:
    the methods are the application's. *)
Class GoValue := {
  type_name : iface V -> string;
  as_ptr_bytes : V -> option bytes;
  set_bytes : V -> option (bytes -> V);
  as_Marshaler : V -> option (bytes * option error);
  as_Unmarshaler : V -> option (bytes -> V * res unit);
  as_pbMessage : V -> option (bytes * option error);
  as_pbTarget : V -> option (bytes -> V * res unit);
  as_msgpMarshaler : V -> option (bytes * option error);
  as_msgpUnmarshaler : V -> option (bytes -> V * res unit);
  as_TStruct : V -> option (bytes * option error);
  as_TTarget : V -> option (bytes -> V * res unit);
  json_Marshal : iface V -> bytes * option error;
  json_Decode : bytes -> iface V -> iface V * res unit;
  msgpack_Encode : iface V -> bytes * option error;
  msgpack_Decode : bytes -> iface V -> iface V * res unit;
}.
Context `{GoValue}.

(** A type assertion on an [interface{}]: it fails on nil and on raw bytes. *)
Definition asserts {A} (f : V -> option A) (i : iface V) : option A :=
  match i with IVal v => f v | _ => None end.

(** The target of a decoder, and its error or panic. *)
Definition decoded (r : V * res unit) : iface V * res unit := (IVal r.1, r.2).

(** ** ByteCodec *)

Definition ByteCodec_Encode (i : iface V) : bytes * option error :=
  match i with
  | IBytes data => (data, None)
  | _ =>
      match asserts as_ptr_bytes i with
      | Some data => (data, None)
      | None => ([], Some (errorString (type_name i +:+ " is not a []byte")))
      end
  end.

(** [reflect.Value.SetBytes] panics unless the target is a pointer to a slice of bytes, of this
    or of a named type: a slice itself cannot be set, and nothing else has the kind. *)
Definition ByteCodec_Decode (data : bytes) (i : iface V) : iface V * res unit :=
  match i with
  | IVal v =>
      match set_bytes v with
      | Some set => (IVal (set data), Ok tt)
      | None => (i, Panic "reflect: call of reflect.Value.SetBytes")
      end
  | _ => (i, Panic "reflect: call of reflect.Value.SetBytes")
  end.

Definition ByteCodec : Codec V := MkCodec ByteCodec_Encode ByteCodec_Decode.

(** ** JSONCodec *)

Definition JSONCodec : Codec V :=
  MkCodec json_Marshal json_Decode.

(** ** PBCodec *)

Definition PBCodec_Encode (i : iface V) : bytes * option error :=
  match asserts as_Marshaler i with
  | Some r => r
  | None =>
      match asserts as_pbMessage i with
      | Some r => r
      | None => ([], Some (errorString (type_name i +:+ " is not a proto.Marshaler or pb.Message")))
      end
  end.

Definition PBCodec_Decode (data : bytes) (i : iface V) : iface V * res unit :=
  match asserts as_Unmarshaler i with
  | Some f => decoded (f data)
  | None =>
      match asserts as_pbTarget i with
      | Some f => decoded (f data)
      | None => (i, Er (errorString (type_name i +:+ " is not a proto.Unmarshaler  or pb.Message")))
      end
  end.

Definition PBCodec : Codec V := MkCodec PBCodec_Encode PBCodec_Decode.

(** ** MsgpackCodec *)

Definition MsgpackCodec_Encode (i : iface V) : bytes * option error :=
  match asserts as_msgpMarshaler i with
  | Some r => r
  | None => msgpack_Encode i
  end.

Definition MsgpackCodec_Decode (data : bytes) (i : iface V) : iface V * res unit :=
  match asserts as_msgpUnmarshaler i with
  | Some f => decoded (f data)
  | None => msgpack_Decode data i
  end.

Definition MsgpackCodec : Codec V := MkCodec MsgpackCodec_Encode MsgpackCodec_Decode.

(** ** ThriftCodec *)

(** [Encode] asserts with a check, [Decode] without one. *)
Definition ThriftCodec_Encode (i : iface V) : bytes * option error :=
  match asserts as_TStruct i with
  | Some r => r
  | None => ([], Some (errorString "type assertion failed"))
  end.

Definition ThriftCodec_Decode (data : bytes) (i : iface V) : iface V * res unit :=
  match asserts as_TTarget i with
  | Some f => decoded (f data)
  | None => (i, Panic ("interface conversion: " +:+ type_name i +:+ " is not thrift.TStruct"))
  end.

Definition ThriftCodec : Codec V := MkCodec ThriftCodec_Encode ThriftCodec_Decode.

(** ** The table *)

Definition share_Codecs : gmap Z (Codec V) :=
  list_to_map [(SerializeNone, ByteCodec); (JSON, JSONCodec); (ProtoBuffer, PBCodec);
    (MsgPack, MsgpackCodec); (Thrift, ThriftCodec)].

Definition RegisterCodec (t : Z) (c : Codec V) (table : gmap Z (Codec V)) : gmap Z (Codec V) := <[t := c]> table.

(** ** Properties *)

(** Bytes go through [ByteCodec] as they are, into any pointer to bytes. *)
Lemma ByteCodec_roundtrip v set data :
  set_bytes v = Some set -> as_ptr_bytes (set data) = Some data ->
  ByteCodec_Decode (ByteCodec_Encode (IBytes data)).1 (IVal v) = (IVal (set data), Ok tt) /\
  ByteCodec_Encode (IVal (set data)) = (data, None).
Proof using Type. intros Hs Hp. cbn. by rewrite Hs, Hp. Qed.

(** The method that a request names does not take what its codec decodes into. *)
Definition codec_mismatch (t : Z) (i : iface V) : Prop :=
  (t = SerializeNone /\ asserts set_bytes i = None) \/ (t = Thrift /\ asserts as_TTarget i = None).

(** The unmarshaller that a codec hands the data to panics. *)
Definition unmarshaller_panics (t : Z) (data : bytes) (i : iface V) (why : string) : Prop :=
  match t with
  | 1 => (json_Decode data i).2 = Panic why
  | 2 => exists f, (asserts as_Unmarshaler i = Some f \/ asserts as_pbTarget i = Some f) /\ (f data).2 = Panic why
  | 3 => (exists f, asserts as_msgpUnmarshaler i = Some f /\ (f data).2 = Panic why) \/
         asserts as_msgpUnmarshaler i = None /\ (msgpack_Decode data i).2 = Panic why
  | 4 => exists f, asserts as_TTarget i = Some f /\ (f data).2 = Panic why
  | _ => False
  end.

(** A codec of the table panics when the target is not of its type, for two of them, or when
    the unmarshaller does that it calls; it has no other reason. *)
Lemma Decode_panics t codec data i why :
  share_Codecs !! t = Some codec -> (codec_Decode codec data i).2 = Panic why ->
  codec_mismatch t i \/ unmarshaller_panics t data i why.
Proof using Type.
  intros Ht Hp. unfold share_Codecs in Ht. apply elem_of_list_to_map_2 in Ht.
  rewrite !elem_of_cons, elem_of_nil in Ht.
  destruct Ht as [[= -> ->]|[[= -> ->]|[[= -> ->]|[[= -> ->]|[[= -> ->]|[]]]]]].
  - left. left. split; [done|]. destruct i as [|v|b]; [done| |done]. cbn in *. by destruct (set_bytes v).
  - right. exact Hp.
  - right. cbn in *. unfold PBCodec_Decode in Hp.
    destruct (asserts as_Unmarshaler i) as [f|]; [exists f; by split; [left|]|].
    destruct (asserts as_pbTarget i) as [f|]; [exists f; by split; [right|]|done].
  - right. cbn in *. unfold MsgpackCodec_Decode in Hp.
    destruct (asserts as_msgpUnmarshaler i) as [f|]; [left; by exists f|by right].
  - cbn in *. unfold ThriftCodec_Decode in Hp.
    destruct (asserts as_TTarget i) as [f|] eqn:Hf; [right; by exists f|left; by right].
Qed.

Lemma mismatch_panics t data i :
  codec_mismatch t i ->
  exists codec why, share_Codecs !! t = Some codec /\ codec_Decode codec data i = (i, Panic why).
Proof using Type.
  intros [[-> Hi]|[-> Hi]].
  - exists ByteCodec. eexists. split; [reflexivity|]. cbn.
    destruct i as [|v|b]; [done| |done]. cbn in *. by rewrite Hi.
  - exists ThriftCodec. eexists. split; [reflexivity|]. cbn. unfold ThriftCodec_Decode. by rewrite Hi.
Qed.

Context {W C : Type} {compressors : Compressors}.

(** C39. A request in the raw serialization for a method whose argument cannot be set to bytes,
    or in the thrift serialization for one that is not a thrift struct, is never answered, even
    when it expects an answer: the decoder panics, and the recovery of the panic writes nothing.
    For every other target a codec of the table panics only when the unmarshaller does that it
    hands the data to. *)
Theorem mismatched_request_unanswered (s : Server (W := W) (C := C) (V := V)) req sv mt w :
  transparent s -> (forall t, Codecs s t = share_Codecs !! t) ->
  IsHeartbeat (m_header req) = false ->
  router s !! (ServicePath req +:+ "." +:+ ServiceMethod req)%string = None ->
  serviceMap s !! ServicePath req = Some sv -> sv_method sv !! ServiceMethod req = Some mt ->
  codec_mismatch (SerializeType (m_header req)) (mt_newArg mt) ->
  (exists w', processOneRequest s req w = (w', [])) /\
  (forall t codec data i why, Codecs s t = Some codec -> (codec_Decode codec data i).2 = Panic why ->
     codec_mismatch t i \/ unmarshaller_panics t data i why).
Proof using Type.
  intros Htr Hc Hhb Hrt Hsv Hmt Hmis. split.
  - unfold processOneRequest. rewrite Hhb. set (req1 := set_meta _ req).
    destruct (proj1 Htr req1 w) as (w1 & e & ->).
    change (ServicePath req1) with (ServicePath req). change (ServiceMethod req1) with (ServiceMethod req).
    rewrite Hrt. unfold handleRequest.
    change (ServicePath req1) with (ServicePath req). change (ServiceMethod req1) with (ServiceMethod req).
    rewrite Hsv, Hmt. unfold invoke. change (m_header req1) with (m_header req). rewrite Hc.
    destruct (mismatch_panics _ (Payload req1) _ Hmis) as (codec & why & -> & ->). eauto.
  - intros t codec data i why Ht Hp. rewrite Hc in Ht. by eapply Decode_panics.
Qed.
End Codecs.
Arguments GoValue V : clear implicits.

(** ** An example: numbers as arguments, no codec but JSON knows them *)

#[export] Instance number_values : GoValue Z := {|
  type_name _ := "int"%string;
  as_ptr_bytes _ := None; set_bytes _ := None;
  as_Marshaler _ := None; as_Unmarshaler _ := None; as_pbMessage _ := None; as_pbTarget _ := None;
  as_msgpMarshaler _ := None; as_msgpUnmarshaler _ := None; as_TStruct _ := None; as_TTarget _ := None;
  json_Marshal i := match i with IVal z => ([z], None) | _ => ([], None) end;
  json_Decode d i := match d with [z] => (IVal z, Ok tt) | _ => (i, Er EOF) end;
  msgpack_Encode _ := ([], None); msgpack_Decode _ i := (i, Er EOF);
|}.

Section Demo.
Local Instance none_compressors : Compressors := fun _ => None.

Definition double : methodType (W := unit) (V := Z) :=
  MkMethod (fun _ => ""%string) (IVal 0) (IVal 0) (fun _ a _ w => match a with IVal z => (w, (IVal (2 * z), ∅, Ok None)) | _ => (w, (INil, ∅, Ok None)) end).

Definition number_server : Server (W := unit) (C := unit) (V := Z) :=
  MkServer {["Math"%string := MkService "Math" {["Double"%string := double]} None]} ∅
    (fun t => share_Codecs !! t) [] None None None.

Definition number_request (t : Z) (data : bytes) : Message :=
  MkMessage (SetSerializeType t newHeader) "Math" "Double" None data nil_slice.

Lemma mismatched_request_unanswered_witness :
  exists w', processOneRequest number_server (number_request Thrift [4]) tt = (w', []).
Proof.
  apply (mismatched_request_unanswered number_server (number_request Thrift [4])
    (MkService "Math" {["Double"%string := double]} None) double tt);
    [split; cbn; eauto|reflexivity|reflexivity|reflexivity|reflexivity|reflexivity|].
  right. split; reflexivity.
Defined.

Example json_request_answered :
  map Payload (processOneRequest number_server (number_request JSON [4]) tt).2 = [[8]].
Proof. vm_compute. reflexivity. Qed.
End Demo.
End Codecs.
