(* ===== verification/ServerLife.v ===== *)
(** The life of a server (server/server.go): the accept loop with its growing delay, and
    connections, requests, [Close] and [Shutdown] as a transition system. *)

From S2P Require Import Prelude ServerPlugins.

(** ** The accept loop *)

Definition millisecond : Z := 1000000.

(** The delay after another temporary error of [Accept]. *)
Definition nextDelay (tempDelay : Z) : Z :=
  let d := if tempDelay =? 0 then 5 * millisecond else i64 (tempDelay * 2) in
  if d >? 1000 * millisecond then 1000 * millisecond else d.

Definition isTemporary (e : error) : bool := match e with NetError t _ => t | _ => false end.

Section Accept.
Context {W C A : Type}.

(** What [Accept] returns, and what the loop does. *)
Inductive accepted := AConn (c : C) | AErr (e : error).
Inductive accept_effect := Slept (d : Z) | Refused (c : C) | Serving (c : C).

(** [cmux.ErrListenerClosed], and the plugins of the server. *)
Context (isCmuxClosed : error -> bool) (Plugins : pluginContainer W C A).

(** The loop of [serveListener] over the results of [Accept], each with what happened to the
    world while it waited, and whether the server is shutting down then (it then waits for
    [doneChan] before it returns); [None] while it goes on. *)
Fixpoint serveListener (rs : list (accepted * (W -> W) * bool)) (tempDelay : Z) (w : W) :
    list accept_effect * option error :=
  match rs with
  | [] => ([], None)
  | (AErr e, waited, down) :: rs =>
      if down : bool then ([], Some ErrServerClosed)
      else if isTemporary e then
        let d := nextDelay tempDelay in
        let '(es, r) := serveListener rs d (waited w) in (Slept d :: es, r)
      else if isCmuxClosed e then ([], Some ErrServerClosed)
      else ([], Some e)
  | (AConn c, waited, _) :: rs =>
      let '(w, (c, ok)) := DoPostConnAccept Plugins c (waited w) in
      let '(es, r) := serveListener rs 0 w in
      ((if ok then Serving c else Refused c) :: es, r)
  end.

(** The delay before the [n]th retry in a row. *)
Definition backoff (n : nat) : Z := (5 * millisecond * 2 ^ Z.of_nat n) `min` (1000 * millisecond).

Lemma nextDelay_backoff n : nextDelay (backoff n) = backoff (S n).
Proof using Type.
  unfold nextDelay, backoff, millisecond. rewrite Nat2Z.inj_succ, Z.pow_succ_r by lia.
  pose proof (Z.pow_pos_nonneg 2 (Z.of_nat n) ltac:(lia) ltac:(lia)) as Hp.
  set (p := 2 ^ Z.of_nat n) in *.
  set (m := (5 * 1000000 * p) `min` (1000 * 1000000)).
  assert (5 * 1000000 * (2 * p) = 2 * (5 * 1000000 * p)) as -> by lia.
  assert (0 < m <= 1000 * 1000000 /\ (m = 5 * 1000000 * p \/ m = 1000 * 1000000 /\ 1000 * 1000000 <= 5 * 1000000 * p)) as [Hm Hmp] by lia.
  rewrite i64_small by lia. destruct (Z.eqb_spec m 0); [lia|].
  destruct (Z.gtb_spec (m * 2) (1000 * 1000000)); lia.
Qed.

(** The delay that [n] temporary errors in a row leave. *)
Definition delayed (n : nat) : Z := match n with O => 0 | S n => backoff n end.

Lemma nextDelay_delayed n : nextDelay (delayed n) = delayed (S n).
Proof using Type. destruct n as [|n]; [reflexivity|apply nextDelay_backoff]. Qed.

Lemma serveListener_retries n k rest e es r w :
  isTemporary e = true -> serveListener rest (delayed (n + k)) w = (es, r) ->
  serveListener (replicate k (AErr e, id, false) ++ rest) (delayed n) w =
    (((fun i => Slept (backoff i)) <$> seq n k) ++ es, r).
Proof using Type.
  intros He. revert n. induction k as [|k IH]; intros n Hr; cbn [replicate app seq fmap list_fmap serveListener].
  - by rewrite Nat.add_0_r in Hr.
  - rewrite He, nextDelay_delayed. change (id w) with w. rewrite (IH (S n)) by (by rewrite Nat.add_succ_comm). done.
Qed.

(** Temporary errors of [Accept] never end the server: after any number of them in a row the
    loop goes on with the next result, having slept 5 ms, 10 ms, ... up to a second each; a
    connection resets the delay. *)
Theorem accept_backoff k rest e es r w :
  isTemporary e = true -> serveListener rest (delayed k) w = (es, r) ->
  serveListener (replicate k (AErr e, id, false) ++ rest) 0 w =
    (((fun i => Slept (backoff i)) <$> seq 0 k) ++ es, r) /\
  forall i, 5 * millisecond <= backoff i <= 1000 * millisecond.
Proof using Type.
  intros He Hr. split; [by apply (serveListener_retries 0)|].
  intros i. unfold backoff, millisecond. pose proof (Z.pow_pos_nonneg 2 (Z.of_nat i) ltac:(lia) ltac:(lia)). lia.
Qed.
End Accept.
Arguments accepted : clear implicits.
Arguments accept_effect : clear implicits.

(** ** Connections, requests and shutdown *)

Module Life.

(** Where the goroutine of a connection is: not started, at the head of its loop, reading,
    in its deferred function, or gone. *)
Inductive conn_stage := CNew | CLoop | CRead | CExit | CGone.

(** Who closed a connection first: its own goroutine (the peer is gone, sent bad data or failed
    authentication, or the server was shutting down when it came), or [Close] and [Shutdown]. *)
Inductive closer := ByLoop | ByServer.

(** A request was handed to a goroutine ([Spawned]), is in [processOneRequest] and counted
    ([Counted]), or its goroutine is gone ([Over]). *)
Inductive phase := Spawned | Counted | Over.

(** What has become of its response: none yet; handed to a writer of its own ([AsyncWrite]);
    written; its connection had been closed by its own goroutine or by the server; none will
    come, because the request is one-way or its handler writes none, or because of a panic. *)
Inductive outcome := Pending | Queued | Answered | ConnEnded | Cut | Silent | Panicked.

Record request := MkReq { rq_conn : nat; rq_phase : phase; rq_out : outcome }.

Global Instance phase_eq_dec : EqDecision phase.
Proof. solve_decision. Defined.
Global Instance outcome_eq_dec : EqDecision outcome.
Proof. solve_decision. Defined.

(** [Shutdown]: not called, waiting for the requests, done waiting (with the context's error, if
    it expired first), and returned. *)
Inductive shut_phase := NotCalled | Polling | Drained (e : option error) | Ended (e : option error).

(** [begun] are the requests that had started when [Shutdown] stopped waiting; [forced]: [Close]
    was called; [hooks] lists the runs of [DoPostConnClose]. *)
Record life := MkLife {
  inShutdown : bool;
  doneClosed : bool;
  activeConn : gset nat;
  closedBy : gmap nat closer;
  conns : gmap nat conn_stage;
  reqs : gmap nat request;
  handlerMsgNum : Z;
  shut : shut_phase;
  begun : gset nat;
  forced : bool;
  hooks : list nat;
}.

Definition with_conn (c : nat) (g : conn_stage) (x : life) : life :=
  MkLife (inShutdown x) (doneClosed x) (activeConn x) (closedBy x) (<[c := g]> (conns x)) (reqs x)
    (handlerMsgNum x) (shut x) (begun x) (forced x) (hooks x).
Definition with_req (r : nat) (q : request) (n : Z) (x : life) : life :=
  MkLife (inShutdown x) (doneClosed x) (activeConn x) (closedBy x) (conns x) (<[r := q]> (reqs x))
    n (shut x) (begun x) (forced x) (hooks x).
Definition with_shut (s : shut_phase) (b : gset nat) (x : life) : life :=
  MkLife true (doneClosed x) (activeConn x) (closedBy x) (conns x) (reqs x)
    (handlerMsgNum x) s b (forced x) (hooks x).

(** [conn.Close()]; closing twice changes nothing. *)
Definition close_as (by_ : closer) (c : nat) (m : gmap nat closer) : gmap nat closer :=
  match m !! c with Some _ => m | None => <[c := by_]> m end.

(** [closeConn], at the end of the goroutine of [c]. *)
Definition closeConn (c : nat) (x : life) : life :=
  MkLife (inShutdown x) (doneClosed x) (activeConn x ∖ {[c]}) (close_as ByLoop c (closedBy x))
    (<[c := CGone]> (conns x)) (reqs x) (handlerMsgNum x) (shut x) (begun x) (forced x) (hooks x ++ [c]).

(** Closing what is active, in [Close] and at the end of [Shutdown], and the done channel. *)
Definition closeActive (s : shut_phase) (f : bool) (x : life) : life :=
  MkLife (inShutdown x) true ∅ (foldr (close_as ByServer) (closedBy x) (elements (activeConn x)))
    (conns x) (reqs x) (handlerMsgNum x) s (begun x) f (hooks x ++ elements (activeConn x)).

(** What a write to the connection [c] comes to. *)
Definition write_to (c : nat) (x : life) : outcome :=
  match closedBy x !! c with None => Answered | Some ByLoop => ConnEnded | Some ByServer => Cut end.

Definition started (x : life) : gset nat :=
  dom (filter (fun p => rq_phase (snd p) <> Spawned) (reqs x)).

Section Life.
(** The option of the server; which requests are heartbeats, whose answers are never queued;
    and which get no answer: one-way requests, and those of a handler that writes none. *)
Context (AsyncWrite : bool) (heartbeat silent : nat -> bool).

(** The response is written (or queued) first, and the counter goes down when the goroutine
    returns; a panic in between, or before, only leads to the end of the goroutine. *)
Inductive life_step : life -> life -> Prop :=
  | l_accept c x : conns x !! c = None ->
      life_step x (MkLife (inShutdown x) (doneClosed x) ({[c]} ∪ activeConn x) (closedBy x)
        (<[c := CNew]> (conns x)) (reqs x) (handlerMsgNum x) (shut x) (begun x) (forced x) (hooks x))
  | l_start c x : conns x !! c = Some CNew ->
      life_step x (if inShutdown x then closeConn c x else with_conn c CLoop x)
  | l_loop c x : conns x !! c = Some CLoop ->
      life_step x (with_conn c (if inShutdown x then CExit else CRead) x)
  | l_request c r x : conns x !! c = Some CRead -> reqs x !! r = None ->
      life_step x (with_conn c CLoop (with_req r (MkReq c Spawned Pending) (handlerMsgNum x) x))
  | l_failed c x : conns x !! c = Some CRead -> life_step x (with_conn c CExit x)
  | l_exit c x : conns x !! c = Some CExit -> (inShutdown x = true -> doneClosed x = true) ->
      life_step x (closeConn c x)
  | r_begin r c x : reqs x !! r = Some (MkReq c Spawned Pending) ->
      life_step x (with_req r (MkReq c Counted Pending) (handlerMsgNum x + 1) x)
  | r_write r c x : reqs x !! r = Some (MkReq c Counted Pending) ->
      AsyncWrite = false \/ heartbeat r = true ->
      life_step x (with_req r (MkReq c Counted (write_to c x)) (handlerMsgNum x) x)
  | r_queue r c x : reqs x !! r = Some (MkReq c Counted Pending) -> AsyncWrite = true ->
      life_step x (with_req r (MkReq c Counted Queued) (handlerMsgNum x) x)
  | r_late r c p x : reqs x !! r = Some (MkReq c p Queued) ->
      life_step x (with_req r (MkReq c p (write_to c x)) (handlerMsgNum x) x)
  | r_silent r c x : reqs x !! r = Some (MkReq c Counted Pending) -> silent r = true ->
      life_step x (with_req r (MkReq c Counted Silent) (handlerMsgNum x) x)
  | r_panic r c x : reqs x !! r = Some (MkReq c Counted Pending) ->
      life_step x (with_req r (MkReq c Counted Panicked) (handlerMsgNum x) x)
  | r_end r c o x : reqs x !! r = Some (MkReq c Counted o) -> o <> Pending ->
      life_step x (with_req r (MkReq c Over o) (handlerMsgNum x - 1) x)
  | s_begin x : inShutdown x = false -> life_step x (with_shut Polling ∅ x)
  | s_poll x : shut x = Polling -> handlerMsgNum x = 0 ->
      life_step x (with_shut (Drained None) (started x) x)
  | s_expire e x : shut x = Polling -> life_step x (with_shut (Drained (Some e)) (started x) x)
  | s_close e x : shut x = Drained e -> life_step x (closeActive (Ended e) (forced x) x)
  | c_close x : life_step x (closeActive (shut x) true x).

Definition born : life := MkLife false false ∅ ∅ ∅ ∅ 0 NotCalled ∅ false [].

Inductive life_reach : life -> Prop :=
  | lr_born : life_reach born
  | lr_step x y : life_reach x -> life_step x y -> life_reach y.

(** ** Graceful shutdown *)

Definition running (x : life) : gmap nat request :=
  filter (fun p => rq_phase (snd p) = Counted) (reqs x).

(** [Shutdown] has not closed connections, and [Close] was not called. *)
Definition gentle (x : life) : Prop :=
  forced x = false /\ match shut x with Ended _ => False | _ => True end.

(** A request that is over, and was not cut. *)
Definition ended_well (r : nat) (q : request) : Prop :=
  rq_phase q = Over /\
  (rq_out q = Answered \/ rq_out q = ConnEnded \/ rq_out q = Panicked \/ rq_out q = Silent /\ silent r = true).

(** What can be said of a request at any time. *)
Record req_ok (x : life) (r : nat) (q : request) : Prop := {
  rk_over : rq_phase q = Over -> rq_out q <> Pending;
  rk_cut : gentle x -> rq_out q <> Cut;
  rk_queued : rq_out q = Queued -> AsyncWrite = true;
  rk_silent : rq_out q = Silent -> silent r = true;
}.

Record LifeInv (x : life) : Prop := {
  li_num : handlerMsgNum x = Z.of_nat (size (running x));
  li_open : gentle x -> forall c, closedBy x !! c <> Some ByServer;
  li_req r q : reqs x !! r = Some q -> req_ok x r q;
  li_begun r : AsyncWrite = false -> forced x = false ->
    (shut x = Drained None \/ shut x = Ended None) -> r ∈ begun x ->
    exists q, reqs x !! r = Some q /\ ended_well r q;
  li_shut : inShutdown x = false -> shut x = NotCalled;
}.

Lemma running_insert r q n x :
  running (with_req r q n x) =
  if decide (rq_phase q = Counted) then <[r := q]> (running x) else delete r (running x).
Proof.
  unfold running. cbn [reqs with_req]. destruct (decide (rq_phase q = Counted)).
  - by rewrite map_filter_insert_True.
  - by rewrite map_filter_insert_False, map_filter_delete.
Qed.

Lemma close_as_open c c' m : close_as ByLoop c m !! c' = Some ByServer -> m !! c' = Some ByServer.
Proof.
  unfold close_as. destruct (m !! c) eqn:E; [done|]. rewrite lookup_insert_Some. by intros [[_ ?]|[_ ?]].
Qed.

Lemma req_ok_mono x y r q : (gentle y -> gentle x) -> req_ok x r q -> req_ok y r q.
Proof. intros Hg [H1 H2 H3 H4]. by split; auto. Qed.

(** A step of a connection's goroutine leaves the requests alone. *)
Lemma inv_conn_step x y :
  LifeInv x -> reqs y = reqs x -> handlerMsgNum y = handlerMsgNum x -> shut y = shut x ->
  begun y = begun x -> forced y = forced x -> inShutdown y = inShutdown x ->
  (forall c, closedBy y !! c = Some ByServer -> closedBy x !! c = Some ByServer) -> LifeInv y.
Proof.
  intros [Hn Ho Hc Hb Hi] Er En Es Eb Ef Ei Hcl.
  assert (gentle y -> gentle x) as Hg by (unfold gentle; by rewrite Ef, Es).
  unfold running in *. split; unfold running; rewrite ?Er, ?En, ?Es, ?Eb, ?Ef, ?Ei; try done.
  - intros Hge c Hc'. by apply (Ho (Hg Hge) c), Hcl.
  - intros r q Hr. eapply req_ok_mono; [exact Hg|by apply Hc].
Qed.

(** A request moves on; one that has ended well stays as it is. *)
Lemma inv_req_step x r q n :
  LifeInv x -> (forall q0, reqs x !! r = Some q0 -> ended_well r q0 -> q = q0) -> req_ok x r q ->
  n = Z.of_nat (size (running (with_req r q n x))) -> LifeInv (with_req r q n x).
Proof.
  intros [Hn Ho Hc Hb Hi] Hstay Hq Hsz. split; [done|done| | |done].
  - intros r' q'. cbn. rewrite lookup_insert_Some. intros [[<- <-]|[_ Hr']];
      (apply (req_ok_mono x); [done|]); [exact Hq|exact (Hc r' q' Hr')].
  - cbn. intros r' Ha Hf Hs Hin. destruct (Hb r' Ha Hf Hs Hin) as (q' & Hr' & Hw).
    destruct (decide (r = r')) as [<-|Hne]; [|exists q'; by rewrite lookup_insert_ne].
    exists q. rewrite lookup_insert_eq. by rewrite (Hstay q' Hr' Hw).
Qed.

Lemma running_lookup x r q :
  reqs x !! r = Some q -> running x !! r = if decide (rq_phase q = Counted) then Some q else None.
Proof.
  intros Hr. unfold running. destruct (decide (rq_phase q = Counted)).
  - by apply map_lookup_filter_Some_2.
  - apply map_lookup_filter_None_2. right. intros q' Hr'. rewrite Hr in Hr'. by injection Hr' as <-.
Qed.

(** How the count of running requests follows a request. *)
Lemma size_running x r q0 q :
  LifeInv x -> reqs x !! r = Some q0 ->
  let n := handlerMsgNum x + (if decide (rq_phase q = Counted) then 1 else 0) -
           (if decide (rq_phase q0 = Counted) then 1 else 0) in
  n = Z.of_nat (size (running (with_req r q n x))).
Proof.
  intros Hx Hr n. subst n. rewrite running_insert, (li_num x Hx). pose proof (running_lookup x r q0 Hr) as Hl.
  destruct (decide (rq_phase q0 = Counted)), (decide (rq_phase q = Counted)).
  - rewrite map_size_insert_Some by (by eexists). lia.
  - rewrite map_size_delete_Some by (by eexists).
    assert (size (running x) <> 0%nat) by (apply (map_size_ne_0_lookup_2 _ r); by eexists). lia.
  - rewrite map_size_insert_None by done. lia.
  - rewrite delete_id by done. lia.
Qed.

(** A request that is not over changes its phase or its outcome. *)
Lemma inv_moves x r q0 q n :
  LifeInv x -> reqs x !! r = Some q0 -> ~ ended_well r q0 -> req_ok x r q ->
  n = handlerMsgNum x + (if decide (rq_phase q = Counted) then 1 else 0) -
      (if decide (rq_phase q0 = Counted) then 1 else 0) -> LifeInv (with_req r q n x).
Proof.
  intros Hx Hr Hne Hq ->. apply inv_req_step; [done| |done|by eapply size_running].
  intros q1 Hr1 Hw. rewrite Hr in Hr1. injection Hr1 as <-. done.
Qed.

Lemma write_to_open x c : LifeInv x -> gentle x -> write_to c x <> Cut.
Proof.
  intros Hx Hg. unfold write_to. pose proof (li_open x Hx Hg c). by destruct (closedBy x !! c) as [[]|].
Qed.

Lemma write_to_settled x c : write_to c x <> Pending /\ write_to c x <> Queued /\ write_to c x <> Silent.
Proof. unfold write_to. by destruct (closedBy x !! c) as [[]|]. Qed.

Lemma written_ok x r c p : LifeInv x -> req_ok x r (MkReq c p (write_to c x)).
Proof.
  intros Hx. destruct (write_to_settled x c) as (H1 & H2 & H3). split; cbn; try done.
  intros Hg. by apply write_to_open.
Qed.

(** When no request runs, those that started have ended. *)
Lemma drained_begun x r :
  LifeInv x -> AsyncWrite = false -> gentle x -> handlerMsgNum x = 0 -> r ∈ started x ->
  exists q, reqs x !! r = Some q /\ ended_well r q.
Proof.
  intros Hx Ha Hg Hn Hin. unfold started in Hin. apply elem_of_dom in Hin as [q Hr].
  apply map_lookup_filter_Some in Hr as [Hr Hs]. cbn in Hs. exists q. split; [done|].
  assert (running x = ∅) as He.
  { apply map_size_empty_inv. pose proof (li_num x Hx). lia. }
  pose proof (running_lookup x r q Hr) as Hl. rewrite He, lookup_empty in Hl.
  destruct (li_req x Hx r q Hr) as [K1 K2 K3 K4]. specialize (K2 Hg).
  assert (rq_phase q = Over) as Ho by (destruct (rq_phase q); [done|by rewrite decide_True in Hl|done]).
  split; [done|]. specialize (K1 Ho). destruct (rq_out q); try done; auto 6.
  by rewrite (K3 eq_refl) in Ha.
Qed.

Ltac moves := eapply inv_moves; [done|eassumption| | |cbn; repeat case_decide; first [lia|done]].

Lemma life_step_inv x y : LifeInv x -> life_step x y -> LifeInv y.
Proof.
  intros Hx Hs.
  destruct Hs as [c x _|c x _|c x _|c r x _ Hr|c x _|c x _ _|r c x Hr|r c x Hr _|r c x Hr Ha|r c p x Hr
    |r c x Hr Hsi|r c x Hr|r c o x Hr Ho|x Hd|x Hsh Hn|e x Hsh|e x Hsh|x].
  - by apply (inv_conn_step x).
  - destruct (inShutdown x); apply (inv_conn_step x); try done. cbn. intros c'. apply close_as_open.
  - by apply (inv_conn_step x).
  - apply (inv_conn_step (with_req r (MkReq c Spawned Pending) (handlerMsgNum x) x)); try done.
    apply inv_req_step; [done|by rewrite Hr|by split|]. rewrite running_insert, decide_False by done.
    rewrite delete_id; [apply (li_num x Hx)|]. apply map_lookup_filter_None_2. by left.
  - by apply (inv_conn_step x).
  - apply (inv_conn_step x); try done. cbn. intros c'. apply close_as_open.
  - moves; [by intros [? _]|by split].
  - moves; [by intros [? _]|by apply written_ok].
  - moves; [by intros [? _]|by split].
  - eapply inv_moves; [done|exact Hr| |by apply written_ok|cbn; repeat case_decide; lia].
    intros [_ [Hq|[Hq|[Hq|[Hq _]]]]]; done.
  - moves; [by intros [? _]|by split].
  - moves; [by intros [? _]|by split].
  - destruct (li_req x Hx _ _ Hr) as [K1 K2 K3 K4]. moves; [by intros [? _]|by split].
  - pose proof Hx as [Hn Ho Hc Hb Hi].
    assert (gentle (with_shut Polling ∅ x) -> gentle x) as Hgen by (intros [Hf _]; split; [done|by rewrite (Hi Hd)]).
    split; [exact Hn|intros Hg; exact (Ho (Hgen Hg))| |by intros r _ _ [?|?]|done].
    intros r q Hr. eapply req_ok_mono; [exact Hgen|by apply Hc].
  - pose proof Hx as [Hn' Ho Hc Hb Hi].
    assert (forced x = false -> gentle x) as Hgen by (intros ?; split; [done|by rewrite Hsh]).
    split; [exact Hn'|intros [Hf _]; exact (Ho (Hgen Hf))| | |done].
    + intros r q Hr. eapply req_ok_mono; [intros [Hf _]; exact (Hgen Hf)|by apply Hc].
    + intros r Ha Hf _ Hin. exact (drained_begun x r Hx Ha (Hgen Hf) Hn Hin).
  - pose proof Hx as [Hn' Ho Hc Hb Hi].
    assert (forced x = false -> gentle x) as Hgen by (intros ?; split; [done|by rewrite Hsh]).
    split; [exact Hn'|intros [Hf _]; exact (Ho (Hgen Hf))| |by intros r _ _ [?|?]|done].
    intros r q Hr. eapply req_ok_mono; [intros [Hf _]; exact (Hgen Hf)|by apply Hc].
  - pose proof Hx as [Hn Ho Hc Hb Hi]. split; [exact Hn|by intros [_ []]| | |].
    + intros r q Hr. eapply req_ok_mono; [by intros [_ []]|by apply Hc].
    + intros r Ha Hf [?|[= ->]] Hin; [done|]. apply (Hb r Ha Hf); auto.
    + intros Hd. rewrite (Hi Hd) in Hsh. done.
  - pose proof Hx as [Hn Ho Hc Hb Hi]. split; [exact Hn|by intros [? _]| |by intros r _ ?|exact Hi].
    intros r q Hr. eapply req_ok_mono; [by intros [? _]|by apply Hc].
Qed.

Lemma born_inv : LifeInv born.
Proof. by split. Qed.

Lemma life_reach_inv x : life_reach x -> LifeInv x.
Proof. induction 1; [apply born_inv|by eapply life_step_inv]. Qed.

(** C17. Graceful shutdown does not cut requests that run, on a server without [AsyncWrite]: when
    [Shutdown] has waited for the requests without its context expiring, and nobody called
    [Close], every request that had started is over, and its response was written, unless its own
    connection ended first, its processing panicked, or no response is due (one-way requests and
    silent handlers). This holds at the moment the waiting is over and for good, in every
    interleaving of connections, requests and the shutdown. *)
Theorem shutdown_drains x r :
  AsyncWrite = false -> life_reach x -> forced x = false ->
  (shut x = Drained None \/ shut x = Ended None) -> r ∈ begun x ->
  exists q, reqs x !! r = Some q /\ rq_phase q = Over /\
    (rq_out q = Answered \/ rq_out q = ConnEnded \/ rq_out q = Panicked \/ rq_out q = Silent /\ silent r = true).
Proof. intros Ha Hr Hf Hs Hin. by apply (li_begun x (life_reach_inv x Hr)). Qed.
End Life.

(** ** A run

    Request 0 is answered before the shutdown; request 1 is read before it, but its goroutine
    starts only after [Shutdown] has found no request running. *)

Definition nobody (r : nat) : bool := false.

Definition run0 : life := MkLife false false {[0%nat]} ∅ {[0%nat := CNew]} ∅ 0 NotCalled ∅ false [].
Definition run1 : life := with_conn 0 CRead (with_conn 0 CLoop run0).
Definition run2 : life := with_req 0 (MkReq 0 Counted Pending) 1
  (with_conn 0 CLoop (with_req 0 (MkReq 0 Spawned Pending) 0 run1)).
Definition run3 : life := with_req 0 (MkReq 0 Over Answered) 0 (with_req 0 (MkReq 0 Counted Answered) 1 run2).
Definition run4 : life := with_conn 0 CLoop (with_req 1 (MkReq 0 Spawned Pending) 0 (with_conn 0 CRead run3)).
Definition run5 : life := with_shut (Drained None) {[0%nat]} (with_shut Polling ∅ run4).
Definition run6 : life := closeActive (Ended None) false run5.
Definition run7 : life := with_req 1 (MkReq 0 Counted Cut) 1 (with_req 1 (MkReq 0 Counted Pending) 1 run6).

Local Tactic Notation "life_go" uconstr(c) := eapply lr_step; [|refine c; reflexivity].

Lemma run2_reach a : life_reach a nobody nobody run2.
Proof.
  life_go (r_begin _ _ _ 0 0 _ _).
  life_go (l_request _ _ _ 0 0 run1 _ _).
  life_go (l_loop _ _ _ 0 (with_conn 0 CLoop run0) _).
  life_go (l_start _ _ _ 0 run0 _).
  eapply lr_step; [apply lr_born|]. refine (l_accept _ _ _ 0 born _). reflexivity.
Qed.

Lemma run4_reach : life_reach false nobody nobody run4.
Proof.
  life_go (l_request _ _ _ 0 1 (with_conn 0 CRead run3) _ _).
  life_go (l_loop _ _ _ 0 run3 _).
  eapply lr_step; [|refine (r_end _ _ _ 0 0 Answered (with_req 0 (MkReq 0 Counted Answered) 1 run2) _ _); done].
  eapply lr_step; [|refine (r_write _ _ _ 0 0 run2 _ _); [reflexivity|by left]].
  apply run2_reach.
Qed.

Lemma run5_reach : life_reach false nobody nobody run5.
Proof.
  assert (started (with_shut Polling ∅ run4) = {[0%nat]}) as Hs by (apply leibniz_equiv; vm_compute; set_solver).
  eapply lr_step; [|unfold run5; rewrite <- Hs; refine (s_poll _ _ _ (with_shut Polling ∅ run4) _ _); reflexivity].
  life_go (s_begin _ _ _ run4 _). exact run4_reach.
Qed.

Lemma run7_reach : life_reach false nobody nobody run7.
Proof.
  eapply lr_step; [|refine (r_write _ _ _ 1 0 (with_req 1 (MkReq 0 Counted Pending) 1 run6) _ _); [reflexivity|by left]].
  life_go (r_begin _ _ _ 1 0 run6 _).
  life_go (s_close _ _ _ None run5 _). exact run5_reach.
Qed.

Lemma shutdown_drains_witness :
  0%nat ∈ begun run7 /\
  exists q, reqs run7 !! 0%nat = Some q /\ rq_phase q = Over /\
    (rq_out q = Answered \/ rq_out q = ConnEnded \/ rq_out q = Panicked \/ rq_out q = Silent /\ nobody 0 = true).
Proof.
  assert (0%nat ∈ begun run7) as Hin by (change (0%nat ∈ ({[0%nat]} : gset nat)); by apply elem_of_singleton).
  split; [exact Hin|].
  apply (shutdown_drains false nobody nobody run7 0 eq_refl run7_reach); [reflexivity|by right|exact Hin].
Defined.

(** Graceful shutdown can cut a request that was read before it was called: [Shutdown] counts
    the requests whose goroutine has started, so it can return without an error while a request
    that a connection handed to a goroutine is still to start, which then finds its connection
    closed. *)
Theorem shutdown_cuts_unstarted :
  exists x y r c, life_reach false nobody nobody x /\ shut x = NotCalled /\
    reqs x !! r = Some (MkReq c Spawned Pending) /\
    life_reach false nobody nobody y /\ shut y = Ended None /\ forced y = false /\
    reqs y !! r = Some (MkReq c Counted Cut).
Proof.
  exists run4, run7, 1%nat, 0%nat. split_and!; [exact run4_reach|done|done|exact run7_reach|done|done|done].
Qed.

(** With [AsyncWrite] it can also cut a request that had started and that it waited for: the
    counter goes down when the response is queued, not when it is written. *)
Definition late0 : life := with_req 0 (MkReq 0 Over Queued) 0 (with_req 0 (MkReq 0 Counted Queued) 1 run2).
Definition late1 : life := with_shut (Drained None) {[0%nat]} (with_shut Polling ∅ late0).
Definition late2 : life := with_req 0 (MkReq 0 Over Cut) 0 (closeActive (Ended None) false late1).

Theorem shutdown_cuts_queued :
  life_reach true nobody nobody late2 /\ shut late2 = Ended None /\ forced late2 = false /\
  0%nat ∈ begun late2 /\ reqs late2 !! 0%nat = Some (MkReq 0 Over Cut).
Proof.
  assert (started (with_shut Polling ∅ late0) = {[0%nat]}) as Hs by (apply leibniz_equiv; vm_compute; set_solver).
  split_and!; [|done|done|change (0%nat ∈ ({[0%nat]} : gset nat)); by apply elem_of_singleton|done].
  life_go (r_late _ _ _ 0 0 Over (closeActive (Ended None) false late1) _).
  life_go (s_close _ _ _ None late1 _).
  eapply lr_step; [|unfold late1; rewrite <- Hs; refine (s_poll _ _ _ (with_shut Polling ∅ late0) _ _); reflexivity].
  life_go (s_begin _ _ _ late0 _).
  eapply lr_step; [|refine (r_end _ _ _ 0 0 Queued (with_req 0 (MkReq 0 Counted Queued) 1 run2) _ _); done].
  life_go (r_queue _ _ _ 0 0 run2 _ _). apply run2_reach.
Qed.
End Life.
