(* ===== verification/Plugins.v ===== *)
(** The bundled plugins (serverplugin/alias.go, blacklist.go, whitelist.go, rate_limiting.go,
    req_rate_limiting.go, req_rate_limiting_redis.go, tee.go, metrics.go and
    clientplugin/req_rate_limiting_redis.go), alone and plugged into the server.

    The token bucket (juju/ratelimit) and the redis limiter are parameters; [BucketLaws] states
    how a bucket fills and empties. *)

From S2P Require Import Prelude GoStd NetIP Share Header Message Hooks ServerPlugins Client Server ServerProofs ServerLife.

Module Plugins.

(** A plugin with a [PostReadRequest] hook only, and one with a [HandleConnAccept] hook only. *)
Definition post_read {W C A} (h : Message -> W -> W * (Message * option error)) : Plugin W C A :=
  MkPlugin 0 None None None None None None (Some (fun _ => h)) None None None None None None None None.
Definition conn_accept {W C A} (h : C -> W -> W * (C * bool)) : Plugin W C A :=
  MkPlugin 0 None None None (Some h) None None None None None None None None None None None.

(** ** Aliases *)

Definition aliasAppliedKey := "__aliasAppliedKey"%string.

Record aliasPair := MkPair { ap_servicePath : string; ap_serviceMethod : string }.

(** [None] is a nil map. *)
Record AliasPlugin := MkAlias {
  Aliases : option (gmap string aliasPair);
  ReseverseAliases : option (gmap string aliasPair);
}.

Definition dotted (sp sm : string) : string := (sp +:+ "." +:+ sm)%string.

Definition NewAliasPlugin : AliasPlugin := MkAlias (Some ∅) (Some ∅).

Definition Alias (aliasServicePath aliasServiceMethod servicePath serviceMethod : string) :
    Go AliasPlugin unit := fun p =>
  match Aliases p with
  | None => (p, Panic "assignment to entry in nil map")
  | Some m =>
      let p := MkAlias (Some (<[dotted aliasServicePath aliasServiceMethod :=
                                 MkPair servicePath serviceMethod]> m)) (ReseverseAliases p) in
      match ReseverseAliases p with
      | None => (p, Panic "assignment to entry in nil map")
      | Some r =>
          (MkAlias (Aliases p) (Some (<[dotted servicePath serviceMethod :=
                                       MkPair aliasServicePath aliasServiceMethod]> r)), Ok tt)
      end
  end.

Definition set_path (sp sm : string) (m : Message) : Message :=
  MkMessage (m_header m) sp sm (Metadata m) (Payload m) (m_data m).

Definition Alias_PostReadRequest (p : AliasPlugin) (r : Message) : Message * option error :=
  match default ∅ (Aliases p) !! dotted (ServicePath r) (ServiceMethod r) with
  | Some pm =>
      let r := set_path (ap_servicePath pm) (ap_serviceMethod pm) r in
      (set_meta (Some (<[aliasAppliedKey := "true"%string]> (default ∅ (Metadata r)))) r, None)
  | None => (r, None)
  end.

(** It takes no error, so the plugin is not a [PreWriteResponsePlugin]. *)
Definition Alias_PreWriteResponse (p : AliasPlugin) (r : Message) (res : option Message) :
    Message * option Message * option error :=
  if negb (bool_decide (default ∅ (Metadata r) !! aliasAppliedKey = Some "true"%string)) then (r, res, None)
  else
    match default ∅ (ReseverseAliases p) !! dotted (ServicePath r) (ServiceMethod r) with
    | Some pm =>
        let r := set_path (ap_servicePath pm) (ap_serviceMethod pm) r in
        (set_meta (delete aliasAppliedKey <$> Metadata r) r,
         set_path (ap_servicePath pm) (ap_serviceMethod pm) <$> res, None)
    | None => (r, res, None)
    end.

(** The hooks the server finds on the plugin. *)
Definition alias_plugin {W C A} (p : AliasPlugin) : Plugin W C A :=
  post_read (fun r w => (w, Alias_PostReadRequest p r)).

(** [PreWriteResponse] undoes [PostReadRequest] for the pair that was registered last with its
    target: request and response get the alias back, and the mark is gone. *)
Theorem alias_roundtrip p p' a b sp sm r res :
  Alias a b sp sm p = (p', Ok tt) -> ServicePath r = a -> ServiceMethod r = b ->
  default ∅ (Metadata r) !! aliasAppliedKey = None ->
  exists r', Alias_PreWriteResponse p' (Alias_PostReadRequest p' r).1 res =
    (r', set_path a b <$> res, None) /\
    ServicePath r' = a /\ ServiceMethod r' = b /\ Payload r' = Payload r /\ m_header r' = m_header r /\
    Metadata r' = Some (default ∅ (Metadata r)).
Proof.
  intros Ha <- <- Hk. unfold Alias in Ha. destruct (Aliases p) as [m|]; [|done].
  cbn in Ha. destruct (ReseverseAliases p) as [rv|]; [|done]. injection Ha as <-.
  unfold Alias_PostReadRequest. cbn [Aliases default from_option]. unfold id. rewrite lookup_insert_eq.
  unfold Alias_PreWriteResponse. cbn. unfold id. rewrite lookup_insert_eq, bool_decide_eq_true_2 by done. cbn.
  rewrite lookup_insert_eq. eexists. split; [reflexivity|]. cbn. split_and!; try done.
  rewrite delete_insert_id by done. done.
Qed.

Lemma alias_roundtrip_witness :
  exists r', Alias_PreWriteResponse (Alias "x" "y" "Arith" "Mul" NewAliasPlugin).1
    (Alias_PostReadRequest (Alias "x" "y" "Arith" "Mul" NewAliasPlugin).1
      (MkMessage newHeader "x" "y" None [] nil_slice)).1 None = (r', None, None) /\
    ServicePath r' = "x"%string.
Proof.
  destruct (alias_roundtrip NewAliasPlugin (Alias "x" "y" "Arith" "Mul" NewAliasPlugin).1
    "x" "y" "Arith" "Mul" (MkMessage newHeader "x" "y" None [] nil_slice) None) as (r' & H1 & H2 & _);
    try reflexivity. exists r'. split; [exact H1|exact H2].
Defined.

(** Path and method are joined by a dot: an alias also applies to other pairs with the same
    join. *)
Example alias_ambiguous :
  ServicePath (Alias_PostReadRequest (Alias "a.b" "c" "Arith" "Mul" NewAliasPlugin).1
    (MkMessage newHeader "a" "b.c" None [] nil_slice)).1 = "Arith"%string.
Proof. reflexivity. Qed.

Section Aliased.
Context {W C V : Type} `{Compressors}.
Variable s : Server (W := W) (C := C) (V := V).

(** A request for an alias is handed to the method it stands for. The answer names that
    method, not the alias: nothing restores the names, since the server never finds the
    plugin's [PreWriteResponse]. *)
Theorem alias_served p req pm w :
  Plugins s = [alias_plugin p] -> AuthFunc s = None ->
  default ∅ (Aliases p) !! dotted (ServicePath req) (ServiceMethod req) = Some pm ->
  let req' := (Alias_PostReadRequest p req).1 in
  serveRound s (req, None) w = (w, [Spawned req'], Again) /\
  ServicePath req' = ap_servicePath pm /\ ServiceMethod req' = ap_serviceMethod pm /\
  (decodes s req' -> header_ok (m_header req) ->
   IsHeartbeat (m_header req) = false -> IsOneway (m_header req) = false ->
   router s !! dotted (ap_servicePath pm) (ap_serviceMethod pm) = None ->
   exists w' m, processOneRequest s req' w = (w', [m]) /\ Seq (m_header m) = Seq (m_header req) /\
     ServicePath m = ap_servicePath pm /\ ServiceMethod m = ap_serviceMethod pm).
Proof using Type.
  intros Hp Ha Hm req'. unfold req', Alias_PostReadRequest. rewrite Hm.
  split_and!; [|done|done|].
  - unfold serveRound, readRequest. rewrite Hp. cbn. unfold Alias_PostReadRequest. rewrite Hm.
    cbn. unfold auth. rewrite Ha. by destruct (IsHeartbeat _).
  - intros Hd Hok Hh Ho Hr. cbn [fst].
    match goal with |- context [processOneRequest s ?r w] => set (r1 := r) end.
    destruct (processOneRequest_answers s r1 w) as (w' & ms & Hpr & Hms); try done.
    { split; intros; rewrite Hp; cbn; eauto. }
    change (m_header r1) with (m_header req) in Hms. rewrite Ho in Hms.
    destruct Hms as [Hms|[_ [why Hw]]]; [|by destruct (Hd why)]. destruct Hms as (m & -> & Ha1 & Ha2 & Ha3 & _). eexists w', m. by rewrite Hpr, Ha1, Ha2, Ha3.
Qed.
End Aliased.

(** ** Address lists *)

(** [listed] are the listed hosts, [masks] the listed networks, [addr] is
    [conn.RemoteAddr().String()]. *)
Definition Blacklist_accept (listed : gmap string bool) (masks : list IPNet) (addr : string) : bool :=
  match SplitHostPort (string_bytes addr) with
  | Ok (ip, _) =>
      if default false (listed !! bytes_string ip) then false
      else if existsb (fun mask => Contains_ip mask (ParseIP ip)) masks then false
      else true
  | _ => true
  end.

Definition Whitelist_accept (listed : gmap string bool) (masks : list IPNet) (addr : string) : bool :=
  match SplitHostPort (string_bytes addr) with
  | Ok (ip, _) =>
      if default false (listed !! bytes_string ip) then true
      else if existsb (fun mask => Contains_ip mask (ParseIP ip)) masks then true
      else false
  | _ => false
  end.

(** Both lists as plugins, [remote] being the remote address of a connection. *)
Definition blacklist_plugin {W C A} (remote : C -> string) listed masks : Plugin W C A :=
  conn_accept (fun c w => (w, (c, Blacklist_accept listed masks (remote c)))).
Definition whitelist_plugin {W C A} (remote : C -> string) listed masks : Plugin W C A :=
  conn_accept (fun c w => (w, (c, Whitelist_accept listed masks (remote c)))).

(** A mask byte of [8 - j] ones keeps the byte without its last [j] bits. *)
Lemma land_mask_byte a j : is_byte a -> 0 <= j <= 8 ->
  Z.land a ((256 - 2 ^ j) mod 256) = 2 ^ j * (a / 2 ^ j).
Proof.
  intros Ha Hj.
  assert (forallb (fun j => Z.land a ((256 - 2 ^ j) mod 256) =? 2 ^ j * (a / 2 ^ j))
            [0; 1; 2; 3; 4; 5; 6; 7; 8] = true) as H.
  { revert a Ha. by_bytes1 (fun a => forallb (fun j => Z.land a ((256 - 2 ^ j) mod 256) =? 2 ^ j * (a / 2 ^ j))
            [0; 1; 2; 3; 4; 5; 6; 7; 8]). }
  rewrite forallb_forall in H. apply Z.eqb_eq, H. cbn. lia.
Qed.

(** The comparison under the mask of a network of [n] bits, on one address form. *)
Definition masked_eq (nn ip m : bytes) : bool :=
  forallb (fun '(a, (b, k)) => Z.land a k =? Z.land b k) (zip nn (zip ip m)).

Lemma masked_eq_prefix len : forall n nn ip,
  length nn = len -> length ip = len -> bytes_ok nn -> bytes_ok ip -> (n <= 8 * len)%nat ->
  masked_eq nn ip (CIDRMask n len) = true <->
  be_combine nn / 2 ^ (8 * Z.of_nat len - Z.of_nat n) = be_combine ip / 2 ^ (8 * Z.of_nat len - Z.of_nat n).
Proof.
  induction len as [|len IH]; intros n nn ip Hn Hi On Oi Hle.
  { apply nil_length_inv in Hn, Hi. by subst. }
  destruct nn as [|a nn], ip as [|b ip]; try done.
  apply bytes_ok_cons in On as [Oa On], Oi as [Ob Oi]. injection Hn as Hn. injection Hi as Hi.
  rewrite !be_combine_cons by done. unfold zlen. rewrite Hn, Hi.
  pose proof (be_combine_range nn On) as Rn. pose proof (be_combine_range ip Oi) as Ri.
  unfold zlen in Rn, Ri. rewrite Hn in Rn. rewrite Hi in Ri.
  assert (256 ^ Z.of_nat len = 2 ^ (8 * Z.of_nat len)) as E by (rewrite Z.pow_mul_r by lia; done).
  rewrite E in *. cbn [CIDRMask].
  destruct (Nat.leb_spec 8 n) as [H8|H8].
  - unfold masked_eq in *. cbn [zip zip_with forallb]. rewrite andb_true_iff, Z.eqb_eq.
    change (forallb _ _) with (masked_eq nn ip (CIDRMask (n - 8) len)) at 1.
    unfold masked_eq. rewrite IH by (done || lia).
    pose proof (land_mask_byte a 0 Oa) as La. pose proof (land_mask_byte b 0 Ob) as Lb.
    change ((256 - 2 ^ 0) mod 256) with 255 in La, Lb. rewrite La, Lb by lia. rewrite !Z.div_1_r, !Z.mul_1_l.
    set (e := 8 * Z.of_nat len - Z.of_nat (n - 8)).
    replace (8 * Z.of_nat (S len) - Z.of_nat n) with e by (unfold e; lia).
    assert (2 ^ (8 * Z.of_nat len) = 2 ^ (8 * Z.of_nat len - e) * 2 ^ e) as E2
      by (rewrite <- Z.pow_add_r by (unfold e; lia); f_equal; lia).
    pose proof (Z.pow_pos_nonneg 2 e ltac:(lia) ltac:(unfold e; lia)).
    pose proof (Z.pow_pos_nonneg 2 (8 * Z.of_nat len - e) ltac:(lia) ltac:(unfold e; lia)).
    rewrite E2, !Z.mul_assoc, !(Z.add_comm (_ * 2 ^ e)), !Z.div_add by lia.
    assert (forall x, 0 <= x < 2 ^ (8 * Z.of_nat len) -> 0 <= x / 2 ^ e < 2 ^ (8 * Z.of_nat len - e)) as Hx.
    { intros x Hx. split; [apply Z.div_pos; lia|]. apply Z.div_lt_upper_bound; [lia|]. lia. }
    specialize (Hx (be_combine nn) Rn) as Hx1. specialize (Hx (be_combine ip) Ri) as Hx2.
    split; [intros [-> ->]; done|]. intros Heq.
    assert (a = b) as ->; [|split; [done|lia]]. nia.
  - unfold masked_eq in *. cbn [zip zip_with forallb]. rewrite andb_true_iff, Z.eqb_eq.
    change (forallb _ _) with (masked_eq nn ip (CIDRMask 0 len)) at 1.
    set (j := 8 - Z.of_nat n). rewrite !land_mask_byte by (done || lia).
    assert (masked_eq nn ip (CIDRMask 0 len) = true) as Hrest.
    { unfold masked_eq. apply IH; try done; [lia|]. rewrite Nat2Z.inj_0, Z.sub_0_r.
      by rewrite !Z.div_small by lia. }
    replace (8 * Z.of_nat (S len) - Z.of_nat n) with (8 * Z.of_nat len + j) by (unfold j; lia).
    rewrite Z.pow_add_r, <- !Z.div_div by (unfold j; lia).
    rewrite !(Z.add_comm (_ * _)), !Z.div_add, !(Z.div_small (be_combine _)) by lia.
    rewrite !Z.add_0_l. pose proof (Z.pow_pos_nonneg 2 j ltac:(lia) ltac:(unfold j; lia)).
    split; [intros [Heq _]; nia|intros ->; done].
Qed.

(** A network of [n] leading bits, and whether an IPv4 address lies in it. *)
Definition v4_net (p : bytes * nat) : IPNet := MkNet p.1 (CIDRMask p.2 4).
Definition net_ok (p : bytes * nat) : Prop := length p.1 = 4%nat /\ bytes_ok p.1 /\ (p.2 <= 32)%nat.
Definition in_net (x : bytes) (p : bytes * nat) : Prop :=
  be_combine p.1 / 2 ^ (32 - Z.of_nat p.2) = be_combine x / 2 ^ (32 - Z.of_nat p.2).

Lemma length_CIDRMask n len : length (CIDRMask n len) = len.
Proof. revert n. induction len as [|len IH]; intros n; [done|]. cbn [CIDRMask]. destruct (8 <=? n)%nat; cbn [length]; by rewrite IH. Qed.

Lemma Contains_v4 p x : net_ok p -> length x = 4%nat -> bytes_ok x ->
  Contains_ip (v4_net p) (Some (v4InV6Prefix ++ x)) = true <-> in_net x p.
Proof.
  intros (Hl & Hb & Hn) Hx Hxb. unfold Contains_ip, networkNumberAndMask, To4. cbn [v4_net n_IP n_Mask].
  rewrite length_CIDRMask, Hl. cbn [decide]. rewrite !decide_True by done. cbn [default from_option].
  unfold id. rewrite decide_False by (rewrite length_app, Hx; done).
  rewrite decide_True by (rewrite length_app, Hx; done).
  change 12%nat with (length v4InV6Prefix). rewrite take_app_length, drop_app_length, decide_True by done.
  cbn [default from_option]. unfold id. rewrite bool_decide_eq_true_2 by lia. rewrite andb_true_l.
  change (forallb _ _) with (masked_eq p.1 x (CIDRMask p.2 4)).
  rewrite masked_eq_prefix by done. done.
Qed.

(** The two lists are each other's complement: with the same entries, one accepts exactly the
    connections the other refuses. On an IPv4 client, the white list accepts when the host is
    listed or its address has the leading bits of a listed network. *)
Theorem address_lists listed masks addr :
  Blacklist_accept listed masks addr = negb (Whitelist_accept listed masks addr) /\
  forall nets ip port x, masks = v4_net <$> nets -> Forall net_ok nets ->
    SplitHostPort (string_bytes addr) = Ok (ip, port) ->
    ParseIP ip = Some (v4InV6Prefix ++ x) -> length x = 4%nat -> bytes_ok x ->
    Whitelist_accept listed masks addr = true <->
      listed !! bytes_string ip = Some true \/ Exists (in_net x) nets.
Proof.
  split.
  - unfold Blacklist_accept, Whitelist_accept. destruct (SplitHostPort _) as [[ip port]| |]; [|done..].
    by repeat case_match.
  - intros nets ip port x -> Hok Hs Hp Hx Hb. unfold Whitelist_accept. rewrite Hs, Hp.
    assert (existsb (fun mask => Contains_ip mask (Some (v4InV6Prefix ++ x))) (v4_net <$> nets) = true
            <-> Exists (in_net x) nets) as He.
    { rewrite existsb_exists, Exists_exists. split.
      - intros (m & Hm & Hc). apply list_elem_of_In, list_elem_of_fmap in Hm as (q & -> & Hq).
        exists q. split; [done|]. rewrite Forall_forall in Hok. by apply Contains_v4, Hc; auto.
      - intros (q & Hq & Hi). exists (v4_net q). split; [by apply list_elem_of_In, list_elem_of_fmap_2|].
        rewrite Forall_forall in Hok. apply Contains_v4; auto. }
    rewrite <- He. destruct (listed !! bytes_string ip) as [[]|]; cbn; [by split; auto| |];
      (case_match; [by split; auto|]); by (split; [done|intros [?|?]]).
Qed.

Lemma address_lists_witness :
  Whitelist_accept ∅ [MkNet [172; 17; 0; 0] (CIDRMask 16 4)] "172.17.8.9:4000" = true.
Proof.
  destruct (address_lists ∅ [MkNet [172; 17; 0; 0] (CIDRMask 16 4)] "172.17.8.9:4000") as [_ H].
  apply (H [([172; 17; 0; 0], 16%nat)] (string_bytes "172.17.8.9") (string_bytes "4000") [172; 17; 8; 9]);
    try reflexivity.
  - repeat constructor; cbn; try lia; solve_bytes.
  - solve_bytes.
  - right. repeat constructor.
Defined.

(** A client with a zone in its address (IPv6 link-local) has no parsable IP: no network of the
    black list refuses it. *)
Example zone_evades_blacklist :
  Blacklist_accept ∅ [MkNet ([254; 128] ++ replicate 14 0) (CIDRMask 10 16)] "[fe80::1]:4000" = false /\
  Blacklist_accept ∅ [MkNet ([254; 128] ++ replicate 14 0) (CIDRMask 10 16)] "[fe80::1%eth0]:4000" = true.
Proof. split; reflexivity. Qed.

(** ** Rate limits with a token bucket *)

(** [bk_TakeAvailable now n] and [bk_Wait now n] at the time [now], in nanoseconds since the
    bucket was made; the second returns how long it sleeps. *)
Class Bucket (B : Type) := {
  bk_New : Z -> Z -> res B;
  bk_TakeAvailable : Z -> Z -> B -> B * Z;
  bk_Wait : Z -> Z -> B -> B * Z;
}.

(** A bucket starts full; it gains a token every [fill] nanoseconds up to its capacity, which
    is counted when a token is asked for. *)
Class BucketLaws (B : Type) {bk : Bucket B} := {
  bk_level : B -> Z;
  bk_tick : B -> Z;
  bk_cap : B -> Z;
  bk_fill : B -> Z;
  bk_New_ok fill cap b : bk_New fill cap = Ok b ->
    0 < fill /\ 0 < cap /\ bk_level b = cap /\ bk_tick b = 0 /\ bk_cap b = cap /\ bk_fill b = fill;
  bk_Take_ok now n b b' k : bk_TakeAvailable now n b = (b', k) -> bk_tick b <= now / bk_fill b -> 0 < n ->
    let avail := (bk_level b + (now / bk_fill b - bk_tick b)) `min` bk_cap b in
    k = 0 `max` (n `min` avail) /\ bk_level b' = avail - k /\ bk_tick b' = now / bk_fill b /\
    bk_cap b' = bk_cap b /\ bk_fill b' = bk_fill b;
}.

Section Buckets.
Context {B : Type} {bk : Bucket B}.

(** A panic of the bucket's constructor is the constructor's panic. *)
Definition NewRateLimitingPlugin (fillInterval capacity : Z) : res B := bk_New fillInterval capacity.

Definition RateLimiting_HandleConnAccept {C} (now : Z) (conn : C) (b : B) : B * (C * bool) :=
  let '(b, k) := bk_TakeAvailable now 1 b in (b, (conn, k >? 0)).

(** [block] waits instead of refusing. *)
Record ReqRateLimitingPlugin := MkReqLimit { rl_bucket : B; rl_block : bool }.

Definition NewReqRateLimitingPlugin (fillInterval capacity : Z) (block : bool) : res ReqRateLimitingPlugin :=
  match bk_New fillInterval capacity with
  | Ok tb => Ok (MkReqLimit tb block)
  | Er e => Er e
  | Panic w => Panic w
  end.

Definition ReqRateLimiting_PostReadRequest (now : Z) (p : ReqRateLimitingPlugin) :
    ReqRateLimitingPlugin * option error :=
  if rl_block p then (MkReqLimit (bk_Wait now 1 (rl_bucket p)).1 true, None)
  else
    let '(b, count) := bk_TakeAvailable now 1 (rl_bucket p) in
    (MkReqLimit b false, if count =? 1 then None else Some ErrReqReachLimit).

(** Connections that come at the given times, and which of them are accepted. *)
Fixpoint accept_at (times : list Z) (b : B) : list bool :=
  match times with
  | [] => []
  | t :: times =>
      let '(b, (_, ok)) := RateLimiting_HandleConnAccept t tt b in ok :: accept_at times b
  end.

Definition accepted_count (l : list bool) : Z := foldr (fun (ok : bool) n => (if ok then 1 else 0) + n) 0 l.

Context {laws : BucketLaws B}.

Lemma accept_step t b b' ok :
  RateLimiting_HandleConnAccept t tt b = (b', (tt, ok)) -> bk_tick b <= t / bk_fill b ->
  let avail := (bk_level b + (t / bk_fill b - bk_tick b)) `min` bk_cap b in
  ok = (0 <? avail) /\ bk_level b' = avail - (if ok then 1 else 0) /\ bk_tick b' = t / bk_fill b /\
  bk_cap b' = bk_cap b /\ bk_fill b' = bk_fill b.
Proof using laws.
  unfold RateLimiting_HandleConnAccept. destruct (bk_TakeAvailable t 1 b) as [b1 k] eqn:Hk.
  intros [= <- <-] Ht. destruct (bk_Take_ok t 1 b b1 k Hk Ht) as (Hk' & Hl & ? & ? & ?); [lia|].
  set (avail := (bk_level b + _) `min` _) in *. rewrite Hl, Z.gtb_ltb. destruct (Z.ltb_spec 0 avail), (Z.ltb_spec 0 k); split_and!; (lia || done).
Qed.

Lemma accept_at_bounds times last : forall b,
  0 < bk_fill b -> 0 < bk_cap b -> 0 <= bk_level b <= bk_cap b ->
  Sorted Z.le times -> Forall (fun t => bk_tick b <= t / bk_fill b /\ t <= last) times ->
  bk_tick b <= last / bk_fill b ->
  accepted_count (accept_at times b) <= bk_level b + (last / bk_fill b - bk_tick b) /\
  forall n, Z.of_nat n <= bk_level b -> take n (accept_at times b) = replicate (n `min` length times) true.
Proof using laws.
  induction times as [|t times IH]; intros b Hf Hc Hl Hs Ht Hlast.
  { cbn. split; [lia|]. intros n _. by rewrite take_nil, Nat.min_0_r. }
  apply Forall_cons in Ht as [[Ht Htl] Hts]. cbn [accept_at].
  destruct (RateLimiting_HandleConnAccept t tt b) as [b' [[] ok]] eqn:Ha.
  destruct (accept_step t b b' ok Ha Ht) as (Hok & Hl' & Ht' & Hc' & Hf').
  set (avail := (bk_level b + (t / bk_fill b - bk_tick b)) `min` bk_cap b) in *.
  assert (t / bk_fill b <= last / bk_fill b) by (by apply Z.div_le_mono).
  apply Sorted_inv in Hs as [Hs Hh].
  assert (Forall (fun t' => t <= t') times) as Hge by (apply Sorted_extends; [intros ???; lia|by constructor]).
  destruct (IH b') as [IH1 IH2]; rewrite ?Hf', ?Hc', ?Ht'; try done.
  { destruct ok; symmetry in Hok; zbool; lia. }
  { apply Forall_forall. intros t' Hin. rewrite Forall_forall in Hts, Hge. split; [|by apply Hts].
    apply Z.div_le_mono; [done|by apply Hge]. }
  rewrite Hf', Ht' in IH1. 
  change (accepted_count (ok :: accept_at times b')) with ((if ok then 1 else 0) + accepted_count (accept_at times b')).
  split; [destruct ok; lia|].
  intros n Hn. destruct n as [|n]; [done|]. cbn [length Nat.min replicate take].
  assert (ok = true) as -> by (rewrite Hok; apply Z.ltb_lt; lia).
  f_equal. apply IH2. lia.
Qed.

(** The plugin in a server, whose world holds the clock and the bucket. *)
Definition rate_limit_plugin {C A} : Plugin (Z * B) C A :=
  MkPlugin 0 None None None
    (Some (fun conn w => let '(b, r) := RateLimiting_HandleConnAccept w.1 conn w.2 in ((w.1, b), r)))
    None None None None None None None None None None None.

(** Connections that reach the accept loop at the given times. *)
Definition arrivals {C} (cs : list (Z * C)) : list (accepted C * (Z * B -> Z * B) * bool) :=
  (fun tc => (AConn tc.2, fun w => (tc.1, w.2), false)) <$> cs.

Definition served {C} (es : list (accept_effect C)) : list bool :=
  (fun e => match e with Serving _ => true | _ => false end) <$> es.

Lemma serveListener_limited {C A} closed (cs : list (Z * C)) d t0 b :
  served (serveListener closed ([rate_limit_plugin] : pluginContainer (Z * B) C A) (arrivals cs) d (t0, b)).1 =
    accept_at cs.*1 b.
Proof using Type.
  revert d t0 b. induction cs as [|[t c] cs IH]; intros d t0 b; [done|].
  cbn [arrivals fmap list_fmap serveListener DoPostConnAccept rate_limit_plugin HandleConnAccept accept_at fst snd].
  unfold RateLimiting_HandleConnAccept. destruct (bk_TakeAvailable t 1 b) as [b1 k].
  specialize (IH 0 t b1). unfold arrivals in IH.
  destruct (k >? 0); cbn [negb]; destruct (serveListener _ _ _ _ _) as [es r]; cbn in *; by rewrite IH.
Qed.

(** C31. A server whose accept loop runs the rate limiting plugin takes, up to any time, at most its
    capacity plus one connection per interval into service, and it takes the first ones, as many
    as its capacity, however fast they come. Connections that come over HTTP or a websocket do not
    pass the accept loop, and are not limited. *)
Theorem rate_limit_bound {C A} closed fill cap b (cs : list (Z * C)) last t0 :
  NewRateLimitingPlugin fill cap = Ok b -> Sorted Z.le cs.*1 -> Forall (fun t => 0 <= t <= last) cs.*1 ->
  0 <= last ->
  let es := (serveListener closed ([rate_limit_plugin] : pluginContainer (Z * B) C A) (arrivals cs) 0 (t0, b)).1 in
  accepted_count (served es) <= cap + last / fill /\
  take (Z.to_nat cap) (served es) = replicate (Z.to_nat cap `min` length cs) true.
Proof using laws.
  intros Hb Hs Ht Hl es. unfold es. rewrite serveListener_limited.
  destruct (bk_New_ok fill cap b Hb) as (Hf & Hc & El & Et & Ec & Ef).
  destruct (accept_at_bounds cs.*1 last b) as [H1 H2]; rewrite ?Ef, ?Ec, ?El, ?Et in *; try lia.
  - done.
  - eapply Forall_impl; [exact Ht|]. intros t [? ?]. split; [by apply Z.div_pos|done].
  - by apply Z.div_pos.
  - split; [lia|]. rewrite H2, length_fmap by lia. done.
Qed.
End Buckets.
Arguments ReqRateLimitingPlugin B : clear implicits.

(** A bucket as juju/ratelimit keeps it. *)
Record tb := MkTB { tb_fill : Z; tb_cap : Z; tb_avail : Z; tb_tick : Z }.

#[global] Instance tb_Bucket : Bucket tb := {
  bk_New fill cap :=
    if (fill <=? 0) || (cap <=? 0) then Panic "token bucket fill interval is not > 0"
    else Ok (MkTB fill cap cap 0);
  bk_TakeAvailable now n b :=
    let avail := (tb_avail b + (now / tb_fill b - tb_tick b)) `min` tb_cap b in
    let k := 0 `max` (n `min` avail) in
    (MkTB (tb_fill b) (tb_cap b) (avail - k) (now / tb_fill b), k);
  bk_Wait now n b :=
    let avail := (tb_avail b + (now / tb_fill b - tb_tick b)) `min` tb_cap b in
    (MkTB (tb_fill b) (tb_cap b) (avail - n) (now / tb_fill b),
     if n <=? avail then 0 else (now / tb_fill b + (n - avail)) * tb_fill b - now);
}.

#[global] Program Instance tb_laws : BucketLaws tb :=
  {| bk_level := tb_avail; bk_tick := tb_tick; bk_cap := tb_cap; bk_fill := tb_fill |}.
Next Obligation.
  intros fill cap b. cbn. destruct (_ || _)%bool eqn:E; [done|]. zbool. intros [= <-]. cbn. split_and!; (lia || done).
Qed.
Next Obligation. intros now n b b' k. cbn. intros [= <- <-] _ _. done. Qed.

Lemma rate_limit_bound_witness :
  accepted_count (served (serveListener (fun _ => false) ([rate_limit_plugin] : pluginContainer (Z * tb) unit unit)
    (arrivals [(0, tt); (0, tt); (1, tt); (10, tt)]) 0 (0, MkTB 10 2 2 0)).1) <= 2 + 10 / 10.
Proof.
  refine (proj1 (rate_limit_bound (fun _ => false) 10 2 (MkTB 10 2 2 0)
    [(0, tt); (0, tt); (1, tt); (10, tt)] 10 0 _ _ _ _));
    [reflexivity|cbn; repeat constructor; lia|cbn; repeat constructor; lia|lia].
Defined.

(** ** Rate limits on requests, in the server *)

Section Limited.
Context {W C V : Type} `{Compressors}.
Variable s : Server (W := W) (C := C) (V := V).

(** The world of a server holds the plugin and a clock. *)
Definition req_limit_plugin {B} {bk : Bucket B} (clock : W -> Z) (get_p : W -> ReqRateLimitingPlugin B)
    (set_p : ReqRateLimitingPlugin B -> W -> W) : Plugin W C (iface V) :=
  post_read (fun r w =>
    let '(p, e) := ReqRateLimiting_PostReadRequest (clock w) (get_p w) in (set_p p w, (r, e))).

(** [Allow] of the redis limiter, for the key of a method: how many requests it allows, or an
    error of redis; here and in the client. *)
Definition RedisRateLimiting (allow : string -> W -> W * res Z) (servicePath serviceMethod : string)
    (w : W) : W * option error :=
  let '(w, r) := allow (servicePath +:+ "/" +:+ serviceMethod)%string w in
  match r with
  | Ok n => (w, if n >? 0 then None else Some ErrReqReachLimit)
  | Er e => (w, Some e)
  | Panic why => (w, Some (errorString why))
  end.

Definition RedisRateLimiting_PostReadRequest (allow : string -> W -> W * res Z) (r : Message) (w : W) :
    W * (Message * option error) :=
  let '(w, e) := RedisRateLimiting allow (ServicePath r) (ServiceMethod r) w in (w, (r, e)).

Definition RedisRateLimiting_PreCall (allow : string -> W -> W * res Z) (servicePath serviceMethod : string)
    (w : W) : W * option error := RedisRateLimiting allow servicePath serviceMethod w.

(** The plugin itself, made with the limiter of a redis cluster. *)
Record Limit := MkLimit { li_Rate : Z; li_Burst : Z; li_Period : Z }.

Record RedisRateLimitingPlugin := MkRedisLimit {
  rl_addrs : list string; rl_limiter : string -> Limit -> W -> W * res Z; rl_limit : Limit;
}.

Definition NewRedisRateLimitingPlugin (newLimiter : list string -> string -> Limit -> W -> W * res Z)
    (addrs : list string) (rate burst period : Z) : RedisRateLimitingPlugin :=
  MkRedisLimit addrs (newLimiter addrs) (MkLimit rate burst period).

(** [plugin.limiter.Allow(ctx, key, plugin.limit)], the [allow] of the hooks. *)
Definition rl_Allow (plugin : RedisRateLimitingPlugin) (key : string) (w : W) : W * res Z :=
  rl_limiter plugin key (rl_limit plugin) w.

Lemma readRequest_post_read h req w :
  Plugins s = [post_read h] ->
  readRequest s (req, None) w =
    let '(w', (r, e)) := h req w in (w', (Some r, e)).
Proof using Type.
  intros Hp. unfold readRequest. rewrite Hp. cbn. by destruct (h req w) as [w' [r [e|]]].
Qed.

(** A request over the limit is not handed to a method; it is answered by an error, unless it
    is one-way, and the connection goes on. *)
Lemma limited_round h req w w' :
  Plugins s = [post_read h] -> h req w = (w', (req, Some ErrReqReachLimit)) ->
  header_ok (m_header req) ->
  exists w2 es, serveRound s (req, None) w = (w2, es, Again) /\
    if IsOneway (m_header req) then es = [] else exists m, es = [Wrote m] /\ response_to req m.
Proof using Type.
  intros Hp Hh Hok. unfold serveRound. rewrite (readRequest_post_read h) by done. rewrite Hh.
  unfold refuse. destruct (IsOneway (m_header req)); cbn [negb].
  - rewrite Hp. cbn. eauto.
  - destruct (handleError s (newResponse req) ErrReqReachLimit) as [res e] eqn:Hr.
    destruct (sendResponse_answers s (Some ErrReqReachLimit) req res w') as (w2 & m & out & Hm & Hms & Ho).
    { split; intros; rewrite Hp; cbn; eauto. }
    { done. }
    { replace res with (handleError s (newResponse req) ErrReqReachLimit).1 by by rewrite Hr.
      apply handleError_answers, newResponse_answers, Hok. }
    assert (out = Ok tt) as ->.
    { destruct Ho as [->|(why & _ & pl & g & q & rs & e' & v & v' & Hin & Hg & _)]; [done|].
      rewrite Hp in Hin. apply list_elem_of_singleton in Hin as ->. done. }
    rewrite Hm. eexists w2, _. split; [reflexivity|]. eauto.
Qed.

(** The bucket on requests: a request that finds a token goes on to be handled; one that finds
    none is refused with an answer, without closing the connection; one that waits is always
    handled. *)
Theorem req_limit_round {B} {bk : Bucket B} clock get_p set_p req w :
  Plugins s = [req_limit_plugin (bk := bk) clock get_p set_p] -> AuthFunc s = None ->
  header_ok (m_header req) ->
  exists w' es, serveRound s (req, None) w = (w', es, Again) /\
    if rl_block (get_p w) || ((bk_TakeAvailable (clock w) 1 (rl_bucket (get_p w))).2 =? 1)
    then es = [Spawned req]
    else if IsOneway (m_header req) then es = [] else exists m, es = [Wrote m] /\ response_to req m.
Proof using Type.
  intros Hp Ha Hok.
  destruct (rl_block (get_p w) || ((bk_TakeAvailable (clock w) 1 (rl_bucket (get_p w))).2 =? 1)) eqn:Hb.
  - unfold serveRound. erewrite readRequest_post_read by exact Hp. unfold ReqRateLimiting_PostReadRequest.
    unfold auth. rewrite Ha. destruct (rl_block (get_p w)).
    + destruct (IsHeartbeat (m_header req)); eauto.
    + destruct (bk_TakeAvailable _ _ _) as [b k]. cbn in Hb. rewrite Hb.
      destruct (IsHeartbeat (m_header req)); eauto.
  - apply orb_false_iff in Hb as [Hb1 Hb2].
    destruct (bk_TakeAvailable _ _ _) as [b k] eqn:Ht. cbn in Hb2.
    eapply limited_round; [exact Hp| |done]. cbn. unfold ReqRateLimiting_PostReadRequest.
    rewrite Hb1, Ht, Hb2. reflexivity.
Qed.

(** The redis limiter: an error of redis is not a limit, and ends the connection without an
    answer. *)
Theorem redis_limit_round allow req w w' r :
  Plugins s = [post_read (RedisRateLimiting_PostReadRequest allow)] -> AuthFunc s = None ->
  header_ok (m_header req) ->
  allow (ServicePath req +:+ "/" +:+ ServiceMethod req)%string w = (w', r) -> r <> Er ErrReqReachLimit ->
  exists w2 es next, serveRound s (req, None) w = (w2, es, next) /\
    match r with
    | Ok n => next = Again /\
        if n >? 0 then es = [Spawned req]
        else if IsOneway (m_header req) then es = [] else exists m, es = [Wrote m] /\ response_to req m
    | _ => next = Return /\ es = []
    end.
Proof using Type.
  intros Hp Ha Hok Hal Hr.
  assert (RedisRateLimiting_PostReadRequest allow req w = (w', (req,
    match r with Ok n => if n >? 0 then None else Some ErrReqReachLimit | Er e => Some e
    | Panic why => Some (errorString why) end))) as Hpr.
  { unfold RedisRateLimiting_PostReadRequest, RedisRateLimiting. rewrite Hal. by destruct r. }
  destruct r as [n|e|why].
  - destruct (n >? 0).
    + unfold serveRound. rewrite (readRequest_post_read _ _ _ Hp), Hpr. unfold auth. rewrite Ha.
      destruct (IsHeartbeat (m_header req)); by eauto 6.
    + destruct (limited_round _ _ _ _ Hp Hpr Hok) as (w2 & es & H1 & H2). by eauto 6.
  - unfold serveRound. rewrite (readRequest_post_read _ _ _ Hp), Hpr. destruct e; by eauto 6.
  - unfold serveRound. rewrite (readRequest_post_read _ _ _ Hp), Hpr. by eauto 6.
Qed.
End Limited.

(** ** Copies of the traffic *)

(** A writer is a number; [outs] holds what each has been given. *)
Record TeeConnPlugin := NewTeeConnPlugin { tee_w : option nat }.
Record teeConn (C : Type) := MkTee { tee_Conn : C; tc_w : option nat }.
Arguments MkTee {C}.
Arguments tc_w {C}.

Definition Tee_Update (w : option nat) (plugin : TeeConnPlugin) : TeeConnPlugin := NewTeeConnPlugin w.

Definition Tee_HandleConnAccept {C} (plugin : TeeConnPlugin) (conn : C) : teeConn C * bool :=
  (MkTee conn (tee_w plugin), true).

(** [teeConn.Read] with the outcome of the inner [Read]. The writer's error is dropped. *)
Definition teeConn_Read {C} (t : teeConn C) (r : bytes * option error) (outs : gmap nat bytes) :
    gmap nat bytes * (bytes * option error) :=
  (match tc_w t with
   | Some w => if bool_decide (r.1 = []) then outs else <[w := default [] (outs !! w) ++ r.1]> outs
   | None => outs
   end, r).

Fixpoint tee_reads {C} (t : teeConn C) (rs : list (bytes * option error)) (outs : gmap nat bytes) :
    gmap nat bytes * list (bytes * option error) :=
  match rs with
  | [] => (outs, [])
  | r :: rs =>
      let '(outs, r) := teeConn_Read t r outs in
      let '(outs, rs) := tee_reads t rs outs in (outs, r :: rs)
  end.

(** The reader sees what it would without the copy. The copy goes to the writer the plugin had
    when the connection was accepted, whatever it was updated to since, and is what was read. *)
Lemma tee_copies {C} plugin (conn : C) rs outs :
  (tee_reads (Tee_HandleConnAccept plugin conn).1 rs outs).2 = rs /\
  forall w, default [] ((tee_reads (Tee_HandleConnAccept plugin conn).1 rs outs).1 !! w) =
    default [] (outs !! w) ++ (if bool_decide (tee_w plugin = Some w) then concat (fst <$> rs) else []).
Proof.
  cbn [Tee_HandleConnAccept fst]. revert outs. induction rs as [|r rs IH]; intros outs; cbn.
  { split; [done|]. intros w. case_bool_decide; by rewrite app_nil_r. }
  set (outs1 := match tee_w plugin with Some w => _ | None => _ end).
  destruct (IH outs1) as [IH1 IH2]. destruct (tee_reads _ rs outs1) as [o l]. cbn in *. subst l.
  split; [done|]. intros w. rewrite IH2. unfold outs1.
  destruct (tee_w plugin) as [w0|]; [|by rewrite !bool_decide_eq_false_2 by done].
  destruct (decide (w0 = w)) as [->|Hw].
  - rewrite !(bool_decide_eq_true_2 (Some w = Some w)) by done. case_bool_decide as Hr; [by rewrite Hr|].
    rewrite lookup_insert_eq. cbn. by rewrite app_assoc.
  - rewrite !(bool_decide_eq_false_2 (Some w0 = Some w)) by congruence. case_bool_decide; [done|]. by rewrite lookup_insert_ne.
Qed.

(** ** Metrics *)

(** Operations on named metrics of the registry. *)
Inductive metric_op := Inc (name : string) (n : Z) | Mark (name : string) (n : Z) | Update (name : string) (v : Z).

Section Metrics.
Context (Prefix : string).
Local Abbreviation M := (Go (list metric_op)).

Definition withPrefix (m : string) : string := (Prefix +:+ m)%string.
Definition emit (o : metric_op) : M unit := modify (fun l => l ++ [o]).

Definition Metrics_Register : M unit := emit (Inc (withPrefix "serviceCounter") 1).
Definition Metrics_HandleConnAccept : M bool := _ ← emit (Mark (withPrefix "clientMeter") 1); mret true.

Definition metric_name (r : Message) (what : string) : string :=
  withPrefix ("service." +:+ ServicePath r +:+ "." +:+ ServiceMethod r +:+ what).

Definition Metrics_PostReadRequest (r : Message) : M unit :=
  if bool_decide (ServicePath r = ""%string) then mret tt else emit (Mark (metric_name r ".Read_Qps") 1).

(** [start] is the value of [StartRequestContextKey] in the context, in nanoseconds. *)
Definition Metrics_PostWriteResponse (start : option Z) (now : Z) (res : Message) : M unit :=
  if bool_decide (ServicePath res = ""%string) then mret tt
  else
    _ ← emit (Mark (metric_name res ".Write_Qps") 1);
    match start with
    | None => panic "interface conversion: interface {} is nil, not int64"
    | Some t =>
        if t >? 0 then
          let t := i64 (now - t) in
          if t <? 30 * 60 * 1000000000 then emit (Update (metric_name res ".CallTime") t) else mret tt
        else mret tt
    end.

(** A response written under a context without a start time (a request refused by a limiter, or
    one of JSON-RPC) makes the plugin panic. *)
Lemma metrics_panics now res l :
  ServicePath res <> ""%string ->
  Metrics_PostWriteResponse None now res l =
    (l ++ [Mark (metric_name res ".Write_Qps") 1], Panic "interface conversion: interface {} is nil, not int64").
Proof using Type. intros Hs. unfold Metrics_PostWriteResponse. by rewrite bool_decide_eq_false_2. Qed.

(** The reporters: which registry is reported, and where to. [Exp] does not look at the plugin. *)
Inductive report := ToLog (registry : nat) (freq : Z) | ToGraphite (registry : nat) (freq : Z) (prefix : string) | ToExp (registry : nat).

Definition Metrics_Log (Registry : nat) (freq : Z) : report := ToLog Registry freq.
Definition Metrics_Graphite (Registry : nat) (freq : Z) (prefix : string) : report := ToGraphite Registry freq prefix.
Definition Metrics_Exp (DefaultRegistry Registry : nat) : report := ToExp DefaultRegistry.

(** A registry of the application's own is not among what [Exp] shows. *)
Lemma exp_default d r : d <> r -> Metrics_Exp d r <> ToExp r.
Proof using Type. unfold Metrics_Exp. congruence. Qed.
End Metrics.

(** ** Instances *)

Section Demo.
Local Instance demo_compressors : Compressors := fun _ => None.

Definition plugged {W} (p : Plugin W unit (iface bytes)) : Server (W := W) (C := unit) (V := bytes) :=
  MkServer ∅ ∅ (fun _ => None) [p] None None None.

Definition demo_alias : AliasPlugin := (Alias "x" "y" "Arith" "Rev" NewAliasPlugin).1.
Definition demo_aliased : Message := set_path "x" "y" (demo_request []).

Lemma alias_served_witness :
  exists w' m, processOneRequest (plugged (alias_plugin demo_alias)) (Alias_PostReadRequest demo_alias demo_aliased).1 tt = (w', [m]) /\
    ServicePath m = "Arith"%string.
Proof.
  destruct (alias_served (plugged (alias_plugin demo_alias)) demo_alias demo_aliased (MkPair "Arith" "Rev") tt)
    as (_ & _ & _ & H); [reflexivity..|].
  destruct H as (w' & m & H1 & _ & H2 & _); [by intros why (codec & r & Hc & _)|apply (demo_header_ok [])|reflexivity..|].
  exists w', m. split; [exact H1|exact H2].
Defined.

Lemma req_limit_round_witness :
  exists w' es, serveRound (plugged (req_limit_plugin (fun _ => 3) (fun w => w) (fun p _ => p)))
      (demo_request [], None) (MkReqLimit (MkTB 10 2 0 0) false) = (w', es, Again) /\
    exists m, es = [Wrote m] /\ response_to (demo_request []) m.
Proof.
  destruct (req_limit_round (plugged (req_limit_plugin (fun _ => 3) (fun w => w) (fun p _ => p)))
    (fun _ => 3) (fun w => w) (fun p _ => p) (demo_request []) (MkReqLimit (MkTB 10 2 0 0) false))
    as (w' & es & H1 & H2); [reflexivity|reflexivity|apply demo_header_ok|].
  exists w', es. split; [exact H1|exact H2].
Defined.

Lemma redis_limit_round_witness :
  exists w2 es next,
    serveRound (plugged (post_read (RedisRateLimiting_PostReadRequest (fun _ (w : unit) => (w, Er (OpError false None))))))
      (demo_request [], None) tt = (w2, es, next) /\ next = Return /\ es = [].
Proof.
  apply (redis_limit_round (plugged (post_read (RedisRateLimiting_PostReadRequest (fun _ w => (w, Er (OpError false None))))))
    (fun _ w => (w, Er (OpError false None))) (demo_request []) tt tt (Er (OpError false None)));
    [reflexivity|reflexivity|apply demo_header_ok|reflexivity|discriminate].
Defined.
End Demo.
End Plugins.
