(* ===== verification/HandlerCtx.v ===== *)
(** server/context.go: the context that a handler of [AddHandler] works with.

    Response metadata set through the context lives in a map of the heap of share/context.go:
    [Write] and [WriteError] let their response point to that map, so that what [WriteError]
    puts into it stays for the next response. Messages are recorded as they are encoded, at
    the time of the call, also when the write itself is done by a goroutine. *)

From S2P Require Import Prelude GoStd Share Header Message Hooks ServerPlugins Client Server ServerProofs.

Module HandlerCtx.

(** A [*share.Context]: its tags, its lock and the context it wraps. *)
Record shareCtx := MkShareCtx { sc_tags : nat; sc_lock : nat; sc_parent : context }.

Definition as_context (c : shareCtx) : context :=
  ShareContext (sc_tags c) (sc_lock c) (sc_parent c).

(** The connection is the list of the messages written to it. *)
Record Context := MkContext { hc_req : Message; hc_ctx : option shareCtx; hc_async : bool }.

Record hstate := HState { hs_heap : heap; hs_written : list Message }.

Definition NewContext (ctx : option shareCtx) (req : Message) (async : bool) : Context :=
  MkContext req ctx async.

Definition nilCtx : string := "invalid memory address or nil pointer dereference".

Definition on_heap {A} (f : Go heap A) : Go hstate A := fun st =>
  let '(h, r) := f (hs_heap st) in (HState h (hs_written st), r).

(** [VNil] and an absent key are both the nil interface. *)
Definition Get (ctx : Context) (k : key) : Go hstate value := fun st =>
  match hc_ctx ctx with
  | None => (st, Panic nilCtx)
  | Some c => (st, Ok (default VNil (Value (hs_heap st) (as_context c) k)))
  end.

Definition SetValue (ctx : Context) (k : option key) (v : value) : Go hstate unit :=
  match k, v with
  | None, _ | _, VNil => mret tt
  | Some k, v =>
      match hc_ctx ctx with
      | None => panic nilCtx
      | Some c => on_heap (Share.SetValue (sc_tags c) k v)
      end
  end.

Definition DeleteKey (ctx : Context) (k : option key) : Go hstate unit :=
  match hc_ctx ctx, k with
  | None, _ | _, None => mret tt
  | Some c, Some k => on_heap (Share.DeleteKey (sc_tags c) (Some k))
  end.

Definition Payload (ctx : Context) : bytes := Message.Payload (hc_req ctx).
Definition Metadata (ctx : Context) : option meta := Message.Metadata (hc_req ctx).
Definition ServicePath (ctx : Context) : string := Message.ServicePath (hc_req ctx).
Definition ServiceMethod (ctx : Context) : string := Message.ServiceMethod (hc_req ctx).

Section Writing.
Context {V : Type} {compressors : Compressors}.
Context (Codecs : Z -> option (Codec V)).

Definition noCodec (req : Message) : error :=
  errorString ("can not find codec for " +:+ FormatInt (SerializeType (m_header req))).

(** [Bind]: what [v] holds afterwards, and the error; a decoder may panic. *)
Definition Bind (ctx : Context) (v : iface V) : iface V * res (option error) :=
  let req := hc_req ctx in
  match v with
  | INil => (INil, Ok None)
  | _ =>
      match Codecs (SerializeType (m_header req)) with
      | None => (v, Ok (Some (noCodec req)))
      | Some codec =>
          match codec_Decode codec (Message.Payload req) v with
          | (v, Ok _) => (v, Ok None)
          | (v, Er e) => (v, Ok (Some e))
          | (v, Panic why) => (v, Panic why)
          end
      end
  end.

(** The metadata of a response: a map of its own, or the one of the context. *)
Inductive resMeta := Own (md : option meta) | Shared (l : option nat).

(** The merge that [Write] and [WriteError] begin with: a nil map is replaced by the map of
    the context, another one gets the entries that it does not have. *)
Definition resMetadata (ctx : Context) (md : option meta) : Go hstate resMeta :=
  v ← Get ctx ResMetaDataKey;
  match v with
  | VNil => mret (Own md)
  | VMeta m =>
      match md with
      | None => mret (Shared m)
      | Some md =>
          st ← get;
          let inCtx := from_option (meta_at (hs_heap st)) ∅ m in
          mret (Own (Some (map_imap (fun k v => Some (if bool_decide (v = ""%string)
                                                      then default v (inCtx !! k) else v)) md
                           ∪ inCtx)))
      end
  | _ => panic "interface conversion"
  end.

(** What the encoder reads for the metadata. *)
Definition read_meta (st : hstate) (m : resMeta) : option meta :=
  match m with
  | Own md => md
  | Shared l => meta_at (hs_heap st) <$> l
  end.

(** [EncodeSlicePointer] and the write. *)
Definition write (m : Message) : Go hstate unit :=
  modify (fun st => HState (hs_heap st) (hs_written st ++ [on_wire m])).

(** [Write]; [werr] is what the connection's [Write] returns. *)
Definition Write (ctx : Context) (v : iface V) (werr : option error) : Go hstate (option error) :=
  let req := hc_req ctx in
  if IsOneway (m_header req) then mret None
  else
    match Codecs (SerializeType (m_header req)) with
    | None => mret (Some (noCodec req))
    | Some codec =>
        let res := newResponse req in
        let '(data, err) := match v with
                            | INil => (Message.Payload res, None)
                            | _ => codec_Encode codec v
                            end in
        match err with
        | Some err => mret (Some err)
        | None =>
            let res := set_payload data res in
            md ← resMetadata ctx (Message.Metadata res);
            let res :=
              if (zlen (Message.Payload res) >? 1024) && negb (CompressType (m_header req) =? None_)
              then set_header (SetCompressType (CompressType (m_header req)) (m_header res)) res
              else res in
            st ← get;
            _ ← write (set_meta (read_meta st md) res);
            mret (if hc_async ctx then None else werr)
        end
    end.

(** [res.Metadata[protocol.ServiceError] = text]: a nil map panics. *)
Definition put_error (m : resMeta) (text : string) : Go hstate resMeta :=
  match m with
  | Own None | Shared None => panic "assignment to entry in nil map"
  | Own (Some md) => mret (Own (Some (<[ServiceErrorKey := text]> md)))
  | Shared (Some l) =>
      _ ← on_heap (modify (fun h => put_meta l (<[ServiceErrorKey := text]> (meta_at h l)) h));
      mret m
  end.

Definition WriteError (ctx : Context) (err : error) : Go hstate (option error) :=
  let req := hc_req ctx in
  if IsOneway (m_header req) then mret None
  else
    match Codecs (SerializeType (m_header req)) with
    | None => mret (Some (noCodec req))
    | Some codec =>
        let res := newResponse req in
        md ← resMetadata ctx (Message.Metadata res);
        let res := set_header (SetMessageStatusType StatusError (m_header res)) res in
        md ← put_error md (Error_text err);
        st ← get;
        _ ← write (set_meta (read_meta st md) res);
        mret None
    end.

(** ** The handlers of a server *)

(** What [processOneRequest] runs for a handler: the context carries the request's metadata
    and an empty map for the response's. A panic is recovered; the error is only logged. *)
Definition serve (async : bool) (handler : Context -> Go hstate (option error)) (req : Message) :
    list Message :=
  let h0 := Heap {[0%nat := default ∅ (Message.Metadata req); 1%nat := ∅]}
                 {[2%nat := {[ReqMetaDataKey := VMeta (Some 0%nat); ResMetaDataKey := VMeta (Some 1%nat)]}]}
                 4 [] in
  let ctx := NewContext (Some (MkShareCtx 2 3 Background)) req async in
  hs_written (fst (handler ctx (HState h0 []))).

(** ** Correctness *)

(** The context knows a non-nil map for the response metadata. *)
Definition has_res_meta (ctx : Context) (l : nat) (st : hstate) : Prop :=
  exists c, hc_ctx ctx = Some c /\
    Value (hs_heap st) (as_context c) ResMetaDataKey = Some (VMeta (Some l)).

Lemma Value_put_meta l m h c k : Value (put_meta l m h) c k = Value h c k.
Proof. induction c as [|p IH k' v|p IH|t lk p IH]; cbn; [done| |done|]; by rewrite IH. Qed.

Lemma resMetadata_shared ctx l st :
  has_res_meta ctx l st -> resMetadata ctx None st = (st, Ok (Shared (Some l))).
Proof.
  intros (c & Hc & Hv). unfold resMetadata. unfold mbind, go_bind, Get. by rewrite Hc, Hv.
Qed.

(** What a successful [Write] appends. *)
Definition reply (req : Message) (data : bytes) (md : option meta) : Message :=
  let res := set_payload data (newResponse req) in
  on_wire (set_meta md
    (if (zlen data >? 1024) && negb (CompressType (m_header req) =? None_)
     then set_header (SetCompressType (CompressType (m_header req)) (m_header res)) res
     else res)).

Lemma reply_answers req data md :
  header_ok (m_header req) -> response_to req (reply req data md).
Proof.
  intros Hok. unfold reply. apply on_wire_answers.
  pose proof (newResponse_answers req Hok) as Hn.
  assert (header_ok (m_header (newResponse req))) as Hr by apply Hn.
  pose proof (CompressType_byte _ Hok).
  destruct (_ && _)%bool; [|eapply response_to_same; [exact Hn|done..]].
  eapply response_to_same; [exact Hn|done|done|by apply core_SetCompressType|].
  by apply header_ok_SetCompressType.
Qed.

(** The response of a [WriteError]. *)
Definition error_reply (req : Message) (md : option meta) : Message :=
  let res := newResponse req in
  on_wire (set_meta md (set_header (SetMessageStatusType StatusError (m_header res)) res)).

Lemma error_reply_answers req md :
  header_ok (m_header req) -> response_to req (error_reply req md).
Proof.
  intros Hok. pose proof (newResponse_answers req Hok) as Hn.
  assert (header_ok (m_header (newResponse req))) as Hr by apply Hn.
  assert (is_byte StatusError) by (unfold is_byte, StatusError; lia).
  apply on_wire_answers. eapply response_to_same; [exact Hn|done|done|by apply core_SetStatus|].
  cbn [m_header set_meta set_header]. auto with rpcx.
Qed.

Definition encoded (codec : Codec V) (v : iface V) (data : bytes) : Prop :=
  match v with
  | INil => data = []
  | _ => codec_Encode codec v = (data, None)
  end.

Lemma Write_run ctx l v werr codec data st :
  IsOneway (m_header (hc_req ctx)) = false ->
  Codecs (SerializeType (m_header (hc_req ctx))) = Some codec ->
  encoded codec v data -> has_res_meta ctx l st ->
  Write ctx v werr st =
    (HState (hs_heap st)
       (hs_written st ++ [reply (hc_req ctx) data (Some (meta_at (hs_heap st) l))]),
     Ok (if hc_async ctx then None else werr)).
Proof.
  intros Hw Hc He Hm. unfold Write. rewrite Hw, Hc.
  replace (match v with INil => _ | _ => _ end) with (data, @None error)
    by (destruct v; cbn in He; [by rewrite He|done|done]).
  cbv beta iota zeta.
  change (Message.Metadata (set_payload data (newResponse (hc_req ctx)))) with (@None meta).
  rewrite (go_bind_Ok _ _ _ _ _ (resMetadata_shared ctx l st Hm)). reflexivity.
Qed.

Lemma WriteError_run ctx l err codec st :
  IsOneway (m_header (hc_req ctx)) = false ->
  Codecs (SerializeType (m_header (hc_req ctx))) = Some codec ->
  has_res_meta ctx l st ->
  let md := <[ServiceErrorKey := Error_text err]> (meta_at (hs_heap st) l) in
  WriteError ctx err st =
    (HState (put_meta l md (hs_heap st))
       (hs_written st ++ [error_reply (hc_req ctx) (Some md)]), Ok None).
Proof.
  intros Hw Hc Hm md. unfold WriteError. rewrite Hw, Hc. cbv beta iota zeta.
  change (Message.Metadata (newResponse (hc_req ctx))) with (@None meta).
  rewrite (go_bind_Ok _ _ _ _ _ (resMetadata_shared ctx l st Hm)).
  unfold put_error, on_heap, write. gocbn. by rewrite meta_at_put.
Qed.

(** A handler that binds its argument, computes and writes its answer or its error. *)
Definition respond (arg : iface V) (f : iface V -> iface V + error) (ctx : Context) :
    Go hstate (option error) :=
  match Bind ctx arg with
  | (_, Ok (Some e)) => WriteError ctx e
  | (_, Er e) => WriteError ctx e
  | (_, Panic why) => panic why
  | (v, Ok None) =>
      match f v with
      | inl r => Write ctx r None
      | inr e => WriteError ctx e
      end
  end.

Definition fresh_state (req : Message) : hstate :=
  HState (Heap {[0%nat := default ∅ (Message.Metadata req); 1%nat := ∅]}
            {[2%nat := {[ReqMetaDataKey := VMeta (Some 0%nat); ResMetaDataKey := VMeta (Some 1%nat)]}]}
            4 []) [].

Lemma fresh_has_res_meta async req :
  has_res_meta (NewContext (Some (MkShareCtx 2 3 Background)) req async) 1 (fresh_state req).
Proof. eexists. split; [reflexivity|]. vm_compute. reflexivity. Qed.

Lemma fresh_meta_at req : meta_at (hs_heap (fresh_state req)) 1 = ∅.
Proof. reflexivity. Qed.

(** C27. A handler of a server that answers as [respond] does sends exactly one response to a
    request that wants one: the encoded result of [f] on the decoded argument without an
    error status, or a response whose metadata holds the text of the error; the codec exists,
    its decoder does not panic and its encoder accepts the results. A one-way request gets no
    answer. *)
Theorem handler_one_response async arg f req codec :
  header_ok (m_header req) ->
  Codecs (SerializeType (m_header req)) = Some codec ->
  (forall why, snd (Bind (MkContext req None async) arg) <> Panic why) ->
  (forall v r, f v = inl r -> exists data, encoded codec r data) ->
  if IsOneway (m_header req) then serve async (respond arg f) req = []
  else exists m, serve async (respond arg f) req = [m] /\ response_to req m /\
    ((exists v r data, Bind (MkContext req None async) arg = (v, Ok None) /\
        f v = inl r /\ encoded codec r data /\ m = reply req data (Some ∅)) \/
     (exists v e, (Bind (MkContext req None async) arg = (v, Ok (Some e)) \/
                   Bind (MkContext req None async) arg = (v, Ok None) /\ f v = inr e) /\
        m = error_reply req (Some {[ServiceErrorKey := Error_text e]}))).
Proof.
  intros Hok Hc Hnp Henc. unfold serve. fold (fresh_state req).
  set (ctx := NewContext _ req async).
  pose proof (fresh_has_res_meta async req) as Hm. fold ctx in Hm.
  assert (Bind ctx arg = Bind (MkContext req None async) arg) as HB by reflexivity.
  assert (forall e, IsOneway (m_header req) = false ->
    hs_written (fst (WriteError ctx e (fresh_state req))) =
      [error_reply req (Some {[ServiceErrorKey := Error_text e]})]) as HE.
  { intros e Hw. rewrite (WriteError_run ctx 1 e codec _ Hw Hc Hm). reflexivity. }
  unfold respond. rewrite HB.
  destruct (Bind (MkContext req None async) arg) as [v [[e|]|e|why]] eqn:EB;
    [| |exfalso|destruct (Hnp why); reflexivity].
  - destruct (IsOneway _) eqn:Hw; [unfold WriteError; cbn [hc_req ctx NewContext]; by rewrite Hw|].
    rewrite HE by done. eexists. split; [reflexivity|]. split; [by apply error_reply_answers|].
    right. eauto 10.
  - destruct (f v) as [r|e] eqn:Ef.
    + destruct (Henc _ _ Ef) as [data Hd].
      destruct (IsOneway _) eqn:Hw; [unfold Write; cbn [hc_req ctx NewContext]; by rewrite Hw|].
      rewrite (Write_run ctx 1 r None codec data _ Hw Hc Hd Hm), fresh_meta_at.
      eexists. split; [reflexivity|]. split; [by apply reply_answers|]. left. eauto 10.
    + destruct (IsOneway _) eqn:Hw; [unfold WriteError; cbn [hc_req ctx NewContext]; by rewrite Hw|].
      rewrite HE by done. eexists. split; [reflexivity|]. split; [by apply error_reply_answers|].
      right. eauto 10.
  - unfold Bind in EB. destruct arg; [done| |]; cbn [hc_req] in EB; rewrite Hc in EB;
      destruct (codec_Decode _ _ _) as [? []]; simplify_eq.
Qed.

(** After a [WriteError] the response metadata of the context holds the error text: a later
    [Write] of the same handler, a response without error status, still carries it. *)
Theorem WriteError_leaks ctx l e v codec data st :
  IsOneway (m_header (hc_req ctx)) = false ->
  Codecs (SerializeType (m_header (hc_req ctx))) = Some codec ->
  encoded codec v data -> has_res_meta ctx l st ->
  exists st1 m, WriteError ctx e st = (st1, Ok None) /\
    snd (Write ctx v None st1) = Ok None /\
    last (hs_written (fst (Write ctx v None st1))) = Some m /\
    (m = reply (hc_req ctx) data (Some (<[ServiceErrorKey := Error_text e]> (meta_at (hs_heap st) l)))).
Proof.
  intros Hw Hc Hd Hm. rewrite (WriteError_run ctx l e codec st Hw Hc Hm). eexists _, _.
  split; [reflexivity|].
  erewrite (Write_run ctx l); [..|exact Hd|]; [|done|done|].
  - cbn [snd fst hs_written hs_heap]. rewrite meta_at_put, last_snoc. by destruct (hc_async ctx).
  - destruct Hm as (c & Hc' & Hv). exists c. cbn [hs_heap]. by rewrite Value_put_meta.
Qed.

(** Without response metadata in its context, as [NewContext] of another caller may leave it,
    [WriteError] panics instead of answering. *)
Theorem WriteError_panics ctx c e codec st :
  IsOneway (m_header (hc_req ctx)) = false ->
  Codecs (SerializeType (m_header (hc_req ctx))) = Some codec ->
  hc_ctx ctx = Some c -> Value (hs_heap st) (as_context c) ResMetaDataKey = None ->
  WriteError ctx e st = (st, Panic "assignment to entry in nil map").
Proof.
  intros Hw Hc Hx Hv. unfold WriteError. rewrite Hw, Hc. cbv beta iota zeta.
  change (Message.Metadata (newResponse (hc_req ctx))) with (@None meta).
  unfold resMetadata, mbind, go_bind, Get. rewrite Hx, Hv. reflexivity.
Qed.
End Writing.

(** ** A concrete handler *)

Section Demo.
Local Instance demo_compressors : Compressors := fun _ => None.

Definition demo_codecs (t : Z) : option (Codec bytes) :=
  if t =? MsgPack then Some demo_codec else None.

Lemma handler_one_response_witness :
  exists m, serve false (respond demo_codecs (IVal [])
      (fun v => match v with IVal (b :: l) => inl (IVal (rev (b :: l))) | _ => inr EOF end))
      (demo_request [1; 2]) = [m] /\ Message.Payload m = [2; 1].
Proof.
  set (f := fun v : iface bytes => match v with IVal (b :: l) => inl (IVal (rev (b :: l))) | _ => inr EOF end).
  pose proof (handler_one_response demo_codecs false (IVal []) f (demo_request [1; 2]) demo_codec) as H.
  destruct H as (m & -> & _ & [(v & r & data & HB & Hf & He & ->)|(v & e & He & ->)]).
  - apply demo_header_ok.
  - reflexivity.
  - intros why Hp. vm_compute in Hp. discriminate.
  - intros v r Hr. destruct r; eexists; try reflexivity.
  - eexists. split; [reflexivity|]. vm_compute in HB. simplify_eq. cbn in Hf. simplify_eq.
    cbn in He. simplify_eq. reflexivity.
  - exfalso. destruct He as [HB|[HB Hf]]; vm_compute in HB; simplify_eq.
Defined.
End Demo.
End HandlerCtx.
