(* ===== verification/Gateway.v ===== *)
(** server/gateway.go and server/converter.go: the HTTP gateway, which turns an HTTP request
    into a request message, handles it like one from a connection and answers in HTTP. *)

From S2P Require Import Prelude GoStd Http Share Header Message Hooks ServerPlugins Client Server ServerProofs.

Module Gateway.

Definition XVersion := "X-RPCX-Version"%string.
Definition XMessageType := "X-RPCX-MessageType"%string.
Definition XHeartbeat := "X-RPCX-Heartbeat"%string.
Definition XOneway := "X-RPCX-Oneway"%string.
Definition XMessageStatusType := "X-RPCX-MessageStatusType"%string.
Definition XSerializeType := "X-RPCX-SerializeType"%string.
Definition XMessageID := "X-RPCX-MessageID"%string.
Definition XServicePath := "X-RPCX-ServicePath"%string.
Definition XServiceMethod := "X-RPCX-ServiceMethod"%string.
Definition XMeta := "X-RPCX-Meta"%string.
Definition XErrorMessage := "X-RPCX-ErrorMessage"%string.
Definition Authorization := "Authorization"%string.

(** ** From an HTTP request to a message *)

(** A setter that runs only when its header is there. *)
Definition when_set {A} (v : string) (f : string -> res A) (otherwise : A) : res A :=
  if bool_decide (v = ""%string) then Ok otherwise else f v.

Definition res_bind {A B} (r : res A) (k : A -> res B) : res B :=
  match r with
  | Ok a => k a
  | Er e => Er e
  | Panic w => Panic w
  end.

Definition HTTPRequest2RpcxRequest (r : HTTPRequest) : res Message :=
  let h := Header_Get (rq_Header r) in
  let req := SetMessageType Request newHeader in
  res_bind (when_set (h XMessageID)
              (fun seq => res_bind (ParseUint seq) (fun id => Ok (SetSeq id req))) req) (fun req =>
  let req := if bool_decide (h XHeartbeat = ""%string) then req else SetHeartbeat true req in
  let req := if bool_decide (h XOneway = ""%string) then req else SetOneway true req in
  res_bind (when_set (h XSerializeType)
              (fun st => res_bind (Atoi_err st) (fun rst => Ok (SetSerializeType (u8 rst) req))) req)
    (fun req =>
  res_bind (when_set (h XMeta)
              (fun meta => match ParseQuery_err meta with
                           | Some err => Er err
                           | None => Ok (Some (first_values (fst (ParseQuery meta))))
                           end) None) (fun md =>
  let auth := h Authorization in
  let md := if bool_decide (auth = ""%string) then md
            else Some (<[AuthKey := auth]> (default ∅ md)) in
  match rq_Body r with
  | inr err => Er err
  | inl payload =>
      Ok (MkMessage req (h XServicePath) (h XServiceMethod) md payload nil_slice)
  end))).

(** ** The headers of converted requests *)

Definition plain_header (h : Header) : Prop :=
  header_ok h /\ MessageStatusType h = 0 /\ CompressType h = None_ /\ MessageType h = Request.

Lemma plain_SetSeq id h : plain_header h -> 0 <= id < 2 ^ 64 -> plain_header (SetSeq id h).
Proof.
  intros (H1 & H2 & H3 & H4) Hid. pose proof (hview_SetSeq id h H1 Hid) as E.
  split_and!; [auto with rpcx|exact (eq_trans (f_equal hv_status E) H2)
              |exact (eq_trans (f_equal hv_compress E) H3)|exact (eq_trans (f_equal hv_type E) H4)].
Qed.

Lemma plain_SetHeartbeat b h : plain_header h -> plain_header (SetHeartbeat b h).
Proof.
  intros (H1 & H2 & H3 & H4). pose proof (hview_SetHeartbeat b h H1) as E.
  split_and!; [auto with rpcx|exact (eq_trans (f_equal hv_status E) H2)
              |exact (eq_trans (f_equal hv_compress E) H3)|exact (eq_trans (f_equal hv_type E) H4)].
Qed.

Lemma plain_SetOneway b h : plain_header h -> plain_header (SetOneway b h).
Proof.
  intros (H1 & H2 & H3 & H4). pose proof (hview_SetOneway b h H1) as E.
  split_and!; [auto with rpcx|exact (eq_trans (f_equal hv_status E) H2)
              |exact (eq_trans (f_equal hv_compress E) H3)|exact (eq_trans (f_equal hv_type E) H4)].
Qed.

Lemma plain_SetSerializeType st h : plain_header h -> is_byte st -> plain_header (SetSerializeType st h).
Proof.
  intros (H1 & H2 & H3 & H4) Hst. pose proof (hview_SetSerializeType st h H1 Hst) as E.
  split_and!; [auto with rpcx|exact (eq_trans (f_equal hv_status E) H2)
              |exact (eq_trans (f_equal hv_compress E) H3)|exact (eq_trans (f_equal hv_type E) H4)].
Qed.

Lemma plain_start : plain_header (SetMessageType Request newHeader).
Proof. split_and!; [auto with rpcx|reflexivity..]. Qed.

Lemma res_bind_inv {A B} (r : res A) (k : A -> res B) b :
  res_bind r k = Ok b -> exists a, r = Ok a /\ k a = Ok b.
Proof. destruct r; cbn; [eauto|done|done]. Qed.

Lemma when_set_inv {A} v (f : string -> res A) o a :
  when_set v f o = Ok a -> v = ""%string /\ a = o \/ v <> ""%string /\ f v = Ok a.
Proof. unfold when_set. case_bool_decide; [intros [= <-]|]; auto. Qed.

Lemma ParseUint_range s id : ParseUint s = Ok id -> 0 <= id < 2 ^ 64.
Proof.
  unfold ParseUint. destruct (_ || _) eqn:E; [done|]. destruct (dec_value _ <? 2 ^ 64) eqn:E1; [|done].
  intros [= <-]. zbool. split; [|done].
  match goal with H : forallb is_digit _ = true |- _ => revert H end. unfold dec_value.
  assert (forall l acc, 0 <= acc -> forallb is_digit l = true ->
            0 <= foldl (fun acc b => acc * 10 + (b - 48)) acc l) as Hf.
  { induction l as [|b l IH]; intros acc Ha; [done|]. cbn [forallb foldl].
    intros [Hb Hl]%andb_true_iff. unfold is_digit in Hb. zbool. apply IH; [lia|done]. }
  by apply Hf.
Qed.

Lemma HTTPRequest2RpcxRequest_header r req :
  HTTPRequest2RpcxRequest r = Ok req -> plain_header (m_header req).
Proof.
  unfold HTTPRequest2RpcxRequest.
  intros (h1 & H1 & (h2 & H2 & (md & _ & H3)%res_bind_inv)%res_bind_inv)%res_bind_inv.
  destruct (rq_Body r) as [p|]; [|done]. injection H3 as <-. cbn [m_header].
  assert (plain_header h1) as P1.
  { apply when_set_inv in H1 as [[_ ->]|[_ H1]]; [apply plain_start|].
    apply res_bind_inv in H1 as (id & Hid%ParseUint_range & [= <-]).
    apply plain_SetSeq; [apply plain_start|done]. }
  set (h3 := if bool_decide (Header_Get (rq_Header r) XHeartbeat = ""%string) then h1 else _) in H2.
  assert (plain_header h3) as P3 by (unfold h3; split_match; [done|by apply plain_SetHeartbeat]).
  set (h4 := if bool_decide (Header_Get (rq_Header r) XOneway = ""%string) then h3 else _) in H2.
  assert (plain_header h4) as P4 by (unfold h4; split_match; [done|by apply plain_SetOneway]).
  apply when_set_inv in H2 as [[_ ->]|[_ H2]]; [done|].
  apply res_bind_inv in H2 as (st & _ & [= <-]).
  apply plain_SetSerializeType; [done|]. apply (wrap_range 8). lia.
Qed.

(** ** Round trip *)

Definition set_if (b : bool) (k v : string) (h : HTTPHeader) : HTTPHeader :=
  if b then Header_Set k v h else h.

(** The HTTP request that a client of the gateway sends for a message: every field in its
    header, the metadata as a query. *)
Definition http_of (m : Message) : HTTPRequest :=
  let h := m_header m in
  let md := default ∅ (Metadata m) in
  MkRequest
    (Header_Set XMessageID (FormatUint (Seq h))
    (set_if (IsHeartbeat h) XHeartbeat "true"
    (set_if (IsOneway h) XOneway "true"
    (Header_Set XSerializeType (FormatInt (SerializeType h))
    (set_if (negb (bool_decide (md = ∅))) XMeta (ConvertMap2String md)
    (Header_Set XServicePath (ServicePath m)
    (Header_Set XServiceMethod (ServiceMethod m) ∅)))))))
    (inl (Payload m)).

Lemma Get_Set k v h : Header_Get (Header_Set k v h) k = v.
Proof. unfold Header_Get, Header_Set, Values_Get. by rewrite lookup_insert_eq. Qed.

Lemma Get_Set_ne k k' v h :
  CanonicalHeaderKey k <> CanonicalHeaderKey k' -> Header_Get (Header_Set k v h) k' = Header_Get h k'.
Proof. intros. unfold Header_Get, Header_Set, Values_Get. by rewrite lookup_insert_ne. Qed.

Lemma Get_set_if_ne b k k' v h :
  CanonicalHeaderKey k <> CanonicalHeaderKey k' -> Header_Get (set_if b k v h) k' = Header_Get h k'.
Proof. intros. destruct b; [by apply Get_Set_ne|done]. Qed.

Lemma Get_set_if b k v h :
  Header_Get (set_if b k v h) k = if b then v else Header_Get h k.
Proof. destruct b; [apply Get_Set|done]. Qed.

Ltac header_get :=
  repeat first [rewrite Get_Set | rewrite Get_set_if
               | rewrite Get_Set_ne by (vm_compute; discriminate)
               | rewrite Get_set_if_ne by (vm_compute; discriminate)].

Lemma http_of_headers m :
  let h := Header_Get (rq_Header (http_of m)) in
  h XMessageID = FormatUint (Seq (m_header m)) /\
  h XHeartbeat = (if IsHeartbeat (m_header m) then "true" else "")%string /\
  h XOneway = (if IsOneway (m_header m) then "true" else "")%string /\
  h XSerializeType = FormatInt (SerializeType (m_header m)) /\
  h XMeta = (if bool_decide (default ∅ (Metadata m) = ∅) then ""
             else ConvertMap2String (default ∅ (Metadata m)))%string /\
  h Authorization = ""%string /\
  h XServicePath = ServicePath m /\ h XServiceMethod = ServiceMethod m.
Proof.
  unfold http_of. cbv zeta. cbn [rq_Header].
  split_and!; header_get; try reflexivity.
  by case_bool_decide.
Qed.

Lemma ConvertMap2String_query md :
  md <> ∅ ->
  ConvertMap2String md <> ""%string /\ ParseQuery_err (ConvertMap2String md) = None /\
  first_values (fst (ParseQuery (ConvertMap2String md))) = md.
Proof.
  intros Hne. pose proof (meta_roundtrip md) as Hr. unfold ConvertMeta2Map in Hr.
  case_bool_decide; [by subst|].
  pose proof (ParseQuery_err_spec (ConvertMap2String md)) as He.
  pose proof (ParseQuery_nonempty (ConvertMap2String md)) as Hn.
  destruct (ParseQuery (ConvertMap2String md)) as [v [|]]; cbn [fst snd] in *; [by subst|].
  split_and!; [done|by apply He|]. rewrite first_values_Get; done.
Qed.

(** The values that the header setters leave. *)
Lemma converted_fields h0 seq hb ow st :
  plain_header h0 -> 0 <= seq < 2 ^ 64 -> 0 <= st < 16 ->
  IsHeartbeat h0 = false -> IsOneway h0 = false ->
  let h1 := SetSeq seq h0 in
  let h2 := if hb : bool then SetHeartbeat true h1 else h1 in
  let h3 := if ow : bool then SetOneway true h2 else h2 in
  let h := SetSerializeType st h3 in
  plain_header h /\ Seq h = seq /\ IsHeartbeat h = hb /\ IsOneway h = ow /\ SerializeType h = st.
Proof.
  intros P0 Hseq Hst Hhb How h1 h2 h3 h.
  assert (is_byte st) as Hb by (unfold is_byte; lia).
  assert (plain_header h1) as P1 by by apply plain_SetSeq.
  assert (plain_header h2) as P2 by (unfold h2; destruct hb; [by apply plain_SetHeartbeat|done]).
  assert (plain_header h3) as P3 by (unfold h3; destruct ow; [by apply plain_SetOneway|done]).
  split; [by apply plain_SetSerializeType|].
  pose proof (hview_SetSerializeType st h3 (proj1 P3) Hb) as E4.
  assert (hview h3 = let v := hview h2 in if ow then HView (hv_magic v) (hv_version v) (hv_type v)
            (hv_heartbeat v) true (hv_compress v) (hv_status v) (hv_serialize v) (hv_reserved v) (hv_seq v) else v) as E3
    by (unfold h3; destruct ow; [by apply hview_SetOneway; apply P2|done]).
  assert (hview h2 = let v := hview h1 in if hb then HView (hv_magic v) (hv_version v) (hv_type v)
            true (hv_oneway v) (hv_compress v) (hv_status v) (hv_serialize v) (hv_reserved v) (hv_seq v) else v) as E2
    by (unfold h2; destruct hb; [by apply hview_SetHeartbeat; apply P1|done]).
  pose proof (hview_SetSeq seq h0 (proj1 P0) Hseq) as E1.
  change (hv_seq (hview h) = seq /\ hv_heartbeat (hview h) = hb /\ hv_oneway (hview h) = ow /\
          hv_serialize (hview h) = st).
  unfold h. rewrite E4. cbn [hv_seq hv_heartbeat hv_oneway hv_serialize].
  rewrite E3, E2. cbv zeta. unfold h1. rewrite E1.
  change (hv_heartbeat (hview h0) = false) in Hhb. change (hv_oneway (hview h0) = false) in How.
  split_and!; [by destruct ow, hb|destruct ow, hb; done|destruct ow, hb; done|by apply Z.mod_small].
Qed.

(** C26. A message sent as an HTTP request arrives in the gateway as the same message: path, method,
    payload, metadata, sequence number, serialization and flags; the empty metadata map
    arrives as nil. *)
Theorem gateway_roundtrip m :
  0 <= Seq (m_header m) < 2 ^ 64 -> 0 <= SerializeType (m_header m) < 16 ->
  exists m', HTTPRequest2RpcxRequest (http_of m) = Ok m' /\
    ServicePath m' = ServicePath m /\ ServiceMethod m' = ServiceMethod m /\
    Payload m' = Payload m /\ default ∅ (Metadata m') = default ∅ (Metadata m) /\
    Seq (m_header m') = Seq (m_header m) /\
    SerializeType (m_header m') = SerializeType (m_header m) /\
    IsHeartbeat (m_header m') = IsHeartbeat (m_header m) /\
    IsOneway (m_header m') = IsOneway (m_header m) /\ plain_header (m_header m').
Proof.
  intros Hseq Hst. destruct (http_of_headers m) as (H1 & H2 & H3 & H4 & H5 & H6 & H7 & H8).
  unfold HTTPRequest2RpcxRequest. rewrite H1, H2, H3, H4, H5, H6, H7, H8.
  unfold when_set.
  rewrite (bool_decide_eq_false_2 (FormatUint _ = _)) by by apply dec_digits_not_empty.
  rewrite ParseUint_FormatUint by done. cbn [res_bind].
  rewrite (bool_decide_eq_false_2 (FormatInt _ = _)).
  2:{ unfold FormatInt. rewrite (proj2 (Z.ltb_ge _ _)) by lia. apply dec_digits_not_empty. lia. }
  rewrite Atoi_FormatInt by lia. cbn [res_bind].
  rewrite (wrap_small 8 (SerializeType (m_header m))) by lia.
  destruct (converted_fields (SetMessageType Request newHeader) (Seq (m_header m))
              (IsHeartbeat (m_header m)) (IsOneway (m_header m)) (SerializeType (m_header m)))
    as (HP & F1 & F2 & F3 & F4); [apply plain_start|done|done|reflexivity|reflexivity|].
  change (rq_Body (http_of m)) with (inl (Payload m) : bytes + error).
  assert (forall b : bool, bool_decide ((if b then "true"%string else ""%string) = ""%string) = negb b) as Hb
    by (by intros []).
  rewrite !Hb. clear H1 H2 H3 H4 H5 H6 H7 H8 Hb.
  set (hd := SetSerializeType _ _) in *.
  replace (SetSerializeType _ _) with hd
    by (unfold hd; by destruct (IsHeartbeat (m_header m)), (IsOneway (m_header m))).
  destruct (decide (default ∅ (Metadata m) = ∅)) as [He|He].
  - rewrite (bool_decide_eq_true_2 (default ∅ (Metadata m) = ∅)) by done.
    rewrite bool_decide_eq_true_2 by done. cbn [res_bind].
    eexists. split; [reflexivity|]. cbn [m_header ServicePath ServiceMethod Payload Metadata].
    split_and!; done.
  - destruct (ConvertMap2String_query _ He) as (Q1 & Q2 & Q3).
    rewrite (bool_decide_eq_false_2 (default ∅ (Metadata m) = ∅)) by done.
    rewrite bool_decide_eq_false_2, Q2, Q3 by done. cbn [res_bind].
    eexists. split; [reflexivity|]. cbn [m_header ServicePath ServiceMethod Payload Metadata].
    split_and!; done.
Qed.

(** ** Matching connections *)

(** [strings.Index(line, " ")]; [-1] when there is none. *)
Definition Index_space (l : bytes) : Z :=
  match IndexByte 32 l with Some i => Z.of_nat i | None => -1 end.

Definition parseRequestLine (line : bytes) : option (bytes * bytes * bytes) :=
  let s1 := Index_space line in
  let s2 := Index_space (drop (Z.to_nat (s1 + 1)) line) in
  if (s1 <? 0) || (s2 <? 0) then None
  else
    let s2 := s2 + s1 + 1 in
    Some (take (Z.to_nat s1) line,
          take (Z.to_nat (s2 - (s1 + 1))) (drop (Z.to_nat (s1 + 1)) line),
          drop (Z.to_nat (s2 + 1)) line).

(** What the matcher's [Read] of one byte delivers. *)
Definition rpcxPrefixByteMatcher (r : bytes) : bool :=
  match r with
  | b :: _ => b =? magicNumber
  | [] => false
  end.

Inductive service_listener := RpcxLn | Jsonrpc2Ln | DebugLn | HttpLn | Unmatched.

(** [startGateway]: where a connection goes, given the bytes it starts with and the matchers of
    cmux ([jsonrpc]: an HTTP/1 header X-JSONRPC-2.0: true; [http1]: it looks like HTTP/1). Other
    networks than TCP are not split: everything is rpcx. Plugins may add matchers of their own
    after the first, which is [None] here. *)
Definition route (network : string) (DisableJSONRPC EnableProfile DisableHTTPGateway : bool)
    (jsonrpc http1 : bytes -> bool) (conn : bytes) : service_listener :=
  if negb (bool_decide (network ∈ ["tcp"; "tcp4"; "tcp6"; "reuseport"]%string)) then RpcxLn
  else if rpcxPrefixByteMatcher conn then RpcxLn
  else if negb DisableJSONRPC && jsonrpc conn then Jsonrpc2Ln
  else if EnableProfile && http1 conn then DebugLn
  else if negb DisableHTTPGateway && http1 conn then HttpLn
  else Unmatched.

Lemma parseRequestLine_spec m u p :
  Contains 32 m = false -> Contains 32 u = false ->
  parseRequestLine (m ++ 32 :: u ++ 32 :: p) = Some (m, u, p).
Proof.
  intros Hm Hu. unfold parseRequestLine, Index_space, IndexByte.
  rewrite (Cut_app _ _ _ Hm).
  replace (Z.to_nat (Z.of_nat (length m) + 1)) with (S (length m)) by lia.
  assert (drop (S (length m)) (m ++ 32 :: u ++ 32 :: p) = u ++ 32 :: p) as ->.
  { rewrite drop_app_ge by lia. replace (S (length m) - length m)%nat with 1%nat by lia. done. }
  rewrite (Cut_app _ _ _ Hu).
  rewrite (proj2 (Z.ltb_ge (Z.of_nat (length m)) 0)), (proj2 (Z.ltb_ge (Z.of_nat (length u)) 0)) by lia.
  cbn [orb]. rewrite Nat2Z.id.
  replace (Z.to_nat (Z.of_nat (length u) + Z.of_nat (length m) + 1 - (Z.of_nat (length m) + 1)))
    with (length u) by lia.
  replace (Z.to_nat (Z.of_nat (length u) + Z.of_nat (length m) + 1 + 1))
    with (length (m ++ 32 :: u ++ [32])) by (rewrite !length_app; cbn; rewrite length_app; cbn; lia).
  rewrite take_app_length, take_app_length.
  replace (m ++ 32 :: u ++ 32 :: p) with ((m ++ 32 :: u ++ [32]) ++ p)
    by (rewrite <- app_assoc; cbn; by rewrite <- app_assoc).
  by rewrite drop_app_length.
Qed.

(** A line with fewer than two spaces is refused. *)
Lemma parseRequestLine_none m :
  Contains 32 m = false -> parseRequestLine m = None.
Proof.
  intros Hm. unfold parseRequestLine, Index_space, IndexByte. by rewrite (Cut_none _ _ Hm).
Qed.

(** Encoded messages go to the rpcx listener on every network, whatever the other matchers
    think of their bytes. *)
Lemma route_frame network dj ep dg jsonrpc http1 h sp sm mt p rest :
  CheckMagicNumber h = true -> header_ok h ->
  route network dj ep dg jsonrpc http1 (frame h sp sm mt p ++ rest) = RpcxLn.
Proof.
  intros Hm Hok. unfold route. destruct (negb _); [done|].
  destruct (header_ok_inv h Hok) as (a & b & c & d & sq & -> & _).
  unfold frame. cbn [app rpcxPrefixByteMatcher]. change (a =? magicNumber = true) in Hm.
  by rewrite Hm.
Qed.

(** ** Handling *)

Section Handling.
Context {W C V : Type} {compressors : Compressors}.
Variable s : Server (W := W) (C := C) (V := V).

(** The [PostHTTPRequest] hooks of the plugins, in order; they may change the request. *)
Context (PostHTTPRequest : list (option (HTTPRequest -> W -> W * (HTTPRequest * option error)))).

Definition DoPostHTTPRequest (r : HTTPRequest) : W -> W * (HTTPRequest * option error) :=
  thread_until_error PostHTTPRequest r.

Definition TrimPrefix_slash (p : string) : string :=
  match string_bytes p with
  | 47 :: r => bytes_string r
  | _ => p
  end.

(** The entries of the request header that the error branch copies: the keys with the
    prefix "X-RPCX-", spelled as in the source. *)
Definition copied_headers (h : HTTPHeader) : list (string * string) :=
  omap (fun '(k, v) => if bool_decide (String.prefix "X-RPCX-" k = true)
                       then pair k <$> head v else None) (map_to_list h).

Definition set_error_headers (err : error) (wh : Writer) : Writer :=
  w_Set XErrorMessage (Error_text err) (w_Set XMessageStatusType "Error" wh).

(** The first error among those that [handleGatewayRequest] finds in a request, and the
    headers of the response by then. *)
Definition check_request (r : HTTPRequest) (servicePath : string) (err : option error) (wh : Writer) :
    option error * Writer :=
  let h := Header_Get (rq_Header r) in
  let check (text k v : string) '(err, wh) :=
    if bool_decide (err = None /\ v = ""%string) then (Some (errorString text), wh)
    else (err, w_Set k v wh) in
  check "empty serialized type"%string XSerializeType (h XSerializeType)
    (check "empty servicemethod"%string XServiceMethod (h XServiceMethod)
       (check "empty servicepath"%string XServicePath servicePath (err, wh))).

(** The response metadata of the method goes over what the response has. *)
Definition gatewayMeta (resMeta : meta) (res : Message) : Message :=
  if bool_decide (resMeta = ∅) then res
  else set_meta (Some (resMeta ∪ default ∅ (Metadata res))) res.

(** A panic of a [PostWriteResponse] hook aborts the HTTP response. *)
Definition answer_unless (out : res unit) (wh : Writer) : res Writer :=
  match out with Panic why => Panic why | _ => Ok wh end.

(** [handleGatewayRequest]; [path] is the path that the router matched. A panic of a decoder or
    of a hook aborts the HTTP response. *)
Definition handleGatewayRequest (r : HTTPRequest) (path : string) (w : W) : W * res Writer :=
  let '(w, err) := DoPreReadRequest (Plugins s) w in
  match err with
  | Some err => (w, Ok (http_Error (Error_text err) 500 newWriter))
  | None =>
  let '(w, (r, err)) := DoPostHTTPRequest r w in
  match err with
  | Some err => (w, Ok (http_Error (Error_text err) 500 newWriter))
  | None =>
  let r := if bool_decide (Header_Get (rq_Header r) XServicePath = ""%string)
           then MkRequest (Header_Set XServicePath (TrimPrefix_slash path) (rq_Header r)) (rq_Body r)
           else r in
  let h := Header_Get (rq_Header r) in
  let conv := HTTPRequest2RpcxRequest r in
  let wh := w_Set XMessageID (h XMessageID) (w_Set XVersion (h XVersion) newWriter) in
  let '(err, wh) :=
    check_request r (h XServicePath) (match conv with Er e => Some e | _ => None end) wh in
  match err, conv with
  | Some err, _ =>
      let wh := foldl (fun wh '(k, v) => w_Set k v wh) wh (copied_headers (rq_Header r)) in
      (w, Ok (set_error_headers err wh))
  | None, Panic why => (w, Panic why)
  | None, Er _ => (w, Ok wh)
  | None, Ok req =>
      let '(w, (req, err)) := DoPostReadRequest (Plugins s) req None w in
      match err with
      | Some err =>
          let '(w, _) := DoPreWriteResponse (Plugins s) req None (Some err) w in
          let '(w, out) := DoPostWriteResponse (Plugins s) req (Clone req) (Some err) w in
          (w, answer_unless out (http_Error (Error_text err) 500 wh))
      | None =>
          let '(w, err) := auth s req w in
          match err with
          | Some err =>
              let '(w, _) := DoPreWriteResponse (Plugins s) req None (Some err) w in
              let wh := WriteHeader 401 (set_error_headers err wh) in
              let '(w, out) := DoPostWriteResponse (Plugins s) req (Clone req) (Some err) w in
              (w, answer_unless out wh)
          | None =>
              match handleRequest s req w with
              | (w, _, Panic why) => (w, Panic why)
              | (w, _, Er err) => (w, Er err)
              | (w, resMeta, Ok (res, Some err)) =>
                  let '(w, _) := DoPreWriteResponse (Plugins s) req None (Some err) w in
                  let w := report s err w in
                  let wh := WriteHeader 500 (set_error_headers err wh) in
                  let '(w, out) := DoPostWriteResponse (Plugins s) req (Clone req) (Some err) w in
                  (w, answer_unless out wh)
              | (w, resMeta, Ok (res, None)) =>
                  let '(w, (res', _)) := DoPreWriteResponse (Plugins s) req (Some res) None w in
                  let res := gatewayMeta resMeta (default res res') in
                  let wh := w_Set XMeta (Values_Encode (Values_of (default ∅ (Metadata res)))) wh in
                  let wh := w_Write (Payload res) wh in
                  let '(w, out) := DoPostWriteResponse (Plugins s) req res None w in
                  (w, answer_unless out wh)
              end
          end
      end
  end
  end
  end.

(** ** The gateway and the connections agree *)

Definition with_path (r : HTTPRequest) (path : string) : HTTPRequest :=
  if bool_decide (Header_Get (rq_Header r) XServicePath = ""%string)
  then MkRequest (Header_Set XServicePath (TrimPrefix_slash path) (rq_Header r)) (rq_Body r)
  else r.

(** The headers that are required of a request. *)
Definition complete (r : HTTPRequest) : Prop :=
  Header_Get (rq_Header r) XServicePath <> ""%string /\
  Header_Get (rq_Header r) XServiceMethod <> ""%string /\
  Header_Get (rq_Header r) XSerializeType <> ""%string.

Lemma check_request_complete r wh :
  complete r -> exists wh', wr_status wh = wr_status wh' /\ wr_body wh = wr_body wh' /\
    check_request r (Header_Get (rq_Header r) XServicePath) None wh = (None, wh').
Proof.
  intros (H1 & H2 & H3). unfold check_request.
  do 3 rewrite bool_decide_eq_false_2 by tauto. eexists. split_and!; [..|reflexivity]; done.
Qed.

Lemma status_compress h p :
  header_ok h -> MessageStatusType (fst (compressPayload h p)) = MessageStatusType h.
Proof.
  intros Hh. assert (forall ct, is_byte ct -> MessageStatusType (SetCompressType ct h) = MessageStatusType h) as H.
  { intros ct Hct. pose proof (f_equal hv_status (hview_SetCompressType ct h Hh Hct)) as E. exact E. }
  assert (is_byte None_) by (unfold is_byte, None_; lia).
  unfold compressPayload. repeat split_match; cbn [fst]; rewrite ?H; done.
Qed.

(** Looking a header up after it was set, and after another one was. *)
Lemma Get_w_Set k v wh : Header_Get (wr_Header (w_Set k v wh)) k = v.
Proof. unfold Header_Get, w_Set, Header_Set, Values_Get. cbn. by rewrite lookup_insert_eq. Qed.

Lemma Get_w_Set_ne k k' v wh :
  CanonicalHeaderKey k <> CanonicalHeaderKey k' ->
  Header_Get (wr_Header (w_Set k v wh)) k' = Header_Get (wr_Header wh) k'.
Proof.
  intros Hne. unfold Header_Get, w_Set, Header_Set, Values_Get. cbn. by rewrite lookup_insert_ne.
Qed.

(** The one message a connection gets for a request that was handled without hooks. *)
Lemma processOneRequest_plain req w1 w2 rm m err :
  Plugins s = [] -> IsHeartbeat (m_header req) = false -> IsOneway (m_header req) = false ->
  router s !! (ServicePath req +:+ "." +:+ ServiceMethod req)%string = None ->
  handleRequest s req w1 = (w2, rm, Ok (m, err)) ->
  let m := mergeResMeta rm m in
  let m := if (zlen (Payload m) >? 1024) && negb (CompressType (m_header req) =? None_)
           then set_header (SetCompressType (CompressType (m_header req)) (m_header m)) m else m in
  processOneRequest s req w1 =
    (match err with Some e => report s e w2 | None => w2 end, [on_wire m]).
Proof.
  intros Hp Hhb How Hrt Hh. unfold processOneRequest. rewrite Hhb.
  set (req1 := set_meta _ req).
  unfold DoPreHandleRequest. rewrite Hp. cbn [fmap list_fmap thread_until_error].
  change (ServicePath req1) with (ServicePath req).
  change (ServiceMethod req1) with (ServiceMethod req). rewrite Hrt.
  unfold req1. rewrite handleRequest_nil_meta, Hh.
  change (m_header (set_meta (Some (default ∅ (Metadata req))) req)) with (m_header req).
  rewrite How. cbn [negb]. unfold sendResponse, DoPreWriteResponse.
  rewrite Hp. reflexivity.
Qed.

(** What the client of a gateway sees of a response message [m] with error [err]. *)
Definition agrees (wh : Writer) (m : Message) (err : option error) : Prop :=
  match err with
  | Some e =>
      status wh = 500 /\ wr_body wh = [] /\
      Header_Get (wr_Header wh) XMessageStatusType = "Error"%string /\
      Header_Get (wr_Header wh) XErrorMessage = Error_text e /\
      MessageStatusType (m_header m) = StatusError /\
      (Error_text e <> ""%string ->
       default ∅ (Metadata m) !! ServiceErrorKey = Some (Error_text e))
  | None =>
      status wh = 200 /\ wr_body wh = Payload m /\
      MessageStatusType (m_header m) <> StatusError /\
      ConvertMeta2Map (Header_Get (wr_Header wh) XMeta) = default ∅ (Metadata m)
  end.

Lemma mergeResMeta_keeps rm m k v :
  default ∅ (Metadata m) !! k = Some v -> v <> ""%string ->
  default ∅ (Metadata (mergeResMeta rm m)) !! k = Some v.
Proof.
  intros Hk Hv. unfold mergeResMeta. case_bool_decide; [done|].
  destruct (Metadata m) as [md|] eqn:Hm; [change (md !! k = Some v) in Hk|discriminate (eq_trans (eq_sym (lookup_empty k)) Hk)].
  apply lookup_union_Some_l.
  rewrite map_lookup_imap, Hk. cbn. by rewrite bool_decide_eq_false_2.
Qed.

Lemma mergeResMeta_header rm m :
  m_header (mergeResMeta rm m) = m_header m /\ Payload (mergeResMeta rm m) = Payload m.
Proof. unfold mergeResMeta. by repeat split_match. Qed.

(** The gateway's answer for the outcome of a request, beside the message of a connection. *)
Lemma agrees_outcome req rm r wh wh' :
  ServerErrorFunc s = None -> plain_header (m_header req) ->
  wr_status wh = None -> wr_body wh = [] -> outcome s req r ->
  wh' = match r.2 with
        | Some err => WriteHeader 500 (set_error_headers err wh)
        | None => let res := gatewayMeta rm r.1 in
                  w_Write (Payload res)
                    (w_Set XMeta (Values_Encode (Values_of (default ∅ (Metadata res)))) wh)
        end ->
  agrees wh' (on_wire (mergeResMeta rm r.1)) r.2.
Proof.
  intros Hsf (Hok & Hst & Hct & _) Hs Hb [data Ho] ->.
  set (n := set_payload data (newResponse req)) in Ho.
  assert (header_ok (m_header n)) as Hn.
  { change (m_header n) with (m_header (newResponse req)). apply (newResponse_answers req Hok). }
  assert (MessageStatusType (m_header n) = 0) as Hn0.
  { assert (is_byte Response) by (unfold is_byte, Response; lia).
    assert (is_byte None_) as HbN by (unfold is_byte, None_; lia).
    change (m_header n) with (SetMessageType Response (SetCompressType None_ (m_header req))).
    refine (eq_trans (f_equal hv_status (hview_SetMessageType Response _ _ _)) _);
      [by apply header_ok_SetCompressType|done|]. cbn [hv_status].
    exact (eq_trans (f_equal hv_status (hview_SetCompressType None_ _ Hok HbN)) Hst). }
  destruct (mergeResMeta_header rm r.1) as [Hh Hp].
  unfold agrees, on_wire. cbn [m_header set_header].
  destruct r as [m [err|]]; cbn [fst snd] in *.
  - injection Ho as Hm.
    assert (m_header m = SetMessageStatusType StatusError (m_header n)) as Hmh by by rewrite Hm.
    assert (header_ok (m_header m)) as Hmok by (rewrite Hmh; by apply header_ok_SetMessageStatusType).
    split_and!.
    + unfold status, WriteHeader, set_error_headers. cbn. by rewrite Hs.
    + done.
    + change (wr_Header (WriteHeader ?c ?x)) with (wr_Header x). unfold set_error_headers.
      rewrite Get_w_Set_ne by (vm_compute; discriminate). apply Get_w_Set.
    + apply Get_w_Set.
    + rewrite status_compress by by rewrite Hh. rewrite Hh, Hmh.
      assert (is_byte StatusError) as Hb1 by (unfold is_byte, StatusError; lia).
      exact (f_equal hv_status (hview_SetMessageStatusType StatusError _ Hn Hb1)).
    + intros Ht. change (Metadata (set_header ?h ?x)) with (Metadata x).
      apply mergeResMeta_keeps; [|done]. rewrite Hm. cbn. rewrite Hsf. by rewrite lookup_insert_eq.
  - injection Ho as ->. split_and!.
    + unfold status, w_Write. cbn. by rewrite Hs.
    + rewrite Hp. unfold w_Write, gatewayMeta. cbn [wr_body w_Set]. rewrite Hb.
      by destruct (bool_decide (rm = ∅)).
    + rewrite status_compress by by rewrite Hh. rewrite Hh, Hn0. done.
    + change (Metadata (set_header ?h ?x)) with (Metadata x).
      cbv zeta. change (wr_Header (w_Write ?d ?x)) with (wr_Header x). rewrite Get_w_Set.
      rewrite Values_Encode_of, meta_roundtrip. unfold gatewayMeta, mergeResMeta.
      destruct (bool_decide (rm = ∅)); [done|]. cbn. by rewrite (right_id_L ∅ (∪)).
Qed.


Lemma prefix_bytes p k : String.prefix p k = true -> exists r, string_bytes k = string_bytes p ++ r.
Proof.
  revert k. induction p as [|a p IH]; intros k Hk; [by exists (string_bytes k)|].
  destruct k as [|b k]; [done|]. cbn in Hk. destruct (Ascii.ascii_dec a b) as [<-|]; [|done].
  apply IH in Hk as [r Hr]. exists r. unfold string_bytes in *. cbn. by rewrite Hr.
Qed.

(** The loop of the error branch that copies the request's X-RPCX headers never copies one:
    the keys of a header are canonical, and the prefix is not. *)
Lemma copied_headers_nil h : canonical h -> copied_headers h = [].
Proof.
  intros Hc. unfold copied_headers.
  assert (forall k v, (k, v) ∈ map_to_list h -> String.prefix "X-RPCX-" k <> true) as Hp.
  { intros k v Hin%elem_of_map_to_list Hk. destruct (Hc k) as [Ht Hk']; [eauto|].
    apply prefix_bytes in Hk as [r Hr]. unfold CanonicalHeaderKey in Hk'. rewrite Ht in Hk'.
    apply (f_equal string_bytes) in Hk'. rewrite Hr in Hk'.
    assert (bytes_ok r) as Hb.
    { pose proof (string_bytes_ok k) as Hb. rewrite Hr in Hb. apply bytes_ok_app in Hb. apply Hb. }
    change (string_bytes "X-RPCX-" ++ r) with ([88; 45; 82; 80; 67; 88; 45] ++ r) in Hk'.
    cbn [canonical_bytes app] in Hk'. rewrite string_bytes_string in Hk'.
    - cbn in Hk'. discriminate Hk'.
    - cbn [to_upper to_lower]. repeat (apply bytes_ok_cons; split; [unfold is_byte; cbn; lia|]).
      clear -Hb. generalize (45 =? 45)%Z. induction Hb as [|b r Hb _ IH]; intros u; [constructor|].
      cbn [canonical_bytes]. apply bytes_ok_cons. split; [|apply IH].
      unfold to_upper, to_lower, is_byte in *. destruct u; split_match; zbool; lia. }
  revert Hp. generalize (map_to_list h). induction l as [|[k v] l IH]; intros Hp; [done|].
  cbn. rewrite bool_decide_eq_false_2 by (eapply Hp; left). apply IH.
  intros k' v' Hin. eapply Hp. by right.
Qed.

(** ** Requests that are refused *)

Lemma set_error_headers_fields err wh :
  wr_status (set_error_headers err wh) = wr_status wh /\
  wr_body (set_error_headers err wh) = wr_body wh /\
  Header_Get (wr_Header (set_error_headers err wh)) XErrorMessage = Error_text err /\
  Header_Get (wr_Header (set_error_headers err wh)) XMessageStatusType = "Error"%string.
Proof.
  unfold set_error_headers. split_and!; [done|done|apply Get_w_Set|].
  rewrite Get_w_Set_ne by (vm_compute; discriminate). apply Get_w_Set.
Qed.

Lemma check_request_error r sp e wh :
  exists wh', wr_status wh' = wr_status wh /\ wr_body wh' = wr_body wh /\
    check_request r sp (Some e) wh = (Some e, wh').
Proof.
  unfold check_request. do 3 rewrite bool_decide_eq_false_2 by (by intros [? _]).
  eexists. split_and!; [..|reflexivity]; done.
Qed.

Lemma copy_headers_fields l wh :
  wr_status (foldl (fun wh '(k, v) => w_Set k v wh) wh l) = wr_status wh /\
  wr_body (foldl (fun wh '(k, v) => w_Set k v wh) wh l) = wr_body wh.
Proof. revert wh. induction l as [|[k v] l IH]; intros wh; [done|]. cbn [foldl]. by rewrite !(proj1 (IH _)), !(proj2 (IH _)). Qed.

(** A request that cannot be converted is answered with the error in the headers, but with
    status 200, and nothing of the server runs; one that is not authenticated is answered with
    status 401 and its service is not called. *)
Theorem gateway_refuses r path w :
  Plugins s = [] -> PostHTTPRequest = [] ->
  (forall e, HTTPRequest2RpcxRequest (with_path r path) = Er e ->
     exists wh, handleGatewayRequest r path w = (w, Ok wh) /\ status wh = 200 /\ wr_body wh = [] /\
       Header_Get (wr_Header wh) XErrorMessage = Error_text e /\
       Header_Get (wr_Header wh) XMessageStatusType = "Error"%string) /\
  (forall req w1 e, complete (with_path r path) ->
     HTTPRequest2RpcxRequest (with_path r path) = Ok req -> auth s req w = (w1, Some e) ->
     exists wh, handleGatewayRequest r path w = (w1, Ok wh) /\ status wh = 401 /\ wr_body wh = [] /\
       Header_Get (wr_Header wh) XErrorMessage = Error_text e /\
       Header_Get (wr_Header wh) XMessageStatusType = "Error"%string).
Proof.
  intros Hp Hh.
  unfold handleGatewayRequest, DoPreReadRequest, DoPostHTTPRequest, DoPostReadRequest,
    DoPreWriteResponse. rewrite Hp, Hh.
  cbn [fmap list_fmap run_until_error thread_until_error DoPostWriteResponse answer_unless]. fold (with_path r path).
  set (wh0 := w_Set XMessageID _ _). split.
  - intros e ->. destruct (check_request_error (with_path r path) (Header_Get (rq_Header (with_path r path)) XServicePath) e wh0)
      as (wh1 & Hs & Hb & ->).
    eexists. split; [reflexivity|]. unfold status.
    set (wh2 := foldl _ wh1 _). destruct (copy_headers_fields (copied_headers (rq_Header (with_path r path))) wh1) as [Hs2 Hb2].
    fold wh2 in Hs2, Hb2. destruct (set_error_headers_fields e wh2) as (Hs3 & Hb3 & H1 & H2).
    rewrite Hs3, Hb3, Hs2, Hb2, Hs, Hb. split_and!; done.
  - intros req w1 e Hcomp -> Hauth.
    destruct (check_request_complete (with_path r path) wh0 Hcomp) as (wh1 & Hs1 & Hb1 & ->).
    rewrite Hauth. eexists. split; [reflexivity|].
    destruct (set_error_headers_fields e wh1) as (Hs3 & Hb3 & H1 & H2).
    unfold status, WriteHeader. cbn [wr_status wr_body wr_Header].
    rewrite Hs3, Hb3, <- Hs1, <- Hb1. split_and!; done.
Qed.
End Handling.

(** ** A concrete gateway *)

Section Demo.
Local Instance demo_compressors : Compressors := fun _ => None.

Definition demo_http : HTTPRequest := http_of (demo_request [1; 2]).

Definition demo_message : Message :=
  MkMessage (SetSerializeType MsgPack (SetSeq 5 (SetMessageType Request newHeader)))
    "Arith" "Rev" None [1; 2] nil_slice.

Lemma demo_complete : complete (with_path demo_http "/Arith").
Proof. split_and!; vm_compute; discriminate. Qed.

Lemma gateway_roundtrip_witness :
  exists m', HTTPRequest2RpcxRequest demo_http = Ok m' /\ Payload m' = [1; 2].
Proof.
  destruct (gateway_roundtrip (demo_request [1; 2])) as (m' & H & _ & _ & Hp & _);
    [vm_compute; split; congruence|vm_compute; split; congruence|].
  exists m'. split; [exact H|exact Hp].
Defined.


Lemma gateway_refuses_witness :
  let s := demo_server (Some (fun _ _ w => (w, Some ErrNotAccept))) in
  (exists wh, handleGatewayRequest s []
      (MkRequest (Header_Set XMessageID "x" (rq_Header demo_http)) (inl [])) "/Arith" tt = (tt, Ok wh) /\
     status wh = 200) /\
  (exists wh, handleGatewayRequest s [] demo_http "/Arith" tt = (tt, Ok wh) /\ status wh = 401).
Proof.
  intros s. split.
  - destruct (gateway_refuses s [] (MkRequest (Header_Set XMessageID "x" (rq_Header demo_http)) (inl []))
                "/Arith" tt eq_refl eq_refl) as [H _].
    destruct (H (numError "ParseUint" "x" "invalid syntax")) as (wh & H1 & H2 & _);
      [vm_compute; reflexivity|]. exists wh. split; [exact H1|exact H2].
  - destruct (gateway_refuses s [] demo_http "/Arith" tt eq_refl eq_refl) as [_ H].
    destruct (H demo_message tt ErrNotAccept) as (wh & H1 & H2 & _);
      [apply demo_complete|vm_compute; reflexivity|reflexivity|].
    exists wh. split; [exact H1|exact H2].
Defined.
End Demo.
End Gateway.
