(* ===== verification/Dial.v ===== *)
(** client/connection.go and the HTTP end of server/server.go: how a client gets a connection.

    [Connect] picks a way to dial by the network, sets up the connection, runs the hooks and
    starts the goroutines of the client. Over "http" the two sides first exchange a CONNECT
    request and its response, read through buffers of their own. Data arrives in segments, and
    a buffered reader takes whole segments from the socket: what it read beyond what it
    returned is gone with it. *)

From S2P Require Import Prelude GoStd Http Hooks ClientPlugins Gateway.

Module Dial.

Definition DefaultRPCPath := "/_rpcx_"%string.
(** The client's and the server's variable [connected]. *)
Definition connected := "200 Connected to rpcx"%string.
Definition server_connected := "200 Connected to rpcx"%string.

(** ** Reading a response (bufio, net/textproto, net/http) *)

Definition trimCR (l : bytes) : bytes :=
  match last l with Some 13 => take (length l - 1) l | _ => l end.

(** [bufio.Reader.ReadLine]: the line, the rest of the buffer and the segments that are still in
    the socket, which ends with [e]. A last line without an end is a line. *)
Fixpoint readLine (buf : bytes) (segs : list bytes) (e : error) : res bytes * bytes * list bytes :=
  match IndexByte 10 buf with
  | Some i => (Ok (trimCR (take i buf)), drop (S i) buf, segs)
  | None =>
      match segs with
      | s :: segs => readLine (buf ++ s) segs e
      | [] => (match buf with [] => Er e | _ => Ok buf end, [], [])
      end
  end.

Definition notEOF (e : error) : error := match e with EOF => ErrUnexpectedEOF | e => e end.

(** The lines of a header up to the empty one; the fuel is the number of bytes. *)
Fixpoint readHeaderLines (fuel : nat) (buf : bytes) (segs : list bytes) (e : error) (acc : list bytes) :
    res (list bytes) * bytes * list bytes :=
  match fuel with
  | O => (Er (notEOF e), buf, segs)
  | S fuel =>
      match readLine buf segs e with
      | (Ok [], buf, segs) => (Ok acc, buf, segs)
      | (Ok line, buf, segs) => readHeaderLines fuel buf segs e (acc ++ [line])
      | (Er err, buf, segs) => (Er (notEOF err), buf, segs)
      | (Panic w, buf, segs) => (Panic w, buf, segs)
      end
  end.

Definition total (buf : bytes) (segs : list bytes) : nat := (length buf + length (concat segs))%nat.

Definition badStringError (what : string) (val : bytes) : error :=
  errorString (what +:+ " " +:+ Quote (bytes_string val)).

Fixpoint trimLeft (l : bytes) : bytes := match l with 32 :: r => trimLeft r | _ => l end.

Definition ParseHTTPVersion (v : bytes) : bool :=
  match v with
  | [72; 84; 84; 80; 47; a; 46; b] => is_digit a && is_digit b
  | _ => false
  end.

Section Handshake.
(** What net/textproto and net/http object to in the lines of a header. *)
Context (checkHeader : list bytes -> option error).

(** [http.ReadResponse]: the status, with what is left in the reader's buffer and in the
    socket. *)
Definition ReadResponse (segs : list bytes) (e : error) : res string * bytes * list bytes :=
  match readLine [] segs e with
  | (Er err, buf, segs) => (Er (notEOF err), buf, segs)
  | (Panic w, buf, segs) => (Panic w, buf, segs)
  | (Ok line, buf, segs) =>
      let '(proto, status, ok) := Cut 32 line in
      if negb ok then (Er (badStringError "malformed HTTP response" line), buf, segs)
      else
        let status := trimLeft status in
        let '(statusCode, _, _) := Cut 32 status in
        if negb (length statusCode =? 3)%nat then (Er (badStringError "malformed HTTP status code" statusCode), buf, segs)
        else
          match parse_bytes statusCode with
          | None => (Er (badStringError "malformed HTTP status code" statusCode), buf, segs)
          | Some code =>
              if code <? 0 then (Er (badStringError "malformed HTTP status code" statusCode), buf, segs)
              else if negb (ParseHTTPVersion proto) then (Er (badStringError "malformed HTTP version" proto), buf, segs)
              else
                match readHeaderLines (S (total buf segs)) buf segs e [] with
                | (Ok lines, buf, segs) =>
                    match checkHeader lines with
                    | Some err => (Er err, buf, segs)
                    | None => (Ok (bytes_string status), buf, segs)
                    end
                | (Er err, buf, segs) => (Er err, buf, segs)
                | (Panic w, buf, segs) => (Panic w, buf, segs)
                end
          end
  end.

(** ** Sockets and dialling *)

(** A connection: whether it is a [*net.TCPConn], what a write to it returns, the segments that
    the peer sends once it has read the given bytes and how reading ends; then what happened to
    it: the bytes written, the segments not yet read, and its settings. *)
Record sock := MkSock {
  so_tcp : bool;
  so_writeErr : option error;
  so_reply : bytes -> list bytes;
  so_end : error;
  so_sent : bytes;
  so_in : list bytes;
  so_closed : bool;
  so_keepAlive : option Z;
  so_deadline : option Z;
}.

Definition set_closed (x : sock) : sock :=
  MkSock (so_tcp x) (so_writeErr x) (so_reply x) (so_end x) (so_sent x) (so_in x) true
    (so_keepAlive x) (so_deadline x).
Definition set_io (sent : bytes) (segs : list bytes) (x : sock) : sock :=
  MkSock (so_tcp x) (so_writeErr x) (so_reply x) (so_end x) sent segs (so_closed x)
    (so_keepAlive x) (so_deadline x).
Definition set_keepAlive (d : Z) (x : sock) : sock :=
  MkSock (so_tcp x) (so_writeErr x) (so_reply x) (so_end x) (so_sent x) (so_in x) (so_closed x)
    (Some d) (so_deadline x).
Definition set_deadline (d : Z) (x : sock) : sock :=
  MkSock (so_tcp x) (so_writeErr x) (so_reply x) (so_end x) (so_sent x) (so_in x) (so_closed x)
    (so_keepAlive x) (Some d).

Context {W : Type}.

(** The networks: net.Dial and tls.Dial (the flag), websocket, memconn, kcp and quic. *)
Record Net := MkNet {
  net_Dial : string -> string -> bool -> W -> W * res sock;
  ws_NewConfig : string -> string -> option error;
  ws_Dial : string -> string -> bool -> W -> W * res sock;
  memconn_Dial : string -> string -> W -> W * res sock;
  kcp_Dial : string -> W -> W * res sock;
  quick_Dial : string -> bool -> W -> W * res sock;
}.
Context (net : Net).

(** The build tags kcp and quic. *)
Context (kcp_tag quic_tag : bool).

Definition conn := nat.
Record dstate := MkDial { d_world : W; d_socks : list sock }.

(** The options that matter to a connection. *)
Record dialOption := MkDialOption {
  o_TLSConfig : bool;
  o_Block : bool;
  o_RPCPath : string;
  o_IdleTimeout : Z;
  o_Heartbeat : bool;
  o_HeartbeatInterval : Z;
  o_TCPKeepAlivePeriod : Z;
}.

Definition opened (r : W * res sock) (st : dstate) : dstate * res conn :=
  match r with
  | (w, Ok x) => (MkDial w (d_socks st ++ [x]), Ok (length (d_socks st)))
  | (w, Er e) => (MkDial w (d_socks st), Er e)
  | (w, Panic why) => (MkDial w (d_socks st), Panic why)
  end.

Definition on_sock (c : conn) (f : sock -> sock) (st : dstate) : dstate :=
  MkDial (d_world st) (alter f c (d_socks st)).

Definition conn_Close (c : conn) : dstate -> dstate := on_sock c set_closed.

(** A factory: [None] is a nil client. *)
Definition ConnFactoryFn := option dialOption -> string -> string -> Go dstate conn.

Definition newDirectConn : ConnFactoryFn := fun c network address st =>
  match c with
  | None => (st, Er (errorString "nil client"))
  | Some o => opened (net_Dial net network address (o_TLSConfig o) (d_world st)) st
  end.

Definition rpcPath (path : string) : string :=
  if bool_decide (path = ""%string) then DefaultRPCPath else path.

Definition connectRequest (path : string) : bytes :=
  string_bytes ("CONNECT " +:+ path +:+ " HTTP/1.0") ++ [10; 10].

Definition newDirectHTTPConn : ConnFactoryFn := fun c network address st =>
  match c with
  | None => (st, Er (errorString "empty client"))
  | Some o =>
      let path := rpcPath (o_RPCPath o) in
      match net_Dial net "tcp" address (o_TLSConfig o) (d_world st) with
      | (w, Er err) => (MkDial w (d_socks st), Er err)
      | (w, Panic why) => (MkDial w (d_socks st), Panic why)
      | (w, Ok x) =>
          let conn := length (d_socks st) in
          let sent := connectRequest path in
          let leave (x : sock) := MkDial w (d_socks st ++ [x]) in
          match so_writeErr x with
          | Some err => (leave (set_closed x), Er err)
          | None =>
              let '(resp, _, rest) := ReadResponse (so_reply x sent) (so_end x) in
              let x := set_io sent rest x in
              match resp with
              | Panic why => (leave x, Panic why)
              | Ok status =>
                  if bool_decide (status = connected) then (leave x, Ok conn)
                  else (leave (set_closed x),
                        Er (OpError false (Some ("unexpected HTTP response: " +:+ status))))
              | Er err => (leave (set_closed x), Er (OpError false (Some (Error_text err))))
              end
          end
      end
  end.

Definition newDirectWSConn : ConnFactoryFn := fun c network address st =>
  match c with
  | None => (st, Er (errorString "empty client"))
  | Some o =>
      let path := rpcPath (o_RPCPath o) in
      let '(url, origin) :=
        if bool_decide (network = "ws"%string)
        then (("ws://" +:+ address +:+ path)%string, ("http://" +:+ address)%string)
        else (("wss://" +:+ address +:+ path)%string, ("https://" +:+ address)%string) in
      if o_TLSConfig o then
        match ws_NewConfig net url origin with
        | Some erri => (st, Er erri)
        | None => opened (ws_Dial net url origin true (d_world st)) st
        end
      else opened (ws_Dial net url origin false (d_world st)) st
  end.

Definition newDirectKCPConn : ConnFactoryFn := fun c network address st =>
  if kcp_tag then
    match c with
    | None => (st, Panic "invalid memory address or nil pointer dereference")
    | Some o =>
        if o_Block o then opened (kcp_Dial net address (d_world st)) st
        else (st, Panic "interface conversion: interface is nil, not kcp.BlockCrypt")
    end
  else (st, Er (errorString "kcp unsupported")).

Definition newDirectQuicConn : ConnFactoryFn := fun c network address st =>
  if quic_tag then
    match c with
    | None => (st, Panic "invalid memory address or nil pointer dereference")
    | Some o => opened (quick_Dial net address (o_TLSConfig o) (d_world st)) st
    end
  else (st, Er (errorString "quic unsupported")).

Definition newMemuConn : ConnFactoryFn := fun c network address st =>
  opened (memconn_Dial net network address (d_world st)) st.

Definition newIOUringConn : ConnFactoryFn := fun c network address =>
  newDirectConn c "tcp" address.

Definition ConnFactories : gmap string ConnFactoryFn :=
  list_to_map [("http"%string, newDirectHTTPConn); ("kcp"%string, newDirectKCPConn);
    ("quic"%string, newDirectQuicConn); ("unix"%string, newDirectConn);
    ("memu"%string, newMemuConn); ("iouring"%string, newIOUringConn)].

(** ** Connect *)

(** The client: its connection, and the goroutines it has started, with the connection they
    use. *)
Record dclient := MkDClient {
  cl_Conn : option conn;
  cl_input : list conn;
  cl_heartbeat : list conn;
}.

(** The factory that is used: "http", "ws" and "wss" are not looked up in the table. *)
Definition factory (factories : gmap string ConnFactoryFn) (network : string) : ConnFactoryFn :=
  if bool_decide (network = "http"%string) then newDirectHTTPConn
  else if bool_decide (network = "ws"%string) || bool_decide (network = "wss"%string)
  then newDirectWSConn
  else default newDirectConn (factories !! network).

(** [now] is the time that [time.Now()] returns. *)
Definition set_up (o : dialOption) (now : Z) (c : conn) (st : dstate) : dstate :=
  let st :=
    if default false (so_tcp <$> d_socks st !! c) && (o_TCPKeepAlivePeriod o >? 0)
    then on_sock c (set_keepAlive (o_TCPKeepAlivePeriod o)) st else st in
  if negb (o_IdleTimeout o =? 0) then on_sock c (set_deadline (now + o_IdleTimeout o)) st else st.

Definition start_goroutines (o : dialOption) (c : conn) (cl : dclient) : dclient :=
  MkDClient (Some c) (cl_input cl ++ [c])
    (if o_Heartbeat o && (o_HeartbeatInterval o >? 0) then cl_heartbeat cl ++ [c] else cl_heartbeat cl).

Context {A R : Type}.
Context (plugins : option (list (ClientPlugins.Plugin W conn A R))).

Definition Connect (factories : gmap string ConnFactoryFn) (o : dialOption) (now : Z)
    (network address : string) (cl : dclient) (st : dstate) : dclient * dstate * res unit :=
  match factory factories network (Some o) network address st with
  | (st, Panic why) => (cl, st, Panic why)
  | (st, Er err) =>
      let st := match plugins with
                | Some p => MkDial (DoConnCreateFailed p network address (d_world st)) (d_socks st)
                | None => st
                end in
      (cl, st, Er err)
  | (st, Ok c) =>
      let st := set_up o now c st in
      match plugins with
      | None => (start_goroutines o c cl, st, Ok tt)
      | Some p =>
          let '(w, (c, err)) := DoConnCreated p c (d_world st) in
          let st := MkDial w (d_socks st) in
          match err with
          | Some err => (cl, st, Er err)
          | None => (start_goroutines o c cl, st, Ok tt)
          end
      end
  end.

(** ** What Connect leaves behind *)

(** The connections of [st'] that [st] did not have. *)
Definition new_socks (st st' : dstate) : list sock := drop (length (d_socks st)) (d_socks st').

Definition keeps_socks (st st' : dstate) : Prop :=
  exists fresh, d_socks st' = d_socks st ++ fresh.

(** A factory that fails leaves no open connection, and touches no other one. *)
Definition tidy (f : ConnFactoryFn) : Prop := forall o network address st,
  match f (Some o) network address st with
  | (st', Ok c) => c = length (d_socks st) /\ exists x, d_socks st' = d_socks st ++ [x]
  | (st', Er _) => exists fresh, d_socks st' = d_socks st ++ fresh /\ Forall (fun x => so_closed x = true) fresh
  | (st', Panic _) => keeps_socks st st'
  end.

Lemma opened_tidy r st :
  match opened r st with
  | (st', Ok c) => c = length (d_socks st) /\ exists x, d_socks st' = d_socks st ++ [x]
  | (st', Er _) => exists fresh, d_socks st' = d_socks st ++ fresh /\ Forall (fun x => so_closed x = true) fresh
  | (st', Panic _) => keeps_socks st st'
  end.
Proof using Type.
  destruct r as [w [x|e|why]]; cbn; [eauto|exists []; by rewrite app_nil_r|].
  exists []. by rewrite app_nil_r.
Qed.

Lemma failed_tidy (st : dstate) : exists fresh, d_socks st = d_socks st ++ fresh /\ Forall (fun x => so_closed x = true) fresh.
Proof using Type. exists []. by rewrite app_nil_r. Qed.

Lemma keeps_refl st : keeps_socks st st.
Proof using Type. exists []. by rewrite app_nil_r. Qed.

Lemma newDirectConn_tidy : tidy newDirectConn.
Proof using Type. intros o network address st. apply opened_tidy. Qed.

Lemma newDirectWSConn_tidy : tidy newDirectWSConn.
Proof using Type.
  intros o network address st. unfold newDirectWSConn.
  destruct (bool_decide _); destruct (o_TLSConfig o); try apply opened_tidy;
    (destruct (ws_NewConfig _ _ _); [apply failed_tidy|apply opened_tidy]).
Qed.

Lemma newDirectHTTPConn_tidy : tidy newDirectHTTPConn.
Proof using Type.
  intros o network address st. unfold newDirectHTTPConn.
  destruct (net_Dial _ _ _ _ _) as [w [x|e|why]];
    [|apply (failed_tidy (MkDial w (d_socks st)))|apply (keeps_refl (MkDial w (d_socks st)))].
  destruct (so_writeErr x); [eexists; split; [done|by constructor]|].
  destruct (ReadResponse _ _) as [[[status|e|why] buf] rest].
  - case_bool_decide; [eauto|]. eexists; split; [done|by constructor].
  - eexists; split; [done|by constructor].
  - by eexists.
Qed.

Lemma ConnFactories_tidy network f : ConnFactories !! network = Some f -> tidy f.
Proof using Type.
  unfold ConnFactories. intros H. apply elem_of_list_to_map_2 in H.
  rewrite !elem_of_cons, elem_of_nil in H.
  destruct H as [[= _ ->]|[[= _ ->]|[[= _ ->]|[[= _ ->]|[[= _ ->]|[[= _ ->]|[]]]]]]].
  - apply newDirectHTTPConn_tidy.
  - intros o nw address st. unfold newDirectKCPConn.
    destruct kcp_tag; [|apply failed_tidy].
    destruct (o_Block o); [apply opened_tidy|apply keeps_refl].
  - intros o nw address st. unfold newDirectQuicConn. 
    destruct quic_tag; [apply opened_tidy|apply failed_tidy].
  - apply newDirectConn_tidy.
  - intros o nw address st. apply opened_tidy.
  - intros o nw address. apply newDirectConn_tidy.
Qed.

Lemma factory_tidy factories network :
  (forall f, factories !! network = Some f -> tidy f) -> tidy (factory factories network).
Proof using Type.
  intros Hf. unfold factory. case_bool_decide; [apply newDirectHTTPConn_tidy|].
  destruct (_ || _); [apply newDirectWSConn_tidy|].
  destruct (factories !! network) as [f|]; [by apply Hf|apply newDirectConn_tidy].
Qed.

Lemma set_up_socks o now c st :
  exists f, d_socks (set_up o now c st) = alter f c (d_socks st) /\ (forall x, so_closed (f x) = so_closed x).
Proof using Type.
  assert (forall l : list sock, alter id c l = l) as Hid.
  { intros l. apply list_alter_id. done. }
  unfold set_up.
  destruct (_ && _); destruct (negb _); cbn.
  - eexists. rewrite list_alter_alter_eq. split; [done|]. by intros [].
  - eexists. split; [done|]. by intros [].
  - eexists. split; [done|]. by intros [].
  - exists id. by rewrite Hid.
Qed.

(** C22. Whatever the network, the options and the hooks: a [Connect] that succeeds starts one
    reader, on the connection it installs, and a heartbeat when the options ask for it; one
    that fails changes nothing of the client and has closed every connection it opened, with
    one exception: when a [ConnCreated] hook refuses, the new connection stays as it was, and
    [ConnCreateFailed] is not called. *)
Theorem connect_outcome factories o now network address cl st :
  (forall f, factories !! network = Some f -> tidy f) ->
  let '(cl', st', r) := Connect factories o now network address cl st in
  keeps_socks st st' /\
  match r with
  | Ok _ => exists c, cl_Conn cl' = Some c /\ cl_input cl' = cl_input cl ++ [c] /\
      cl_heartbeat cl' = cl_heartbeat cl ++ (if o_Heartbeat o && (o_HeartbeatInterval o >? 0) then [c] else [])
  | Er err => cl' = cl /\
      (Forall (fun x => so_closed x = true) (new_socks st st') \/
       exists p c c' st1 w', plugins = Some p /\ factory factories network (Some o) network address st = (st1, Ok c) /\
         DoConnCreated p c (d_world (set_up o now c st1)) = (w', (c', Some err)) /\
         st' = MkDial w' (d_socks (set_up o now c st1)))
  | Panic _ => cl' = cl
  end.
Proof using Type.
  intros Hf. pose proof (factory_tidy factories network Hf o network address st) as Ht.
  unfold Connect, new_socks, keeps_socks.
  destruct (factory factories network (Some o) network address st) as [st1 [c|e|why]] eqn:E.
  - destruct Ht as (-> & x & Hx). set (c := length (d_socks st)) in *.
    destruct (set_up_socks o now c st1) as (f & Hs & _).
    assert (exists fresh, d_socks (set_up o now c st1) = d_socks st ++ fresh) as Hk.
    { exists [f x]. rewrite Hs, Hx. unfold c. rewrite <- (Nat.add_0_r (length _)). by rewrite alter_app_r. }
    assert (forall c', cl_heartbeat (start_goroutines o c' cl) = cl_heartbeat cl ++
      (if o_Heartbeat o && (o_HeartbeatInterval o >? 0) then [c'] else [])) as Hh.
    { intros c'. unfold start_goroutines. cbn. destruct (_ && _); [done|by rewrite app_nil_r]. }
    destruct plugins as [p|].
    + destruct (DoConnCreated p c _) as [w [c' [err|]]] eqn:Ep; (split; [exact Hk|]).
      * split; [done|]. right. by exists p, c, c', st1, w.
      * exists c'. split; [done|]. split; [done|]. apply Hh.
    + split; [exact Hk|]. exists c. split; [done|]. split; [done|]. apply Hh.
  - destruct Ht as (fresh & Hfr & Hcl).
    assert (d_socks (match plugins with Some p => MkDial (DoConnCreateFailed p network address (d_world st1)) (d_socks st1) | None => st1 end) = d_socks st ++ fresh) as Hs.
    { by destruct plugins. }
    split; [by exists fresh|]. split; [done|]. left. rewrite Hs, drop_app_length. done.
  - by split.
Qed.

(** ** The CONNECT handshake *)

(** net/http's server on one connection: the request that it reads, as method and path. *)
Context (url_Path : bytes -> option bytes).

Definition readHTTPRequest (segs : list bytes) (e : error) : option (bytes * bytes) :=
  match readLine [] segs e with
  | (Ok line, buf, segs) =>
      match Gateway.parseRequestLine line with
      | Some (method, uri, proto) =>
          if ParseHTTPVersion proto then
            match readHeaderLines (S (total buf segs)) buf segs e [] with
            | (Ok lines, _, _) =>
                match checkHeader lines, url_Path uri with
                | None, Some path => Some (method, path)
                | _, _ => None
                end
            | _ => None
            end
          else None
      | None => None
      end
  | _ => None
  end.

(** What a handler does: it answers through the writer, or takes the connection over, writes to
    it, enters it among the active ones and serves it. *)
Inductive http_effect := HAnswered (w : Writer) | HWrote (data : bytes) | HActive | HServeConn.

Definition method_CONNECT : bytes := string_bytes "CONNECT".

Definition connectResponse : bytes := string_bytes ("HTTP/1.0 " +:+ server_connected) ++ [10; 10].

Definition ServeHTTP (method : bytes) (hijack : option error) : list http_effect :=
  if negb (bool_decide (method = method_CONNECT)) then
    [HAnswered (w_Write (string_bytes "405 must CONNECT" ++ [10])
       (WriteHeader 405 (w_Set "Content-Type" "text/plain; charset=utf-8" newWriter)))]
  else
    match hijack with
    | Some _ => []
    | None => [HWrote connectResponse; HActive; HServeConn]
    end.

(** [serveByHTTP] mounts the server at one path of a mux of its own. *)
Definition serveByHTTP (path : string) (hijack : option error) (segs : list bytes) (e : error) :
    list http_effect :=
  match readHTTPRequest segs e with
  | None => []
  | Some (method, p) =>
      if bool_decide (p = string_bytes (rpcPath path)) then ServeHTTP method hijack
      else [HAnswered (http_Error "404 page not found" 404 newWriter)]
  end.

Definition ServeWS : list http_effect := [HActive; HServeConn].

(** [serveByWS]: the handler of the websocket library upgrades the connection and calls
    [ServeWS], or answers with an error of its own ([refused]). *)
Definition serveByWS (path : string) (refused : option http_effect) (segs : list bytes) (e : error) :
    list http_effect :=
  match readHTTPRequest segs e with
  | None => []
  | Some (_, p) =>
      if bool_decide (p = string_bytes (rpcPath path))
      then match refused with Some answer => [answer] | None => ServeWS end
      else [HAnswered (http_Error "404 page not found" 404 newWriter)]
  end.

(** Over websocket a connection is served only at the path, and only after the upgrade. *)
Lemma serveByWS_served path refused segs e :
  refused <> Some HServeConn -> HServeConn ∈ serveByWS path refused segs e ->
  refused = None /\ exists method, readHTTPRequest segs e = Some (method, string_bytes (rpcPath path)).
Proof.
  intros Hr. unfold serveByWS. destruct (readHTTPRequest segs e) as [[method p]|]; [|by intros ?%elem_of_nil].
  case_bool_decide as Hp; [subst p|by intros [?|?%elem_of_nil]%elem_of_cons].
  destruct refused as [a|]; [|by split; [|eexists]].
  intros [<-|?%elem_of_nil]%elem_of_cons; done.
Qed.

Lemma Contains_Cut c l : Contains c l = true ->
  exists x y, l = x ++ c :: y /\ Contains c x = false.
Proof using Type.
  induction l as [|b l IH]; [done|]. rewrite Contains_cons. destruct (c =? b) eqn:E.
  - apply Z.eqb_eq in E as ->. intros _. by exists [], l.
  - intros H. destruct (IH H) as (x & y & -> & Hx). exists (b :: x), y. split; [done|].
    by rewrite Contains_cons, E.
Qed.

Lemma line_unique c x y x' y' :
  Contains c x = false -> Contains c x' = false -> x ++ c :: y = x' ++ c :: y' -> x = x' /\ y = y'.
Proof using Type.
  revert x'. induction x as [|b x IH]; intros [|b' x'] Hx Hx'; cbn; intros [=]; subst; try done.
  - rewrite Contains_cons, Z.eqb_refl in Hx'. done.
  - rewrite Contains_cons, Z.eqb_refl in Hx. done.
  - rewrite Contains_cons in Hx, Hx'. apply orb_false_iff in Hx as [_ Hx], Hx' as [_ Hx'].
    destruct (IH x') as [-> ->]; done.
Qed.

Lemma readLine_buffered line rest segs e :
  Contains 10 line = false ->
  readLine (line ++ 10 :: rest) segs e = (Ok (trimCR line), rest, segs).
Proof using Type.
  intros Hline. destruct segs; cbn; unfold IndexByte;
    rewrite (Cut_app _ _ _ Hline), take_app_length; do 2 f_equal;
    replace (S (length line)) with (length (line ++ [10])) by (rewrite length_app; cbn; lia);
    replace (line ++ 10 :: rest) with ((line ++ [10]) ++ rest) by (by rewrite <- app_assoc);
    by rewrite drop_app_length.
Qed.

(** A line is read from as few segments as hold it. *)
Lemma readLine_spec line tail pre post buf e :
  Contains 10 line = false -> buf ++ concat pre = line ++ 10 :: tail ->
  exists pre1 pre2 buf', pre = pre1 ++ pre2 /\
    readLine buf (pre ++ post) e = (Ok (trimCR line), buf', pre2 ++ post) /\
    buf' ++ concat pre2 = tail.
Proof using Type.
  intros Hline. revert buf. induction pre as [|s pre IH]; intros buf Hbuf.
  - cbn in Hbuf. rewrite app_nil_r in Hbuf. subst buf. exists [], [], tail. split; [done|].
    split; [by apply readLine_buffered|by rewrite app_nil_r].
  - cbn [concat] in Hbuf. destruct (Contains 10 buf) eqn:Hb.
    + apply Contains_Cut in Hb as (x & y & -> & Hx). rewrite <- app_assoc in Hbuf. cbn in Hbuf.
      destruct (line_unique _ _ _ _ _ Hx Hline Hbuf) as [-> <-].
      exists [], (s :: pre), y. split; [done|]. split; [|done]. by apply readLine_buffered.
    + destruct (IH (buf ++ s)) as (pre1 & pre2 & buf' & -> & Hr & Ht); [by rewrite <- app_assoc|].
      exists (s :: pre1), pre2, buf'. split; [done|]. split; [|done].
      cbn [app readLine]. unfold IndexByte. by rewrite (Cut_none _ _ Hb).
Qed.

(** A first line followed by an empty one, from any segments. *)
Lemma head_spec line tail pre post n e :
  Contains 10 line = false -> concat pre = line ++ 10 :: 10 :: tail ->
  exists buf segs pre1 pre2 buf', pre = pre1 ++ pre2 /\
    readLine [] (pre ++ post) e = (Ok (trimCR line), buf, segs) /\
    readHeaderLines (S n) buf segs e [] = (Ok [], buf', pre2 ++ post) /\
    buf' ++ concat pre2 = tail.
Proof using Type.
  intros Hline Hpre.
  destruct (readLine_spec line (10 :: tail) pre post [] e Hline Hpre)
    as (p1 & p2 & buf & -> & Hr1 & Hb1).
  destruct (readLine_spec [] tail p2 post buf e eq_refl Hb1)
    as (q1 & q2 & buf' & -> & Hr2 & Hb2).
  exists buf, ((q1 ++ q2) ++ post), (p1 ++ q1), q2, buf'. split; [by rewrite app_assoc|].
  split; [done|]. split; [|done]. cbn [readHeaderLines]. by rewrite Hr2.
Qed.

(** Reading stops in the segment that completes the head: of that segment, [lost] stays in the
    buffer. *)
Lemma head_last line pre a lost post n e :
  Contains 10 line = false -> a <> [] -> concat pre ++ a = line ++ [10; 10] ->
  exists buf segs, readLine [] (pre ++ (a ++ lost) :: post) e = (Ok (trimCR line), buf, segs) /\
    readHeaderLines (S n) buf segs e [] = (Ok [], lost, post).
Proof using Type.
  intros Hline Ha Hpre.
  assert (concat (pre ++ [a ++ lost]) = line ++ 10 :: 10 :: lost) as Hc.
  { rewrite concat_app. cbn. rewrite app_nil_r, app_assoc, Hpre, <- app_assoc. done. }
  destruct (head_spec line lost _ post n e Hline Hc) as (buf & segs & p1 & p2 & buf' & Hsp & Hr1 & Hr2 & Hb).
  rewrite <- app_assoc in Hr1. cbn [app] in Hr1.
  destruct p2 as [|s p2] using rev_ind.
  { cbn in Hb. rewrite app_nil_r in Hb. subst buf'. by exists buf, segs. }
  exfalso. rewrite app_assoc in Hsp. apply app_inj_tail in Hsp as [_ <-].
  apply (f_equal length) in Hb. rewrite concat_app in Hb. cbn in Hb.
  rewrite !length_app in Hb. destruct a; [done|]. cbn in Hb. lia.
Qed.

Lemma trimCR_other l b : b <> 13 -> trimCR (l ++ [b]) = l ++ [b].
Proof using Type.
  intros Hb. unfold trimCR. rewrite last_snoc.
  destruct (decide (b = 13)); [done|]. by repeat (case_match; try done; try congruence).
Qed.

Lemma ReadResponse_connected pre a lost post e :
  checkHeader [] = None -> a <> [] -> concat pre ++ a = connectResponse ->
  ReadResponse (pre ++ (a ++ lost) :: post) e = (Ok server_connected, lost, post).
Proof using Type.
  intros Hck Ha Hpre. unfold ReadResponse.
  destruct (head_last (string_bytes ("HTTP/1.0 " +:+ server_connected)) pre a lost post 0 e)
    as (buf & segs & Hr1 & _); [reflexivity|done|done|]. rewrite Hr1.
  replace (trimCR _) with (string_bytes ("HTTP/1.0 " +:+ server_connected)) by reflexivity.
  destruct (head_last (string_bytes ("HTTP/1.0 " +:+ server_connected)) pre a lost post (total buf segs) e)
    as (buf2 & segs2 & Hr1' & Hr2); [reflexivity|done|done|].
  rewrite Hr1 in Hr1'. injection Hr1' as <- <-.
  cbn -[readHeaderLines total]. rewrite Hr2, Hck. reflexivity.
Qed.

(** A path that goes through a request line and net/url unchanged. *)
Definition plain_path (p : bytes) : Prop :=
  Contains 32 p = false /\ Contains 10 p = false /\ url_Path p = Some p.

Lemma readHTTPRequest_connect path segs e :
  checkHeader [] = None -> plain_path (string_bytes path) -> concat segs = connectRequest path ->
  readHTTPRequest segs e = Some (method_CONNECT, string_bytes path).
Proof using Type.
  intros Hck (Hsp & Hnl & Hurl) Hsegs. unfold readHTTPRequest.
  set (line := string_bytes ("CONNECT " +:+ path +:+ " HTTP/1.0")).
  assert (line = method_CONNECT ++ 32 :: string_bytes path ++ 32 :: string_bytes "HTTP/1.0") as Hl.
  { unfold line. rewrite !string_bytes_app. reflexivity. }
  assert (Contains 10 line = false) as Hline.
  { rewrite Hl, Contains_app, Contains_cons, Contains_app, Hnl. reflexivity. }
  assert (trimCR line = line) as Htr.
  { rewrite Hl. replace (string_bytes "HTTP/1.0") with (string_bytes "HTTP/1." ++ [48]) by reflexivity.
    replace (method_CONNECT ++ 32 :: string_bytes path ++ 32 :: string_bytes "HTTP/1." ++ [48])
      with ((method_CONNECT ++ 32 :: string_bytes path ++ 32 :: string_bytes "HTTP/1.") ++ [48])
      by (rewrite <- app_assoc; cbn; by rewrite <- app_assoc).
    by apply trimCR_other. }
  unfold connectRequest in Hsegs. fold line in Hsegs.
  destruct (head_spec line [] segs [] 0 e Hline Hsegs) as (buf & rest & p1 & p2 & b & _ & Hr1 & _ & _).
  rewrite app_nil_r in Hr1. rewrite Hr1, Htr, Hl, Gateway.parseRequestLine_spec by done. cbn [ParseHTTPVersion].
  destruct (head_spec line [] segs [] (total buf rest) e Hline Hsegs)
    as (buf2 & rest2 & q1 & q2 & b2 & _ & Hr1' & Hr2 & _).
  rewrite app_nil_r, Hr1 in Hr1'. injection Hr1' as <- <-. rewrite Hr2, Hck, Hurl. reflexivity.
Qed.

(** The server at [path] that hears a client's request: its answer in segments, the last of
    which also carries [early], sent by the server right after, and more in [later]. *)
Definition answers (x : sock) (path : string) (early : bytes) (later : list bytes) : Prop :=
  forall sent, serveByHTTP path None [sent] EOF = [HWrote connectResponse; HActive; HServeConn] ->
  exists pre a, a <> [] /\ concat pre ++ a = connectResponse /\
    so_reply x sent = pre ++ (a ++ early) :: later.

(** C37. A client that dials over "http" a server mounted at the path it asks for: the server
    reads the CONNECT request from whatever segments it comes in, answers and serves the
    connection; the client, from whatever segments the answer comes in, returns the connection
    with every later segment unread. What the server sends in the same segment as the end of
    its answer is lost with the client's first buffer. *)
Theorem http_dial_connects o path early later address w' x st :
  checkHeader [] = None -> plain_path (string_bytes (rpcPath path)) ->
  rpcPath (o_RPCPath o) = rpcPath path ->
  net_Dial net "tcp" address (o_TLSConfig o) (d_world st) = (w', Ok x) -> so_writeErr x = None ->
  answers x path early later ->
  (forall segs e, concat segs = connectRequest (rpcPath path) ->
     serveByHTTP path None segs e = [HWrote connectResponse; HActive; HServeConn]) /\
  newDirectHTTPConn (Some o) "http" address st =
    (MkDial w' (d_socks st ++ [set_io (connectRequest (rpcPath path)) later x]), Ok (length (d_socks st))).
Proof using Type.
  intros Hck Hplain Hpath Hdial Hwr Hans.
  assert (forall segs e, concat segs = connectRequest (rpcPath path) ->
     serveByHTTP path None segs e = [HWrote connectResponse; HActive; HServeConn]) as Hserve.
  { intros segs e Hs. unfold serveByHTTP. rewrite (readHTTPRequest_connect _ _ _ Hck Hplain Hs).
    by rewrite bool_decide_eq_true_2. }
  split; [exact Hserve|].
  destruct (Hans (connectRequest (rpcPath path))) as (pre & a & Ha & Hpre & Hrep).
  { apply Hserve. cbn. by rewrite app_nil_r. }
  unfold newDirectHTTPConn. rewrite Hdial, Hwr, Hpath, Hrep.
  rewrite (ReadResponse_connected _ _ _ _ _ Hck Ha Hpre). by rewrite bool_decide_eq_true_2.
Qed.

(** Another path, or another method, never reaches the server's connections. *)
Lemma http_wrong_path path p method hijack segs e :
  readHTTPRequest segs e = Some (method, p) -> p <> string_bytes (rpcPath path) ->
  serveByHTTP path hijack segs e = [HAnswered (http_Error "404 page not found" 404 newWriter)].
Proof using Type. intros Hr Hp. unfold serveByHTTP. by rewrite Hr, bool_decide_eq_false_2. Qed.

(** An answer with another status is an error, and the connection is closed. *)
Lemma http_bad_status o network address w' x st status buf rest :
  net_Dial net "tcp" address (o_TLSConfig o) (d_world st) = (w', Ok x) -> so_writeErr x = None ->
  ReadResponse (so_reply x (connectRequest (rpcPath (o_RPCPath o)))) (so_end x) = (Ok status, buf, rest) ->
  status <> connected ->
  newDirectHTTPConn (Some o) network address st =
    (MkDial w' (d_socks st ++ [set_closed (set_io (connectRequest (rpcPath (o_RPCPath o))) rest x)]),
     Er (OpError false (Some ("unexpected HTTP response: " +:+ status)%string))).
Proof using Type.
  intros Hd Hw Hr Hs. unfold newDirectHTTPConn. rewrite Hd, Hw, Hr. by rewrite bool_decide_eq_false_2.
Qed.
End Handshake.

(** ** Examples *)

Definition demo_sock : sock :=
  MkSock true None (fun _ => [take 20 connectResponse; drop 20 connectResponse ++ [8; 9]; [7]]) EOF [] [] false None None.

Definition demo_net : Net (W := unit) :=
  MkNet (fun _ _ _ w => (w, Ok demo_sock)) (fun _ _ => None) (fun _ _ _ w => (w, Er EOF))
    (fun _ _ w => (w, Er EOF)) (fun _ w => (w, Er EOF)) (fun _ _ w => (w, Er EOF)).

Definition demo_opts : dialOption := MkDialOption false false "" 0 true 1000 60.

(** A hook that refuses every connection. *)
Definition refusing : ClientPlugins.Plugin unit conn unit unit :=
  MkPlugin 1 None None (Some (fun c w => (w, (c, Some ErrNotAccept)))) None None None None None None.

Local Abbreviation connect_demo plugins :=
  (Connect (fun _ => None) demo_net plugins
     (ConnFactories (fun _ => None) demo_net false false) demo_opts 5 "http" "h:1"
     (MkDClient None [] []) (MkDial tt [])).

Lemma connect_outcome_witness :
  let '(cl', st', r) := connect_demo (Some [refusing]) in
  r = Er ErrNotAccept /\ cl' = MkDClient None [] [] /\ new_socks (MkDial tt []) st' <> [].
Proof.
  pose proof (connect_outcome (fun _ => None) demo_net (Some [refusing])
    (ConnFactories (fun _ => None) demo_net false false) demo_opts 5 "http" "h:1"
    (MkDClient None [] []) (MkDial tt []) (ConnFactories_tidy _ _ _ _ _)) as H.
  destruct (connect_demo (Some [refusing])) as [[cl' st'] r] eqn:E.
  assert (r = Er ErrNotAccept) as -> by (vm_compute in E; congruence).
  destruct H as (_ & -> & _). split; [done|]. split; [done|].
  assert (d_socks st' <> []) by (vm_compute in E; injection E as <-; done). done.
Defined.

Lemma http_dial_connects_witness :
  newDirectHTTPConn (fun _ => None) demo_net (Some demo_opts) "http" "h:1" (MkDial tt []) =
    (MkDial tt [set_io (connectRequest "/_rpcx_") [[7]] demo_sock], Ok 0%nat).
Proof.
  apply (http_dial_connects (fun _ => None) demo_net Some demo_opts "" [8; 9] [[7]] "h:1" tt
    demo_sock (MkDial tt [])); try reflexivity.
  - repeat split.
  - intros sent _. exists [take 20 connectResponse], (drop 20 connectResponse). by repeat split.
Defined.
End Dial.
