(* ===== verification/JsonRpc.v ===== *)
(** server/jsonrpc2.go and server/jsonrpc2_wire.go: JSON-RPC 2.0 over HTTP.

    The syntax of JSON (encoding/json) is a parameter: a body is read into a request or
    rejected, a response is printed or rejected. The identifiers, which have marshalling
    methods of their own, are modelled on JSON values. *)

From S2P Require Import Prelude GoStd Http Share Header Message Hooks ServerPlugins Client Server ServerProofs Plugins Gateway.

Module JsonRpc.
Import Gateway.

Definition CodeUnknownJSONRPCError : Z := -32001.
Definition CodeParseJSONRPCError : Z := -32700.
Definition CodeInvalidjsonrpcRequest : Z := -32600.
Definition CodeMethodNotFound : Z := -32601.
Definition CodeInvalidParams : Z := -32602.
Definition CodeInternalJSONRPCError : Z := -32603.

(** ** Identifiers *)

Record ID := MkID { Name : string; Number : Z }.

(** A JSON value as far as identifiers tell values apart. *)
Inductive json := JNull | JInt (z : Z) | JString (s : string) | JOther.

(** [json.Unmarshal] into an int64 and into a string that hold zero values; null changes
    nothing and is no error. *)
Definition Unmarshal_int64 (v : json) : option Z :=
  match v with
  | JNull => Some 0
  | JInt z => if (- 2 ^ 63 <=? z) && (z <? 2 ^ 63) then Some z else None
  | _ => None
  end.

Definition Unmarshal_string (v : json) : option string :=
  match v with
  | JNull => Some ""%string
  | JString s => Some s
  | _ => None
  end.

(** [None] is an error. *)
Definition ID_UnmarshalJSON (v : json) : option ID :=
  match Unmarshal_int64 v with
  | Some n => Some (MkID "" n)
  | None => (fun s => MkID s 0) <$> Unmarshal_string v
  end.

Definition ID_MarshalJSON (id : ID) : json :=
  if negb (bool_decide (Name id = ""%string)) then JString (Name id) else JInt (Number id).

Definition ID_String (id : option ID) : string :=
  match id with
  | None => ""
  | Some id =>
      if negb (bool_decide (Name id = ""%string)) then Quote (Name id)
      else "#" +:+ FormatInt (Number id)
  end.

(** [VersionTag]: what is printed, and whether a value is accepted. *)
Definition VersionTag_MarshalJSON : json := JString "2.0".
Definition VersionTag_UnmarshalJSON (v : json) : option error :=
  match Unmarshal_string v with
  | None => Some (errorString "json: cannot unmarshal into Go value of type string")
  | Some version =>
      if bool_decide (version = "2.0"%string) then None
      else Some (errorString ("invalid RPC version " +:+ version))
  end.

(** ** Requests and responses *)

Record jsonrpcRequest := MkJReq {
  jr_Method : string;
  jr_Params : option bytes;
  jr_ID : option ID;
}.

Record JSONRPCError := MkJErr { je_Code : Z; je_Message : string }.

Record jsonrpcRespone := MkJRes {
  js_Result : option bytes;
  js_Error : option JSONRPCError;
  js_ID : option ID;
}.

Definition IsNotify (r : jsonrpcRequest) : bool := bool_decide (jr_ID r = None).

Global Instance ID_eq_dec : EqDecision ID.
Proof. solve_decision. Defined.

Section Handling.
Context {W C V : Type} {compressors : Compressors}.
Variable s : Server (W := W) (C := C) (V := V).

(** The request message: a JSON request that may be one-way, with the metadata of the header. *)
Definition jsonrpc_message (r : jsonrpcRequest) (lastDot : nat) (params : bytes)
    (header : HTTPHeader) : Message :=
  let h := match jr_ID r with Some _ => newHeader | None => SetOneway true newHeader end in
  let h := SetSerializeType JSON (SetMessageType Request h) in
  let meta := Header_Get header XMeta in
  let md := if bool_decide (meta = ""%string) then ∅ else first_values (fst (ParseQuery meta)) in
  let auth := Header_Get header Authorization in
  let md := if bool_decide (auth = ""%string) then md else <[AuthKey := auth]> md in
  let m := string_bytes (jr_Method r) in
  MkMessage h (bytes_string (take lastDot m)) (bytes_string (drop (S lastDot) m)) (Some md) params
    nil_slice.

Definition fails (r : jsonrpcRequest) (code : Z) (text : string) : jsonrpcRespone :=
  MkJRes None (Some (MkJErr code text)) (jr_ID r).

(** What is returned, unless a [PostWriteResponse] hook panics. *)
Definition return_unless (out : res unit) (r : jsonrpcRespone) : res (option jsonrpcRespone) :=
  match out with Panic why => Panic why | _ => Ok (Some r) end.

(** [handleJSONRPCRequest]; nil for a notification that was handled. The context that the
    method gets has no request metadata: it sees an empty map, and what it sets as response
    metadata is lost. *)
Definition handleJSONRPCRequest (r : jsonrpcRequest) (header : HTTPHeader) (w : W) :
    W * res (option jsonrpcRespone) :=
  let '(w, _) := DoPreReadRequest (Plugins s) w in
  match LastIndexByte 46 (string_bytes (jr_Method r)) with
  | None | Some O =>
      (w, Ok (Some (fails r CodeMethodNotFound "must contains servicepath and method")))
  | Some lastDot =>
      match jr_Params r with
      | None => (w, Panic "invalid memory address or nil pointer dereference")
      | Some params =>
          let req := jsonrpc_message r lastDot params header in
          let '(w, (req, err)) := DoPostReadRequest (Plugins s) req None w in
          match err with
          | Some err => (w, Ok (Some (fails r CodeInternalJSONRPCError (Error_text err))))
          | None =>
              let '(w, err) := auth s req w in
              match err with
              | Some err =>
                  let '(w, _) := DoPreWriteResponse (Plugins s) req None (Some err) w in
                  let '(w, out) := DoPostWriteResponse (Plugins s) req (Clone req) (Some err) w in
                  (w, return_unless out (fails r CodeInternalJSONRPCError (Error_text err)))
              | None =>
                  match handleRequest s (set_meta None req) w with
                  | (w, _, Panic why) => (w, Panic why)
                  | (w, _, Er err) => (w, Er err)
                  | (w, _, Ok (resp, err)) =>
                      match jr_ID r with
                      | None => (w, Ok None)
                      | Some _ =>
                          let '(w, _) := DoPreWriteResponse (Plugins s) req None err w in
                          let '(w, out) := DoPostWriteResponse (Plugins s) req (Clone req) err w in
                          match err with
                          | Some err =>
                              (w, return_unless out (fails r CodeInternalJSONRPCError (Error_text err)))
                          | None => (w, return_unless out (MkJRes (Some (Payload resp)) None (jr_ID r)))
                          end
                      end
                  end
              end
          end
      end
  end.

(** encoding/json. *)
Context (json_Unmarshal : bytes -> jsonrpcRequest + error).
Context (json_Marshal : jsonrpcRespone -> bytes + error).

(** The header name is the one of the source. *)
Definition writeResponse (res : jsonrpcRespone) (wr : Writer) : Writer :=
  match json_Marshal res with
  | inr err => http_Error (Error_text err) 500 wr
  | inl data => w_Write data (w_Set "Context-Type" "application/json" wr)
  end.

(** What becomes of the HTTP exchange: an answer, a response cut off by a panic that net/http
    recovers, or the end of the process, when a goroutine of its own panics. *)
Inductive exchange := Answered (wr : Writer) | Aborted (why : string) | Crashed (why : string).

Definition jsonrpcHandler (r : HTTPRequest) (w : W) : W * exchange :=
  match rq_Body r with
  | inr err => (w, Answered (http_Error (Error_text err) 500 newWriter))
  | inl data =>
      match json_Unmarshal data with
      | inr err =>
          (w, Answered (writeResponse
                (MkJRes None (Some (MkJErr CodeParseJSONRPCError (Error_text err))) None) newWriter))
      | inl req =>
          match jr_ID req with
          | Some _ =>
              match handleJSONRPCRequest req (rq_Header r) w with
              | (w, Ok (Some res)) => (w, Answered (writeResponse res newWriter))
              | (w, Panic why) => (w, Aborted why)
              | (w, _) => (w, Answered newWriter)
              end
          | None =>
              match handleJSONRPCRequest req (rq_Header r) w with
              | (w, Panic why) => (w, Crashed why)
              | (w, _) => (w, Answered newWriter)
              end
          end
      end
  end.

(** ** Correctness *)

(** What the comment on the response type promises. *)
Definition wellformed (id : ID) (res : jsonrpcRespone) : Prop :=
  js_ID res = Some id /\ (is_Some (js_Result res) <-> js_Error res = None).

Lemma fails_wellformed r id code text : jr_ID r = Some id -> wellformed id (fails r code text).
Proof. intros H. split; [done|]. cbn. split; [intros [? ?]; done|done]. Qed.

(** Why a call can go unanswered: a [PostWriteResponse] hook panics, or the decoder does, on the
    message that the call was made into and the hooks on reading left. *)
Definition stops (r : jsonrpcRequest) (header : HTTPHeader) (why : string) : Prop :=
  post_write_panics (Plugins s) why \/
  exists lastDot params w w' req, jr_Params r = Some params /\
    DoPostReadRequest (Plugins s) (jsonrpc_message r lastDot params header) None w = (w', (req, None)) /\
    decoder_panics s req why.

(** The response, or the panic that keeps it from being sent. *)
Definition answered (r : jsonrpcRequest) (header : HTTPHeader) (id : ID) (x : W * res (option jsonrpcRespone)) : Prop :=
  match x with
  | (_, Ok (Some res)) => wellformed id res
  | (_, Panic why) => stops r header why
  | _ => False
  end.

Lemma return_unless_answered r header id req resp e w w' out rs :
  DoPostWriteResponse (Plugins s) req resp e w = (w', out) -> wellformed id rs ->
  answered r header id (w', return_unless out rs).
Proof.
  intros Hp Hw. destruct out as [[]|er|why]; [done|done|]. left.
  by eapply DoPostWriteResponse_panics.
Qed.

(** C24. A call with an identifier and parameters gets a response that carries the identifier and
    either a result or an error, never both and never none, whatever the authentication and the
    method do, and whatever the hooks return. The two exceptions are named: a decoder that panics
    on the parameters, and a [PostWriteResponse] hook that panics (as the one of the metrics
    plugin does here), after which no response is sent. *)
Theorem jsonrpc_wellformed r id params header w :
  jr_ID r = Some id -> jr_Params r = Some params -> answered r header id (handleJSONRPCRequest r header w).
Proof.
  intros Hid Hps. unfold handleJSONRPCRequest. pose proof (fails_wellformed r id) as Hf.
  destruct (DoPreReadRequest _ w) as [w1 e1].
  destruct (LastIndexByte 46 _) as [[|i]|]; [by apply Hf| |by apply Hf].
  rewrite Hps. destruct (DoPostReadRequest _ _ None w1) as [w2 [req [e2|]]] eqn:Ep; [by apply Hf|].
  destruct (auth s req w2) as [w3 [e3|]].
  { destruct (DoPreWriteResponse _ _ _ _ w3) as [w4 e4], (DoPostWriteResponse _ _ _ _ w4) as [w5 e5] eqn:E5.
    eapply return_unless_answered; [exact E5|by apply Hf]. }
  pose proof (handleRequest_ends s (set_meta None req) w3) as He.
  destruct (handleRequest s (set_meta None req) w3) as [[w4 rm] [[resp e4]|er|why]]; [|done|].
  2:{ right. by exists (S i), params, w1, w2, req. }
  rewrite Hid.
  destruct (DoPreWriteResponse _ _ _ _ w4) as [w5 e5], (DoPostWriteResponse _ _ _ _ w5) as [w6 e6] eqn:E6.
  destruct e4; (eapply return_unless_answered; [exact E6|]); [by apply Hf|].
  split; [done|]. cbn. split; eauto.
Qed.

(** A notification whose method names a service but that has no parameters ends the server:
    the dereference of the nil parameters panics in a goroutine that nothing recovers. *)
Theorem jsonrpc_notification_crash r data method i w :
  rq_Body r = inl data -> json_Unmarshal data = inl (MkJReq method None None) ->
  LastIndexByte 46 (string_bytes method) = Some (S i) ->
  exists w' why, jsonrpcHandler r w = (w', Crashed why).
Proof.
  intros Hb Hu Hd. unfold jsonrpcHandler. rewrite Hb, Hu. cbn [jr_ID].
  unfold handleJSONRPCRequest. cbn [jr_Method jr_Params].
  destruct (DoPreReadRequest _ w) as [w1 e1]. rewrite Hd. eauto.
Qed.
End Handling.

(** ** Identifiers survive *)

(** The identifiers that the type promises: one of the two forms. *)
Definition id_ok (id : ID) : Prop :=
  - 2 ^ 63 <= Number id < 2 ^ 63 /\ (Name id = ""%string \/ Number id = 0).

(** An identifier is printed as a value that reads back as the same one, and every value that
    is read as an identifier, but the empty string and null, is printed back as it came. *)
Theorem jsonrpc_id_roundtrip :
  (forall id, id_ok id -> ID_UnmarshalJSON (ID_MarshalJSON id) = Some id) /\
  (forall v id, ID_UnmarshalJSON v = Some id ->
     id_ok id /\ (v <> JNull -> v <> JString "" -> ID_MarshalJSON id = v)).
Proof.
  split.
  - intros [n z] ([Hz1 Hz2] & Hn). cbn [Name Number] in *. unfold ID_MarshalJSON. cbn [Name Number].
    case_bool_decide as Hc; cbn [negb].
    + subst. unfold ID_UnmarshalJSON. cbn [Unmarshal_int64].
      by rewrite (proj2 (Z.leb_le _ _)), (proj2 (Z.ltb_lt _ _)) by lia.
    + destruct Hn as [->| ->]; [done|]. done.
  - intros v id. unfold ID_UnmarshalJSON, id_ok.
    destruct v as [|z|n|]; cbn [Unmarshal_int64 Unmarshal_string fmap option_fmap option_map].
    + intros [= <-]. cbn. split; [split; [lia|by left]|done].
    + destruct (_ && _) eqn:E; [|done]. zbool. intros [= <-]. cbn [Name Number]. split; [split; [lia|by left]|done].
    + intros [= <-]. cbn [Name Number]. split; [split; [lia|by right]|]. intros _ Hne. unfold ID_MarshalJSON. cbn [Name].
      rewrite bool_decide_eq_false_2 by congruence. done.
    + done.
Qed.

(** The identifier [""] of a request comes back as [0]. *)
Example jsonrpc_empty_id :
  ID_MarshalJSON <$> ID_UnmarshalJSON (JString "") = Some (JInt 0).
Proof. reflexivity. Qed.

Section Demo.
Local Instance demo_compressors : Compressors := fun _ => None.

(** A server that serves JSON. *)
Definition json_server : Server (W := unit) (C := unit) (V := bytes) :=
  let s := demo_server None in
  MkServer (serviceMap s) (router s) (fun t => if t =? JSON then Some demo_codec else None)
    (Plugins s) (AuthFunc s) (HandleServiceError s) (ServerErrorFunc s).

Lemma jsonrpc_wellformed_witness :
  let r := MkJReq "Arith.Rev" (Some [1; 2]) (Some (MkID "" 7)) in
  let x := handleJSONRPCRequest json_server r ∅ tt in
  answered json_server r ∅ (MkID "" 7) x /\
  exists w' res, x = (w', Ok (Some res)) /\ js_Result res = Some [2; 1].
Proof.
  intros r x. split.
  - apply (jsonrpc_wellformed json_server r (MkID "" 7) [1; 2]); reflexivity.
  - eexists _, _. split; [vm_compute; reflexivity|reflexivity].
Defined.

(** A server with the metrics plugin: its hook finds no start time in the context of a JSON-RPC
    call, and panics on every one. *)
Definition metered_server : Server (W := list Plugins.metric_op) (C := unit) (V := bytes) :=
  MkServer ∅ ∅ (fun _ => None)
    [MkPlugin 0 None None None None None None None None None None None
       (Some (fun _ res _ w => Plugins.Metrics_PostWriteResponse "" None 0 res w)) None None None] None None None.

Lemma jsonrpc_metrics_panics : (handleJSONRPCRequest metered_server
  (MkJReq "Arith.Rev" (Some [1; 2]) (Some (MkID "" 7))) ∅ []).2 =
  Panic "interface conversion: interface {} is nil, not int64".
Proof. vm_compute. reflexivity. Qed.

Lemma jsonrpc_notification_crash_witness :
  exists w' why, jsonrpcHandler json_server (fun _ => inl (MkJReq "Arith.Rev" None None))
    (fun _ => inl []) (MkRequest ∅ (inl [])) tt = (w', Crashed why).
Proof.
  apply (jsonrpc_notification_crash json_server (fun _ => inl (MkJReq "Arith.Rev" None None))
           (fun _ => inl []) (MkRequest ∅ (inl [])) [] "Arith.Rev" 4 tt); reflexivity.
Defined.
End Demo.
End JsonRpc.
