(* ===== verification/ServerSync.v ===== *)
(** Concurrency of the server: the lock pool that serializes the requests of one user
    (logicSyncLockOf in server/server.go, the options in server/option.go). *)

From S2P Require Import Prelude GoStd Share Header Message Hooks ServerPlugins Client Server.

(** ** Options and the lock pool *)

Definition defaultLogicSyncLockPoolSize : Z := 5000.

(** [WithLogicSyncPoolSize]: a size that is not positive is ignored. *)
Definition WithLogicSyncPoolSize (size : Z) (pool : option Z) : option Z :=
  if size <=? 0 then pool else Some size.

(** The size of the pool of locks after [NewServer]: its default when methods are declared to
    be serialized and no size was given ([methods] is the number of them). *)
Definition newLockPool (pool : option Z) (methods : Z) : Z :=
  match pool with
  | Some n => n
  | None => if methods >? 0 then defaultLogicSyncLockPoolSize else 0
  end.

(** What the context knows about the connection: a [net.Conn] with its address, the address
    itself (HTTP gateway), or something else. *)
Inductive remote := RConn (addr : string) | RString (addr : string) | ROther.

(** What [logicSyncLockOf] reads of the context: the metadata under [ReqMetaDataKey], when they
    were put there, and the connection. *)
Record lockContext := MkLockCtx { lc_metadata : option meta; lc_remote : remote }.

(** How a request came, with the address of its connection. *)
Inductive transport := OnConn (addr : string) | ByGateway (addr : string) | ByJSONRPC (addr : string).

(** The context with which a request gets to [handleRequest]: [processOneRequest] and the HTTP
    gateway put the request's metadata into it, JSON-RPC does not. *)
Definition context_of (t : transport) (req : Message) : lockContext :=
  match t with
  | OnConn a => MkLockCtx (Some (default ∅ (Metadata req))) (RConn a)
  | ByGateway a => MkLockCtx (Metadata req) (RString a)
  | ByJSONRPC a => MkLockCtx None (RConn a)
  end.

(** [logicSyncLockOf]: the index of the lock, [None] to go without. *)
Definition logicSyncLockOf (pool : Z) (ctx : lockContext) : option Z :=
  if pool =? 0 then None
  else
    let key := default ""%string (default ∅ (lc_metadata ctx) !! ContextKeyHash) in
    let key :=
      if bool_decide (key = ""%string)
      then match lc_remote ctx with RConn a | RString a => a | ROther => key end
      else key in
    Some (HashString key mod pool).

(** Is the request for a registered method (not for a function)? *)
Definition isMethod {W V} (sm : gmap string (service (W := W) (V := V))) (req : Message) : bool :=
  match sm !! ServicePath req with
  | Some sv => bool_decide (is_Some (sv_method sv !! ServiceMethod req))
  | None => false
  end.

(** The lock a request takes in [handleRequest]: declared methods are serialized, and only
    methods, because [handleRequestForFunction] takes no lock. *)
Definition requestLock {W V} (sm : gmap string (service (W := W) (V := V))) (methods : gset string)
    (pool : Z) (req : Message) (ctx : lockContext) : option Z :=
  if isMethod sm req && bool_decide ((ServicePath req +:+ "." +:+ ServiceMethod req)%string ∈ methods)
  then logicSyncLockOf pool ctx else None.

(** ** Requests and locks as a transition system *)

(** A request waits for its lock, runs (from the call of the service to the end of
    [handleRequest], where the lock is released), and is over. *)
Inductive phase := Waiting | Running | Over.

Record locks := MkLocks { ph : gmap nat phase; held : gset Z }.

Section Locks.
Context (lock_of : nat -> option Z).

Definition take_lock (l : option Z) (h : gset Z) : gset Z :=
  match l with Some k => {[k]} ∪ h | None => h end.
Definition drop_lock (l : option Z) (h : gset Z) : gset Z :=
  match l with Some k => h ∖ {[k]} | None => h end.

Inductive lstep : locks -> locks -> Prop :=
  | arrive i x : ph x !! i = None -> lstep x (MkLocks (<[i := Waiting]> (ph x)) (held x))
  | enter i x :
      ph x !! i = Some Waiting -> (forall k, lock_of i = Some k -> k ∉ held x) ->
      lstep x (MkLocks (<[i := Running]> (ph x)) (take_lock (lock_of i) (held x)))
  | leave i x :
      ph x !! i = Some Running ->
      lstep x (MkLocks (<[i := Over]> (ph x)) (drop_lock (lock_of i) (held x))).

Inductive lreach : locks -> Prop :=
  | lreach_init : lreach (MkLocks ∅ ∅)
  | lreach_step x y : lreach x -> lstep x y -> lreach y.

(** A lock is held exactly when the request that runs under it is unique. *)
Definition linv (x : locks) : Prop :=
  (forall i k, ph x !! i = Some Running -> lock_of i = Some k -> k ∈ held x) /\
  (forall i j k, ph x !! i = Some Running -> ph x !! j = Some Running ->
     lock_of i = Some k -> lock_of j = Some k -> i = j) /\
  (forall k, k ∈ held x -> exists i, ph x !! i = Some Running /\ lock_of i = Some k).

Lemma lreach_inv x : lreach x -> linv x.
Proof.
  induction 1 as [|x y _ (H1 & H2 & H3) Hs].
  { split_and!; intros *; cbn; rewrite ?lookup_empty; set_solver. }
  inversion Hs as [i x' Hi|i x' Hi Hfree|i x' Hi]; subst; cbn.
  - split_and!; cbn.
    + intros j k Hj. rewrite lookup_insert_Some in Hj. destruct Hj as [[_ ?]|[_ Hj]]; [done|].
      by apply H1.
    + intros j j' k Hj Hj'. rewrite !lookup_insert_Some in Hj, Hj'.
      destruct Hj as [[_ ?]|[_ Hj]], Hj' as [[_ ?]|[_ Hj']]; try done. by apply H2.
    + intros k Hk. destruct (H3 k Hk) as (j & Hj & Hl). exists j. split; [|done].
      rewrite lookup_insert_ne; [done|]. intros ->. congruence.
  - split_and!; cbn.
    + intros j k Hj Hl. rewrite lookup_insert_Some in Hj. destruct Hj as [[-> _]|[_ Hj]].
      * rewrite Hl. cbn. set_solver.
      * pose proof (H1 j k Hj Hl). unfold take_lock. destruct (lock_of i); set_solver.
    + intros j j' k Hj Hj' Hl Hl'. rewrite !lookup_insert_Some in Hj, Hj'.
      destruct Hj as [[<- _]|[Hne Hj]], Hj' as [[<- _]|[Hne' Hj']]; try done.
      * destruct (Hfree k Hl). by eapply H1.
      * destruct (Hfree k Hl'). by eapply H1.
      * by eapply H2.
    + intros k Hk. unfold take_lock in Hk. destruct (lock_of i) as [k'|] eqn:El.
      * apply elem_of_union in Hk as [Hk%elem_of_singleton|Hk].
        -- subst k'. exists i. rewrite lookup_insert_eq. done.
        -- destruct (H3 k Hk) as (j & Hj & Hl). exists j. split; [|done].
           rewrite lookup_insert_ne; [done|]. intros ->. congruence.
      * destruct (H3 k Hk) as (j & Hj & Hl). exists j. split; [|done].
        rewrite lookup_insert_ne; [done|]. intros ->. congruence.
  - split_and!; cbn.
    + intros j k Hj Hl. rewrite lookup_insert_Some in Hj. destruct Hj as [[_ ?]|[Hne Hj]]; [done|].
      pose proof (H1 j k Hj Hl). unfold drop_lock. destruct (lock_of i) as [k'|] eqn:El; [|done].
      apply elem_of_difference. split; [done|]. intros ->%elem_of_singleton.
      by apply Hne, (H2 i j k').
    + intros j j' k Hj Hj' Hl Hl'. rewrite !lookup_insert_Some in Hj, Hj'.
      destruct Hj as [[_ ?]|[_ Hj]], Hj' as [[_ ?]|[_ Hj']]; try done. by eapply H2.
    + intros k Hk. unfold drop_lock in Hk.
      assert (k ∈ held x /\ lock_of i <> Some k) as [Hk' Hn].
      { destruct (lock_of i) as [k'|]; [|done]. apply elem_of_difference in Hk as [? Hn].
        split; [done|]. intros [= ->]. set_solver. }
      destruct (H3 k Hk') as (j & Hj & Hl). exists j. split; [|done].
      rewrite lookup_insert_ne; [done|]. intros ->. congruence.
Qed.

(** Whenever a request waits, it can be brought to run: the one in its way can finish. *)
Lemma lock_progress x i :
  lreach x -> ph x !! i = Some Waiting ->
  exists y, (lstep x y \/ exists z, lstep x z /\ lstep z y) /\ ph y !! i = Some Running.
Proof.
  intros Hr Hi. destruct (lreach_inv x Hr) as (H1 & H2 & H3).
  destruct (lock_of i) as [k|] eqn:El.
  - destruct (decide (k ∈ held x)) as [Hk|Hk].
    + destruct (H3 k Hk) as (j & Hj & Hl).
      assert (i <> j) as Hne by congruence.
      eexists. split; [right; eexists; split|].
      * by apply (leave j x).
      * apply (enter i).
        -- cbn. by rewrite lookup_insert_ne.
        -- cbn. intros k' Hk'. rewrite Hl. cbn. assert (k' = k) as -> by congruence. set_solver.
      * cbn. by rewrite lookup_insert_eq.
    + eexists. split; [left; apply (enter i x); [done|]|cbn; by rewrite lookup_insert_eq].
      intros k' Hk'. congruence.
  - eexists. split; [left; apply (enter i x); [done|]|cbn; by rewrite lookup_insert_eq].
    intros k' Hk'. congruence.
Qed.
End Locks.

Section Serialization.
Context {W V : Type} (sm : gmap string (service (W := W) (V := V))) (methods : gset string) (pool : Z).

(** A request to a registered method that is declared to be serialized. *)
Definition declared (m : Message) : Prop :=
  isMethod sm m = true /\ (ServicePath m +:+ "." +:+ ServiceMethod m)%string ∈ methods.

(** Whom the request is serialized with: the hash that it carries, or the address of its connection
    when it carries none, or an empty one, or came by JSON-RPC. *)
Definition serial_key (t : transport) (m : Message) : string :=
  let hash := default ""%string (default ∅ (Metadata m) !! ContextKeyHash) in
  match t with
  | OnConn a | ByGateway a => if bool_decide (hash = ""%string) then a else hash
  | ByJSONRPC a => a
  end.

Lemma requestLock_declared m t :
  declared m -> pool <> 0 ->
  requestLock sm methods pool m (context_of t m) = Some (HashString (serial_key t m) mod pool).
Proof using Type.
  intros (Hr & Hm) Hp. unfold requestLock, logicSyncLockOf.
  rewrite Hr, (bool_decide_eq_true_2 _ Hm), (proj2 (Z.eqb_neq pool 0)) by done. cbn [andb].
  by destruct t.
Qed.

(** C16. Requests of one user are serialized: of all the requests to declared methods that get to
    [handleRequest] over rpcx connections or the HTTP gateway with the same non-empty hash in their
    metadata, whatever connections they come on, at most one is in its service at any time, in every
    interleaving of the goroutines that run them; and one that waits for the lock can always be
    brought to run. A request without a hash is serialized with those of its connection. So is every
    request that comes by JSON-RPC, hash or not: that path does not put the metadata into the
    context, and two calls of one user on two connections are kept apart by nothing
    ([jsonrpc_ignores_hash]). *)
Theorem logic_sync_serializes (req : nat -> Message) (from : nat -> transport) x i j :
  let lock_of n := requestLock sm methods pool (req n) (context_of (from n) (req n)) in
  pool <> 0 -> lreach lock_of x ->
  declared (req i) -> declared (req j) -> serial_key (from i) (req i) = serial_key (from j) (req j) ->
  ph x !! i = Some Running ->
  (ph x !! j = Some Running -> i = j) /\
  (ph x !! j = Some Waiting ->
   exists y, (lstep lock_of x y \/ exists z, lstep lock_of x z /\ lstep lock_of z y) /\
     ph y !! j = Some Running).
Proof using Type.
  intros lock_of Hp Hr Di Dj Hk Hi. split.
  - intros Hj. destruct (lreach_inv _ x Hr) as (_ & H2 & _).
    apply (H2 i j (HashString (serial_key (from i) (req i)) mod pool) Hi Hj).
    + by apply requestLock_declared.
    + rewrite Hk. by apply requestLock_declared.
  - by apply lock_progress.
Qed.

(** Two JSON-RPC calls of a declared method on connections whose addresses fall on different locks
    run at the same time, although they carry the same hash. *)
Theorem jsonrpc_ignores_hash (req : nat -> Message) (from : nat -> transport) a b :
  let lock_of n := requestLock sm methods pool (req n) (context_of (from n) (req n)) in
  pool <> 0 -> declared (req 0%nat) -> declared (req 1%nat) ->
  from 0%nat = ByJSONRPC a -> from 1%nat = ByJSONRPC b -> HashString a mod pool <> HashString b mod pool ->
  exists x, lreach lock_of x /\ ph x !! 0%nat = Some Running /\ ph x !! 1%nat = Some Running.
Proof using Type.
  intros lock_of Hp D0 D1 H0 H1 Hne.
  assert (lock_of 0%nat = Some (HashString a mod pool)) as L0.
  { unfold lock_of. rewrite requestLock_declared by done. by rewrite H0. }
  assert (lock_of 1%nat = Some (HashString b mod pool)) as L1.
  { unfold lock_of. rewrite requestLock_declared by done. by rewrite H1. }
  eexists. split; [eapply lreach_step; [eapply lreach_step; [eapply lreach_step; [eapply lreach_step; [apply lreach_init|]|]|]|]|].
  - by apply (arrive lock_of 0).
  - by apply (arrive lock_of 1).
  - apply (enter lock_of 0); [reflexivity|]. intros k _. apply not_elem_of_empty.
  - apply (enter lock_of 1); [reflexivity|]. rewrite L0, L1. cbn. intros k [= <-]. set_solver.
  - split; reflexivity.
Qed.
End Serialization.

Definition sync_request : Message :=
  MkMessage newHeader "Game" "Move" (Some {[ContextKeyHash := "u1"%string]}) [] nil_slice.

Definition sync_methods : gset string := {["Game.Move"%string]}.

Definition sync_services : gmap string (service (W := unit) (V := unit)) :=
  {["Game"%string := MkService "Game" {["Move"%string := MkMethod (fun _ => ""%string) INil INil
      (fun _ _ r w => (w, (r, ∅, Ok None)))]} None]}.

(** The same user on two connections. *)
Definition sync_from (i : nat) : transport := if decide (i = 0%nat) then OnConn "10.0.0.1:1" else ByGateway "10.0.0.2:2".
Definition sync_locks (i : nat) : option Z :=
  requestLock sync_services sync_methods 5000 sync_request (context_of (sync_from i) sync_request).

Definition sync_one_running : locks :=
  MkLocks (<[1%nat := Waiting]> (<[0%nat := Running]> (<[0%nat := Waiting]> ∅)))
    (take_lock (sync_locks 0) ∅).

Lemma sync_one_running_reach : lreach sync_locks sync_one_running.
Proof.
  eapply (lreach_step _ (MkLocks (<[0%nat := Running]> (<[0%nat := Waiting]> ∅)) (take_lock (sync_locks 0) ∅))).
  - eapply (lreach_step _ (MkLocks (<[0%nat := Waiting]> ∅) ∅)).
    + eapply lreach_step; [apply lreach_init|]. apply (arrive _ 0%nat (MkLocks ∅ ∅)). reflexivity.
    + refine (enter sync_locks 0%nat (MkLocks (<[0%nat := Waiting]> ∅) ∅) _ _); [reflexivity|].
      intros k _. apply not_elem_of_empty.
  - refine (arrive sync_locks 1%nat
      (MkLocks (<[0%nat := Running]> (<[0%nat := Waiting]> ∅)) (take_lock (sync_locks 0) ∅)) _).
    reflexivity.
Qed.

Lemma sync_request_declared : declared sync_services sync_methods sync_request.
Proof. split; [reflexivity|by apply elem_of_singleton]. Qed.

Lemma logic_sync_serializes_witness :
  lreach sync_locks sync_one_running /\ ph sync_one_running !! 1%nat = Some Waiting /\
  exists y, (lstep sync_locks sync_one_running y \/
             exists z, lstep sync_locks sync_one_running z /\ lstep sync_locks z y) /\
    ph y !! 1%nat = Some Running.
Proof.
  split; [exact sync_one_running_reach|]. split; [reflexivity|].
  apply (logic_sync_serializes sync_services sync_methods 5000
    (fun _ => sync_request) sync_from sync_one_running 0 1);
    [discriminate|exact sync_one_running_reach|exact sync_request_declared
    |exact sync_request_declared|reflexivity|reflexivity|reflexivity].
Defined.

(** The lock pool never makes the server divide by zero, and it is there whenever a method
    is declared: whatever sizes the options gave, [logicSyncLockOf] answers with an index of the
    pool, and declared methods get a lock. *)
Theorem lock_pool_safe sizes methods ctx :
  let pool := newLockPool (foldl (fun p n => WithLogicSyncPoolSize n p) None sizes) methods in
  0 <= pool /\ (0 < methods -> pool <> 0) /\
  match logicSyncLockOf pool ctx with
  | Some k => 0 <= k < pool
  | None => pool = 0
  end.
Proof.
  assert (forall p, (forall n, p = Some n -> 0 < n) ->
    forall n, foldl (fun p n => WithLogicSyncPoolSize n p) p sizes = Some n -> 0 < n) as Hpos.
  { induction sizes as [|z sizes IH]; intros p Hp; [done|]. cbn. apply IH.
    unfold WithLogicSyncPoolSize. destruct (z <=? 0) eqn:E; zbool; [done|]. intros n [= <-]. lia. }
  specialize (Hpos None ltac:(done)).
  intros pool. subst pool. unfold newLockPool.
  destruct (foldl _ None sizes) as [n|].
  - specialize (Hpos n eq_refl). split_and!; [lia|lia|]. unfold logicSyncLockOf.
    rewrite (proj2 (Z.eqb_neq n 0)) by lia. apply Z.mod_pos_bound. lia.
  - destruct (methods >? 0) eqn:E; zbool.
    + split_and!; [done|done|]. unfold logicSyncLockOf. cbn [Z.eqb defaultLogicSyncLockPoolSize].
      apply Z.mod_pos_bound. done.
    + split_and!; [lia|lia|done].
Qed.

(** The locks keep the requests of one user apart but not in order: from any point at
    which the lock is free, two requests that arrive one after the other can run in the opposite
    order, because each has a goroutine of its own that takes the lock when it gets to it. *)
Theorem logic_sync_unordered {W V} (sm : gmap string (service (W := W) (V := V))) methods pool (req : nat -> Message) (from : nat -> transport) x i j :
  let lock_of n := requestLock sm methods pool (req n) (context_of (from n) (req n)) in
  i <> j -> lreach lock_of x -> ph x !! i = None -> ph x !! j = None ->
  (forall k, lock_of j = Some k -> k ∉ held x) ->
  exists x1 x2 x3, lstep lock_of x x1 /\ ph x1 !! i = Some Waiting /\ ph x1 !! j = None /\
    lstep lock_of x1 x2 /\ ph x2 !! j = Some Waiting /\
    lstep lock_of x2 x3 /\ ph x3 !! j = Some Running /\ ph x3 !! i = Some Waiting.
Proof.
  intros lock_of Hne Hr Hi Hj Hfree.
  eexists _, _, _. split; [by apply (arrive lock_of i x)|]. cbn.
  rewrite lookup_insert_eq, lookup_insert_ne by done. split_and!; [done|done|..].
  { apply (arrive lock_of j). cbn. by rewrite lookup_insert_ne. }
  { cbn. by rewrite lookup_insert_eq. }
  { apply (enter lock_of j); cbn; [by rewrite lookup_insert_eq|]. intros k Hk. by apply Hfree. }
  { cbn. by rewrite lookup_insert_eq. }
  { cbn. rewrite !lookup_insert_ne by done. by rewrite lookup_insert_eq. }
Qed.

Lemma logic_sync_unordered_witness :
  let lock_of := sync_locks in
  exists x1 x2 x3, lstep lock_of (MkLocks ∅ ∅) x1 /\ ph x1 !! 0%nat = Some Waiting /\ ph x1 !! 1%nat = None /\
    lstep lock_of x1 x2 /\ ph x2 !! 1%nat = Some Waiting /\
    lstep lock_of x2 x3 /\ ph x3 !! 1%nat = Some Running /\ ph x3 !! 0%nat = Some Waiting.
Proof.
  apply (logic_sync_unordered sync_services sync_methods 5000 (fun _ => sync_request) sync_from (MkLocks ∅ ∅) 0 1);
    [discriminate|apply lreach_init|reflexivity|reflexivity|].
  intros k _. apply not_elem_of_empty.
Defined.
