(* ===== verification/ServerSetup.v ===== *)
(** server/server.go, option.go, options.go, listener*.go, memconn.go, kcp.go, quic.go and the
    start of the HTTP servers in gateway.go and jsonrpc2.go: how a server is configured, gets
    its listener and starts to serve.

    The sockets are a parameter: a listener is what [net_Listen] and its kin return. *)

From S2P Require Import Prelude GoStd NetIP Header ServerSync Gateway.
Import Gateway.Gateway.

Module ServerSetup.

(** ** Options *)

Inductive optionValue := OptDuration (d : Z) | OptBlockCrypt (bc : nat).

Inductive workerPool := PondPool (maxWorkers maxCapacity : Z) | CustomPool (id : nat).

Record CORSOptions := MkCORS {
  AllowedOrigins : list string;
  AllowedMethods : list string;
  AllowedHeaders : list string;
  AllowCredentials : bool;
}.

(** The configuration of a [Server]. [logicLockPool] is the number of locks, [None] for nil. *)
Record config := MkConfig {
  tlsConfig : option nat;
  readTimeout : Z;
  writeTimeout : Z;
  DisableHTTPGateway : bool;
  DisableJSONRPC : bool;
  EnableProfile : bool;
  AsyncWrite : bool;
  pool : option workerPool;
  logicSyncMethod : gset string;
  logicLockPool : option Z;
  options : gmap string optionValue;
  corsOptions : option CORSOptions;
}.

Definition OptionFn := config -> config.

Definition WithTLSConfig (cfg : nat) : OptionFn := fun s =>
  MkConfig (Some cfg) (readTimeout s) (writeTimeout s) (DisableHTTPGateway s) (DisableJSONRPC s)
    (EnableProfile s) (AsyncWrite s) (pool s) (logicSyncMethod s) (logicLockPool s) (options s) (corsOptions s).

Definition WithReadTimeout (d : Z) : OptionFn := fun s =>
  MkConfig (tlsConfig s) d (writeTimeout s) (DisableHTTPGateway s) (DisableJSONRPC s)
    (EnableProfile s) (AsyncWrite s) (pool s) (logicSyncMethod s) (logicLockPool s) (options s) (corsOptions s).

Definition WithWriteTimeout (d : Z) : OptionFn := fun s =>
  MkConfig (tlsConfig s) (readTimeout s) d (DisableHTTPGateway s) (DisableJSONRPC s)
    (EnableProfile s) (AsyncWrite s) (pool s) (logicSyncMethod s) (logicLockPool s) (options s) (corsOptions s).

Definition set_sync (methods : gset string) (locks : option Z) (s : config) : config :=
  MkConfig (tlsConfig s) (readTimeout s) (writeTimeout s) (DisableHTTPGateway s) (DisableJSONRPC s)
    (EnableProfile s) (AsyncWrite s) (pool s) methods locks (options s) (corsOptions s).

Definition WithLogicSync (serviceMethod : string) : OptionFn := fun s =>
  set_sync ({[serviceMethod]} ∪ logicSyncMethod s) (logicLockPool s) s.

(** The size is checked in ServerSync. *)
Definition WithLogicSyncPoolSize (size : Z) : OptionFn := fun s =>
  set_sync (logicSyncMethod s) (ServerSync.WithLogicSyncPoolSize size (logicLockPool s)) s.

Definition set_pool (p : workerPool) (s : config) : config :=
  MkConfig (tlsConfig s) (readTimeout s) (writeTimeout s) (DisableHTTPGateway s) (DisableJSONRPC s)
    (EnableProfile s) (AsyncWrite s) (Some p) (logicSyncMethod s) (logicLockPool s) (options s) (corsOptions s).

Definition WithPool (maxWorkers maxCapacity : Z) : OptionFn := set_pool (PondPool maxWorkers maxCapacity).
Definition WithCustomPool (id : nat) : OptionFn := set_pool (CustomPool id).

Definition WithAsyncWrite : OptionFn := fun s =>
  MkConfig (tlsConfig s) (readTimeout s) (writeTimeout s) (DisableHTTPGateway s) (DisableJSONRPC s)
    (EnableProfile s) true (pool s) (logicSyncMethod s) (logicLockPool s) (options s) (corsOptions s).

Definition WithHTTPGateway : OptionFn := fun s =>
  MkConfig (tlsConfig s) (readTimeout s) (writeTimeout s) false (DisableJSONRPC s)
    (EnableProfile s) (AsyncWrite s) (pool s) (logicSyncMethod s) (logicLockPool s) (options s) (corsOptions s).

Definition WithJSONRPC : OptionFn := fun s =>
  MkConfig (tlsConfig s) (readTimeout s) (writeTimeout s) (DisableHTTPGateway s) false
    (EnableProfile s) (AsyncWrite s) (pool s) (logicSyncMethod s) (logicLockPool s) (options s) (corsOptions s).

Definition set_option (k : string) (v : optionValue) (s : config) : config :=
  MkConfig (tlsConfig s) (readTimeout s) (writeTimeout s) (DisableHTTPGateway s) (DisableJSONRPC s)
    (EnableProfile s) (AsyncWrite s) (pool s) (logicSyncMethod s) (logicLockPool s)
    (<[k := v]> (options s)) (corsOptions s).

Definition WithTCPKeepAlivePeriod (period : Z) : OptionFn := set_option "TCPKeepAlivePeriod" (OptDuration period).
Definition WithBlockCrypt (bc : nat) : OptionFn := set_option "BlockCrypt" (OptBlockCrypt bc).

Definition SetCORS (cors : option CORSOptions) (s : config) : config :=
  MkConfig (tlsConfig s) (readTimeout s) (writeTimeout s) (DisableHTTPGateway s) (DisableJSONRPC s)
    (EnableProfile s) (AsyncWrite s) (pool s) (logicSyncMethod s) (logicLockPool s) (options s) cors.

Definition AllowAllCORSOptions : CORSOptions :=
  MkCORS ["*"%string] ["HEAD"; "GET"; "POST"; "PUT"; "PATCH"; "DELETE"]%string ["*"%string] false.

(** ** NewServer *)

Definition emptyConfig : config :=
  MkConfig None 0 0 true true false false None ∅ None ∅ None.

Definition default_locks (s : config) : config :=
  match logicLockPool s with
  | None => if bool_decide (logicSyncMethod s = ∅) then s
            else set_sync (logicSyncMethod s) (Some defaultLogicSyncLockPoolSize) s
  | Some _ => s
  end.

Definition default_keepAlive (s : config) : config :=
  match options s !! "TCPKeepAlivePeriod"%string with
  | None => set_option "TCPKeepAlivePeriod" (OptDuration (3 * 60 * 1000000000)) s
  | Some _ => s
  end.

Definition NewServer (opts : list OptionFn) : config :=
  default_keepAlive (default_locks (foldl (fun s op => op s) emptyConfig opts)).

(** The options of the package. *)
Inductive option_call :=
  | OTLS (cfg : nat) | OReadTimeout (d : Z) | OWriteTimeout (d : Z) | OLogicSync (m : string)
  | OPoolSize (n : Z) | OPool (w c : Z) | OCustomPool (id : nat) | OAsyncWrite | OHTTPGateway
  | OJSONRPC | OKeepAlive (d : Z) | OBlockCrypt (bc : nat).

Global Instance option_call_eq_dec : EqDecision option_call.
Proof. solve_decision. Defined.

Definition option_fn (o : option_call) : OptionFn :=
  match o with
  | OTLS cfg => WithTLSConfig cfg
  | OReadTimeout d => WithReadTimeout d
  | OWriteTimeout d => WithWriteTimeout d
  | OLogicSync m => WithLogicSync m
  | OPoolSize n => WithLogicSyncPoolSize n
  | OPool w c => WithPool w c
  | OCustomPool id => WithCustomPool id
  | OAsyncWrite => WithAsyncWrite
  | OHTTPGateway => WithHTTPGateway
  | OJSONRPC => WithJSONRPC
  | OKeepAlive d => WithTCPKeepAlivePeriod d
  | OBlockCrypt bc => WithBlockCrypt bc
  end.

Definition applied (os : list option_call) (s : config) : config := foldl (fun s op => op s) s (option_fn <$> os).

Lemma elem_of_cons_decide (x o : option_call) os :
  bool_decide (x ∈ o :: os) = bool_decide (o = x) || bool_decide (x ∈ os).
Proof.
  rewrite <- bool_decide_or. apply bool_decide_ext. rewrite elem_of_cons. split; intros [?|?]; auto.
Qed.

Lemma applied_flags os s :
  DisableHTTPGateway (applied os s) = DisableHTTPGateway s && negb (bool_decide (OHTTPGateway ∈ os)) /\
  DisableJSONRPC (applied os s) = DisableJSONRPC s && negb (bool_decide (OJSONRPC ∈ os)) /\
  EnableProfile (applied os s) = EnableProfile s.
Proof.
  revert s. induction os as [|o os IH]; intros s; [cbn; by rewrite !andb_true_r|].
  destruct (IH (option_fn o s)) as (H1 & H2 & H3). unfold applied in *. cbn [fmap list_fmap foldl].
  rewrite H1, H2, H3, !elem_of_cons_decide, !negb_orb, !andb_assoc.
  destruct o; cbn -[bool_decide]; rewrite ?(bool_decide_eq_false_2 (_ = OHTTPGateway)),
    ?(bool_decide_eq_false_2 (_ = OJSONRPC)) by done; rewrite ?bool_decide_eq_true_2 by done;
    by rewrite ?andb_true_r, ?andb_false_r.
Qed.

(** C23. However a server is configured, the HTTP gateway is reached only if [WithHTTPGateway] is
    among its options, JSON-RPC only if [WithJSONRPC] is, and the profiler by no option: without
    them, whatever does not start with the magic byte is dropped. *)
Theorem http_needs_opt_in os network jsonrpc http1 conn :
  let s := NewServer (option_fn <$> os) in
  match route network (DisableJSONRPC s) (EnableProfile s) (DisableHTTPGateway s) jsonrpc http1 conn with
  | Jsonrpc2Ln => OJSONRPC ∈ os
  | HttpLn => OHTTPGateway ∈ os
  | DebugLn => False
  | RpcxLn => network ∉ ["tcp"; "tcp4"; "tcp6"; "reuseport"]%string \/ head conn = Some magicNumber
  | Unmatched => True
  end.
Proof.
  cbv zeta. destruct (applied_flags os emptyConfig) as (H1 & H2 & H3). cbn in H1, H2, H3.
  assert (forall s, DisableHTTPGateway (default_keepAlive (default_locks s)) = DisableHTTPGateway s /\
    DisableJSONRPC (default_keepAlive (default_locks s)) = DisableJSONRPC s /\
    EnableProfile (default_keepAlive (default_locks s)) = EnableProfile s) as Hd.
  { intros s. unfold default_keepAlive, default_locks. by repeat case_match. }
  destruct (Hd (applied os emptyConfig)) as (D1 & D2 & D3).
  unfold NewServer. fold (applied os emptyConfig). rewrite D1, D2, D3, H1, H2, H3.
  unfold route. destruct (bool_decide (network ∈ _)) eqn:Hn; cbn [negb]; [|left; by apply bool_decide_eq_false in Hn].
  destruct (rpcxPrefixByteMatcher conn) eqn:Em.
  { right. destruct conn as [|b conn]; [done|]. cbn in *. zbool. by subst. }
  rewrite !negb_involutive.
  destruct (bool_decide (OJSONRPC ∈ os)) eqn:EJ, (bool_decide (OHTTPGateway ∈ os)) eqn:EH;
    try apply bool_decide_eq_true in EJ; try apply bool_decide_eq_true in EH;
    by destruct (jsonrpc conn), (http1 conn).
Qed.

Lemma applied_locks os s :
  (forall n, logicLockPool s = Some n -> 0 < n) -> forall n, logicLockPool (applied os s) = Some n -> 0 < n.
Proof.
  revert s. induction os as [|o os IH]; intros s Hs; [done|]. cbn. apply IH.
  destruct o; cbn; try done. unfold ServerSync.WithLogicSyncPoolSize.
  destruct (_ <=? 0) eqn:E; [done|]. intros m [= <-]. zbool. lia.
Qed.

(** A server with methods that are to be serialized has a pool of locks with at least one
    lock, whatever sizes were asked for: the modulo that picks a lock never divides by zero.
    Its size is what [ServerSync.newLockPool] says. *)
Theorem lock_pool_not_empty os :
  let s := NewServer (option_fn <$> os) in
  logicSyncMethod s <> ∅ -> exists n, logicLockPool s = Some n /\ 0 < n /\
    n = newLockPool (logicLockPool (applied os emptyConfig)) (Z.of_nat (size (logicSyncMethod s))).
Proof.
  cbv zeta. unfold NewServer. fold (applied os emptyConfig).
  pose proof (applied_locks os emptyConfig ltac:(done)) as Hpos.
  set (s := applied os emptyConfig) in *.
  assert (logicLockPool (default_keepAlive (default_locks s)) = logicLockPool (default_locks s) /\
    logicSyncMethod (default_keepAlive (default_locks s)) = logicSyncMethod s) as [-> ->].
  { unfold default_keepAlive, default_locks. by repeat case_match. }
  intros Hm. unfold default_locks, newLockPool. destruct (logicLockPool s) as [n|] eqn:E.
  - exists n. rewrite E. auto.
  - rewrite bool_decide_eq_false_2 by done. exists defaultLogicSyncLockPoolSize. split; [done|].
    split; [done|]. assert (size (logicSyncMethod s) <> 0)%nat by (intros Hz; by apply size_empty_inv, leibniz_equiv in Hz).
    rewrite Z.gtb_ltb, (proj2 (Z.ltb_lt _ _)) by lia. done.
Qed.

Lemma lock_pool_not_empty_witness :
  exists n, logicLockPool (NewServer (option_fn <$> [OLogicSync "Game.Move"; OPoolSize (-3)])) = Some n /\ 0 < n /\
    n = newLockPool (logicLockPool (applied [OLogicSync "Game.Move"; OPoolSize (-3)] emptyConfig))
          (Z.of_nat (size (logicSyncMethod (NewServer (option_fn <$> [OLogicSync "Game.Move"; OPoolSize (-3)]))))).
Proof. apply (lock_pool_not_empty [OLogicSync "Game.Move"; OPoolSize (-3)]). vm_compute. discriminate. Defined.

(** ** Addresses *)

Fixpoint trimLeftSpaces (l : bytes) : bytes := match l with 32 :: r => trimLeftSpaces r | _ => l end.
Definition trimSpaces (l : bytes) : bytes := rev (trimLeftSpaces (rev (trimLeftSpaces l))).

(** [ipAddress[:i]] for the last colon; with none, [i] is -1. *)
Definition removePort (l : bytes) : res bytes :=
  match LastIndexByte 58 l with
  | Some i => Ok (take i l)
  | None => Panic "slice bounds out of range [:-1]"
  end.

(** The groups of [ip4Reg]: a decimal number up to 255 without leading zeros. *)
Definition ip4Group (l : bytes) : bool :=
  match l with
  | [a] => is_digit a
  | [a; b] => is_digit a && negb (a =? 48) && is_digit b
  | [a; b; c] =>
      forallb is_digit l && negb (a =? 48) && (dec_value l <=? 255)
  | _ => false
  end.

(** The parts between dots. *)
Fixpoint splitDots (l cur : bytes) : list bytes :=
  match l with
  | [] => [cur]
  | b :: l => if b =? 46 then cur :: splitDots l [] else splitDots l (cur ++ [b])
  end.

Definition ip4Reg (l : bytes) : bool :=
  let parts := splitDots l [] in (length parts =? 4)%nat && forallb ip4Group parts.

Definition validIP4 (address : string) : res bool :=
  match removePort (trimSpaces (string_bytes address)) with
  | Ok l => Ok (ip4Reg l)
  | Er e => Er e
  | Panic w => Panic w
  end.

Definition TrimPrefix (b : Z) (l : bytes) : bytes :=
  match l with x :: r => if x =? b then r else l | [] => [] end.
Definition TrimSuffix (b : Z) (l : bytes) : bytes := rev (TrimPrefix b (rev l)).

Definition validIP6 (address : string) : res bool :=
  match removePort (trimSpaces (string_bytes address)) with
  | Ok l =>
      match ParseIP (TrimSuffix 93 (TrimPrefix 91 l)) with
      | Some ip => Ok (match To4 ip with None => true | Some _ => false end)
      | None => Ok false
      end
  | Er e => Er e
  | Panic w => Panic w
  end.

(** ** Listeners *)

Section Listen.
Context {W L : Type}.

(** net, tls, go_reuseport, memconn, kcp, quick and io_uring. *)
Record ListenNet := MkListenNet {
  net_Listen : string -> string -> option nat -> W -> W * res L;
  reuseport_Listen : string -> string -> W -> W * res L;
  ResolveUnixAddr : string -> res string;
  unix_Listen : string -> W -> W * res L;
  memconn_Listen : string -> W -> W * res L;
  kcp_Listen : string -> nat -> W -> W * res L;
  quick_Listen : string -> nat -> W -> W * res L;
  uring_CreateMany : W -> W * res nat;
  reactor_NewNet : nat -> W -> W * res nat;
  uringnet_NewListener : string -> nat -> W -> W * res L;
  uringnetListener : L -> nat -> L;
}.
Context (net : ListenNet).

Local Abbreviation MakeListener := (config -> string -> W -> W * res L).

Definition tcpMakeListener (network : string) : MakeListener := fun s address =>
  net_Listen net network address (tlsConfig s).

Definition reuseportMakeListener : MakeListener := fun s address w =>
  match validIP6 address with
  | Ok v6 => reuseport_Listen net (if v6 then "tcp6"%string else "tcp4"%string) address w
  | Er e => (w, Er e)
  | Panic why => (w, Panic why)
  end.

Definition unixMakeListener : MakeListener := fun s address w =>
  match ResolveUnixAddr net address with
  | Ok laddr => unix_Listen net laddr w
  | Er e => (w, Er e)
  | Panic why => (w, Panic why)
  end.

Definition memconnMakeListener : MakeListener := fun s address => memconn_Listen net address.

Definition kcpMakeListener : MakeListener := fun s address w =>
  match options s !! "BlockCrypt"%string with
  | None => (w, Er (errorString "KCP BlockCrypt must be configured in server.Options"))
  | Some (OptBlockCrypt bc) => kcp_Listen net address bc w
  | Some _ => (w, Panic "interface conversion: not kcp.BlockCrypt")
  end.

Definition quicMakeListener : MakeListener := fun s address w =>
  match tlsConfig s with
  | None => (w, Er (errorString "TLSConfig must be configured in server.Options"))
  | Some cfg => quick_Listen net address cfg w
  end.

(** On an error after the rings were made nothing closes them. *)
Definition iouringMakeListener : MakeListener := fun s address w =>
  match uring_CreateMany net w with
  | (w, Ok rings) =>
      match reactor_NewNet net rings w with
      | (w, Ok netReactor) =>
          match uringnet_NewListener net address netReactor w with
          | (w, Ok ln) => (w, Ok (uringnetListener net ln rings))
          | (w, Er e) => (w, Er e)
          | (w, Panic why) => (w, Panic why)
          end
      | (w, Er e) => (w, Er e)
      | (w, Panic why) => (w, Panic why)
      end
  | (w, Er e) => (w, Er e)
  | (w, Panic why) => (w, Panic why)
  end.

(** The table after the [init] functions; the flags are the operating system and build tags. *)
Definition makeListeners (linux windows kcp quic : bool) : gmap string MakeListener :=
  list_to_map
    ([("tcp", tcpMakeListener "tcp"); ("tcp4", tcpMakeListener "tcp4"); ("tcp6", tcpMakeListener "tcp6");
      ("http", tcpMakeListener "tcp"); ("ws", tcpMakeListener "tcp"); ("wss", tcpMakeListener "tcp");
      ("memu", memconnMakeListener)]%string ++
     (if linux then [("iouring", iouringMakeListener)]%string else []) ++
     (if windows then [] else [("reuseport", reuseportMakeListener); ("unix", unixMakeListener)]%string) ++
     (if kcp then [("kcp", kcpMakeListener)]%string else []) ++
     (if quic then [("quic", quicMakeListener)]%string else [])).

Definition RegisterMakeListener (network : string) (ml : MakeListener) (table : gmap string MakeListener) :
    gmap string MakeListener := <[network := ml]> table.

Definition makeListener (table : gmap string MakeListener) (s : config) (network address : string) (w : W) :
    W * res L :=
  match table !! network with
  | None => (w, Er (errorString ("can not make listener for " +:+ network)))
  | Some ml =>
      if bool_decide (network = "wss"%string) && bool_decide (tlsConfig s = None)
      then (w, Er (errorString "must set tlsconfig for wss"))
      else ml s address w
  end.

(** ** Serve *)

(** How connections are served: through net/http at the RPC path, through websocket, or accepted
    by [serveListener], behind the multiplexer or not. Only the last two run the
    [PostConnAccept] hooks. *)
Inductive mode := ByHTTP | ByWS | Muxed | Direct.

Definition hooked (m : mode) : bool := match m with Muxed | Direct => true | _ => false end.

(** [startGateway] splits the connections of these networks. *)
Definition gateway_mode (network : string) : mode :=
  if bool_decide (network ∈ ["tcp"; "tcp4"; "tcp6"; "reuseport"]%string) then Muxed else Direct.

(** The listener and its mode; both are followed by [UnregisterAll], when serving ends. *)
Definition Serve (table : gmap string MakeListener) (s : config) (network address : string) (w : W) :
    W * res (L * mode) :=
  match makeListener table s network address w with
  | (w, Er e) => (w, Er e)
  | (w, Panic why) => (w, Panic why)
  | (w, Ok ln) =>
      (w, Ok (ln,
        if bool_decide (network = "http"%string) then ByHTTP
        else if bool_decide (network = "ws"%string) || bool_decide (network = "wss"%string) then ByWS
        else gateway_mode network))
  end.

Definition ServeListener (network : string) (ln : L) : L * mode :=
  (ln, if bool_decide (network = "http"%string) then ByHTTP else gateway_mode network).

(** [Serve] is [ServeListener] on the listener that it makes, except over websocket, which
    [ServeListener] does not know: it reads such connections as rpcx messages. *)
Lemma Serve_ServeListener table s network address w w' ln m :
  Serve table s network address w = (w', Ok (ln, m)) ->
  if bool_decide (network = "ws"%string) || bool_decide (network = "wss"%string)
  then m = ByWS /\ (ServeListener network ln).2 = Direct
  else ServeListener network ln = (ln, m).
Proof.
  unfold Serve, ServeListener. destruct (makeListener _ _ _ _ _) as [w1 [l|e|why]]; [|done..].
  intros [= <- <- <-].
  destruct (decide (network = "http"%string)) as [->|Hh]; [done|].
  rewrite (bool_decide_eq_false_2 _ Hh).
  destruct (decide (network = "ws"%string)) as [->|H1]; [done|].
  destruct (decide (network = "wss"%string)) as [->|H2]; [done|].
  by rewrite !bool_decide_eq_false_2.
Qed.

(** What the network needs is checked before any socket is made. *)
Lemma makeListener_errors (table : gmap string MakeListener) s network address w :
  (table !! network = None ->
   makeListener table s network address w = (w, Er (errorString ("can not make listener for " +:+ network)))) /\
  (is_Some (table !! "wss"%string) -> tlsConfig s = None ->
   makeListener table s "wss" address w = (w, Er (errorString "must set tlsconfig for wss"))).
Proof.
  unfold makeListener. split; [by intros ->|]. intros [ml ->] Htls.
  by rewrite !bool_decide_eq_true_2.
Qed.

(** An address without a colon makes the "reuseport" listener panic instead of failing. *)
Lemma reuseport_no_port s address w :
  Contains 58 (trimSpaces (string_bytes address)) = false ->
  reuseportMakeListener s address w = (w, Panic "slice bounds out of range [:-1]").
Proof.
  intros Hc. unfold reuseportMakeListener, validIP6, removePort. by rewrite (LastIndexByte_none _ _ Hc).
Qed.
End Listen.

Lemma trimLeftSpaces_head b l : b <> 32 -> trimLeftSpaces (b :: l) = b :: l.
Proof. intros Hb. cbn. by repeat (case_match; try done; try congruence). Qed.

Lemma trimSpaces_id b l x c y : b <> 32 -> c <> 32 -> b :: l = x ++ [c] -> y = b :: l -> trimSpaces y = b :: l.
Proof.
  intros Hb Hc Heq ->. unfold trimSpaces. rewrite (trimLeftSpaces_head b l Hb), Heq, rev_app_distr.
  cbn [rev app]. rewrite (trimLeftSpaces_head c _ Hc). cbn [rev]. by rewrite rev_involutive.
Qed.

(** An IPv6 address in brackets, with a port, is recognized as what [net.ParseIP] makes of it. *)
Theorem validIP6_brackets host port c address :
  c <> 32 -> Contains 58 (port ++ [c]) = false ->
  string_bytes address = 91 :: host ++ 93 :: 58 :: port ++ [c] ->
  validIP6 address = Ok (match ParseIP host ≫= (fun ip => match To4 ip with None => Some ip | _ => None end) with
                         | Some _ => true | None => false end).
Proof.
  intros Hc Hport Haddr. unfold validIP6, removePort.
  rewrite (trimSpaces_id 91 (host ++ 93 :: 58 :: port ++ [c]) (91 :: host ++ 93 :: 58 :: port) c _); [|lia|done| |done].
  2:{ cbn. f_equal. by rewrite <- app_assoc. }
  replace (91 :: host ++ 93 :: 58 :: port ++ [c]) with ((91 :: host ++ [93]) ++ 58 :: port ++ [c])
    by (cbn; by rewrite <- app_assoc).
  rewrite (LastIndexByte_app 58 _ (port ++ [c]) Hport), take_app_length.
  assert (TrimSuffix 93 (TrimPrefix 91 (91 :: host ++ [93])) = host) as ->.
  { cbn. unfold TrimSuffix. rewrite rev_app_distr. cbn. by rewrite rev_involutive. }
  destruct (ParseIP host) as [ip|]; [|done]. cbn. by destruct (To4 ip).
Qed.

Example validIP6_yes : validIP6 "[::1]:8972" = Ok true.
Proof. reflexivity. Qed.
Example validIP6_no : validIP6 "127.0.0.1:8972" = Ok false.
Proof. reflexivity. Qed.
Example validIP4_yes : validIP4 " 255.0.12.1:80 " = Ok true /\ validIP4 "256.0.0.1:80" = Ok false /\ validIP4 "01.0.0.1:80" = Ok false.
Proof. repeat split. Qed.

(** ** The state of a server that runs *)

Section Runtime.
Context {H : Type}.

(** [rs_ln] is the address of the listener; the hooks of [onShutdown] and [onRestart] are named
    by numbers; [rs_doneClosed] says that [doneChan] was closed. *)
Record runtime := MkRuntime {
  rs_ln : option string;
  rs_router : gmap string H;
  rs_activeConn : gset nat;
  rs_doneClosed : bool;
  rs_inShutdown : Z;
  rs_handlerMsgNum : Z;
  rs_onShutdown : list nat;
  rs_onRestart : list nat;
}.

Definition Address (s : runtime) : option string := rs_ln s.

Definition AddHandler (servicePath serviceMethod : string) (handler : H) (s : runtime) : runtime :=
  MkRuntime (rs_ln s) (<[(servicePath +:+ "." +:+ serviceMethod)%string := handler]> (rs_router s))
    (rs_activeConn s) (rs_doneClosed s) (rs_inShutdown s) (rs_handlerMsgNum s) (rs_onShutdown s) (rs_onRestart s).

(** The order is that of the iteration over the map. *)
Definition ActiveClientConn (order : list nat) (s : runtime) : Prop := order ≡ₚ elements (rs_activeConn s).

Definition isShutdown (s : runtime) : bool := rs_inShutdown s =? 1.

Definition checkProcessMsg (s : runtime) : bool := rs_handlerMsgNum s =? 0.

Definition RegisterOnShutdown (f : nat) (s : runtime) : runtime :=
  MkRuntime (rs_ln s) (rs_router s) (rs_activeConn s) (rs_doneClosed s) (rs_inShutdown s)
    (rs_handlerMsgNum s) (rs_onShutdown s ++ [f]) (rs_onRestart s).

Definition RegisterOnRestart (f : nat) (s : runtime) : runtime :=
  MkRuntime (rs_ln s) (rs_router s) (rs_activeConn s) (rs_doneClosed s) (rs_inShutdown s)
    (rs_handlerMsgNum s) (rs_onShutdown s) (rs_onRestart s ++ [f]).

(** [close(doneChan)] panics on a closed channel; the [select] before it avoids that. *)
Definition close_done (s : runtime) : res runtime :=
  if rs_doneClosed s then Panic "close of closed channel"
  else Ok (MkRuntime (rs_ln s) (rs_router s) (rs_activeConn s) true (rs_inShutdown s)
             (rs_handlerMsgNum s) (rs_onShutdown s) (rs_onRestart s)).

Definition closeDoneChanLocked (s : runtime) : res runtime :=
  if rs_doneClosed s then Ok s else close_done s.

Lemma closeDoneChan_safe s : exists s', closeDoneChanLocked s = Ok s' /\ rs_doneClosed s' = true /\
  closeDoneChanLocked s' = Ok s'.
Proof.
  unfold closeDoneChanLocked, close_done. destruct (rs_doneClosed s) eqn:E.
  - exists s. by rewrite E.
  - eexists. split; [done|]. done.
Qed.

(** [startProcess]: what [exec.LookPath] and [os.StartProcess] return; [Restart] shuts this
    server down only after the new process has started. *)
Definition startProcess (lookPath : res string) (start : string -> res Z) : res Z :=
  match lookPath with
  | Ok argv0 => start argv0
  | Er e => Er e
  | Panic w => Panic w
  end.

Definition Restart (lookPath : res string) (start : string -> res Z)
    (shutdown : runtime -> runtime * option error) (s : runtime) : runtime * option error :=
  match startProcess lookPath start with
  | Ok _ => shutdown s
  | Er e => (s, Some e)
  | Panic w => (s, Some (errorString w))
  end.
End Runtime.

(** ** The HTTP servers behind the multiplexer

    [startHTTP1APIGateway] and [startJSONRPC2] run in goroutines of their own: they make an
    [http.Server] (with CORS around the handler when it is configured), store it, and call
    [Serve] on it, which returns when the listener or the server is closed. [Shutdown] closes
    the listener and shuts down the servers it finds stored. *)

Inductive http_stage := HStarting | HStored | HServing | HEnded.

Record http_server := MkHTTP {
  hs_stage : http_stage;
  hs_cors : bool;
  hs_shut : option bool;      (* the stored server, and whether it was shut down *)
  hs_lnClosed : bool;
}.

Definition store_server (s : config) (x : http_server) : http_server :=
  MkHTTP HStored (match corsOptions s with Some _ => true | None => false end) (Some false) (hs_lnClosed x).

Definition http_stopped (x : http_server) : bool :=
  hs_lnClosed x || match hs_shut x with Some true => true | _ => false end.

(** [closeHTTP1APIGateway] and [closeJSONRPC2]: nothing is shut down that is not stored yet. *)
Definition closeHTTP (x : http_server) : http_server :=
  MkHTTP (hs_stage x) (hs_cors x) (match hs_shut x with Some _ => Some true | None => None end) (hs_lnClosed x).

Inductive http_step (s : config) : http_server -> http_server -> Prop :=
  | hs_store x : hs_stage x = HStarting -> http_step s x (store_server s x)
  | hs_serve x : hs_stage x = HStored ->
      http_step s x (MkHTTP (if http_stopped x then HEnded else HServing) (hs_cors x) (hs_shut x) (hs_lnClosed x))
  | hs_end x : hs_stage x = HServing -> http_stopped x = true ->
      http_step s x (MkHTTP HEnded (hs_cors x) (hs_shut x) (hs_lnClosed x))
  | hs_close_ln x : http_step s x (MkHTTP (hs_stage x) (hs_cors x) (hs_shut x) true)
  | hs_close x : http_step s x (closeHTTP x).

Definition stage_rank (g : http_stage) : nat :=
  match g with HStarting => 3 | HStored => 2 | HServing => 1 | HEnded => 0 end.

Lemma http_step_ln s x y : http_step s x y -> hs_lnClosed x = true ->
  hs_lnClosed y = true /\ (stage_rank (hs_stage y) <= stage_rank (hs_stage x))%nat /\
  (hs_stage y = HServing -> hs_stage x = HServing).
Proof.
  intros Hs Hln. destruct Hs as [x Hg|x Hg|x Hg Hst|x|x]; cbn; rewrite ?Hg.
  - split_and!; [done|cbn; lia|done].
  - unfold http_stopped. rewrite Hln. cbn. split_and!; [done|lia|done].
  - cbn. split_and!; [done|lia|done].
  - by auto.
  - by auto.
Qed.

(** Once the listener is closed, and even if [Shutdown] passed before the goroutine stored
    its server and so shut nothing down, the server of the gateway never starts to serve, and
    from every state it reaches it can only go on to its end, in at most three steps. *)
Theorem gateway_ends s x y :
  hs_lnClosed x = true -> rtc (http_step s) x y ->
  (hs_stage y = HServing -> hs_stage x = HServing) /\
  exists z n, nsteps (http_step s) n y z /\ hs_stage z = HEnded /\ (n <= 3)%nat.
Proof.
  intros Hln Hr.
  assert (hs_lnClosed y = true /\ (hs_stage y = HServing -> hs_stage x = HServing)) as [Hy Hsv].
  { induction Hr as [x|x y' z Hs Hr IH]; [done|].
    destruct (http_step_ln s _ _ Hs Hln) as (H1 & _ & H3). destruct (IH H1) as [H4 H5]. auto. }
  split; [done|]. assert (forall g, hs_lnClosed g = true -> http_stopped g = true) as Hstop
    by (intros g Hg; unfold http_stopped; by rewrite Hg).
  destruct (hs_stage y) eqn:Eg.
  - eexists _, 2%nat. split_and!; [eapply nsteps_l; [by apply hs_store|]; apply nsteps_once; by apply hs_serve| |lia].
    by rewrite (Hstop (store_server s y) Hy).
  - eexists _, 1%nat. split_and!; [apply nsteps_once; by apply hs_serve| |lia]. cbn. by rewrite Hstop.
  - eexists _, 1%nat. split_and!; [apply nsteps_once; apply hs_end; auto|done|lia].
  - exists y, 0%nat. split_and!; [constructor|done|lia].
Qed.

Lemma gateway_ends_witness :
  let x := MkHTTP HStarting false None true in
  exists z n, nsteps (http_step emptyConfig) n (store_server emptyConfig (closeHTTP x)) z /\ hs_stage z = HEnded /\ (n <= 3)%nat.
Proof.
  apply (gateway_ends emptyConfig (MkHTTP HStarting false None true)); [reflexivity|].
  eapply rtc_l; [apply hs_close|]. apply rtc_once. by apply hs_store.
Defined.
End ServerSetup.
