(* ===== verification/Stats.v ===== *)
(** server/statsview.go and the viewers of rpcx's own metrics: what the profiler's pages poll.
    The charts and their texts are the statsview library's. *)

From S2P Require Import Prelude Share Selector JumpHash.

Module Stats.
Import JumpHash.

(** ** The views and their routes *)

(** A view is known by its name; the first six are the library's. *)
Definition Register (views : list string) (vm : list string) : list string := vm ++ views.

Definition RPCXHandlerMetrics := "rpcx_handler"%string.
Definition RPCXProcessTimeMetrics := "rpcx_processtime"%string.
Definition RPCXRequestRateMetrics := "rpcx_request_rate"%string.

Definition NewViewManager (library : list string) : list string :=
  Register (library ++ [RPCXHandlerMetrics; RPCXProcessTimeMetrics; RPCXRequestRateMetrics]) [].

Definition static_routes : list string :=
  ["/debug/pprof/"; "/debug/pprof/cmdline"; "/debug/pprof/profile"; "/debug/pprof/symbol"; "/debug/pprof/trace";
   "/debug/statsview"; "/debug/statsview/statics/echarts.min.js"; "/debug/statsview/statics/jquery.min.js";
   "/debug/statsview/statics/themes/westeros.js"; "/debug/statsview/statics/themes/macarons.js"]%string.

Definition view_routes (views : list string) : list string :=
  (fun n => "/debug/statsview/view/" +:+ n)%string <$> views.

(** ** The rate of requests *)

(** [lastTime] in nanoseconds, [None] for the zero time. *)
Record RequestRateViewer := MkRate { lastTime : option Z; lastReq : Z }.

Definition second : Z := 1000000000.

(** [Serve] at [now] with [requestCount]: the rate that is written. The division is one of
    unsigned integers, by whole seconds; [Seconds()] is a float64, whose rounding does not reach
    the next whole second for polls less than half a year apart. *)
Definition Rate_Serve (now requestCount : Z) : Go RequestRateViewer Z := fun vr =>
  match lastTime vr with
  | None => (MkRate (Some now) requestCount, Ok 0)
  | Some t =>
      let d := (now - t) / second in
      let count := u64 (requestCount - lastReq vr) in
      if d =? 0 then (vr, Panic "integer divide by zero")
      else (MkRate (Some now) requestCount, Ok (count / d))
  end.

Definition Handler_Serve (handlerMsgNum : Z) : Z := handlerMsgNum.

(** A run of polls; a panic is caught by net/http, and the poll has no answer. *)
Fixpoint polls (ps : list (Z * Z)) (vr : RequestRateViewer) : list (option Z) :=
  match ps with
  | [] => []
  | (now, n) :: ps =>
      let '(vr, r) := Rate_Serve now n vr in
      (match r with Ok rate => Some rate | _ => None end) :: polls ps vr
  end.

(** A poll of the request rate within a second of the last answered one panics and leaves
    the viewer as it was; a later one answers with the whole number of requests per second
    since then, and the next is counted from there. *)
Theorem rate_poll now n t last :
  0 <= t <= now -> 0 <= last <= n -> n < 2 ^ 64 ->
  let d := (now - t) / second in
  match Rate_Serve now n (MkRate (Some t) last) with
  | (vr, Ok rate) => second <= now - t /\ vr = MkRate (Some now) n /\ rate * d <= n - last < (rate + 1) * d
  | (vr, Panic _) => now - t < second /\ vr = MkRate (Some t) last
  | (vr, Er _) => False
  end.
Proof.
  intros Ht Hl Hn. unfold Rate_Serve. cbn [lastTime lastReq].
  assert (0 <= (now - t) / second) by (apply Z.div_pos; unfold second; lia).
  destruct ((now - t) / second =? 0) eqn:E; zbool.
  - split; [|done]. apply Z.div_small_iff in E; unfold second in *; lia.
  - rewrite (wrap_small 64) by lia. split.
    + destruct (Z.le_gt_cases second (now - t)); [done|]. exfalso. apply E, Z.div_small. unfold second in *; lia.
    + split; [done|]. set (d := (now - t) / second) in *.
      pose proof (Z.div_mod (n - last) d). pose proof (Z.mod_pos_bound (n - last) d). nia.
Qed.

Lemma rate_poll_witness :
  match Rate_Serve 2500000000 107 (MkRate (Some 0) 100) with
  | (vr, Ok rate) => second <= 2500000000 - 0 /\ vr = MkRate (Some 2500000000) 107 /\ rate * 2 <= 107 - 100 < (rate + 1) * 2
  | (vr, Panic _) => 2500000000 - 0 < second /\ vr = MkRate (Some 0) 100
  | (vr, Er _) => False
  end.
Proof. apply (rate_poll 2500000000 107 0 100); lia. Defined.

(** Two pages that poll within a second of each other: one of them gets no answer. *)
Example two_pages : polls [(1, 0); (2000000001, 50); (2500000000, 60); (4000000001, 90)] (MkRate None 0) =
  [Some 0; Some 25; None; Some 20].
Proof. vm_compute. reflexivity. Qed.

(** ** Process times *)

(** A time in nanoseconds, as float64 milliseconds: [float64(t) / 1000000]. The dividend is
    scaled by a power of two, which float64 does exactly, since [fround] is for quotients not
    below one. *)
Definition millis (t : Z) : float64 :=
  if t <=? 0 then Float 0 0
  else
    let x := fround t 1 in
    let y := if f_exp x <=? 0 then fround (f_man x * 2 ^ 20) (1000000 * 2 ^ (- f_exp x))
             else fround (f_man x * 2 ^ f_exp x * 2 ^ 20) 1000000 in
    Float (f_man y) (f_exp y - 20).

(** What the tachymeter computed. *)
Record Metrics := MkMetrics { t_Avg : Z; t_P99 : Z; t_Max : Z; t_Min : Z; t_Long5p : Z; t_Short5p : Z }.

Definition ProcessTime_Serve (calc : Metrics) : list float64 :=
  millis <$> [t_Avg calc; t_P99 calc; t_Max calc; t_Min calc; t_Long5p calc; t_Short5p calc].

(** A whole number is a float64 as it is. *)
Lemma fround_whole t : 1 <= t < 2 ^ 53 -> let x := fround t 1 in f_exp x <= 0 /\ f_man x = t * 2 ^ (- f_exp x).
Proof.
  intros Ht. unfold fround. rewrite Z.div_1_r.
  assert (Z.log2 t < 53) by (apply Z.log2_lt_pow2; lia). rewrite (proj2 (Z.leb_le (Z.log2 t - 52) 0)) by lia. cbn [f_exp f_man].
  split; [lia|]. unfold rne. rewrite Z.div_1_r, Z.mod_1_r. done.
Qed.

Lemma rne_near a b : 0 < b -> 2 * Z.abs (rne a b * b - a) <= b.
Proof.
  intros Hb. pose proof (Z.div_mod a b). pose proof (Z.mod_pos_bound a b). unfold rne.
  repeat case_match; zbool; nia.
Qed.

(** The value for a time below 2^53 ns (104 days) is within half a unit in its last place, which
    is [2^e] ms: cross-multiplied, to stay in the integers. *)
Theorem millis_near t :
  1 <= t < 2 ^ 53 ->
  let y := millis t in
  f_exp y <= 0 /\ 2 * Z.abs (f_man y * 1000000 - t * 2 ^ (- f_exp y)) <= 1000000.
Proof.
  intros Ht. unfold millis. rewrite (proj2 (Z.leb_gt t 0)) by lia.
  pose proof (fround_whole t Ht) as [He Hm]. set (x := fround t 1) in *. rewrite (proj2 (Z.leb_le _ _) He), Hm.
  set (p := 2 ^ (- f_exp x)). assert (0 < p) by (apply Z.pow_pos_nonneg; lia).
  unfold fround. replace (t * p * 2 ^ 20 / (1000000 * p)) with (t * 2 ^ 20 / 1000000)
    by (replace (t * p * 2 ^ 20) with (t * 2 ^ 20 * p) by lia; by rewrite Z.div_mul_cancel_r by lia).
  set (e := Z.log2 (t * 2 ^ 20 / 1000000) - 52).
  assert (t * 2 ^ 20 / 1000000 < 2 ^ 54) by (apply Z.div_lt_upper_bound; lia).
  assert (1 <= t * 2 ^ 20 / 1000000) by (apply Z.div_le_lower_bound; lia).
  assert (e < 2) by (unfold e; pose proof (proj1 (Z.log2_lt_pow2 (t * 2 ^ 20 / 1000000) 54 ltac:(lia))); lia).
  destruct (e <=? 0) eqn:Ee; zbool; cbn [f_man f_exp].
  - split; [lia|]. replace (- (e - 20)) with (- e + 20) by lia. rewrite Z.pow_add_r by lia.
    pose proof (rne_near (t * p * 2 ^ 20 * 2 ^ (- e)) (1000000 * p) ltac:(lia)) as Hn. set (m := rne _ _) in *.
    replace (m * (1000000 * p) - t * p * 2 ^ 20 * 2 ^ (- e)) with ((m * 1000000 - t * (2 ^ (- e) * 2 ^ 20)) * p) in Hn by ring.
    rewrite Z.abs_mul, (Z.abs_eq p) in Hn by lia. nia.
  - assert (e = 1) as -> by lia. cbn [Z.sub]. split; [lia|].
    pose proof (rne_near (t * p * 2 ^ 20) (1000000 * p * 2 ^ 1) ltac:(lia)) as Hn. set (m := rne _ _) in *.
    change (2 ^ 1) with 2 in *. change (- (1 - 20)) with 19.
    replace (m * (1000000 * p * 2) - t * p * 2 ^ 20) with ((m * 1000000 - t * 2 ^ 19) * (2 * p)) in Hn by ring.
    rewrite Z.abs_mul, (Z.abs_eq (2 * p)) in Hn by lia. nia.
Qed.

Lemma millis_near_witness : 2 * Z.abs (f_man (millis 1500000) * 1000000 - 1500000 * 2 ^ (- f_exp (millis 1500000))) <= 1000000.
Proof. apply (millis_near 1500000). lia. Defined.

(** ** The server of the pages *)

Inductive stage := Idle | Serving | Down.
Record ViewManager := MkVM { vm_Views : list string; vm_stage : stage; vm_cancelled : bool }.

(** [Start] serves until [Stop]; after it, [Serve] returns at once. *)
Definition Start (vm : ViewManager) : ViewManager * option error :=
  match vm_stage vm with
  | Down => (vm, Some (errorString "http: Server closed"))
  | _ => (MkVM (vm_Views vm) Serving (vm_cancelled vm), None)
  end.

Definition Stop (vm : ViewManager) : ViewManager := MkVM (vm_Views vm) Down true.

Lemma stopped_stays vm : Start (Stop vm) = (Stop vm, Some (errorString "http: Server closed")).
Proof. done. Qed.
End Stats.
