(* ===== verification/EndToEnd.v ===== *)
(** A call from end to end: the client's [send], the frame on the wire, the server's
    [processOneRequest], the response on the wire and the client's [handleResponse]. *)

From S2P Require Import Prelude GoStd Share BufferPool Header Message Wire Hooks ServerPlugins Client Server ServerProofs.

(** ** The network *)

(** What a direction of the connection depends on: the order in which maps are enumerated, the
    buffer [EncodeSlicePointer] gets from its pool, and the limit of the reader. *)
Record link := MkLink {
  order : meta -> list (string * string);
  pick : option nat;
  lpool : LimitedPool;
  limit : Z;
}.

Record link_ok (l : link) : Prop := {
  lo_order : forall md, order l md ≡ₚ map_to_list md;
  lo_pool : pool_ok (lpool l);
}.

Definition entries (l : link) (m : Message) : list (string * string) := order l (default ∅ (Metadata m)).

Section Network.
Context {compressors : Compressors}.

(** The message a reader gets when [m] is written, [None] when the frame is refused. *)
Definition transmit (l : link) (m : Message) : option Message :=
  match EncodeSlicePointer (entries l m) (pick l) m (lpool l) with
  | (_, Ok (_, data)) =>
      match Decode (limit l) NewMessage (Reader (s_bytes data) EOF) with
      | (m', _, None) => Some m'
      | _ => None
      end
  | _ => None
  end.

Context {compressors_ok : CompressorsOk compressors}.

Lemma transmit_same l m :
  link_ok l -> msg_ok m -> fits (limit l) (entries l m) m ->
  exists m', transmit l m = Some m' /\ same_message (sent_header m) m m'.
Proof using Type*.
  intros [Ho Hp] Hm Hf.
  destruct (decode_encode_aux (limit l) (entries l m) (pick l) m (lpool l) [] EOF) as (p' & data & m' & HE & _ & HD & Hs);
    [done|done|by apply Ho|done|].
  rewrite app_nil_r in HD. exists m'. unfold transmit. by rewrite HE, HD.
Qed.

(** Writing a message whose header already lost a compression that fails changes nothing. *)
Lemma compressPayload_idem h p :
  header_ok h ->
  compressPayload (fst (compressPayload h p)) p = compressPayload h p.
Proof using Type.
  intros Hh. assert (is_byte None_) as Hb by (unfold is_byte, None_; lia).
  assert (CompressType (SetCompressType None_ h) = None_) as Hn.
  { exact (f_equal hv_compress (hview_SetCompressType None_ h Hh Hb)). }
  unfold compressPayload at 2 3. destruct (negb (CompressType h =? None_)) eqn:E1.
  - destruct (lookup_compressor (CompressType h)) as [c|] eqn:E2.
    + destruct (Zip c p) as [z [err|]] eqn:E3; cbn [fst].
      * unfold compressPayload. by rewrite Hn.
      * unfold compressPayload. by rewrite E1, E2, E3.
    + cbn [fst]. unfold compressPayload. by rewrite Hn.
  - cbn [fst]. unfold compressPayload. by rewrite E1.
Qed.

Lemma hview_compress h p :
  header_ok h -> exists x, hview (fst (compressPayload h p)) =
  HView (hv_magic (hview h)) (hv_version (hview h)) (hv_type (hview h)) (hv_heartbeat (hview h))
    (hv_oneway (hview h)) x (hv_status (hview h))
    (hv_serialize (hview h)) (hv_reserved (hview h)) (hv_seq (hview h)).
Proof using Type.
  intros Hh. assert (is_byte None_) as Hb by (unfold is_byte, None_; lia).
  assert (hview h = HView (hv_magic (hview h)) (hv_version (hview h)) (hv_type (hview h))
    (hv_heartbeat (hview h)) (hv_oneway (hview h)) (hv_compress (hview h)) (hv_status (hview h))
    (hv_serialize (hview h)) (hv_reserved (hview h)) (hv_seq (hview h))) as Hv by by destruct (hview h).
  unfold compressPayload. repeat split_match; cbn [fst]; rewrite ?hview_SetCompressType by done;
    eexists; try reflexivity; exact Hv.
Qed.
End Network.

(** ** Headers of a plain call *)

(** A well-formed header that is neither a heartbeat nor one-way. *)
Record plain (h : Header) (ty st ser sq : Z) : Prop := {
  ph_ok : header_ok h;
  ph_magic : hget h 0 = magicNumber;
  ph_type : MessageType h = ty;
  ph_heartbeat : IsHeartbeat h = false;
  ph_oneway : IsOneway h = false;
  ph_status : MessageStatusType h = st;
  ph_serialize : SerializeType h = ser;
  ph_seq : Seq h = sq;
}.

Definition plain_view (ty st ser sq : Z) (v : HeaderView) : Prop :=
  hv_magic v = magicNumber /\ hv_type v = ty /\ hv_heartbeat v = false /\ hv_oneway v = false /\
  hv_status v = st /\ hv_serialize v = ser /\ hv_seq v = sq.

Lemma plain_viewed h ty st ser sq :
  header_ok h -> plain_view ty st ser sq (hview h) -> plain h ty st ser sq.
Proof. intros Hok (H1 & H2 & H3 & H4 & H5 & H6 & H7). by split. Qed.

Lemma plain_has_view h ty st ser sq : plain h ty st ser sq -> plain_view ty st ser sq (hview h).
Proof. intros []. by split_and!. Qed.

Lemma plain_SetCompressType x h ty st ser sq :
  is_byte x -> plain h ty st ser sq -> plain (SetCompressType x h) ty st ser sq.
Proof.
  intros Hx Hp. pose proof (ph_ok _ _ _ _ _ Hp) as Hok.
  apply plain_viewed; [auto with rpcx|]. rewrite hview_SetCompressType by done.
  destruct (plain_has_view _ _ _ _ _ Hp) as (?&?&?&?&?&?&?). by split_and!.
Qed.

Lemma plain_Response h ty st ser sq : plain h ty st ser sq -> plain (SetMessageType Response h) Response st ser sq.
Proof.
  intros Hp. pose proof (ph_ok _ _ _ _ _ Hp) as Hok.
  apply plain_viewed; [auto with rpcx|].
  rewrite hview_SetMessageType by (done || (unfold is_byte, Response; lia)).
  destruct (plain_has_view _ _ _ _ _ Hp) as (?&?&?&?&?&?&?). split_and!; try done.
  cbn. by apply type_or_response.
Qed.

Lemma plain_StatusError h ty st ser sq :
  plain h ty st ser sq -> plain (SetMessageStatusType StatusError h) ty StatusError ser sq.
Proof.
  intros Hp. pose proof (ph_ok _ _ _ _ _ Hp) as Hok.
  assert (is_byte StatusError) by (unfold is_byte, StatusError; lia).
  apply plain_viewed; [auto with rpcx|]. rewrite hview_SetMessageStatusType by done.
  destruct (plain_has_view _ _ _ _ _ Hp) as (?&?&?&?&?&?&?). by split_and!.
Qed.

Lemma plain_compress `{Compressors} h p ty st ser sq :
  plain h ty st ser sq -> plain (fst (compressPayload h p)) ty st ser sq.
Proof.
  intros Hp. pose proof (ph_ok _ _ _ _ _ Hp) as Hok.
  apply plain_viewed; [by apply core_compress|].
  destruct (hview_compress h p Hok) as [x ->].
  destruct (plain_has_view _ _ _ _ _ Hp) as (?&?&?&?&?&?&?). by split_and!.
Qed.

(** The header of a request that [send] builds for a call with a reply. *)
Lemma plain_build_request {V} option_ (call : Call V) s data :
  isHeartbeatCall call = false -> c_Reply call <> INil -> 0 <= s < 2 ^ 64 ->
  is_byte (o_CompressType option_) -> 0 <= o_SerializeType option_ < 16 ->
  plain (m_header (build_request option_ call s data)) Request Normal (o_SerializeType option_) s.
Proof.
  intros Hh Hr Hs Hc Ht. unfold build_request. cbn [m_header]. rewrite Hh.
  set (h0 := SetSerializeType (o_SerializeType option_) _).
  assert (plain h0 Request Normal (o_SerializeType option_) s) as H0.
  { assert (h0 = SetSerializeType (o_SerializeType option_) (SetSeq s (SetMessageType Request newHeader))) as ->.
    { unfold h0. by destruct (c_Reply call). }
    apply plain_viewed; [auto with rpcx|].
    rewrite hview_SetSerializeType, hview_SetSeq by (auto with rpcx; unfold is_byte; lia).
    split_and!; try reflexivity. cbn. by apply Z.mod_small. }
  destruct (_ && _)%bool; [by apply plain_SetCompressType|done].
Qed.

(** ** One call *)

Section Rpc.
Context {W V : Type}.
Context {compressors : Compressors} {compressors_ok : CompressorsOk compressors}.
Context (Codecs_c : Z -> option (Codec V)) (option_ : Option).
Context {C : Type} (s : Server (W := W) (C := C) (V := V)).
Context (out_link in_link : link).

(** The whole path of a call [c] that was started in state [st], with no other message on the
    connection; [w] is the server's world. The client's part is run without plugins and without
    a [ClientErrorFunc]. *)
Definition rpc {Wc} (c : nat) (w : W) (st : state (W := Wc) (V := V)) : option (W * state (W := Wc) (V := V)) :=
  let st := send Codecs_c None option_ c None st in
  match last (written st) with
  | None => None
  | Some req =>
      match transmit out_link req with
      | None => None
      | Some req =>
          match processOneRequest s req w with
          | (w, [res]) =>
              match transmit in_link res with
              | None => None
              | Some res =>
                  match handleResponse Codecs_c None None option_ (entries in_link res) res st with
                  | Some (st, None) => Some (w, st)
                  | _ => None
                  end
              end
          | _ => None
          end
      end
  end.

(** [v] goes through [codec] as [data], into the target [t]. *)
Definition carries (codec : Codec V) (v : iface V) (data : bytes) (t : iface V) : Prop :=
  codec_Encode codec v = (data, None) /\ codec_Decode codec data t = (v, Ok tt) /\ bytes_ok data.

(** The client side of a plain call. *)
Lemma send_plain {Wc} c (st : state (W := Wc) (V := V)) call codec data :
  calls st !! c = Some call -> shutdown st = false -> closing st = false ->
  isHeartbeatCall call = false -> c_Reply call <> INil ->
  Codecs_c (o_SerializeType option_) = Some codec -> codec_Encode codec (c_Args call) = (data, None) ->
  is_byte (o_CompressType option_) -> 0 <= o_SerializeType option_ < 16 -> 0 <= seq st < 2 ^ 64 ->
  let st' := send Codecs_c None option_ c None st in
  last (written st') = Some (on_wire (build_request option_ call (seq st) data)) /\
  pending st' !! seq st = Some c /\ calls st' = calls st /\ finished st' = finished st /\
  ServerMessageChan st' = ServerMessageChan st.
Proof using Type.
  intros Hc Hs Hcl Hh Hr Hco He Hct Hst Hsq st'. subst st'.
  pose proof (plain_compress _ data _ _ _ _ (plain_build_request option_ call (seq st) data Hh Hr Hsq Hct Hst)) as Hp.
  unfold send, send_register. rewrite Hc, Hs, Hcl. cbn [orb].
  unfold call_serializeType. rewrite Hh, Hco. unfold send_encode. cbn [calls with_pending with_seq]. rewrite Hc.
  unfold call_serializeType. rewrite Hh, Hco, He.
  unfold send_write. set (req := build_request option_ call (seq st) data) in *.
  change (Payload req) with data.
  change (on_wire req) with (set_header (fst (compressPayload (m_header req) data)) req).
  destruct (compressPayload (m_header req) data) as [h pl]. cbn [fst] in *.
  change (m_header (set_header h req)) with h. rewrite (ph_oneway _ _ _ _ _ Hp).
  cbn. rewrite last_snoc, lookup_insert_eq. by split_and!.
Qed.

(** The message that is written for the response [res] to [req]. *)
Definition sent_response (req res : Message) : Message :=
  on_wire (if (zlen (Payload res) >? 1024) && negb (CompressType (m_header req) =? None_)
           then set_header (SetCompressType (CompressType (m_header req)) (m_header res)) res
           else res).

(** The responses to a call that returned a reply, and to one that failed. *)
Definition ok_response (req : Message) (data : bytes) (rm : meta) : Message :=
  sent_response req (mergeResMeta rm (set_payload data (newResponse req))).
Definition error_response_for (req : Message) (data : bytes) (rm : meta) (err : error) : Message :=
  sent_response req (mergeResMeta rm (fst (handleError s (set_payload data (newResponse req)) err))).

(** The server side of a plain call to a registered method. *)
Lemma process_plain req w w' sv mt codec arg reply rdata rm err :
  Plugins s = [] -> IsHeartbeat (m_header req) = false -> IsOneway (m_header req) = false ->
  router s !! (ServicePath req +:+ "." +:+ ServiceMethod req)%string = None ->
  serviceMap s !! ServicePath req = Some sv -> sv_method sv !! ServiceMethod req = Some mt ->
  Codecs s (SerializeType (m_header req)) = Some codec ->
  codec_Decode codec (Payload req) (mt_newArg mt) = (arg, Ok tt) ->
  Server.call mt (default ∅ (Metadata req)) arg (mt_newReply mt) w = (w', (reply, rm, err)) ->
  isINil reply = false -> codec_Encode codec reply = (rdata, None) ->
  processOneRequest s req w =
    match err with
    | None => (w', [ok_response req rdata rm])
    | Some e => (report s e w', [error_response_for req rdata rm e])
    end.
Proof using Type.
  intros Hpl Hhb How Hrt Hsv Hmt Hco Hdec Hcall Hnil Henc.
  unfold processOneRequest. rewrite Hhb, Hpl. cbn [DoPreHandleRequest].
  unfold DoPreHandleRequest. cbn -[handleRequest sendResponse].
  rewrite Hrt. unfold handleRequest. cbn -[invoke sendResponse].
  rewrite Hsv, Hmt. unfold invoke. cbn -[call sendResponse newResponse]. rewrite Hco, Hdec, Hpl.
  cbn -[call sendResponse newResponse]. rewrite Hcall. cbn -[sendResponse newResponse]. rewrite How.
  destruct err as [e|]; cbn -[sendResponse newResponse].
  - unfold method_error. rewrite Hnil, Henc. cbn -[sendResponse newResponse handleError].
    destruct (handleError s _ e) as [m' e'] eqn:He.
    assert (e' = Some e) as -> by by injection He.
    unfold sendResponse. rewrite Hpl. cbn -[newResponse]. unfold error_response_for, sent_response.
    change (newResponse (set_meta _ req)) with (newResponse req) in He. by rewrite He.
  - rewrite Henc. unfold sendResponse. rewrite Hpl. reflexivity.
Qed.

(** Response metadata on a message without any, or with just the error text. *)
Lemma mergeResMeta_none rm m :
  Metadata m = None -> default ∅ (Metadata (mergeResMeta rm m)) = rm.
Proof using Type.
  intros Hm. unfold mergeResMeta. case_bool_decide as E; [by rewrite Hm, E|]. by rewrite Hm.
Qed.

Lemma mergeResMeta_error rm m text :
  Metadata m = Some {[ServiceErrorKey := text]} -> rm !! ServiceErrorKey = None ->
  Metadata (mergeResMeta rm m) = Some (<[ServiceErrorKey := text]> rm).
Proof using Type.
  intros Hm Hrm. unfold mergeResMeta. case_bool_decide as E; [by rewrite Hm, E|]. rewrite Hm.
  cbn [Metadata set_meta]. f_equal. apply map_eq. intros k. destruct (decide (k = ServiceErrorKey)) as [->|Hne].
  - rewrite lookup_insert_eq. apply lookup_union_Some_l. rewrite map_lookup_imap, lookup_singleton_eq. cbn.
    rewrite Hrm. by case_bool_decide.
  - rewrite lookup_insert_ne by done. rewrite lookup_union_r; [done|].
    rewrite map_lookup_imap, lookup_singleton_ne by done. done.
Qed.

Lemma mergeResMeta_rest rm m :
  m_header (mergeResMeta rm m) = m_header m /\ Payload (mergeResMeta rm m) = Payload m.
Proof using Type. unfold mergeResMeta. repeat split_match; by split. Qed.

Lemma sent_response_plain req res ty st ser sq :
  header_ok (m_header req) -> plain (m_header res) ty st ser sq ->
  plain (m_header (sent_response req res)) ty st ser sq /\
  Payload (sent_response req res) = Payload res /\ Metadata (sent_response req res) = Metadata res.
Proof using Type.
  intros Hreq Hres. unfold sent_response, on_wire. destruct (_ && _)%bool; split_and!; try done.
  - apply plain_compress. apply plain_SetCompressType; [by apply CompressType_byte|done].
  - by apply plain_compress.
Qed.

Lemma newResponse_plain req ty st ser sq data :
  plain (m_header req) ty st ser sq ->
  plain (m_header (set_payload data (newResponse req))) Response st ser sq.
Proof using Type.
  intros Hp. change (m_header (set_payload data (newResponse req)))
    with (SetMessageType Response (SetCompressType None_ (m_header req))).
  eapply plain_Response, plain_SetCompressType; [unfold is_byte, None_; lia|done].
Qed.

(** What the client needs to know about the response to a plain call. *)
Lemma ok_response_plain req data rm ty ser sq :
  plain (m_header req) ty Normal ser sq ->
  let m := ok_response req data rm in
  plain (m_header m) Response Normal ser sq /\ Payload m = data /\ default ∅ (Metadata m) = rm.
Proof using Type.
  intros Hp m. pose proof (newResponse_plain req _ _ _ _ data Hp) as Hn.
  destruct (mergeResMeta_rest rm (set_payload data (newResponse req))) as [Hh Hpl].
  rewrite <- Hh in Hn. destruct (sent_response_plain req _ _ _ _ _ (ph_ok _ _ _ _ _ Hp) Hn) as (H1 & H2 & H3).
  unfold m, ok_response. rewrite H2, H3. split_and!; [done|done|by apply mergeResMeta_none].
Qed.

Lemma error_response_plain req data rm e ty ser sq :
  plain (m_header req) ty Normal ser sq -> ServerErrorFunc s = None -> rm !! ServiceErrorKey = None ->
  let m := error_response_for req data rm e in
  plain (m_header m) Response StatusError ser sq /\ Payload m = data /\
  Metadata m = Some (<[ServiceErrorKey := Error_text e]> rm).
Proof using Type.
  intros Hp Hf Hrm m. pose proof (newResponse_plain req _ _ _ _ data Hp) as Hn.
  set (m0 := set_payload data (newResponse req)) in *.
  assert (plain (m_header (fst (handleError s m0 e))) Response StatusError ser sq) as He
    by (by eapply plain_StatusError).
  destruct (mergeResMeta_rest rm (fst (handleError s m0 e))) as [Hh Hpl].
  rewrite <- Hh in He. destruct (sent_response_plain req _ _ _ _ _ (ph_ok _ _ _ _ _ Hp) He) as (H1 & H2 & H3).
  unfold m, error_response_for. fold m0. rewrite H2, H3. split_and!; [done|by rewrite Hpl|].
  apply mergeResMeta_error; [|done]. unfold handleError. by rewrite Hf.
Qed.

(** The call after its response was handled. *)
Definition answered (call : Call V) (reply : iface V) (rm : option meta) (err : option error) : Call V :=
  MkCall (c_ServicePath call) (c_ServiceMethod call) (c_Metadata call)
    (match rm with Some m => Some m | None => c_ResMetadata call end) (c_Args call) reply
    (match err with Some e => Some e | None => c_Error call end) (c_Done call) (c_Raw call).

(** The client side of a response to a plain call. *)
Lemma handle_plain {Wc} kvs res (st : state (W := Wc) (V := V)) c call codec data reply sts ser sq :
  plain (m_header res) Response sts ser sq ->
  pending st !! sq = Some c -> calls st !! c = Some call -> c_Raw call = false ->
  Codecs_c ser = Some codec -> Payload res = data -> data <> [] ->
  codec_Decode codec data (c_Reply call) = (reply, Ok tt) ->
  (sts = StatusError -> default ∅ (Metadata res) <> ∅) ->
  exists st', handleResponse Codecs_c None None option_ kvs res st = Some (st', None) /\
    calls st' !! c = Some (answered call reply
      (if bool_decide (default ∅ (Metadata res) = ∅) then None else Metadata res)
      (if sts =? StatusError then Some (strErr (meta_get (Metadata res) ServiceErrorKey)) else None)) /\
    finished st' = finished st ++ [c] /\ pending st' !! sq = None.
Proof using Type.
  intros Hp Hpe Hca Hraw Hco Hpl Hne Hdec Hmd. unfold handleResponse.
  assert (isServerMessage res = false) as ->.
  { unfold isServerMessage. by rewrite (ph_type _ _ _ _ _ Hp). }
  unfold take_pending. rewrite (ph_seq _ _ _ _ _ Hp), Hpe. cbn [calls with_pending]. rewrite Hca.
  rewrite (ph_status _ _ _ _ _ Hp).
  assert ((zlen (Payload res) >? 0) = true) as Hz.
  { rewrite Hpl. destruct data; [done|]. unfold zlen. cbn [length]. apply Z.gtb_lt. lia. }
  assert (forall call' : Call V, c_Done call' = c_Done call ->
    let st0 := with_calls (<[c := call']> (calls st)) (with_pending (delete sq (pending st)) st) in
    calls (done c st0) !! c = Some call' /\ finished (done c st0) = finished st ++ [c] /\
    pending (done c st0) !! sq = None) as Hdone.
  { intros call' _ st0. unfold done, st0. cbn. rewrite lookup_insert_eq.
    repeat split_match; cbn; rewrite lookup_insert_eq, lookup_delete_eq; done. }
  destruct (sts =? StatusError) eqn:Es.
  - unfold error_response, has_meta. apply Z.eqb_eq in Es.
    rewrite (bool_decide_eq_true_2 _ (Hmd Es)), (bool_decide_eq_false_2 _ (Hmd Es)).
    cbn [c_Raw set_error set_resmeta]. rewrite Hraw, Hz, (ph_serialize _ _ _ _ _ Hp), Hco, Hpl.
    change (c_Reply (set_error _ (set_resmeta _ call))) with (c_Reply call). rewrite Hdec. eexists. split; [reflexivity|].
    destruct (Metadata res) as [md|] eqn:Em; [|by destruct (Hmd Es)]. by apply (Hdone).
  - unfold normal_response. rewrite Hraw, Hz, (ph_serialize _ _ _ _ _ Hp), Hco, Hpl, Hdec.
    unfold has_meta. destruct (Metadata res) as [md|] eqn:Em; cbn [default].
    + destruct (decide (md = ∅)) as [->|Hmd'].
      * rewrite bool_decide_eq_false_2, bool_decide_eq_true_2 by naive_solver.
        eexists. split; [reflexivity|]. by apply Hdone.
      * rewrite bool_decide_eq_true_2, bool_decide_eq_false_2 by naive_solver.
        eexists. split; [reflexivity|]. by apply Hdone.
    + rewrite bool_decide_eq_false_2, bool_decide_eq_true_2 by naive_solver.
      eexists. split; [reflexivity|]. by apply Hdone.
Qed.

(** The client has an open connection and a call that is neither raw nor a heartbeat. *)
Record client_ready {Wc} (st : state (W := Wc) (V := V)) (c : nat) (call : Call V) (codec : Codec V) (data : bytes) :
    Prop := {
  cr_call : calls st !! c = Some call;
  cr_open : shutdown st = false /\ closing st = false;
  cr_kind : isHeartbeatCall call = false /\ c_Raw call = false /\ c_Reply call <> INil;
  cr_codec : Codecs_c (o_SerializeType option_) = Some codec;
  cr_args : codec_Encode codec (c_Args call) = (data, None) /\ bytes_ok data;
  cr_options : is_byte (o_CompressType option_) /\ 0 <= o_SerializeType option_ < 16;
  cr_seq : 0 <= seq st < 2 ^ 64;
}.

(** The server has no plugins and serves the method; the method was called with the arguments
    and returned a reply, metadata and maybe an error, or panicked ([Server.call]). *)
Record server_ready (call : Call V) (codec : Codec V) (data : bytes) (w w' : W) (reply : iface V) (rm : meta)
    (err : option error) : Prop := {
  sr_plugins : Plugins s = [] /\ ServerErrorFunc s = None;
  sr_router : router s !! (c_ServicePath call +:+ "." +:+ c_ServiceMethod call)%string = None;
  sr_codec : Codecs s (o_SerializeType option_) = Some codec;
  sr_method : exists sv mt, serviceMap s !! c_ServicePath call = Some sv /\
    sv_method sv !! c_ServiceMethod call = Some mt /\
    codec_Decode codec data (mt_newArg mt) = (c_Args call, Ok tt) /\
    Server.call mt (default ∅ (c_Metadata call)) (c_Args call) (mt_newReply mt) w = (w', (reply, rm, err));
  sr_reply : isINil reply = false /\ rm !! ServiceErrorKey = None;
}.

Lemma sent_on_wire m :
  header_ok (m_header m) -> sent_header (on_wire m) = m_header (on_wire m).
Proof using Type.
  intros Hh. unfold sent_header, on_wire.
  change (Payload (set_header _ m)) with (Payload m). change (m_header (set_header ?h m)) with h.
  by rewrite compressPayload_idem.
Qed.

Lemma sent_response_sent req res :
  header_ok (m_header req) -> header_ok (m_header res) ->
  sent_header (sent_response req res) = m_header (sent_response req res).
Proof using Type.
  intros Hreq Hres. unfold sent_response. apply sent_on_wire.
  destruct (_ && _)%bool; [|done]. cbn. auto with rpcx.
Qed.

(** A message that is sent with its own header arrives with it. *)
Lemma transmit_plain l m ty sts ser sq :
  link_ok l -> plain (m_header m) ty sts ser sq -> bytes_ok (Payload m) ->
  sent_header m = m_header m -> fits (limit l) (entries l m) m ->
  exists m', transmit l m = Some m' /\ same_message (m_header m) m m'.
Proof using Type*.
  intros Hl Hp Hb Hs Hf. destruct (transmit_same l m Hl) as (m' & HT & Hm); [|done|].
  - split; [by eapply ph_ok|by eapply ph_magic|done].
  - rewrite Hs in Hm. eauto.
Qed.

Lemma norm_meta_default md : default ∅ (norm_meta md) = default ∅ md.
Proof using Type. destruct md as [m|]; [|done]. cbn. by destruct (decide (m = ∅)) as [->|]. Qed.

Lemma norm_meta_if md :
  (if bool_decide (default ∅ (norm_meta md) = ∅) then None else norm_meta md) = norm_meta md.
Proof using Type.
  destruct md as [m|]; [|done]. cbn. destruct (decide (m = ∅)) as [->|Hne]; [done|]. cbn.
  by rewrite bool_decide_eq_false_2.
Qed.

Lemma norm_meta_of md rm :
  default ∅ md = rm -> norm_meta md = if bool_decide (rm = ∅) then None else Some rm.
Proof using Type.
  intros <-. destruct md as [m|]; [|done]. cbn.
  destruct (decide (m = ∅)); [by rewrite bool_decide_eq_true_2|by rewrite bool_decide_eq_false_2].
Qed.

(** The way of a response back to its call. *)
Lemma receive_plain {Wc} res (st : state (W := Wc) (V := V)) c call codec data reply sts ser sq :
  link_ok in_link -> plain (m_header res) Response sts ser sq -> sent_header res = m_header res ->
  fits (limit in_link) (entries in_link res) res ->
  pending st !! sq = Some c -> calls st !! c = Some call -> c_Raw call = false ->
  Codecs_c ser = Some codec -> Payload res = data -> bytes_ok data -> data <> [] ->
  codec_Decode codec data (c_Reply call) = (reply, Ok tt) ->
  (sts = StatusError -> default ∅ (Metadata res) <> ∅) ->
  exists res' st', transmit in_link res = Some res' /\
    handleResponse Codecs_c None None option_ (entries in_link res') res' st = Some (st', None) /\
    calls st' !! c = Some (answered call reply (norm_meta (Metadata res))
      (if sts =? StatusError then Some (strErr (meta_get (Metadata res) ServiceErrorKey)) else None)) /\
    finished st' = finished st ++ [c] /\ pending st' !! sq = None.
Proof using Type*.
  intros Hl Hp Hs Hf Hpe Hca Hraw Hco Hpl Hb Hne Hdec Hmd.
  destruct (transmit_plain in_link res _ _ _ _ Hl Hp) as (res' & HT & [Hh _ _ Hm Hpl']);
    [by rewrite Hpl|done|done|].
  destruct (handle_plain (entries in_link res') res' st c call codec data reply sts ser sq)
    as (st' & HR & Hca' & Hfin & Hpe'); [by rewrite Hh|done|done|done|done|by rewrite Hpl'|done|done| |].
  { rewrite Hm, norm_meta_default. done. }
  exists res', st'. split_and!; [done|done| |done|done].
  rewrite Hca', Hm, norm_meta_if. unfold meta_get. by rewrite norm_meta_default.
Qed.

Lemma responses_ext req req' data rm e :
  m_header req' = m_header req -> ServicePath req' = ServicePath req -> ServiceMethod req' = ServiceMethod req ->
  ok_response req' data rm = ok_response req data rm /\
  error_response_for req' data rm e = error_response_for req data rm e.
Proof using Type.
  intros Hh Hp Hm.
  assert (newResponse req' = newResponse req) as Hn.
  { unfold newResponse, Clone. by rewrite Hh, Hp, Hm. }
  unfold ok_response, error_response_for, sent_response. by rewrite Hn, Hh.
Qed.

(** The request's way to the server and the response it gives. *)
Lemma deliver_plain {Wc} (st : state (W := Wc) (V := V)) c call codec data w w' reply rm err rdata :
  client_ready st c call codec data -> server_ready call codec data w w' reply rm err ->
  codec_Encode codec reply = (rdata, None) -> link_ok out_link ->
  let req := on_wire (build_request option_ call (seq st) data) in
  fits (limit out_link) (entries out_link req) req ->
  plain (m_header req) Request Normal (o_SerializeType option_) (seq st) /\
  exists req', transmit out_link req = Some req' /\
    processOneRequest s req' w =
      match err with
      | None => (w', [ok_response req rdata rm])
      | Some e => (report s e w', [error_response_for req rdata rm e])
      end.
Proof using Type*.
  intros [Hca [Hsd Hcl] (Hhb & Hraw & Hrep) Hco [He Hb] [Hct Hst] Hsq]
    [[Hpl Hsef] Hrt Hco' (sv & mt & Hsv & Hmt & Hdec & Hcall) [Hnil Hrm]] Henc Hl req Hf.
  pose proof (plain_build_request option_ call (seq st) data Hhb Hrep Hsq Hct Hst) as Hp0.
  assert (plain (m_header req) Request Normal (o_SerializeType option_) (seq st)) as Hp
    by (by apply plain_compress).
  split; [done|].
  destruct (transmit_plain out_link req _ _ _ _ Hl Hp) as (req' & HT & [Hh Hpa Hme Hmd Hpay]);
    [done|apply sent_on_wire; by eapply ph_ok|done|].
  exists req'. split; [done|].
  destruct (responses_ext req req' rdata rm (default EOF err) Hh Hpa Hme) as [Hok Herr].
  pose proof (process_plain req' w w' sv mt codec (c_Args call) reply rdata rm err) as HPP.
  rewrite Hh, Hpa, Hme, Hpay, Hmd, norm_meta_default, (ph_heartbeat _ _ _ _ _ Hp),
    (ph_oneway _ _ _ _ _ Hp), (ph_serialize _ _ _ _ _ Hp) in HPP.
  specialize (HPP Hpl eq_refl eq_refl Hrt Hsv Hmt Hco' Hdec Hcall Hnil Henc). rewrite HPP.
  destruct err as [e|]; [exact (f_equal (fun m => (report s e w', [m])) Herr)|exact (f_equal (fun m => (w', [m])) Hok)].
Qed.

(** Both responses at once. *)
Lemma response_plain req rdata rm err ser sq :
  plain (m_header req) Request Normal ser sq -> ServerErrorFunc s = None -> rm !! ServiceErrorKey = None ->
  let res := match err with
             | None => ok_response req rdata rm
             | Some e => error_response_for req rdata rm e
             end in
  exists sts, plain (m_header res) Response sts ser sq /\
    Payload res = rdata /\ sent_header res = m_header res /\
    (sts = StatusError -> default ∅ (Metadata res) <> ∅) /\
    norm_meta (Metadata res) =
      match err with
      | None => if bool_decide (rm = ∅) then None else Some rm
      | Some e => Some (<[ServiceErrorKey := Error_text e]> rm)
      end /\
    (if sts =? StatusError then Some (strErr (meta_get (Metadata res) ServiceErrorKey)) else None) =
    ((fun e => strErr (Error_text e)) <$> err).
Proof using Type.
  intros Hp Hsef Hrm res. unfold res. destruct err as [e|].
  - destruct (error_response_plain req rdata rm e _ _ _ Hp Hsef Hrm) as (H1 & H2 & H3).
    exists StatusError. rewrite H3. split_and!; [done|done| |intros _; apply insert_non_empty| |].
    + apply sent_response_sent; [by eapply ph_ok|]. rewrite (proj1 (mergeResMeta_rest _ _)).
      exact (ph_ok _ _ _ _ _ (plain_StatusError _ _ _ _ _ (newResponse_plain req _ _ _ _ rdata Hp))).
    + cbn. by rewrite decide_False by apply insert_non_empty.
    + cbn. unfold meta_get. cbn. by rewrite lookup_insert_eq.
  - destruct (ok_response_plain req rdata rm _ _ _ Hp) as (H1 & H2 & H3).
    exists Normal. split_and!; [done|done| |done| |done].
    + apply sent_response_sent; [by eapply ph_ok|]. rewrite (proj1 (mergeResMeta_rest _ _)).
      exact (ph_ok _ _ _ _ _ (newResponse_plain req _ _ _ _ rdata Hp)).
    + by apply norm_meta_of.
Qed.

(** C1. A call from end to end. The client's request goes over the wire to the server, the
    method runs with the caller's arguments and metadata, and its outcome comes back: the call
    is finished exactly then, with the method's reply; with its response metadata; without an
    error when the method returned none, and with the text of the error when it failed or
    panicked. This needs codecs that read back what they write, non-empty encoded replies (an
    empty payload is not decoded), and frames within the limits of the readers. *)
Theorem rpc_end_to_end {Wc} (st : state (W := Wc) (V := V)) c call codec data w w' reply rm err rdata :
  client_ready st c call codec data -> server_ready call codec data w w' reply rm err ->
  carries codec reply rdata (c_Reply call) -> rdata <> [] ->
  link_ok out_link -> link_ok in_link ->
  let req := on_wire (build_request option_ call (seq st) data) in
  let res := match err with
             | None => ok_response req rdata rm
             | Some e => error_response_for req rdata rm e
             end in
  fits (limit out_link) (entries out_link req) req -> fits (limit in_link) (entries in_link res) res ->
  exists st',
    rpc c w st = Some (match err with None => w' | Some e => report s e w' end, st') /\
    finished st' = finished st ++ [c] /\ pending st' !! seq st = None /\
    calls st' !! c = Some (answered call reply
      (match err with
       | None => if bool_decide (rm = ∅) then None else Some rm
       | Some e => Some (<[ServiceErrorKey := Error_text e]> rm)
       end)
      ((fun e => strErr (Error_text e)) <$> err)).
Proof using Type*.
  intros Hcr Hsr [Henc [Hdec Hb]] Hne Hlo Hli req res Hfq Hfs.
  destruct (deliver_plain st c call codec data w w' reply rm err rdata Hcr Hsr Henc Hlo Hfq)
    as (Hp & req' & HT & HP).
  destruct Hcr as [Hca [Hsd Hcl] (Hhb & Hraw & Hrep) Hco [He Hbd] [Hct Hst] Hsq].
  destruct Hsr as [[_ Hsef] _ _ _ [_ Hrm]].
  destruct (send_plain c st call codec data) as (Hw & Hpe & Hcs & Hfin & _); [done..|].
  unfold rpc. rewrite Hw, HT, HP.
  destruct (response_plain req rdata rm err _ _ Hp Hsef Hrm)
    as (sts & Hp' & Hpl & Hsent & Hmd & Hnm & Herr). fold res in Hnm, Herr.
  destruct (receive_plain res (send Codecs_c None option_ c None st) c call codec rdata reply sts
    (o_SerializeType option_) (seq st)) as (res' & st' & HT' & HR & Hca' & Hfin' & Hpe'); try done.
  { by rewrite Hcs. }
  exists st'. rewrite Hfin', Hfin, Hca', Hnm, Herr. split_and!; [|done..].
  unfold res, req in HT'. destruct err; by rewrite HT', HR.
Qed.
End Rpc.

(** ** A concrete call *)

Definition demo_option : Option := MkOption MsgPack Gzip false.

Definition demo_codecs (t : Z) : option (Codec bytes) := if t =? MsgPack then Some demo_codec else None.

Definition demo_call : Call bytes :=
  MkCall "Arith" "Rev" (Some {["user"%string := "u1"%string]}) None (IVal [1; 2]) (IVal []) None None false.

Definition demo_state : state (W := unit) (V := bytes) :=
  MkState 41 ∅ false false false {[0%nat := demo_call]} ∅ ∅ [] [] None tt 0.

Definition demo_link : link := MkLink map_to_list None bufferPool 100000.

Lemma demo_link_ok : link_ok demo_link.
Proof. split; [done|exact bufferPool_ok]. Qed.

Lemma demo_client_ready : client_ready demo_codecs demo_option demo_state 0 demo_call demo_codec [1; 2].
Proof.
  split; cbn; try done. split; [done|solve_bytes].
Qed.

Lemma demo_server_ready :
  server_ready demo_option (demo_server None) demo_call demo_codec [1; 2] tt tt (IVal [2; 1]) ∅ None.
Proof. split; try done. by eexists _, _. Qed.

Lemma rpc_end_to_end_witness :
  exists st',
    @rpc unit bytes toy_compressors demo_codecs demo_option unit (demo_server None) demo_link demo_link
      unit 0 tt demo_state = Some (tt, st') /\
    finished st' = [0%nat] /\ pending st' !! 41 = None /\
    calls st' !! 0%nat = Some (answered demo_call (IVal [2; 1]) None None).
Proof.
  refine (@rpc_end_to_end unit bytes toy_compressors toy_compressors_ok demo_codecs demo_option unit
    (demo_server None) demo_link demo_link unit demo_state 0 demo_call demo_codec [1; 2] tt tt
    (IVal [2; 1]) ∅ None [2; 1] _ _ _ _ _ _ _ _).
  - exact demo_client_ready.
  - exact demo_server_ready.
  - split_and!; [done|done|solve_bytes].
  - discriminate.
  - exact demo_link_ok.
  - exact demo_link_ok.
  - split; [vm_compute; reflexivity|intros _; vm_compute; discriminate].
  - split; [vm_compute; reflexivity|intros _; vm_compute; discriminate].
Defined.
