(* ===== verification/XClient.v ===== *)
(** client/xclient.go: the client of a service that is served by several servers, with
    discovery, selection, cached connections, breakers and fail modes.

    One call of the xClient runs at a time here; XClientConc.v runs its methods concurrently, and
    FanOut.v has the goroutines of the fan-outs. The connections ([RPCClient]) and the selector are Go interfaces in the source
    and classes over the world [W] here: [A] and [R] are the types of arguments and replies. *)

From S2P Require Import Prelude GoStd Share Breaker Message Hooks ClientPlugins Selector.

(** ** Interfaces *)

(** What a context carries: the request metadata and the deadline. *)
Record Ctx := MkCtx { cx_meta : meta; cx_deadline : option Z }.

(** [RPCClient] of client/client.go; a connection is a number. [rpc_Connect] is [Connect] on a
    new client, [rpc_Go] starts a call, and [rpc_now] reads the clock. *)
Class RPCClients (W A R : Type) := {
  rpc_Connect : string -> string -> W -> W * res nat;
  rpc_Call : nat -> Ctx -> string -> string -> A -> R -> W -> W * (R * option error);
  rpc_Go : nat -> Ctx -> string -> string -> A -> W -> W;
  rpc_SendRaw : nat -> Ctx -> Message -> W -> W * (option meta * bytes * option error);
  rpc_IsClosing : nat -> W -> bool;
  rpc_IsShutdown : nat -> W -> bool;
  rpc_Close : nat -> W -> W * option error;
  rpc_RegisterServerMessageChan : nat -> W -> W;
  rpc_UnregisterServerMessageChan : nat -> W -> W;
  rpc_now : W -> W * Z;
}.

(** The selector object the xClient holds. *)
Class SelectorObj (W A : Type) := {
  sel_Select : string -> string -> A -> W -> W * res string;
  sel_UpdateServer : list (string * string) -> W -> W;
}.

(** [CacheClientBuilder] of client/cache_client_builder.go. *)
Record CacheClientBuilder (W : Type) := MkBuilder {
  SetCachedClient : nat -> string -> string -> string -> W -> W;
  FindCachedClient : string -> string -> string -> W -> option nat;
  DeleteCachedClient : nat -> string -> string -> string -> W -> W;
  GenerateClient : string -> string -> string -> W -> W * res nat;
}.
Arguments SetCachedClient {W} _ _ _ _ _ _.
Arguments FindCachedClient {W} _ _ _ _ _.
Arguments DeleteCachedClient {W} _ _ _ _ _ _.
Arguments GenerateClient {W} _ _ _ _ _.

Definition RegisterCacheClientBuilder {W} (network : string) (builder : CacheClientBuilder W)
    (bs : gmap string (CacheClientBuilder W)) : gmap string (CacheClientBuilder W) :=
  <[network := builder]> bs.

(** ** Helpers *)

Definition splitNetworkAndAddress (server : string) : string * string :=
  let '(a, b, found) := Cut 64 (string_bytes server) in
  if found then (bytes_string a, bytes_string b) else ("tcp"%string, server).

(** The servers of the discovery's pairs, in the order they were sorted into. *)
Definition servers_of (pairs : list (string * string)) : gmap string string :=
  foldl (fun m kv => <[kv.1 := kv.2]> m) ∅ pairs.

(** Is a server with the metadata [v] kept by [filterByStateAndGroup]? *)
Definition keeps (group v : string) : bool :=
  let '(values, bad) := ParseQuery v in
  if bad then true
  else
    negb (bool_decide (Values_Get values "state" = "inactive"%string)) &&
    (bool_decide (group = ""%string) ||
     bool_decide (group ∈ default [] (values !! "group"%string))).

Definition filterByStateAndGroup (group : string) (servers : gmap string string) : gmap string string :=
  filter (fun kv => keeps group kv.2 = true) servers.

(** [err.(ServiceError)] and [IsServiceError()]. *)
Definition isServiceErr (err : error) : bool := match err with ServiceErr _ _ => true | _ => false end.
Definition isServiceError (err : error) : bool := match err with ServiceErr _ b => b | _ => false end.

Definition contextCanceled (err : error) : bool :=
  match err with DeadlineExceeded | Canceled => true | _ => false end.

(** [uncoverError(nil)] is true. *)
Definition uncoverError (err : option error) : bool :=
  match err with
  | Some e => negb (isServiceError e) && negb (contextCanceled e)
  | None => true
  end.

Definition errXClientClosed : error := errorString "this xclient is closed".

(** ** The xClient *)

Section XClient.
Context {W A R B : Type} `{BreakerOps B} `{RPCClients W A R} `{SelectorObj W A}.

(** The options. *)
Record xOption := MkXOption {
  Sticky : bool;
  Retries : Z;
  Group : string;
  GenBreaker : option B;
}.

(** [selectorSet]: the selector is not nil. [attempts] lists the calls made on connections,
    with what they returned. *)
Record xClient := MkX {
  failMode : FailMode;
  selectMode : SelectMode;
  cachedClient : gmap string nat;
  breakers : gmap string B;
  servers : gmap string string;
  selectorSet : bool;
  stickyRPCClient : option nat;
  stickyK : string;
  isShutdown : bool;
  xauth : string;
  attempts : list (nat * option error);
  xworld : W;
}.

Context (option_ : xOption) (servicePath : string).
Context (Plugins : pluginContainer W nat A R).
Context (cacheClientBuilders : gmap string (CacheClientBuilder W)).

Local Abbreviation X := (Go xClient).

Definition with_world (w : W) (x : xClient) : xClient :=
  MkX (failMode x) (selectMode x) (cachedClient x) (breakers x) (servers x) (selectorSet x)
    (stickyRPCClient x) (stickyK x) (isShutdown x) (xauth x) (attempts x) w.
Definition with_cached (m : gmap string nat) (x : xClient) : xClient :=
  MkX (failMode x) (selectMode x) m (breakers x) (servers x) (selectorSet x)
    (stickyRPCClient x) (stickyK x) (isShutdown x) (xauth x) (attempts x) (xworld x).
Definition with_breakers (m : gmap string B) (x : xClient) : xClient :=
  MkX (failMode x) (selectMode x) (cachedClient x) m (servers x) (selectorSet x)
    (stickyRPCClient x) (stickyK x) (isShutdown x) (xauth x) (attempts x) (xworld x).
Definition with_sticky (k : string) (c : option nat) (x : xClient) : xClient :=
  MkX (failMode x) (selectMode x) (cachedClient x) (breakers x) (servers x) (selectorSet x)
    c k (isShutdown x) (xauth x) (attempts x) (xworld x).
Definition with_servers (m : gmap string string) (x : xClient) : xClient :=
  MkX (failMode x) (selectMode x) (cachedClient x) (breakers x) m (selectorSet x)
    (stickyRPCClient x) (stickyK x) (isShutdown x) (xauth x) (attempts x) (xworld x).
Definition with_selector (mode : SelectMode) (x : xClient) : xClient :=
  MkX (failMode x) mode (cachedClient x) (breakers x) (servers x) true
    (stickyRPCClient x) (stickyK x) (isShutdown x) (xauth x) (attempts x) (xworld x).
Definition with_shutdown (x : xClient) : xClient :=
  MkX (failMode x) (selectMode x) (cachedClient x) (breakers x) (servers x) (selectorSet x)
    (stickyRPCClient x) (stickyK x) true (xauth x) (attempts x) (xworld x).
Definition with_auth (a : string) (x : xClient) : xClient :=
  MkX (failMode x) (selectMode x) (cachedClient x) (breakers x) (servers x) (selectorSet x)
    (stickyRPCClient x) (stickyK x) (isShutdown x) a (attempts x) (xworld x).
Definition with_attempt (c : nat) (e : option error) (x : xClient) : xClient :=
  MkX (failMode x) (selectMode x) (cachedClient x) (breakers x) (servers x) (selectorSet x)
    (stickyRPCClient x) (stickyK x) (isShutdown x) (xauth x) (attempts x ++ [(c, e)]) (xworld x).

(** An operation of the world. *)
Definition on_world {T} (f : W -> W * T) : X T := fun x =>
  let '(w, t) := f (xworld x) in (with_world w x, Ok t).
Definition upd_world (f : W -> W) : X unit := modify (fun x => with_world (f (xworld x)) x).

Definition live (c : nat) (w : W) : bool := negb (rpc_IsClosing c w) && negb (rpc_IsShutdown c w).

Definition builder_of (k : string) : option (CacheClientBuilder W) :=
  cacheClientBuilders !! fst (splitNetworkAndAddress k).

(** ** The discovery and the selector *)

(** [NewXClient] with the pairs of the discovery as they were sorted; the selector is made here
    unless the user sets it later. *)
Definition NewXClient (fm : FailMode) (sm : SelectMode) (pairs : list (string * string))
    (newSelector : list (string * string) -> W -> W) (w : W) : xClient :=
  let servers := filterByStateAndGroup (Group option_) (servers_of pairs) in
  let set := match sm with Closest | SelectByUser => false | _ => true end in
  MkX fm sm ∅ ∅ servers set None "" false "" []
    (if set then newSelector (map_to_list servers) w else w).

(** [NewBidirectionalXClient] also keeps the channel on which its clients hand over what servers
    push; it is the second component here. *)
Definition NewBidirectionalXClient (fm : FailMode) (sm : SelectMode) (pairs : list (string * string))
    (newSelector : list (string * string) -> W -> W) (serverMessageChan : nat) (w : W) : xClient * nat :=
  let servers := filterByStateAndGroup (Group option_) (servers_of pairs) in
  let set := match sm with Closest | SelectByUser => false | _ => true end in
  (MkX fm sm ∅ ∅ servers set None "" false "" [] (if set then newSelector (map_to_list servers) w else w),
   serverMessageChan).

(** One round of [watch]. *)
Definition watch (pairs : list (string * string)) : X unit :=
  let servers := filterByStateAndGroup (Group option_) (servers_of pairs) in
  _ ← modify (with_servers servers);
  x ← get;
  if selectorSet x then upd_world (sel_UpdateServer (map_to_list servers)) else mret tt.

(** [SetSelector] and [ConfigGeoSelector]: the world has the new selector as its selector. *)
Definition SetSelector (install : W -> W) : X unit :=
  x ← get;
  _ ← upd_world (fun w => sel_UpdateServer (map_to_list (servers x)) (install w));
  modify (fun x => with_selector (selectMode x) x).

Definition ConfigGeoSelector (newGeoSelector : list (string * string) -> W -> W) : X unit :=
  x ← get;
  _ ← upd_world (newGeoSelector (map_to_list (servers x)));
  modify (with_selector Closest).

Definition Auth (auth : string) : X unit := modify (with_auth auth).

(** ** Cached clients *)

Definition setCachedClient (client : nat) (k sp sm : string) : X unit :=
  match builder_of k with
  | Some b => upd_world (SetCachedClient b client k sp sm)
  | None => modify (fun x => with_cached (<[k := client]> (cachedClient x)) x)
  end.

Definition findCachedClient (k sp sm : string) : X (option nat) := fun x =>
  (x, Ok match builder_of k with
         | Some b => FindCachedClient b k sp sm (xworld x)
         | None => cachedClient x !! k
         end).

Definition close_client (c : nat) : X unit := _ ← on_world (rpc_Close c); mret tt.

Definition deleteCachedClient (client : option nat) (k sp sm : string) : X unit :=
  match builder_of k, client with
  | Some b, Some c => _ ← upd_world (DeleteCachedClient b c k sp sm); close_client c
  | _, _ =>
      _ ← modify (fun x => with_cached (delete k (cachedClient x)) x);
      match client with Some c => close_client c | None => mret tt end
  end.

Definition removeClient (k sp sm : string) (client : option nat) : X unit :=
  _ ← (if Sticky option_ then modify (with_sticky "" None) else mret tt);
  cl ← findCachedClient k sp sm;
  _ ← (if decide (cl = client) then deleteCachedClient client k sp sm else mret tt);
  match client with
  | Some c => _ ← upd_world (rpc_UnregisterServerMessageChan c); close_client c
  | None => mret tt
  end.

Definition generateClient (k sp sm : string) : X (res nat) :=
  match builder_of k with
  | Some b => on_world (GenerateClient b k sp sm)
  | None =>
      let '(network, addr) := splitNetworkAndAddress k in
      _ ← match GenBreaker option_ with
          | Some b => modify (fun x => with_breakers (<[k := default b (breakers x !! k)]> (breakers x)) x)
          | None => mret tt
          end;
      r ← on_world (rpc_Connect network addr);
      match r, GenBreaker option_ with
      | Er err, Some _ =>
          t ← on_world rpc_now;
          _ ← modify (fun x => with_breakers (alter (b_fail t) k (breakers x)) x);
          mret (Er err)
      | r, _ => mret r
      end
  end.

(** A client the cache has for [k], when it is still usable; a dead one is thrown out. The
    second look-up is the one after it. *)
Definition usable_or_evict (k sp sm : string) : X (option nat * bool) :=
  client ← findCachedClient k sp sm;
  x ← get;
  match client with
  | Some c =>
      if live c (xworld x) then mret (Some c, true)
      else
        _ ← deleteCachedClient (Some c) k sp sm;
        client ← findCachedClient k sp sm;
        mret (client, false)
  | None => mret (None, false)
  end.

(** A new client for [k], connected, registered and cached. *)
Definition make_client (k sp sm : string) : X (option nat * option error) :=
  r ← generateClient k sp sm;
  match r with
  | Er err => mret (None, Some err)
  | Panic why => panic why
  | Ok c =>
      _ ← upd_world (rpc_RegisterServerMessageChan c);
      _ ← setCachedClient c k sp sm;
      mret (Some c, None)
  end.

Definition needs_new (client : option nat) (w : W) : bool :=
  match client with Some c => rpc_IsShutdown c w | None => true end.

(** The plugins are told about new connections when the method returns. *)
Definition clientConnected (c : nat) : X unit := _ ← on_world (DoClientConnected Plugins c); mret tt.

Definition breakerReady (k : string) : X bool :=
  x ← get;
  match breakers x !! k with
  | None => mret true
  | Some b =>
      t1 ← on_world rpc_now;
      t2 ← on_world rpc_now;
      let '(b, ok) := b_ready t1 t2 b in
      _ ← modify (fun x => with_breakers (<[k := b]> (breakers x)) x);
      mret ok
  end.

Definition getCachedClient (k sp sm : string) : X (option nat * option error) :=
  x ← get;
  if isShutdown x then mret (None, Some errXClientClosed)
  else
    ok ← breakerReady k;
    if negb ok then mret (None, Some ErrBreakerOpen)
    else
      '(client, usable) ← usable_or_evict k sp sm;
      x ← get;
      if usable : bool then mret (client, None)
      else if needs_new client (xworld x) then
        '(client, err) ← make_client k sp sm;
        _ ← match client with Some c => clientConnected c | None => mret tt end;
        mret (client, err)
      else mret (client, None).

(** The same under the lock the caller holds; the flag asks it to tell the plugins. *)
Definition getCachedClientWithoutLock (k sp sm : string) : X (option nat * bool * option error) :=
  '(client, usable) ← usable_or_evict k sp sm;
  x ← get;
  if usable : bool then mret (client, false, None)
  else if needs_new client (xworld x) then
    '(client, err) ← make_client k sp sm;
    match client with
    | Some c => mret (Some c, true, None)
    | None => mret (None, false, err)
    end
  else mret (client, false, None).

Definition selectServer (sp sm : string) (args : A) : X string :=
  x ← get;
  if selectorSet x then
    r ← on_world (DoWrapSelect Plugins sel_Select sp sm args);
    lift r
  else panic "nil pointer dereference".

Definition safeCloseClient (client : option nat) : X unit :=
  match client with Some c => close_client c | None => mret tt end.

Definition selectClient (sp sm : string) (args : A) : X (string * option nat * option error) :=
  x ← get;
  let sticky :=
    if Sticky option_ then
      match stickyRPCClient x with
      | Some c => if live c (xworld x) then Some c else None
      | None => None
      end
    else None in
  _ ← (if Sticky option_ then modify (with_sticky (stickyK x) sticky) else mret tt);
  match sticky with
  | Some c => mret (stickyK x, Some c, None)
  | None =>
      k ← selectServer sp sm args;
      if bool_decide (k = ""%string) then mret (""%string, None, Some ErrXClientNoServer)
      else
        '(client, err) ← getCachedClient k sp sm;
        x ← get;
        _ ← match client with
            | Some c =>
                if Sticky option_ then
                  _ ← safeCloseClient (stickyRPCClient x);
                  modify (with_sticky k (Some c))
                else mret tt
            | None => mret tt
            end;
        mret (k, client, err)
  end.

(** ** Calls *)

Definition setReqMetadata (key val : string) (ctx : Ctx) : Ctx :=
  MkCtx (<[key := val]> (cx_meta ctx)) (cx_deadline ctx).

(** The time until the deadline, in milliseconds. *)
Definition setServerTimeout (ctx : Ctx) : X Ctx :=
  match cx_deadline ctx with
  | Some d =>
      now ← on_world rpc_now;
      mret (setReqMetadata "__ServerTimeout" (FormatInt (Z.quot (time_sub d now) 1000000)) ctx)
  | None => mret ctx
  end.

(** The start of every method: the token and the timeout go into the metadata. *)
Definition prepare (ctx : Ctx) : X Ctx :=
  x ← get;
  setServerTimeout (if bool_decide (xauth x <> ""%string) then setReqMetadata "__AUTH" (xauth x) ctx else ctx).

(** The reply is what the caller's reply holds afterwards. *)
Definition wrapCall (ctx : Ctx) (client : option nat) (sm : string) (args : A) (reply : R) :
    X (R * option error) :=
  match client with
  | None => mret (reply, Some ErrServerUnavailable)
  | Some c =>
      _ ← on_world (DoPreCall Plugins servicePath sm args);
      '(reply, err) ← on_world (rpc_Call c ctx servicePath sm args reply);
      _ ← on_world (DoPostCall Plugins servicePath sm args reply err);
      _ ← modify (with_attempt c err);
      mret (reply, err)
  end.

(** What the loops do with the error of a call: hand it to the caller? *)
Definition final (err : error) : bool := contextCanceled err || isServiceError err.

Definition remove_uncovered (k sp sm : string) (client : option nat) (err : option error) : X unit :=
  if uncoverError err then removeClient k sp sm client else mret tt.

(** The retry loops, with [n] rounds left; [again] gets a client for the next round. *)
Fixpoint retry_loop (again : string -> X (string * option nat * option error)) (n : nat) (ctx : Ctx)
    (k : string) (client : option nat) (sm : string) (args : A) (reply : R) (err e : option error) :
    X (R * option error) :=
  match n with
  | O => mret (reply, match err with None => e | _ => err end)
  | S n =>
      '(reply, err, stop) ←
        match client with
        | Some _ =>
            '(reply, err) ← wrapCall ctx client sm args reply;
            mret (reply, err, match err with None => true | Some er => final er end)
        | None => mret (reply, err, false)
        end;
      if stop : bool then mret (reply, err)
      else
        _ ← remove_uncovered k servicePath sm client err;
        '(k, client, e) ← again k;
        retry_loop again n ctx k client sm args reply err e
  end.

(** [Failtry] goes on with the same server, [Failover] selects one for every round. *)
Definition failtry_loop (sm : string) :=
  retry_loop (fun k => '(client, e) ← getCachedClient k servicePath sm; mret (k, client, e)).
Definition failover_loop (sm : string) (args : A) :=
  retry_loop (fun _ => selectClient servicePath sm args).

Definition rounds : nat := Z.to_nat (Retries option_ + 1).

(** [Go]: the call is started on a connection, unless none can be had. *)
Definition Go_ (ctx : Ctx) (sm : string) (args : A) : X (option error) :=
  x ← get;
  if isShutdown x then mret (Some ErrXClientShutdown)
  else
    ctx ← prepare ctx;
    '(_, client, err) ← selectClient servicePath sm args;
    match err, client with
    | Some err, _ => mret (Some err)
    | None, Some c => _ ← upd_world (rpc_Go c ctx servicePath sm args); mret None
    | None, None => panic "nil pointer dereference"
    end.

(** What the [select]s of the [Failbackup] mode see first: the context is done, a call comes
    back (with its reply), or the latency has passed. *)
Inductive backup_event := CtxDone (e : error) | CallDone (r : R) (e : option error) | Latency.

Definition backup_result (reply : R) (ev : backup_event) : R * option error :=
  match ev with
  | CtxDone e => (reply, Some e)
  | CallDone r None => (r, None)
  | CallDone _ (Some e) => (reply, Some e)
  | Latency => (reply, None)
  end.

(** [ev1] is what happens while the first call alone is waited for, [ev2] after the second. *)
Definition failbackup (ev1 ev2 : backup_event) (ctx : Ctx) (k : string) (client : option nat) (sm : string)
    (args : A) (reply : R) : X (R * option error) :=
  err1 ← Go_ ctx sm args;
  match ev1 with
  | Latency =>
      err2 ← Go_ ctx sm args;
      match err2 with
      | Some e =>
          _ ← remove_uncovered k servicePath sm client (Some e);
          mret (reply, err1)
      | None => mret (backup_result reply ev2)
      end
  | ev1 => mret (backup_result reply ev1)
  end.

Definition Call (ev1 ev2 : backup_event) (ctx : Ctx) (sm : string) (args : A) (reply : R) :
    X (R * option error) :=
  x ← get;
  if isShutdown x then mret (reply, Some ErrXClientShutdown)
  else
    ctx ← prepare ctx;
    '(k, client, err) ← selectClient servicePath sm args;
    match err, failMode x with
    | Some er, Failfast => mret (reply, Some er)
    | _, _ =>
        if match err with Some er => contextCanceled er | None => false end
        then mret (reply, err)
        else
          match failMode x with
          | Failtry => failtry_loop sm rounds ctx k client sm args reply err None
          | Failover => failover_loop sm args rounds ctx k client sm args reply err None
          | Failbackup => failbackup ev1 ev2 ctx k client sm args reply
          | Failfast =>
              '(reply, err) ← wrapCall ctx client sm args reply;
              _ ← (match err with Some _ => remove_uncovered k servicePath sm client err | None => mret tt end);
              mret (reply, err)
          end
    end.

Definition Oneshot (ctx : Ctx) (sm : string) (args : A) : X (option error) := Go_ ctx sm args.

(** ** Raw messages *)

(** A payload as the arguments the selector and the plugins are given, and the nil reply. *)
Context (raw_args : bytes -> A) (nil_reply : R).

Definition raw_result := (option meta * bytes * option error)%type.

Definition wrapSendRaw (ctx : Ctx) (client : option nat) (r : Message) : X raw_result :=
  match client with
  | None => mret (None, [], Some ErrServerUnavailable)
  | Some c =>
      let args := raw_args (Payload r) in
      _ ← on_world (DoPreCall Plugins servicePath (ServiceMethod r) args);
      '(m, payload, err) ← on_world (rpc_SendRaw c ctx r);
      _ ← on_world (DoPostCall Plugins servicePath (ServiceMethod r) args nil_reply err);
      _ ← modify (with_attempt c err);
      mret (m, payload, err)
  end.

(** The loops of [SendRaw]: the error of a round is a variable of that round, [err] is the one
    of the first selection. [is_final] says which errors of a call are returned at once. *)
Fixpoint raw_loop (is_final : error -> bool)
    (again : string -> X (string * option nat * option error))
    (n : nat) (ctx : Ctx) (k : string) (client : option nat) (r : Message) (err e : option error) :
    X raw_result :=
  match n with
  | O => mret (None, [], match err with None => e | _ => err end)
  | S n =>
      res ←
        match client with
        | Some _ =>
            '(m, payload, err1) ← wrapSendRaw ctx client r;
            mret match err1 with
                 | None => Some (m, payload, None)
                 | Some er => if contextCanceled er || is_final er then Some (None, [], Some er) else None
                 end
        | None => mret None
        end;
      match res with
      | Some res => mret res
      | None =>
          _ ← remove_uncovered k (ServicePath r) (ServiceMethod r) client err;
          '(k, client, e) ← again k;
          raw_loop is_final again n ctx k client r err e
      end
  end.

Definition SendRaw (ctx : Ctx) (r : Message) : X raw_result :=
  x ← get;
  if isShutdown x then mret (None, [], Some ErrXClientShutdown)
  else
    ctx ← prepare ctx;
    let sp := ServicePath r in
    let sm := ServiceMethod r in
    let args := raw_args (Payload r) in
    '(k, client, err) ← selectClient sp sm args;
    if match err with
       | Some er => bool_decide (failMode x = Failfast) || contextCanceled er || isServiceError er
       | None => false
       end
    then mret (None, [], err)
    else
      match failMode x with
      | Failtry =>
          raw_loop isServiceErr
            (fun k => '(client, e) ← getCachedClient k sp sm; mret (k, client, e))
            rounds ctx k client r err None
      | Failover => raw_loop isServiceError (fun _ => selectClient sp sm args) rounds ctx k client r err None
      | Failfast | Failbackup =>
          '(m, payload, err) ← wrapSendRaw ctx client r;
          _ ← (match err with Some _ => remove_uncovered k sp sm client err | None => mret tt end);
          mret (m, payload, None)
      end.

(** ** Close *)

(** [Close] closes the cached clients in the order of the map's iteration; the watcher is
    removed by a goroutine that touches none of this. *)
Fixpoint close_all (l : list (string * nat)) : X (list error) :=
  match l with
  | [] => mret []
  | (k, c) :: r =>
      e ← on_world (rpc_Close c);
      _ ← modify (fun x => with_cached (delete k (cachedClient x)) x);
      es ← close_all r;
      mret (match e with Some err => err :: es | None => es end)
  end.

Definition Close : X (option error) :=
  _ ← modify with_shutdown;
  x ← get;
  es ← close_all (map_to_list (cachedClient x));
  mret (match es with [] => None | _ => Some (MultiError (NewMultiError es)) end).
End XClient.
