(* ===== verification/XClientProofs.v ===== *)
(** Correctness of the xClient: fail modes, cached clients, selection. *)

From S2P Require Import Prelude GoStd Share Breaker Message Hooks ClientPlugins Selector XClient.

(** ** Steps that make no call *)

Section Attempts.
Context {W A R B : Type} `{BreakerOps B} `{RPCClients W A R} `{SelectorObj W A}.
Context (option_ : xOption (B := B)) (servicePath : string).
Context (Plugins : pluginContainer W nat A R).
Context (builders : gmap string (CacheClientBuilder W)).
Local Abbreviation xc := (xClient (W := W) (B := B)).

(** The step makes no call and does not change the fail mode. *)
Class Quiet {T} (m : Go xc T) : Prop :=
  quiet x : attempts (fst (m x)) = attempts x /\ failMode (fst (m x)) = failMode x.

Global Instance quiet_ret {T} (a : T) : Quiet (mret a).
Proof using Type. done. Qed.
Global Instance quiet_get : Quiet get.
Proof using Type. done. Qed.
Global Instance quiet_panic {T} why : Quiet (panic (A := T) why).
Proof using Type. done. Qed.
Global Instance quiet_lift {T} (r : res T) : Quiet (lift r).
Proof using Type. done. Qed.
Global Instance quiet_on_world {T} (f : W -> W * T) : Quiet (on_world f).
Proof using Type. intros x. unfold on_world. by destruct (f (xworld x)). Qed.
Global Instance quiet_upd_world (f : W -> W) : Quiet (upd_world f).
Proof using Type. done. Qed.
Global Instance quiet_cached f : Quiet (modify (fun x : xc => with_cached (f x) x)).
Proof using Type. done. Qed.
Global Instance quiet_breakers f : Quiet (modify (fun x : xc => with_breakers (f x) x)).
Proof using Type. done. Qed.
Global Instance quiet_sticky k c : Quiet (modify (with_sticky k c)).
Proof using Type. done. Qed.
Global Instance quiet_find k sp sm : Quiet (findCachedClient builders k sp sm).
Proof using Type. done. Qed.
Global Instance quiet_bind {T U} (m : Go xc T) (k : T -> Go xc U) :
  Quiet m -> (forall a, Quiet (k a)) -> Quiet (m ≫= k).
Proof using Type.
  intros Hm Hk x. unfold mbind, go_bind. specialize (Hm x).
  destruct (m x) as [x' [a|e|w]]; cbn in *; [|done|done].
  destruct (Hk a x') as [H1' H2']. destruct Hm as [H3' H4']. split; congruence.
Qed.

Ltac quiet_solve :=
  repeat first
    [ apply quiet_bind; [|intros ?]
    | match goal with |- Quiet (match ?b with _ => _ end) => destruct b end
    | solve [eauto with typeclass_instances] ].

Global Instance quiet_close_client c : Quiet (close_client c).
Proof using Type. unfold close_client. quiet_solve. Qed.
Global Instance quiet_deleteCachedClient c k sp sm : Quiet (deleteCachedClient builders c k sp sm).
Proof using Type. unfold deleteCachedClient. quiet_solve. Qed.
Global Instance quiet_removeClient k sp sm c : Quiet (removeClient option_ builders k sp sm c).
Proof using Type. unfold removeClient. quiet_solve. Qed.
Global Instance quiet_generateClient k sp sm : Quiet (generateClient option_ builders k sp sm).
Proof using Type. unfold generateClient. quiet_solve. Qed.
Global Instance quiet_setCachedClient c k sp sm : Quiet (setCachedClient builders c k sp sm).
Proof using Type. unfold setCachedClient. quiet_solve. Qed.
Global Instance quiet_usable k sp sm : Quiet (usable_or_evict builders k sp sm).
Proof using Type. unfold usable_or_evict. quiet_solve. Qed.
Global Instance quiet_make k sp sm : Quiet (make_client option_ builders k sp sm).
Proof using Type. unfold make_client. quiet_solve. Qed.
Global Instance quiet_breakerReady k : Quiet (breakerReady k).
Proof using Type. unfold breakerReady. quiet_solve. Qed.
Global Instance quiet_getCachedClient k sp sm : Quiet (getCachedClient option_ Plugins builders k sp sm).
Proof using Type. unfold getCachedClient, clientConnected. quiet_solve. Qed.
Global Instance quiet_selectClient sp sm args : Quiet (selectClient option_ Plugins builders sp sm args).
Proof using Type. unfold selectClient, selectServer, safeCloseClient. quiet_solve. Qed.
Global Instance quiet_prepare ctx : Quiet (prepare ctx).
Proof using Type. unfold prepare, setServerTimeout. quiet_solve. Qed.
Global Instance quiet_remove_uncovered k sp sm c e : Quiet (remove_uncovered option_ builders k sp sm c e).
Proof using Type. unfold remove_uncovered. quiet_solve. Qed.

Global Instance quiet_again k sp sm :
  Quiet ('(client, e) ← getCachedClient option_ Plugins builders k sp sm; mret (k, client, e)).
Proof using Type. quiet_solve. Qed.

(** A client comes with no error, and no client with one. *)
Definition paired {T} (a : T * option nat * option error) : Prop :=
  match a with (_, Some _, None) | (_, None, Some _) => True | _ => False end.

Lemma make_client_paired k sp sm x x' c e :
  make_client option_ builders k sp sm x = (x', Ok (c, e)) -> paired (tt, c, e).
Proof using Type.
  unfold make_client. intros (x1 & [c1|e1|w1] & _ & Hr)%go_bind_inv_Ok; [|by injection Hr as _ <- <-|done].
  apply go_bind_inv_Ok in Hr as (x2 & [] & _ & (x3 & [] & _ & Hr)%go_bind_inv_Ok).
  by injection Hr as _ <- <-.
Qed.

Lemma getCachedClient_paired k sp sm x x' c e :
  getCachedClient option_ Plugins builders k sp sm x = (x', Ok (c, e)) -> paired (tt, c, e).
Proof using Type.
  unfold getCachedClient. intros (x1 & x1' & _ & Hr)%go_bind_inv_Ok.
  destruct (isShutdown x1'); [by injection Hr as _ <- <-|].
  apply go_bind_inv_Ok in Hr as (x2 & ok & _ & Hr). destruct ok; cbn [negb] in Hr; [|by injection Hr as _ <- <-].
  apply go_bind_inv_Ok in Hr as (x3 & [client usable] & Hu & Hr).
  apply go_bind_inv_Ok in Hr as (x4 & x4' & Hg & Hr). injection Hg as <- <-.
  destruct usable.
  - injection Hr as _ <- <-. revert Hu. unfold usable_or_evict.
    intros (x5 & cl & _ & (x6 & x6' & _ & Hr)%go_bind_inv_Ok)%go_bind_inv_Ok.
    destruct cl as [c'|]; [|done]. destruct (live c' _); [by injection Hr as _ <-|].
    by apply go_bind_inv_Ok in Hr as (x7 & [] & _ & (x8 & cl' & _ & [=])%go_bind_inv_Ok).
  - destruct (needs_new client (xworld x3)) eqn:En.
    + apply go_bind_inv_Ok in Hr as (x5 & [c5 e5] & Hm & (x6 & [] & _ & Hr)%go_bind_inv_Ok).
      injection Hr as _ <- <-. by eapply make_client_paired.
    + injection Hr as _ <- <-. by destruct client.
Qed.

Lemma selectClient_paired sp sm args x x' k c e :
  selectClient option_ Plugins builders sp sm args x = (x', Ok (k, c, e)) -> paired (k, c, e).
Proof using Type.
  unfold selectClient. intros (x1 & x1' & _ & (x2 & [] & _ & Hr)%go_bind_inv_Ok)%go_bind_inv_Ok.
  destruct (if Sticky option_ then _ else None) as [c0|]; [by injection Hr as _ <- <- <-|].
  apply go_bind_inv_Ok in Hr as (x3 & k3 & _ & Hr). case_bool_decide; [by injection Hr as _ <- <- <-|].
  apply go_bind_inv_Ok in Hr as (x4 & [c4 e4] & Hc & Hr). apply getCachedClient_paired in Hc.
  apply go_bind_inv_Ok in Hr as (x5 & x5' & _ & (x6 & [] & _ & Hr)%go_bind_inv_Ok).
  by injection Hr as _ <- <- <-.
Qed.

Lemma wrapCall_attempt ctx c sm args reply (x x' : xc) r e :
  wrapCall servicePath Plugins ctx (Some c) sm args reply x = (x', Ok (r, e)) ->
  attempts x' = attempts x ++ [(c, e)] /\ failMode x' = failMode x.
Proof using Type.
  unfold wrapCall. intros (x1 & e1 & H1' & (x2 & [r2 e2] & H2' & (x3 & e3 & H3' & Hr)%go_bind_inv_Ok)%go_bind_inv_Ok)%go_bind_inv_Ok.
  apply go_bind_inv_Ok in Hr as (x4 & [] & Hx & Hr). injection Hr as <- <- <-. injection Hx as <-.
  cbn. destruct (quiet (m := on_world (DoPreCall Plugins servicePath sm args)) x) as [Ha Hf].
  destruct (quiet (m := on_world (rpc_Call c ctx servicePath sm args reply)) x1) as [Hb Hg].
  destruct (quiet (m := on_world (DoPostCall Plugins servicePath sm args r2 e2)) x2) as [Hc Hh].
  rewrite H1' in Ha, Hf. rewrite H2' in Hb, Hg. rewrite H3' in Hc, Hh. cbn in *. split; congruence.
Qed.

(** A call that is worth another round: it failed, and not for good. *)
Definition retryable (a : nat * option error) : Prop := exists e, snd a = Some e /\ final e = false.

(** What the caller is told, given the calls that were made: what the last of them returned,
    or the error [err0] from before when none was made. *)
Definition tells (err0 : option error) (new : list (nat * option error)) (err : option error) : Prop :=
  match last new with Some (_, e) => err = e | None => err = err0 /\ err0 <> None end.

Definition well_retried (bound : nat) (x x' : xc) (err0 err : option error) : Prop :=
  exists new, attempts x' = attempts x ++ new /\ (length new <= bound)%nat /\
    Forall retryable (removelast new) /\ tells err0 new err.

Lemma quiet_run {T} (m : Go xc T) `{!Quiet m} x x' a :
  m x = (x', a) -> attempts x' = attempts x /\ failMode x' = failMode x.
Proof using Type. intros Hm. pose proof (quiet x) as Hq. by rewrite Hm in Hq. Qed.

Lemma retry_loop_spec again n ctx k client sm args reply err e (x x' : xc) r er :
  (forall k, Quiet (again k)) ->
  (err <> None \/ (client <> None /\ n <> 0%nat)) ->
  retry_loop option_ servicePath Plugins builders again n ctx k client sm args reply err e x = (x', Ok (r, er)) ->
  well_retried n x x' err er.
Proof using Type.
  intros Hq. revert k client reply err e x.
  induction n as [|n IH]; intros k client reply err e x Hpre Hrun.
  { injection Hrun as <- _ <-. exists []. rewrite app_nil_r. split_and!; [done|cbn; lia|by constructor|].
    destruct Hpre as [Hpre|[_ ?]]; [|done]. by destruct err. }
  cbn [retry_loop] in Hrun. apply go_bind_inv_Ok in Hrun as (x1 & [[reply1 err1] stop] & Hcall & Hrun).
  assert (exists new1, attempts x1 = attempts x ++ new1 /\ (length new1 <= 1)%nat /\
    (new1 = [] \/ exists c, new1 = [(c, err1)]) /\
    (stop = true -> new1 <> []) /\
    (stop = false -> err1 <> None /\ Forall retryable new1 /\ (new1 = [] -> err1 = err))) as (new1 & Hx1 & Hlen1 & Hnew1 & Hstop1 & Hretry).
  { destruct client as [c|].
    - apply go_bind_inv_Ok in Hcall as (x2 & [r2 e2] & Hw & Hret).
      destruct (wrapCall_attempt _ _ _ _ _ _ _ _ _ Hw) as [Ha Hf]. injection Hret as <- <- <- <-.
      exists [(c, e2)]. split_and!; [done|cbn; lia|by right; exists c|done|].
      intros Hs. destruct e2 as [er2|]; [|done]. split_and!; [done| |done].
      constructor; [by exists er2|constructor].
    - injection Hcall as <- <- <- <-. exists []. rewrite app_nil_r.
      split_and!; [done|cbn; lia|by left|done|]. intros _. split_and!; [|constructor|done].
      by destruct Hpre as [?|[? _]]. }
  destruct stop.
  { injection Hrun as <- _ <-. exists new1. specialize (Hstop1 eq_refl).
    destruct Hnew1 as [->|[c ->]]; [done|]. split_and!; [done|cbn; lia|by constructor|done]. }
  destruct (Hretry eq_refl) as (Herr1 & Hall & Hsame).
  apply go_bind_inv_Ok in Hrun as (x2 & [] & H2 & Hrun). apply quiet_run in H2 as [Ha2 Hf2]; [|apply _].
  apply go_bind_inv_Ok in Hrun as (x3 & [[k3 c3] e3] & H3 & Hrun). apply quiet_run in H3 as [Ha3 Hf3]; [|apply _].
  destruct (IH k3 c3 reply1 err1 e3 x3 (or_introl Herr1) Hrun) as (new & Hx' & Hlen & Hfa & Htells).
  exists (new1 ++ new). rewrite app_assoc, <- Hx1, <- Ha2, <- Ha3. split_and!; [done|rewrite length_app; lia| |].
  - destruct new as [|a new]; [|rewrite removelast_app by done; by apply Forall_app].
    rewrite app_nil_r. destruct Hnew1 as [->|[c ->]]; by constructor.
  - unfold tells in *. rewrite last_app. destruct (last new) as [[c' e']|]; [done|].
    destruct Htells as [-> _]. destruct Hnew1 as [->|[c ->]]; [|done].
    rewrite <- (Hsame eq_refl). done.
Qed.

(** How many calls a fail mode may make. *)
Definition max_calls (fm : FailMode) : nat :=
  match fm with Failfast => 1 | _ => rounds option_ end.

Lemma no_call_told (x : xc) bound e : well_retried bound x x (Some e) (Some e).
Proof using Type.
  exists []. rewrite app_nil_r. split_and!; [done|cbn; lia|by constructor|done].
Qed.

Lemma well_retried_quiet bound (x x1 x2 x3 : xc) e0 e :
  attempts x1 = attempts x -> attempts x3 = attempts x2 ->
  well_retried bound x1 x2 e0 e -> well_retried bound x x3 e0 e.
Proof using Type. intros Ha Hb (new & Hx & Hrest). exists new. by rewrite Hb, Hx, Ha. Qed.

Lemma failfast_spec ctx k c sm args reply (x x' : xc) r er :
  (('(reply, err) ← wrapCall servicePath Plugins ctx (Some c) sm args reply;
    _ ← (match err with
         | Some _ => remove_uncovered option_ builders k servicePath sm (Some c) err
         | None => mret tt end);
    mret (reply, err)) : Go xc _) x = (x', Ok (r, er)) ->
  well_retried 1 x x' None er.
Proof using Type.
  intros (x4 & [r4 e4] & Hw & (x5 & [] & H5 & Hr)%go_bind_inv_Ok)%go_bind_inv_Ok.
  injection Hr as <- <- <-. apply quiet_run in H5 as [Ha5 _]; [|destruct e4; apply _].
  destruct (wrapCall_attempt _ _ _ _ _ _ _ _ _ Hw) as [Ha _].
  exists [(c, e4)]. split_and!; [by rewrite Ha5|cbn; lia|by constructor|done].
Qed.

(** C7. The fail modes retry as they promise. Outside of [Failbackup], and with a number of
    retries that is not negative, a call makes at most one attempt in [Failfast] and
    [Retries + 1] in the other modes; it goes on only after an attempt that failed with an error
    that is neither the service's own nor a cancelled or expired context; and what it returns is
    what the last attempt returned. So no error means that a server really answered, and when
    no attempt could be made there is an error. *)
Theorem Call_retries ev1 ev2 ctx sm args reply (x x' : xc) r err :
  failMode x <> Failbackup -> 0 <= Retries option_ ->
  Call option_ servicePath Plugins builders ev1 ev2 ctx sm args reply x = (x', Ok (r, err)) ->
  exists new, attempts x' = attempts x ++ new /\ (length new <= max_calls (failMode x))%nat /\
    Forall retryable (removelast new) /\
    match last new with Some (_, e) => err = e | None => err <> None end.
Proof using Type.
  intros Hfm Hret Hcall.
  enough (exists e0, well_retried (max_calls (failMode x)) x x' e0 err) as (e0 & new & H1' & H2' & H3' & H4').
  { exists new. split_and!; try done. unfold tells in H4'. destruct (last new) as [[]|]; [done|]. by destruct H4' as [-> ?]. }
  revert Hcall. unfold Call. intros (x0 & x0' & Hg & Hcall)%go_bind_inv_Ok. injection Hg as <- <-.
  destruct (isShutdown x). { injection Hcall as <- _ <-. eexists. apply no_call_told. }
  apply go_bind_inv_Ok in Hcall as (x1 & ctx' & H1' & Hcall). apply quiet_run in H1' as [Ha1 _]; [|apply _].
  apply go_bind_inv_Ok in Hcall as (x2 & [[k c] e] & H2' & Hcall).
  pose proof (selectClient_paired _ _ _ _ _ _ _ _ H2') as Hp. apply quiet_run in H2' as [Ha2 _]; [|apply _].
  assert (rounds option_ <> 0%nat) as Hn by (unfold rounds; lia).
  assert (forall b e0, well_retried b x2 x' e0 err -> well_retried b x x' e0 err) as Hlift.
  { intros b e0 Hw. by eapply well_retried_quiet; [|done|exact Hw]; congruence. }
  assert (e <> None \/ (c <> None /\ rounds option_ <> 0%nat)) as Hpre by (destruct c, e; auto).
  destruct e as [er|], (failMode x) eqn:Ef; try done.
  all: try (destruct (contextCanceled er); [injection Hcall as <- _ <-; eexists; apply Hlift, no_call_told|]).
  all: try (eexists; apply Hlift; eapply retry_loop_spec; [|exact Hpre|exact Hcall]; intros ?; apply _).
  - injection Hcall as <- _ <-. eexists. apply Hlift, no_call_told.
  - destruct c as [c|]; [|done]. eexists. apply Hlift. by eapply failfast_spec.
Qed.

(** ** Where the error is lost *)

(** A step that always returns. *)
Class Total {T} (m : Go xc T) : Prop := total x : exists x' a, m x = (x', Ok a).

Global Instance total_ret {T} (a : T) : Total (mret a).
Proof using Type. intros x. by eexists _, _. Qed.
Global Instance total_modify f : Total (modify f).
Proof using Type. intros x. by eexists _, _. Qed.
Global Instance total_upd_world (f : W -> W) : Total (upd_world f).
Proof using Type. intros x. by eexists _, _. Qed.
Global Instance total_on_world {T} (f : W -> W * T) : Total (on_world f).
Proof using Type. intros x. unfold on_world. destruct (f (xworld x)). by eexists _, _. Qed.
Global Instance total_find k sp sm : Total (findCachedClient builders k sp sm).
Proof using Type. intros x. by eexists _, _. Qed.
Global Instance total_bind {T U} (m : Go xc T) (k : T -> Go xc U) :
  Total m -> (forall a, Total (k a)) -> Total (m ≫= k).
Proof using Type.
  intros Hm Hk x. destruct (Hm x) as (x1 & a & Hx1). rewrite (go_bind_Ok _ _ _ _ _ Hx1). apply Hk.
Qed.

Global Instance total_remove_uncovered k sp sm c e :
  Total (remove_uncovered option_ builders k sp sm c e).
Proof using Type.
  unfold remove_uncovered, removeClient, deleteCachedClient, close_client.
  repeat first
    [ apply total_bind; [|intros ?]
    | match goal with |- Total (match ?b with _ => _ end) => destruct b end
    | solve [eauto with typeclass_instances] ].
Qed.

(** In [Failbackup] mode a call can report success that no server answered: when the first
    request was sent but is not answered within the latency, and the second one cannot be
    sent, the error that is returned is the nil of the first [Go], and the reply is what it was
    before the call. *)
Theorem failbackup_false_success ev2 ctx k client sm args reply (x x1 x2 : xc) e :
  Go_ option_ servicePath Plugins builders ctx sm args x = (x1, Ok None) ->
  Go_ option_ servicePath Plugins builders ctx sm args x1 = (x2, Ok (Some e)) ->
  exists x3, failbackup option_ servicePath Plugins builders Latency ev2 ctx k client sm args reply x =
    (x3, Ok (reply, None)).
Proof using Type.
  intros H1' H2'. unfold failbackup. rewrite (go_bind_Ok _ _ _ _ _ H1'), (go_bind_Ok _ _ _ _ _ H2').
  destruct (total (m := remove_uncovered option_ builders k servicePath sm client (Some e)) x2)
    as (x3 & [] & H3'). rewrite (go_bind_Ok _ _ _ _ _ H3'). by eexists.
Qed.

Context (raw_args : bytes -> A) (nil_reply : R).

(** [SendRaw] in [Failfast] and [Failbackup] mode reports no error of the call it made: once
    a connection was used, the error is nil whatever the server or the connection returned. *)
Theorem SendRaw_swallows ctx r (x x' : xc) m payload err :
  failMode x = Failfast \/ failMode x = Failbackup ->
  SendRaw option_ servicePath Plugins builders raw_args nil_reply ctx r x = (x', Ok (m, payload, err)) ->
  attempts x' <> attempts x -> err = None.
Proof using Type.
  intros Hfm. unfold SendRaw. intros (x0 & x0' & Hg & Hrun)%go_bind_inv_Ok. injection Hg as <- <-.
  destruct (isShutdown x). { injection Hrun as <- _ _ _. done. }
  apply go_bind_inv_Ok in Hrun as (x1 & ctx' & H1' & Hrun). apply quiet_run in H1' as [Ha1 _]; [|apply _].
  apply go_bind_inv_Ok in Hrun as (x2 & [[k c] e] & H2' & Hrun). apply quiet_run in H2' as [Ha2 _]; [|apply _].
  match type of Hrun with (if ?b then _ else _) _ = _ => destruct b end.
  { injection Hrun as <- _ _ _. congruence. }
  destruct Hfm as [Ef|Ef]; rewrite Ef in Hrun;
    apply go_bind_inv_Ok in Hrun as (x4 & [[m4 p4] e4] & Hw & (x5 & [] & _ & Hr)%go_bind_inv_Ok);
    by injection Hr as _ _ _ <-.
Qed.
End Attempts.
