(* ===== verification/XClientInv.v ===== *)
(** The invariant of the xClient: cached and sticky clients are connected to the servers they
    are filed under, and the selector offers the servers of the last discovery.

    The proofs use the connections and the selector through their laws only. *)

From S2P Require Import Prelude GoStd Share Breaker Message Hooks ClientPlugins Selector XClient XClientProofs.

(** ** What the xClient relies on *)

(** [addr_of w c] is the network and address connection [c] was made to, [offers w X] says that
    the selector selects among [X]. An operation may make connections and close them, but not
    change where one leads, nor the selector. *)
Definition grows {W} (addr_of : W -> nat -> option (string * string)) (offers : W -> gset string -> Prop)
    (w w' : W) : Prop :=
  (forall c a, addr_of w c = Some a -> addr_of w' c = Some a) /\
  (forall X, offers w X -> offers w' X).

Class XLaws (W A R : Type) `{RPCClients W A R} `{SelectorObj W A}
    (addr_of : W -> nat -> option (string * string)) (offers : W -> gset string -> Prop) : Prop := {
  xl_connect n a w :
    match rpc_Connect n a w with
    | (w', Ok c) => grows addr_of offers w w' /\ addr_of w' c = Some (n, a) /\ live c w' = true
    | (w', Er _) => grows addr_of offers w w'
    | (_, Panic _) => False
    end;
  xl_call c ctx sp sm (a : A) (r : R) w : grows addr_of offers w (fst (rpc_Call c ctx sp sm a r w));
  xl_go c ctx sp sm (a : A) w : grows addr_of offers w (rpc_Go c ctx sp sm a w);
  xl_raw c ctx m w : grows addr_of offers w (fst (rpc_SendRaw c ctx m w));
  xl_close c w : grows addr_of offers w (fst (rpc_Close c w));
  xl_register c w : grows addr_of offers w (rpc_RegisterServerMessageChan c w) /\
    live c (rpc_RegisterServerMessageChan c w) = live c w;
  xl_unregister c w : grows addr_of offers w (rpc_UnregisterServerMessageChan c w);
  xl_now w : grows addr_of offers w (fst (rpc_now w));
  xl_select sp sm (a : A) w X :
    offers w X -> exists w' k, sel_Select sp sm a w = (w', Ok k) /\ grows addr_of offers w w' /\
      (X = ∅ -> k = ""%string) /\ (X <> ∅ -> k ∈ X);
  xl_update kvs (m : gmap string string) w X :
    offers w X -> kvs ≡ₚ map_to_list m -> zlen kvs < 2 ^ 31 ->
    offers (sel_UpdateServer kvs w) (dom m) /\
    forall c a, addr_of w c = Some a -> addr_of (sel_UpdateServer kvs w) c = Some a;
}.

Create HintDb keepsdb.

Section Invariant.
Context {W A R B : Type} `{BreakerOps B} `{RPCClients W A R} `{SelectorObj W A}.
Context (addr_of : W -> nat -> option (string * string)) (offers : W -> gset string -> Prop).
Context {laws : XLaws W A R addr_of offers}.
Context (option_ : xOption (B := B)) (servicePath : string).
Local Abbreviation xc := (xClient (W := W) (B := B)).
Local Abbreviation no_builders := (∅ : gmap string (CacheClientBuilder W)).

Record XInv (x : xc) : Prop := {
  xi_cached k c : cachedClient x !! k = Some c -> addr_of (xworld x) c = Some (splitNetworkAndAddress k);
  xi_sticky c : stickyRPCClient x = Some c -> addr_of (xworld x) c = Some (splitNetworkAndAddress (stickyK x));
  xi_selector : selectorSet x = true -> offers (xworld x) (dom (servers x));
}.

(** The part of the state that only discovery and configuration change. *)
Definition config (x : xc) := (failMode x, selectMode x, servers x, selectorSet x, xauth x).

(** A step keeps the invariant and the configuration. *)
Class Keeps {T} (m : Go xc T) : Prop :=
  keeps_inv x : XInv x -> XInv (fst (m x)) /\ config (fst (m x)) = config x.

Lemma XInv_grows w x : XInv x -> grows addr_of offers (xworld x) w -> XInv (with_world w x).
Proof using Type.
  intros [Hc Hs Ho] [Ga Go]. split; cbn; [intros k c Hk; by apply Ga, Hc|intros c Hk; by apply Ga, Hs|].
  intros Hsel. by apply Go, Ho.
Qed.

Lemma grows_refl w : grows addr_of offers w w.
Proof using Type. by split. Qed.

Lemma keeps_ret {T} (a : T) : Keeps (mret a).
Proof using Type. by intros x Hx. Qed.
Lemma keeps_get : Keeps get.
Proof using Type. by intros x Hx. Qed.
Lemma keeps_lift {T} (r : res T) : Keeps (lift r).
Proof using Type. by intros x Hx. Qed.
Lemma keeps_panic {T} why : Keeps (panic (A := T) why).
Proof using Type. by intros x Hx. Qed.
Lemma keeps_find k sp sm : Keeps (findCachedClient no_builders k sp sm).
Proof using Type. by intros x Hx. Qed.
Lemma keeps_world {T} (f : W -> W * T) : (forall w, grows addr_of offers w (fst (f w))) -> Keeps (on_world f).
Proof using Type.
  intros Hf x Hx. unfold on_world. specialize (Hf (xworld x)). destruct (f (xworld x)) as [w t].
  split; [by apply XInv_grows|done].
Qed.
Lemma keeps_upd f : (forall w, grows addr_of offers w (f w)) -> Keeps (upd_world f).
Proof using Type. intros Hf x Hx. split; [by apply XInv_grows|done]. Qed.
Lemma keeps_bind {T U} (m : Go xc T) (k : T -> Go xc U) :
  Keeps m -> (forall a, Keeps (k a)) -> Keeps (m ≫= k).
Proof using Type.
  intros Hm Hk x Hx. unfold mbind, go_bind. specialize (Hm x Hx).
  destruct (m x) as [x' [a|e|w]]; cbn in *; [|done|done].
  destruct Hm as [Hx' Hc]. destruct (Hk a x' Hx') as [Hx'' Hc']. split; [done|congruence].
Qed.
Lemma keeps_delete k : Keeps (modify (fun x : xc => with_cached (delete k (cachedClient x)) x)).
Proof using Type.
  intros x [Hc Hs Ho]. split; [|done]. split; [|done|done]. cbn. intros k' c Hk.
  apply lookup_delete_Some in Hk as [_ Hk]. by apply Hc.
Qed.
Lemma keeps_breakers f : Keeps (modify (fun x : xc => with_breakers (f x) x)).
Proof using Type. intros x [Hc Hs Ho]. by split. Qed.
Lemma keeps_unsticky : Keeps (modify (with_sticky "" None)).
Proof using Type. intros x [Hc Hs Ho]. split; [|done]. by split. Qed.
Lemma keeps_attempt c e : Keeps (modify (with_attempt c e)).
Proof using Type. intros x [Hc Hs Ho]. by split. Qed.

Hint Resolve keeps_ret keeps_get keeps_lift keeps_panic keeps_find keeps_delete keeps_breakers
  keeps_unsticky keeps_attempt grows_refl : keepsdb.
Hint Extern 1 (grows _ _ _ _) =>
  first [apply xl_call | apply xl_go | apply xl_raw | apply xl_close | apply xl_unregister
        | apply xl_now | apply xl_register] : keepsdb.

Ltac keeps_solve :=
  repeat first
    [ solve [eauto with keepsdb]
    | apply keeps_bind; [|intros ?]
    | apply keeps_world; intros ?
    | apply keeps_upd; intros ?
    | match goal with |- Keeps (match ?b with _ => _ end) => destruct b end ].

Lemma no_builder k : builder_of no_builders k = None.
Proof using Type. unfold builder_of. apply lookup_empty. Qed.

Lemma keeps_close_client c : Keeps (close_client c).
Proof using laws. unfold close_client. keeps_solve. Qed.
Hint Resolve keeps_close_client : keepsdb.

Lemma keeps_deleteCachedClient c k sp sm : Keeps (deleteCachedClient no_builders c k sp sm).
Proof using laws. unfold deleteCachedClient. rewrite no_builder. keeps_solve. Qed.
Hint Resolve keeps_deleteCachedClient : keepsdb.

Lemma keeps_removeClient k sp sm c : Keeps (removeClient option_ no_builders k sp sm c).
Proof using laws. unfold removeClient. keeps_solve. Qed.
Hint Resolve keeps_removeClient : keepsdb.

Lemma keeps_remove_uncovered k sp sm c e : Keeps (remove_uncovered option_ no_builders k sp sm c e).
Proof using laws. unfold remove_uncovered. keeps_solve. Qed.
Hint Resolve keeps_remove_uncovered : keepsdb.

Lemma keeps_breakerReady k : Keeps (breakerReady k).
Proof using laws. unfold breakerReady. keeps_solve. Qed.
Hint Resolve keeps_breakerReady : keepsdb.

Lemma keeps_usable k sp sm : Keeps (usable_or_evict no_builders k sp sm).
Proof using laws. unfold usable_or_evict. keeps_solve. Qed.
Hint Resolve keeps_usable : keepsdb.

(** A step that always returns something with [P], from states with the invariant. *)
Definition yields {T} (m : Go xc T) (P : T -> xc -> Prop) : Prop :=
  forall x, XInv x -> exists x' a, m x = (x', Ok a) /\ XInv x' /\ config x' = config x /\ P a x'.

Lemma yields_bind {T U} (m : Go xc T) (k : T -> Go xc U) P Q :
  yields m P ->
  (forall a x, XInv x -> P a x ->
     exists x' b, k a x = (x', Ok b) /\ XInv x' /\ config x' = config x /\ Q b x') ->
  yields (m ≫= k) Q.
Proof using Type.
  intros Hm Hk x Hx. destruct (Hm x Hx) as (x1 & a & Hr & Hx1 & Hc1 & HP).
  destruct (Hk a x1 Hx1 HP) as (x2 & b & Hr2 & Hx2 & Hc2 & HQ).
  exists x2, b. rewrite (go_bind_Ok _ _ _ _ _ Hr). split_and!; [done|done|congruence|done].
Qed.

Lemma yields_keeps {T} (m : Go xc T) `{!Total m} : Keeps m -> yields m (fun _ _ => True).
Proof using Type.
  intros Hk x Hx. destruct (total x) as (x' & a & Hr). exists x', a.
  pose proof (Hk x Hx) as Hk'. rewrite Hr in Hk'. destruct Hk'. done.
Qed.

(** [c] is usable and leads to the server [k]. *)
Definition good (k : string) (c : nat) (x : xc) : Prop :=
  live c (xworld x) = true /\ addr_of (xworld x) c = Some (splitNetworkAndAddress k).

Lemma generateClient_yields k sp sm :
  yields (generateClient option_ no_builders k sp sm)
    (fun r x => match r with Ok c => good k c x | Er _ => True | Panic _ => False end).
Proof using laws.
  unfold generateClient. rewrite no_builder. destruct (splitNetworkAndAddress k) as [n a] eqn:Ek.
  eapply yields_bind.
  { apply yields_keeps; [destruct (GenBreaker option_); apply _|keeps_solve]. }
  intros [] x Hx _. pose proof (xl_connect (XLaws := laws) n a (xworld x)) as Hc.
  destruct (rpc_Connect n a (xworld x)) as [w r] eqn:Hr.
  assert (on_world (rpc_Connect n a) x = (with_world w x, Ok r)) as Hw by (unfold on_world; by rewrite Hr).
  rewrite (go_bind_Ok _ _ _ _ _ Hw). destruct r as [c|e|why]; [| |done].
  - destruct Hc as (Hg & Ha & Hl). exists (with_world w x), (Ok c).
    split_and!; [done|by apply XInv_grows|done|]. split; [done|]. by rewrite Ek.
  - assert (XInv (with_world w x)) as Hx' by by apply XInv_grows.
    destruct (GenBreaker option_); [|by eexists _, _].
    assert (yields (on_world rpc_now) (fun _ _ => True)) as Hnow
      by (apply yields_keeps; [apply _|keeps_solve]).
    destruct (Hnow _ Hx') as (x1 & t & H1' & Hx1 & Hc1 & _).
    rewrite (go_bind_Ok _ _ _ _ _ H1'). eexists _, _. split; [reflexivity|].
    destruct (keeps_breakers (fun x => alter (b_fail t) k (breakers x)) x1 Hx1) as [Hx2 Hc2].
    split_and!; [done|exact (eq_trans Hc2 Hc1)|done].
Qed.

Lemma make_client_yields k sp sm :
  yields (make_client option_ no_builders k sp sm)
    (fun '(c, _) x => match c with Some c => good k c x | None => True end).
Proof using laws.
  unfold make_client. eapply yields_bind; [apply generateClient_yields|].
  intros [c|e|why] x Hx Hg; [|by eexists _, _|done].
  destruct Hg as [Hl Ha]. destruct (xl_register (XLaws := laws) c (xworld x)) as [Hgr Hlive].
  set (x1 := with_world (rpc_RegisterServerMessageChan c (xworld x)) x).
  assert (XInv x1) as [Hc Hs Ho] by by apply XInv_grows.
  unfold setCachedClient. rewrite no_builder. eexists _, _. split; [reflexivity|]. split; [|split; [done|]].
  - split; [|done|done]. cbn. intros k' c' Hk. apply lookup_insert_Some in Hk as [[<- <-]|[_ Hk]]; [|by apply Hc].
    by apply Hgr.
  - split; cbn; [by rewrite Hlive|by apply Hgr].
Qed.

Lemma usable_yields k sp sm :
  yields (usable_or_evict no_builders k sp sm)
    (fun '(c, usable) x =>
       if usable then exists c', c = Some c' /\ good k c' x else c = None).
Proof using laws.
  intros x Hx. unfold usable_or_evict, findCachedClient. rewrite no_builder. gocbn.
  destruct (cachedClient x !! k) as [c|] eqn:Ec; [|by eexists _, _].
  destruct (live c (xworld x)) eqn:El.
  - eexists _, _. split; [reflexivity|]. split_and!; [done|done|]. exists c. split; [done|].
    split; [done|]. by eapply xi_cached.
  - pose proof (keeps_deleteCachedClient (Some c) k sp sm x Hx) as [Hx' Hc'].
    unfold deleteCachedClient, close_client, on_world in *. rewrite no_builder in *.
    revert Hx' Hc'. gocbn. destruct (rpc_Close c (xworld x)) as [w e]. cbn. intros Hx' Hc'.
    eexists _, _. split; [reflexivity|]. split_and!; [done|done|]. cbn. by rewrite lookup_delete_eq.
Qed.

Lemma total_breakerReady k : Total (breakerReady (W := W) (B := B) k).
Proof using Type.
  intros x. unfold breakerReady, on_world. gocbn. destruct (breakers x !! k) as [b|]; [|by eexists _, _].
  destruct (rpc_now (xworld x)) as [w1 t1]. cbn. destruct (rpc_now w1) as [w2 t2].
  destruct (b_ready t1 t2 b). by eexists _, _.
Qed.

Lemma clientConnected_nil c (x : xc) :
  clientConnected ([] : pluginContainer W nat A R) c x = (x, Ok tt).
Proof using Type. by destruct x. Qed.

Definition selected (k : string) (c : option nat) (e : option error) (x : xc) : Prop :=
  match c, e with Some c, None => good k c x | None, Some _ => True | _, _ => False end.

Lemma getCachedClient_yields k sp sm :
  yields (getCachedClient option_ [] no_builders k sp sm) (fun '(c, e) x => selected k c e x).
Proof using laws.
  intros x Hx. unfold getCachedClient. gocbn. destruct (isShutdown x); [by eexists _, _|].
  pose proof (total_breakerReady k) as Ht.
  destruct (yields_keeps (breakerReady k) (keeps_breakerReady k) x Hx) as (x1 & ok & H1' & Hx1 & Hc1 & _).
  rewrite H1'. destruct ok; cbn [negb]; [|by eexists _, _].
  destruct (usable_yields k sp sm x1 Hx1) as (x2 & [c usable] & H2' & Hx2 & Hc2 & Hu). rewrite H2'.
  destruct usable.
  - destruct Hu as (c' & -> & Hg). eexists _, _. split; [reflexivity|]. split_and!; [done|congruence|done].
  - subst c. cbn [needs_new].
    destruct (make_client_yields k sp sm x2 Hx2) as (x3 & [c e] & H3' & Hx3 & Hc3 & Hg).
    pose proof (make_client_paired _ _ _ _ _ _ _ _ _ H3') as Hp. rewrite H3'.
    destruct c as [c|].
    + rewrite clientConnected_nil. destruct e; [done|]. eexists _, _. split; [reflexivity|].
      split_and!; [done|congruence|done].
    + destruct e; [|done]. eexists _, _. split; [reflexivity|]. split_and!; [done|congruence|done].
Qed.

Lemma selectServer_yields sp sm args x :
  XInv x -> selectorSet x = true ->
  exists x' k, selectServer ([] : pluginContainer W nat A R) sp sm args x = (x', Ok k) /\ XInv x' /\
    config x' = config x /\ stickyRPCClient x' = stickyRPCClient x /\
    (dom (servers x) = ∅ -> k = ""%string) /\ (dom (servers x) <> ∅ -> k ∈ dom (servers x)).
Proof using laws.
  intros Hx Hsel. destruct (xl_select (XLaws := laws) sp sm args (xworld x) (dom (servers x)))
    as (w & k & Hr & Hg & Hk); [by apply xi_selector|].
  exists (with_world w x), k. split; [|split_and!; [by apply XInv_grows|done|done|apply Hk|apply Hk]].
  unfold selectServer, on_world. gocbn. rewrite Hsel. by rewrite Hr.
Qed.

Lemma XInv_sticky k c x :
  XInv x -> (forall c', c = Some c' -> addr_of (xworld x) c' = Some (splitNetworkAndAddress k)) ->
  XInv (with_sticky k c x).
Proof using Type. intros [Hc Hs Ho] Ha. by split. Qed.

(** Looking for a client leaves the sticky one alone. *)
Definition same_sticky {T} (m : Go xc T) : Prop := forall x, stickyRPCClient (fst (m x)) = stickyRPCClient x.

Lemma same_sticky_bind {T U} (m : Go xc T) (k : T -> Go xc U) :
  same_sticky m -> (forall a, same_sticky (k a)) -> same_sticky (m ≫= k).
Proof using Type.
  intros Hm Hk x. unfold mbind, go_bind. specialize (Hm x).
  destruct (m x) as [x' [a|e|w]]; cbn in *; [|done|done]. by rewrite Hk.
Qed.

Lemma same_sticky_on_world {T} (f : W -> W * T) : same_sticky (on_world f).
Proof using Type. intros x. unfold on_world. by destruct (f (xworld x)). Qed.

Lemma getCachedClient_sticky p k sp sm : same_sticky (getCachedClient (R := R) option_ p no_builders k sp sm).
Proof using Type.
  unfold getCachedClient, make_client, generateClient, usable_or_evict, deleteCachedClient, setCachedClient,
    breakerReady, clientConnected, close_client.
  repeat first
    [ apply same_sticky_bind; [|intros ?]
    | apply same_sticky_on_world
    | match goal with |- same_sticky (match ?b with _ => _ end) => destruct b end
    | solve [intros ?; reflexivity] ].
Qed.

Lemma selectClient_aux sp sm args x :
  XInv x -> selectorSet x = true ->
  exists x' k c e,
    selectClient option_ ([] : pluginContainer W nat A R) no_builders sp sm args x = (x', Ok (k, c, e)) /\
    XInv x' /\ config x' = config x /\
    match c, e with
    | Some c, None =>
        live c (xworld x') = true /\ addr_of (xworld x') c = Some (splitNetworkAndAddress k) /\
        (k ∈ dom (servers x) \/ Sticky option_ = true /\ stickyRPCClient x = Some c /\ stickyK x = k)
    | None, Some _ => True
    | _, _ => False
    end.
Proof using laws.
  intros Hx Hsel. unfold selectClient. gocbn.
  set (st := if Sticky option_ then _ else None).
  assert (forall c, st = Some c -> Sticky option_ = true /\ stickyRPCClient x = Some c /\ live c (xworld x) = true) as Hst.
  { intros c. unfold st. destruct (Sticky option_); [|done]. destruct (stickyRPCClient x) as [c'|]; [|done].
    destruct (live c' (xworld x)) eqn:El; [|done]. by intros [= ->]. }
  set (x1 := if Sticky option_ then with_sticky (stickyK x) st x else x).
  assert (XInv x1 /\ config x1 = config x /\ xworld x1 = xworld x) as (Hx1 & Hc1 & Hw1).
  { unfold x1. destruct (Sticky option_); [|done]. split_and!; [|done|done]. apply XInv_sticky; [done|].
    intros c' Hc'. by apply xi_sticky, Hst. }
  assert ((if Sticky option_ then modify (with_sticky (stickyK x) st) else mret tt) x = (x1, Ok tt)) as Hm.
  { unfold x1. by destruct (Sticky option_). }
  unfold modify, mret, go_ret in Hm. rewrite Hm. destruct st as [c|] eqn:Est.
  { destruct (Hst c eq_refl) as (Hs & Hc & Hl). eexists _, _, _, _. split; [reflexivity|].
    split_and!; [done|done|by rewrite Hw1|rewrite Hw1; by apply xi_sticky|by right]. }
  destruct (selectServer_yields sp sm args x1 Hx1) as (x2 & k & H2' & Hx2 & Hc2 & Hst2 & Hk0 & Hk1);
    [unfold config in Hc1; congruence|].
  rewrite H2'. assert (servers x1 = servers x) as Hsv by (unfold config in Hc1; congruence). rewrite Hsv in *.
  case_bool_decide as Ek; [eexists _, _, _, _; split; [reflexivity|]; split_and!; [done|congruence|done]|].
  destruct (getCachedClient_yields k sp sm x2 Hx2) as (x3 & [c e] & H3' & Hx3 & Hc3 & Hsl).
  pose proof (getCachedClient_sticky [] k sp sm x2) as Hst3. rewrite H3' in Hst3 |- *. cbn [fst] in Hst3.
  assert (k ∈ dom (servers x)) as Hin by (apply Hk1; intros He; by apply Ek, Hk0).
  destruct c as [c|]; cbn.
  - destruct e as [e|]; [done|]. destruct Hsl as [Hl Ha].
    destruct (Sticky option_) eqn:Es.
    + assert (stickyRPCClient x3 = None) as -> by (rewrite Hst3, Hst2; unfold x1; rewrite ?Es; done).
      eexists _, _, _, _. split; [reflexivity|]. split_and!; [|exact (eq_trans Hc3 (eq_trans Hc2 Hc1))|done|done|by left].
      apply XInv_sticky; [done|]. by intros c' [= <-].
    + eexists _, _, _, _. split; [reflexivity|]. split_and!; [done|congruence|done|done|by left].
  - destruct e as [e|]; [|done]. eexists _, _, _, _. split; [reflexivity|]. split_and!; [done|congruence|done].
Qed.

(** ** Every operation keeps the invariant *)

Lemma keeps_selectClient sp sm args :
  Keeps (selectClient option_ ([] : pluginContainer W nat A R) no_builders sp sm args).
Proof using laws.
  intros x Hx. destruct (selectorSet x) eqn:Hsel.
  - destruct (selectClient_aux sp sm args x Hx Hsel) as (x' & k & c & e & -> & Hx' & Hc & _). done.
  - unfold selectClient, selectServer. gocbn. destruct (Sticky option_) eqn:Es; cbn; [|by rewrite Hsel].
    destruct (stickyRPCClient x) as [c|] eqn:Ec; cbn.
    + destruct (live c (xworld x)); cbn; rewrite ?Hsel; (split; [apply XInv_sticky; [done|]|done]); [|done].
      intros c' [= <-]. by apply xi_sticky.
    + rewrite Hsel. split; [by apply XInv_sticky|done].
Qed.
Hint Resolve keeps_selectClient : keepsdb.

Lemma keeps_getCachedClient k sp sm :
  Keeps (getCachedClient option_ ([] : pluginContainer W nat A R) no_builders k sp sm).
Proof using laws.
  intros x Hx. by destruct (getCachedClient_yields k sp sm x Hx) as (x' & [c e] & -> & Hx' & Hc & _).
Qed.
Hint Resolve keeps_getCachedClient : keepsdb.

Lemma keeps_prepare ctx : Keeps (prepare ctx).
Proof using laws. unfold prepare, setServerTimeout. keeps_solve. Qed.
Hint Resolve keeps_prepare : keepsdb.

Lemma keeps_wrapCall ctx c sm args reply :
  Keeps (wrapCall servicePath ([] : pluginContainer W nat A R) ctx c sm args reply).
Proof using laws. unfold wrapCall, DoPreCall. cbn. keeps_solve. Qed.
Hint Resolve keeps_wrapCall : keepsdb.

Lemma keeps_retry_loop again n ctx k c sm args reply err e :
  (forall k, Keeps (again k)) ->
  Keeps (retry_loop option_ servicePath ([] : pluginContainer W nat A R) no_builders again n ctx k c sm args reply err e).
Proof using laws.
  intros Ha. revert k c reply err e. induction n as [|n IH]; intros k c reply err e; cbn [retry_loop]; keeps_solve.
Qed.

Lemma keeps_Go ctx sm args : Keeps (Go_ option_ servicePath ([] : pluginContainer W nat A R) no_builders ctx sm args).
Proof using laws. unfold Go_. keeps_solve. Qed.
Hint Resolve keeps_Go : keepsdb.

Lemma keeps_failbackup ev1 ev2 ctx k c sm args reply :
  Keeps (failbackup option_ servicePath ([] : pluginContainer W nat A R) no_builders ev1 ev2 ctx k c sm args reply).
Proof using laws. unfold failbackup. keeps_solve. Qed.
Hint Resolve keeps_failbackup : keepsdb.

Lemma keeps_Call ev1 ev2 ctx sm args reply :
  Keeps (Call option_ servicePath ([] : pluginContainer W nat A R) no_builders ev1 ev2 ctx sm args reply).
Proof using laws.
  unfold Call, failtry_loop, failover_loop.
  repeat first
    [ progress keeps_solve
    | apply keeps_retry_loop; intros ? ].
Qed.

Context (raw_args : bytes -> A) (nil_reply : R).

Lemma keeps_wrapSendRaw ctx c r :
  Keeps (wrapSendRaw servicePath ([] : pluginContainer W nat A R) raw_args nil_reply ctx c r).
Proof using laws. unfold wrapSendRaw, DoPreCall. cbn. keeps_solve. Qed.
Hint Resolve keeps_wrapSendRaw : keepsdb.

Lemma keeps_raw_loop is_final again n ctx k c r err e :
  (forall k, Keeps (again k)) ->
  Keeps (raw_loop option_ servicePath ([] : pluginContainer W nat A R) no_builders raw_args nil_reply
           is_final again n ctx k c r err e).
Proof using laws.
  intros Ha. revert k c err e. induction n as [|n IH]; intros k c err e; cbn [raw_loop]; keeps_solve.
Qed.

Lemma keeps_SendRaw ctx r :
  Keeps (SendRaw option_ servicePath ([] : pluginContainer W nat A R) no_builders raw_args nil_reply ctx r).
Proof using laws.
  unfold SendRaw. repeat first [ progress keeps_solve | apply keeps_raw_loop; intros ? ].
Qed.

Lemma keeps_close_all l : Keeps (close_all l).
Proof using laws. induction l as [|[k c] l IH]; cbn [close_all]; keeps_solve. Qed.

Lemma keeps_Close : Keeps Close.
Proof using laws.
  unfold Close. apply keeps_bind; [|intros []].
  - intros x [Hc Hs Ho]. by split.
  - apply keeps_bind; [apply keeps_get|intros x]. apply keeps_bind; [apply keeps_close_all|intros es]. keeps_solve.
Qed.

Lemma keeps_WithoutLock k sp sm : Keeps (getCachedClientWithoutLock option_ no_builders k sp sm).
Proof using laws.
  unfold getCachedClientWithoutLock. apply keeps_bind; [apply keeps_usable|intros [c u]].
  apply keeps_bind; [apply keeps_get|intros x]. destruct u; [keeps_solve|].
  destruct (needs_new c (xworld x)); [|keeps_solve]. apply keeps_bind; [|intros [c1 e1]; keeps_solve].
  intros x' Hx'. by destruct (make_client_yields k sp sm x' Hx') as (x1 & [c1 e1] & -> & Hx1 & Hc1 & _).
Qed.

(** The servers that the discovery's pairs leave. *)
Definition announced (pairs : list (string * string)) : gmap string string :=
  filterByStateAndGroup (Group option_) (servers_of pairs).

Definition few (pairs : list (string * string)) : Prop := zlen (map_to_list (announced pairs)) < 2 ^ 31.

Lemma watch_inv pairs x :
  few pairs -> XInv x ->
  exists x', watch (A := A) option_ pairs x = (x', Ok tt) /\ XInv x' /\ servers x' = announced pairs /\
    selectorSet x' = selectorSet x.
Proof using laws.
  intros Hf [Hc Hs Ho]. unfold watch, upd_world. gocbn. fold (announced pairs).
  destruct (selectorSet x) eqn:Es.
  - eexists. split; [reflexivity|].
    destruct (xl_update (XLaws := laws) _ (announced pairs) (xworld x) _ (Ho eq_refl) (reflexivity _) Hf) as [Hof Ha].
    split; [|by rewrite <- Es]. split; cbn; [|intros c Hk; by apply Ha, Hs|done].
    intros k c Hk. by apply Ha, Hc.
  - eexists. split; [reflexivity|]. split; [|by rewrite <- Es]. split; cbn; [done|done|]. by rewrite Es.
Qed.

(** A user's selector: installing it leaves the connections alone. *)
Definition installable (install : W -> W) : Prop :=
  forall w, (exists X, offers (install w) X) /\
    forall c a, addr_of w c = Some a -> addr_of (install w) c = Some a.

Lemma SetSelector_inv install x :
  installable install -> zlen (map_to_list (servers x)) < 2 ^ 31 -> XInv x ->
  XInv (fst (SetSelector (A := A) install x)) /\ servers (fst (SetSelector (A := A) install x)) = servers x.
Proof using laws.
  intros Hi Hf [Hc Hs Ho]. unfold SetSelector, upd_world. gocbn. destruct (Hi (xworld x)) as [[X HX] Ha].
  destruct (xl_update (XLaws := laws) _ (servers x) _ X HX (reflexivity _) Hf) as [Hof Hau].
  split; [|done]. split; cbn; [intros k c Hk; by apply Hau, Ha, Hc|intros c Hk; by apply Hau, Ha, Hs|done].
Qed.

(** ** Histories *)

(** What can happen to an xClient, with the servers it was last told of. *)
Inductive xstep : (xc * gmap string string) -> (xc * gmap string string) -> Prop :=
  | xs_call ev1 ev2 ctx sm args reply x m :
      xstep (x, m) (fst (Call option_ servicePath ([] : pluginContainer W nat A R) no_builders ev1 ev2 ctx sm args reply x), m)
  | xs_go ctx sm args x m :
      xstep (x, m) (fst (Go_ option_ servicePath ([] : pluginContainer W nat A R) no_builders ctx sm args x), m)
  | xs_raw ctx r x m :
      xstep (x, m) (fst (SendRaw option_ servicePath ([] : pluginContainer W nat A R) no_builders raw_args nil_reply ctx r x), m)
  | xs_fan k sm x m :
      xstep (x, m) (fst (getCachedClientWithoutLock option_ no_builders k servicePath sm x), m)
  | xs_watch pairs x m :
      few pairs -> xstep (x, m) (fst (watch (A := A) option_ pairs x), announced pairs)
  | xs_selector install x m :
      installable install -> zlen (map_to_list m) < 2 ^ 31 ->
      xstep (x, m) (fst (SetSelector (A := A) install x), m)
  | xs_auth a x m : xstep (x, m) (fst (Auth a x), m)
  | xs_close x m : xstep (x, m) (fst (Close x), m).

Inductive xreach : xc * gmap string string -> Prop :=
  | xr_new fm sm pairs newSel w :
      few pairs ->
      (forall kvs (m : gmap string string) w, kvs ≡ₚ map_to_list m -> zlen kvs < 2 ^ 31 -> offers (newSel kvs w) (dom m)) ->
      xreach (NewXClient option_ fm sm pairs newSel w, announced pairs)
  | xr_step x y : xreach x -> xstep x y -> xreach y.

Lemma xstep_inv x m y m' :
  xstep (x, m) (y, m') -> XInv x -> servers x = m -> XInv y /\ servers y = m'.
Proof using laws.
  intros Hs Hx Hm.
  assert (forall T (f : Go xc T), Keeps f -> XInv (fst (f x)) /\ servers (fst (f x)) = m) as Hk.
  { intros T f Hf. destruct (Hf x Hx) as [Hx' Hc]. split; [done|]. unfold config in Hc. congruence. }
  inversion Hs; subst.
  - apply Hk, keeps_Call.
  - apply Hk, keeps_Go.
  - apply Hk, keeps_SendRaw.
  - apply Hk, keeps_WithoutLock.
  - destruct (watch_inv pairs x) as (x' & -> & Hx' & Hsv & _); done.
  - by apply SetSelector_inv.
  - split; [|done]. destruct Hx. by split.
  - apply Hk, keeps_Close.
Qed.

(** In every history the invariant holds, and the servers are those of the last update. *)
Lemma xreach_inv x m :
  xreach (x, m) -> XInv x /\ servers x = m.
Proof using laws.
  intros Hr. remember (x, m) as y eqn:E. revert x m E.
  induction Hr as [fm sm pairs newSel w Hf Hn|[x0 m0] [x1 m1] _ IH Hs]; intros x m [= <- <-].
  - split; [|done]. split; [done|done|]. cbn. intros Hset. rewrite Hset.
    by apply Hn.
  - destruct (IH x0 m0 eq_refl) as [Hx Hm]. by eapply xstep_inv.
Qed.
End Invariant.
