(* ===== verification/XClientDemo.v ===== *)
(** A network for the xClient: the laws of XClientInv.v discharged for any selector of
    Selector.v, and the theorems about the xClient applied to it. *)

From S2P Require Import Prelude GoStd Share Breaker Header Message Hooks ClientPlugins Selector XClient XClientProofs XClientInv.

Section Net.
Context {S : Type} `{HL : SelectorLaws S serves}.

(** The connections made so far, which of them are closed, and the selector. Connections to
    "down" cannot be made, and calls on connections to "flaky" end them. *)
Record net := MkNet { n_conns : list (string * string); n_closed : gset nat; n_sel : S }.

Definition n_addr (w : net) (c : nat) : option (string * string) := n_conns w !! c.
Definition n_close (c : nat) (w : net) : net := MkNet (n_conns w) ({[c]} ∪ n_closed w) (n_sel w).
Definition n_offers (w : net) (X : gset string) : Prop := serves (n_sel w) X.

(** What a call on a connection returns. *)
Definition n_call (c : nat) (w : net) : net * option error :=
  if decide (c ∈ n_closed w) then (w, Some ErrShutdown)
  else match n_conns w !! c with
       | Some (_, a) => if decide (a = "flaky"%string) then (n_close c w, Some ErrUnexpectedEOF) else (w, None)
       | None => (w, Some ErrShutdown)
       end.

#[export] Instance net_rpc : RPCClients net string string := {|
  rpc_Connect n a w :=
    if decide (a = "down"%string) then (w, Er (errorString "connection refused"))
    else (MkNet (n_conns w ++ [(n, a)]) (n_closed w ∖ {[length (n_conns w)]}) (n_sel w),
          Ok (length (n_conns w)));
  rpc_Call c _ _ _ a r w :=
    let '(w, e) := n_call c w in (w, (match e with None => a | Some _ => r end, e));
  rpc_Go _ _ _ _ _ w := w;
  rpc_SendRaw c _ m w := let '(w, e) := n_call c w in (w, (None, Payload m, e));
  rpc_IsClosing c w := bool_decide (c ∈ n_closed w);
  rpc_IsShutdown c w := bool_decide (c ∈ n_closed w);
  rpc_Close c w := (n_close c w, None);
  rpc_RegisterServerMessageChan _ w := w;
  rpc_UnregisterServerMessageChan _ w := w;
  rpc_now w := (w, 0);
|}.

#[export] Instance net_sel : SelectorObj net string := {|
  sel_Select sp sm a w :=
    let '(s, r) := Select sp sm a (fun _ => 0) (n_sel w) in (MkNet (n_conns w) (n_closed w) s, r);
  sel_UpdateServer kvs w := MkNet (n_conns w) (n_closed w) (UpdateServer kvs (n_sel w));
|}.

Lemma net_call_grows c w : grows n_addr n_offers w (fst (n_call c w)).
Proof using Type. unfold n_call. repeat split_match; by split. Qed.

Lemma select_keeps sp sm a s X :
  serves s X -> serves (fst (Select sp sm a (fun _ => 0) s)) X.
Proof using HL.
  intros HX. destruct (decide (X = ∅)) as [->|Hne].
  - by destruct (select_none (serves := serves) sp sm a (fun _ => 0) s HX) as (s' & -> & ?).
  - by destruct (select_member (serves := serves) sp sm a (fun _ => 0) s X rnd_zero_ok HX Hne)
      as (s' & k & -> & _ & ?).
Qed.

#[export] Instance net_laws : XLaws net string string n_addr n_offers.
Proof using HL.
  split.
  - intros n a w. cbn. destruct (decide (a = "down"%string)); [by split|]. split_and!.
    + split; [|done]. unfold n_addr. cbn. intros c x Hc. by apply lookup_app_l_Some.
    + unfold n_addr. cbn. by rewrite lookup_app_r, Nat.sub_diag by lia.
    + unfold live. cbn. rewrite !bool_decide_eq_false_2 by set_solver. done.
  - intros c ctx sp sm a r w. cbn. pose proof (net_call_grows c w). by destruct (n_call c w).
  - intros. by split.
  - intros c ctx m w. cbn. pose proof (net_call_grows c w). by destruct (n_call c w).
  - intros. by split.
  - intros. split; [by split|done].
  - intros. by split.
  - intros. by split.
  - intros sp sm a w X HX. cbn. unfold n_offers, grows in *. cbn.
    pose proof (fun X' => select_keeps sp sm a (n_sel w) X') as Hk.
    destruct (decide (X = ∅)) as [->|Hne].
    + destruct (select_none (serves := serves) sp sm a (fun _ => 0) (n_sel w) HX) as (s & Hs & _).
      rewrite Hs in *. eexists _, _. split; [reflexivity|]. by split_and!.
    + destruct (select_member (serves := serves) sp sm a (fun _ => 0) (n_sel w) X rnd_zero_ok HX Hne)
        as (s & k & Hs & Hin & _).
      rewrite Hs in *. eexists _, _. split; [reflexivity|]. by split_and!.
  - intros kvs m w X HX Hk Hl. split; [|done]. unfold n_offers in *. cbn. by eapply update_serves.
Qed.
End Net.
Arguments net S : clear implicits.

(** ** A round-robin client of two servers *)

Definition demo_opt : xOption (B := ConsecCircuitBreaker) := MkXOption false 3 "" None.

Definition rr_new (kvs : list (string * string)) (w : net roundRobinSelector) : net roundRobinSelector :=
  MkNet (n_conns w) (n_closed w) (newRoundRobinSelector kvs).

Definition demo_pairs : list (string * string) :=
  [("tcp@flaky"%string, ""%string); ("tcp@z"%string, "weight=2"%string); ("tcp@old"%string, "state=inactive"%string)].

Definition demo_x (fm : FailMode) : xClient (W := net roundRobinSelector) (B := ConsecCircuitBreaker) :=
  NewXClient demo_opt fm RoundRobin demo_pairs rr_new (MkNet [] ∅ (RRSel [] 0)).

Definition demo_ctx : Ctx := MkCtx ∅ None.
Definition no_plugins : pluginContainer (net roundRobinSelector) nat string string := [].
Definition no_cache : gmap string (CacheClientBuilder (net roundRobinSelector)) := ∅.

(** A call to the dying server fails over to the good one. *)
Example demo_failover :
  let '(x, r) := Call demo_opt "Arith" no_plugins no_cache Latency Latency demo_ctx "Mul" "hi" "" (demo_x Failover) in
  r = Ok ("hi"%string, None) /\ attempts x = [(0%nat, Some ErrUnexpectedEOF); (1%nat, None)].
Proof. vm_compute. split; reflexivity. Qed.

Lemma Call_retries_witness :
  exists x', fst (Call demo_opt "Arith" no_plugins no_cache Latency Latency demo_ctx "Mul" "hi" "" (demo_x Failover)) = x' /\
  exists new, attempts x' = attempts (demo_x Failover) ++ new /\
    (length new <= max_calls demo_opt (failMode (demo_x Failover)))%nat /\
    Forall retryable (removelast new) /\
    match last new with Some (_, e) => None = e | None => None <> @None error end.
Proof.
  eexists. split; [reflexivity|].
  apply (Call_retries demo_opt "Arith" no_plugins no_cache Latency Latency demo_ctx "Mul" "hi" "" (demo_x Failover) _ "hi" None);
    [discriminate|discriminate|vm_compute; reflexivity].
Defined.

Definition demo_x1 (fm : FailMode) (pairs : list (string * string)) :
    xClient (W := net roundRobinSelector) (B := ConsecCircuitBreaker) :=
  NewXClient demo_opt fm RoundRobin pairs rr_new (MkNet [] ∅ (RRSel [] 0)).

(** The first request goes to a server that does not answer in time, the second to one that is
    down. *)
Definition demo_backup : xClient (W := net roundRobinSelector) (B := ConsecCircuitBreaker) :=
  demo_x1 Failbackup [("tcp@z"%string, ""%string); ("tcp@down"%string, ""%string)].

Definition demo_backup1 := fst (Go_ demo_opt "Arith" no_plugins no_cache demo_ctx "Mul" "hi"%string demo_backup).
Definition demo_backup2 := fst (Go_ demo_opt "Arith" no_plugins no_cache demo_ctx "Mul" "hi"%string demo_backup1).

Lemma failbackup_false_success_witness :
  exists x3,
    failbackup demo_opt "Arith" no_plugins no_cache Latency (CallDone "" None) demo_ctx "tcp@z" None
      "Mul" "hi" "before" demo_backup = (x3, Ok ("before"%string, None)).
Proof.
  apply (failbackup_false_success demo_opt "Arith" no_plugins no_cache (CallDone "" None) demo_ctx "tcp@z" None "Mul" "hi" "before"
    demo_backup demo_backup1 demo_backup2 (errorString "connection refused")); vm_compute; reflexivity.
Defined.

Definition raw_demo : Message := MkMessage newHeader "Arith" "Mul" None [1; 2] nil_slice.

Definition demo_raw_run := SendRaw demo_opt "Arith" no_plugins no_cache (fun _ => ""%string) ""%string demo_ctx raw_demo
  (demo_x Failfast).
Definition demo_raw := fst demo_raw_run.

Lemma SendRaw_swallows_witness :
  attempts demo_raw = [(0%nat, Some ErrUnexpectedEOF)] /\ snd demo_raw_run = Ok (None, [1; 2], None) /\
  @None error = None.
Proof.
  split; [vm_compute; reflexivity|]. split; [vm_compute; reflexivity|].
  apply (SendRaw_swallows demo_opt "Arith" no_plugins no_cache (fun _ => ""%string) ""%string demo_ctx raw_demo
    (demo_x Failfast) demo_raw None [1; 2] None); [by left|vm_compute; reflexivity|vm_compute; discriminate].
Defined.

Lemma demo_few : few demo_opt demo_pairs.
Proof. vm_compute. reflexivity. Qed.

Lemma rr_new_offers kvs (m : gmap string string) (w : net roundRobinSelector) :
  kvs ≡ₚ map_to_list m -> n_offers (serves := rr_serves) (rr_new kvs w) (dom m).
Proof. intros Hk. split; [by apply list_to_set_enum|done]. Qed.

Lemma demo_x_inv : XInv n_addr (n_offers (serves := rr_serves)) (demo_x Failover).
Proof.
  split; [done|done|]. intros _.
  exact (rr_new_offers _ (announced demo_opt demo_pairs) (MkNet [] ∅ (RRSel [] 0)) (reflexivity _)).
Qed.

