(* ===== verification/FanOut.v ===== *)
(** The fan-outs of client/xclient.go: [Broadcast], [Fork] and [Inform] send one request to
    every server, each from a goroutine of its own, and the caller waits on a channel.

    The goroutines and the caller are interleaved in a step relation. The error that the caller
    gets is the [MultiError] the goroutines append to: what is decided when it returns is
    whether the error is nil, and which receipts [Inform] returns. Removing the client of a failed
    server touches none of this. *)

From S2P Require Import Prelude GoStd Share Breaker Message Hooks ClientPlugins Selector XClient.

(** ** The clients *)

Section Clients.
Context {W A R B : Type} `{BreakerOps B} `{RPCClients W A R} `{SelectorObj W A}.
Context (option_ : xOption (B := B)) (servicePath : string).
Context (Plugins : pluginContainer W nat A R).
Context (builders : gmap string (CacheClientBuilder W)).

(** The loop over the servers, in the order [ks] of the map's iteration: a server without a
    client is left out; the second list has the clients that are new. *)
Fixpoint collectClients (ks : list string) (sm : string) :
    Go (xClient (W := W) (B := B)) (list (string * nat) * list nat) :=
  match ks with
  | [] => mret ([], [])
  | k :: ks =>
      '(client, needCallPlugin, _) ← getCachedClientWithoutLock option_ builders k servicePath sm;
      '(clients, callPlugins) ← collectClients ks sm;
      match client with
      | Some c => mret ((k, c) :: clients, if needCallPlugin : bool then c :: callPlugins else callPlugins)
      | None => mret (clients, callPlugins)
      end
  end.

(** The start of the three methods: the error they return at once, or the clients. *)
Definition fanClients (ks : list string) (ctx : Ctx) (sm : string) :
    Go (xClient (W := W) (B := B)) (list (string * nat) + error) :=
  x ← get;
  if isShutdown x then mret (inr ErrXClientShutdown)
  else
    _ ← prepare ctx;
    '(clients, callPlugins) ← collectClients ks sm;
    _ ← foldr (fun c rest => _ ← clientConnected Plugins c; rest) (mret tt) callPlugins;
    match clients with
    | [] => mret (inr ErrXClientNoServer)
    | _ => mret (inl clients)
    end.

(** [Fork] and [Inform] start in the same way. *)
Definition forkClients (ks : list string) (ctx : Ctx) (sm : string) :
    Go (xClient (W := W) (B := B)) (list (string * nat) + error) := fanClients ks ctx sm.
Definition informClients (ks : list string) (ctx : Ctx) (sm : string) :
    Go (xClient (W := W) (B := B)) (list (string * nat) + error) := fanClients ks ctx sm.
End Clients.

(** ** Goroutines *)

Inductive kind := Broadcast | Fork | Inform.

(** What a goroutine still has to do: the call, the send on [done], appending its error,
    setting the caller's reply (once), and its receipt. *)
Inductive action := ACall | ASend | AAppend | AReply | AReceipt.
Global Instance action_eq_dec : EqDecision action.
Proof. solve_decision. Defined.

(** What follows the call, which returned the error [e]; [reply] says that the caller passed a
    reply, so that there is a clone of it to copy from. *)
Definition program (knd : kind) (reply : bool) (e : option error) : list action :=
  let set := if reply then [AReply] else [] in
  match knd, e with
  | Broadcast, Some _ => [ASend; AAppend]
  | Broadcast, None => ASend :: set
  | Fork, Some _ => [ASend; AAppend]
  | Fork, None => set ++ [ASend]
  | Inform, Some _ => [ASend; AAppend; AReceipt]
  | Inform, None => ASend :: set ++ [AReceipt]
  end.

(** [Receipt]: its [Error] is the pointer to the [MultiError] of the whole fan-out. *)
Inductive errorRef := SharedMultiError.
Record Receipt (R : Type) := MkReceipt { r_Address : string; r_Reply : option R; r_Error : errorRef }.
Arguments MkReceipt {R} _ _ _.
Arguments r_Address {R} _.
Arguments r_Reply {R} _.
Arguments r_Error {R} _.

(** The address in a receipt: what follows the first "@" of the server's key, or all of it. *)
Definition receiptAddress (k : string) : string :=
  let '(_, b, found) := Cut 64 (string_bytes k) in if found : bool then bytes_string b else k.

(** The caller: waiting for [l] results, out of the loop, or returned (with a nil error? and with
    which receipts). *)
Inductive main R := MWait (l : nat) | MBreak | MDone (nil : bool) (rs : list (Receipt R)).
Arguments MWait {R} l.
Arguments MBreak {R}.
Arguments MDone {R} nil rs.

Section Fan.
Context {R : Type} (knd : kind) (withReply : bool).
(** What the call of each goroutine returns, when it returns at all, and the key of its server. *)
Context (returns : nat -> bool) (outcome : nat -> R * option error) (server : nat -> string).

(** [doneCh] is the channel [done], [doneCap] its capacity; [errs] is the shared [MultiError]. *)
Record fan := MkFan {
  gs : list (list action);
  doneCh : list bool;
  doneCap : nat;
  errs : list error;
  freply : option R;
  receipts : list (Receipt R);
  mn : main R;
}.

Definition succeeded (i : nat) : bool := match snd (outcome i) with None => true | Some _ => false end.

Definition the_receipt (i : nat) : Receipt R :=
  MkReceipt (receiptAddress (server i)) (if withReply then Some (fst (outcome i)) else None) SharedMultiError.

Local Abbreviation prog i := (program knd withReply (snd (outcome i))).

(** One action of goroutine [i], with [rest] left. *)
Definition act (i : nat) (a : action) (rest : list action) (x : fan) : fan :=
  let g := <[i := match a with ACall => prog i | _ => rest end]> (gs x) in
  match a with
  | ACall => MkFan g (doneCh x) (doneCap x) (errs x) (freply x) (receipts x) (mn x)
  | ASend => MkFan g (doneCh x ++ [succeeded i]) (doneCap x) (errs x) (freply x) (receipts x) (mn x)
  | AAppend =>
      MkFan g (doneCh x) (doneCap x)
        (match snd (outcome i) with Some e => MultiError_Append (errs x) e | None => errs x end)
        (freply x) (receipts x) (mn x)
  | AReply =>
      MkFan g (doneCh x) (doneCap x) (errs x)
        (match freply x with None => Some (fst (outcome i)) | r => r end) (receipts x) (mn x)
  | AReceipt =>
      MkFan g (doneCh x) (doneCap x) (errs x) (freply x) (receipts x ++ [the_receipt i]) (mn x)
  end.

(** A call may take its time, or forever; a send waits for room in the channel. *)
Definition ready (i : nat) (a : action) (x : fan) : Prop :=
  match a with
  | ACall => returns i = true
  | ASend => (length (doneCh x) < doneCap x)%nat
  | _ => True
  end.

(** What the caller does with a result, [l] being the number still expected after it. *)
Definition receive (l : nat) (b : bool) : main R :=
  match knd with
  | Broadcast => if (l =? 0)%nat || negb b then MBreak else MWait l
  | Fork => if b then MDone true [] else if (l =? 0)%nat then MBreak else MWait l
  | Inform => if (l =? 0)%nat then MBreak else MWait l
  end.

Definition timeoutError : error := errorString "timeout".

Definition returnsNil (es : list error) : bool :=
  match MultiError_ErrorOrNil (Some es) with None => true | Some _ => false end.

(** The goroutines, and the caller: its timer of a minute may run out whenever it waits. *)
Inductive fstep : fan -> fan -> Prop :=
  | go_act i a rest x : gs x !! i = Some (a :: rest) -> ready i a x -> fstep x (act i a rest x)
  | main_recv l b bs x :
      mn x = MWait (S l) -> doneCh x = b :: bs ->
      fstep x (MkFan (gs x) bs (doneCap x) (errs x) (freply x) (receipts x) (receive l b))
  | main_timeout l x :
      mn x = MWait l ->
      fstep x (MkFan (gs x) (doneCh x) (doneCap x) (MultiError_Append (errs x) timeoutError) (freply x) (receipts x) MBreak)
  | main_return x :
      mn x = MBreak ->
      fstep x (MkFan (gs x) (doneCh x) (doneCap x) (errs x) (freply x) (receipts x)
                 (MDone (returnsNil (errs x)) (receipts x))).

(** [done := make(chan bool, l)], and a goroutine for each of the [l] clients. *)
Definition start (l : nat) : fan := MkFan (replicate l [ACall]) [] l [] None [] (MWait l).

Inductive freach (n : nat) : fan -> Prop :=
  | fr_start : freach n (start n)
  | fr_step x y : freach n x -> fstep x y -> freach n y.

(** ** Termination *)

Definition weight (a : action) : nat := match a with ACall => 4 | _ => 1 end.
Definition work (l : list action) : nat := sum_list_with weight l.
Definition mwork (m : main R) : nat := match m with MWait l => S (S l) | MBreak => 1 | MDone _ _ => 0 end.

(** The steps that are left at most. *)
Definition fmeasure (x : fan) : nat := (sum_list_with work (gs x) + mwork (mn x))%nat.

Lemma program_work e : (work (program knd withReply e) <= 3)%nat.
Proof using Type. destruct knd, withReply, e; cbn; lia. Qed.

Lemma act_mn i a rest x : mn (act i a rest x) = mn x.
Proof using Type. by destruct a. Qed.
Lemma act_cap i a rest x : doneCap (act i a rest x) = doneCap x.
Proof using Type. by destruct a. Qed.

Lemma act_gs i a rest x :
  gs (act i a rest x) = <[i := match a with ACall => prog i | _ => rest end]> (gs x).
Proof using Type. by destruct a. Qed.

Lemma fstep_decreases x y : fstep x y -> (fmeasure y < fmeasure x)%nat.
Proof using Type.
  unfold fmeasure. intros [i a rest x' Hi _|l b bs x' Hm Hd|l x' Hm|x' Hm]; cbn [gs mn].
  - rewrite act_mn, act_gs.
    pose proof (sum_insert work (gs x') i _ (match a with ACall => prog i | _ => rest end) Hi) as Hs.
    pose proof (program_work (snd (outcome i))) as Hp.
    unfold work at 2 in Hs. cbn [sum_list_with] in Hs. fold (work rest) in Hs.
    destruct a; cbn [weight] in Hs; lia.
  - rewrite Hm. unfold receive. destruct knd, b; repeat split_match; cbn; lia.
  - rewrite Hm. cbn. lia.
  - rewrite Hm. cbn. lia.
Qed.

(** ** The invariant *)

(** How many actions [b] are still to come from a goroutine whose program has one. *)
Definition due (b : action) (l : list action) : nat := length (filter (fun a => a = ACall \/ a = b) l).

Definition wf_g (i : nat) (l : list action) : Prop := l = [ACall] \/ l `suffix_of` prog i.

Record FInv (n : nat) (x : fan) : Prop := {
  fi_length : length (gs x) = n;
  fi_cap : doneCap x = n;
  fi_wf i l : gs x !! i = Some l -> wf_g i l;
  fi_called i l : gs x !! i = Some l -> l <> [ACall] -> returns i = true;
  fi_room : (length (doneCh x) + sum_list_with (due ASend) (gs x) <= n)%nat;
  fi_wait l : mn x = MWait l -> (0 < l)%nat /\ l = (length (doneCh x) + sum_list_with (due ASend) (gs x))%nat;
  fi_errs e : e ∈ errs x -> e = timeoutError \/ exists i, (i < n)%nat /\ returns i = true /\ snd (outcome i) = Some e;
  fi_reply r : freply x = Some r -> exists i, (i < n)%nat /\ returns i = true /\ outcome i = (r, None);
  fi_receipts r : r ∈ receipts x -> exists i, (i < n)%nat /\ returns i = true /\ r = the_receipt i;
  fi_fork : knd = Fork -> withReply = true -> true ∈ doneCh x -> freply x <> None;
  fi_errs_all i l e : gs x !! i = Some l -> l <> [ACall] -> snd (outcome i) = Some e -> AAppend ∈ l \/ e ∈ errs x;
  fi_reply_all i l : gs x !! i = Some l -> l <> [ACall] -> snd (outcome i) = None -> withReply = true ->
    AReply ∈ l \/ freply x <> None;
  fi_receipts_all i l : knd = Inform -> gs x !! i = Some l -> l <> [ACall] ->
    AReceipt ∈ l \/ the_receipt i ∈ receipts x;
  fi_receipts_count : knd = Inform -> (length (receipts x) + sum_list_with (due AReceipt) (gs x))%nat = n;
}.

Lemma due_start b n : b <> ACall -> sum_list_with (due b) (replicate n [ACall]) = n.
Proof using Type. intros Hb. induction n as [|n IH]; [done|]. cbn. rewrite IH. by destruct b. Qed.

Lemma start_inv n : (0 < n)%nat -> FInv n (start n).
Proof using Type.
  intros Hn. assert (forall i l, replicate n [ACall] !! i = Some l -> l = [ACall]) as Hr.
  { intros i l Hi. by apply lookup_replicate in Hi as [-> _]. }
  split; cbn; try done; try (by intros ? ?%elem_of_nil).
  - by rewrite length_replicate.
  - intros i l Hi. left. by eapply Hr.
  - intros i l Hi Hl. by destruct (Hl (Hr i l Hi)).
  - by rewrite due_start.
  - intros l [= <-]. by rewrite due_start.
  - by intros _ _ ?%elem_of_nil.
  - intros i l e Hi Hl. by destruct (Hl (Hr i l Hi)).
  - intros i l Hi Hl. by destruct (Hl (Hr i l Hi)).
  - intros i l _ Hi Hl. by destruct (Hl (Hr i l Hi)).
  - intros _. by rewrite due_start.
Qed.

(** What a program has. *)
Lemma in_program b i :
  b ∈ prog i ->
  match b with
  | ACall => False
  | ASend => True
  | AAppend => is_Some (snd (outcome i))
  | AReply => snd (outcome i) = None /\ withReply = true
  | AReceipt => knd = Inform
  end.
Proof using Type.
  destruct knd, withReply, (snd (outcome i)), b; cbn; rewrite ?elem_of_cons, ?elem_of_nil; intros Hin;
    repeat destruct Hin as [Hin|Hin]; done.
Qed.

Lemma program_has i :
  ASend ∈ prog i /\ (is_Some (snd (outcome i)) -> AAppend ∈ prog i) /\
  (snd (outcome i) = None -> withReply = true -> AReply ∈ prog i) /\ (knd = Inform -> AReceipt ∈ prog i).
Proof using Type.
  destruct knd, withReply, (snd (outcome i)); cbn; rewrite ?elem_of_cons; split_and!; auto; try done; by intros [].
Qed.

(** The shapes a goroutine's program can have. *)
Lemma wf_step i a rest :
  wf_g i (a :: rest) -> (a = ACall /\ rest = []) \/ (a <> ACall /\ (a :: rest) `suffix_of` prog i).
Proof using Type.
  intros [[= -> ->]|Hs]; [by left|]. right. split; [|done]. intros ->.
  destruct Hs as [pre Hpre]. apply (in_program ACall i). rewrite Hpre. apply elem_of_app. right. apply list_elem_of_here.
Qed.

Lemma due_cons b a rest :
  due b (a :: rest) = ((if bool_decide (a = ACall \/ a = b) then 1 else 0) + due b rest)%nat.
Proof using Type.
  unfold due. case_bool_decide; [by rewrite filter_cons_True|by rewrite filter_cons_False].
Qed.

Lemma due_none b l : b ∉ l -> ACall ∉ l -> due b l = 0%nat.
Proof using Type.
  induction l as [|a l IH]; [done|]. rewrite !not_elem_of_cons, due_cons. intros [? ?] [? ?].
  rewrite bool_decide_eq_false_2 by (by intros [?|?]). by rewrite IH.
Qed.

Lemma due_program b i : b <> ACall -> NoDup (prog i) -> b ∈ prog i -> due b (prog i) = 1%nat.
Proof using Type.
  intros Hb Hnd Hin. assert (ACall ∉ prog i) as Hc by (intros Hc; by apply in_program in Hc).
  revert Hnd Hin Hc. generalize (prog i). intros l. induction l as [|a l IH]; [by intros _ ?%elem_of_nil|].
  intros [Ha Hnd]%NoDup_cons Hin Hc. rewrite due_cons. apply not_elem_of_cons in Hc as [Hca Hc].
  apply elem_of_cons in Hin as [->|Hin].
  - rewrite bool_decide_eq_true_2 by auto. assert (due a l = 0%nat) as ->; [|done].
    by apply due_none.
  - rewrite (IH Hnd Hin Hc), bool_decide_eq_false_2; [done|]. intros [->| ->]; done.
Qed.

Lemma program_NoDup i : NoDup (prog i).
Proof using Type. apply (bool_decide_unpack _). by destruct knd, withReply, (snd (outcome i)). Qed.

Lemma act_reply_mono i a rest x : freply x <> None -> freply (act i a rest x) <> None.
Proof using Type. destruct a; cbn; [done|done|done| |done]. by destruct (freply x). Qed.
Lemma act_errs_mono i a rest x e : e ∈ errs x -> e ∈ errs (act i a rest x).
Proof using Type.
  intros He. destruct a; cbn; try done. destruct (snd (outcome i)); [|done]. apply elem_of_app. by left.
Qed.
Lemma act_receipts_mono i a rest x r : r ∈ receipts x -> r ∈ receipts (act i a rest x).
Proof using Type. intros Hr. destruct a; cbn; try done. apply elem_of_app. by left. Qed.

Lemma act_wf n x i a rest :
  FInv n x -> gs x !! i = Some (a :: rest) -> wf_g i (match a with ACall => prog i | _ => rest end).
Proof using Type.
  intros Hx Hi. destruct (wf_step i a rest (fi_wf n x Hx i _ Hi)) as [[-> ->]|[Ha Hs]].
  - right. done.
  - assert (rest `suffix_of` prog i) by by eapply suffix_cons_l. destruct a; [done|by right..].
Qed.

(** An action that is due and done: what is left, and what was there, are as many as before. *)
Lemma act_due n x i a rest b :
  FInv n x -> gs x !! i = Some (a :: rest) -> b <> ACall -> (forall j, b ∈ prog j) ->
  (sum_list_with (due b) (gs (act i a rest x)) + (if bool_decide (a = b) then 1 else 0))%nat =
    sum_list_with (due b) (gs x).
Proof using Type.
  intros Hx Hi Hb Hin. rewrite act_gs.
  pose proof (sum_insert (due b) (gs x) i _ (match a with ACall => prog i | _ => rest end) Hi) as Hs.
  rewrite due_cons in Hs.
  destruct (wf_step i a rest (fi_wf n x Hx i _ Hi)) as [[-> ->]|[Ha _]].
  - rewrite (due_program b i Hb (program_NoDup i) (Hin i)) in Hs. rewrite bool_decide_eq_true_2 in Hs by auto.
    rewrite bool_decide_eq_false_2 by done. change (due b []) with 0%nat in Hs. lia.
  - assert (match a with ACall => prog i | _ => rest end = rest) as Hr by (by destruct a). rewrite Hr in *.
    destruct (decide (a = b)) as [->|Hne].
    + rewrite bool_decide_eq_true_2 in Hs by auto. rewrite bool_decide_eq_true_2 by done. lia.
    + rewrite bool_decide_eq_false_2 in Hs by (by intros [|]). rewrite bool_decide_eq_false_2 by done. lia.
Qed.

Lemma act_sends n x i a rest :
  FInv n x -> gs x !! i = Some (a :: rest) ->
  (length (doneCh (act i a rest x)) + sum_list_with (due ASend) (gs (act i a rest x)) =
   length (doneCh x) + sum_list_with (due ASend) (gs x))%nat.
Proof using Type.
  intros Hx Hi. pose proof (act_due n x i a rest ASend Hx Hi ltac:(done) (fun j => proj1 (program_has j))) as Hd.
  destruct (decide (a = ASend)) as [->|Hne].
  - rewrite bool_decide_eq_true_2 in Hd by done. cbn [act doneCh] in *. rewrite length_app. cbn [length]. lia.
  - rewrite bool_decide_eq_false_2 in Hd by done. assert (doneCh (act i a rest x) = doneCh x) as -> by (by destruct a). lia.
Qed.

Lemma act_receipts_count n x i a rest :
  FInv n x -> gs x !! i = Some (a :: rest) -> knd = Inform ->
  (length (receipts (act i a rest x)) + sum_list_with (due AReceipt) (gs (act i a rest x)))%nat = n.
Proof using Type.
  intros Hx Hi Hk. pose proof (fi_receipts_count n x Hx Hk) as Hc.
  assert (forall j, AReceipt ∈ prog j) as Hin by (intros j; by apply program_has).
  pose proof (act_due n x i a rest AReceipt Hx Hi ltac:(done) Hin) as Hd.
  destruct (decide (a = AReceipt)) as [->|Hne].
  - rewrite bool_decide_eq_true_2 in Hd by done. cbn [act receipts] in *. rewrite length_app. cbn [length]. lia.
  - rewrite bool_decide_eq_false_2 in Hd by done. assert (receipts (act i a rest x) = receipts x) as -> by (by destruct a). lia.
Qed.

(** What a goroutine leaves behind when an action is through: [P] is kept by every action, and set
    by the action [b] of goroutine [i]. *)
Lemma act_leaves n x i a rest b (P : fan -> Prop) :
  FInv n x -> gs x !! i = Some (a :: rest) -> b ∈ prog i ->
  (P x -> P (act i a rest x)) -> (a = b -> P (act i a rest x)) ->
  (a :: rest <> [ACall] -> b ∈ a :: rest \/ P x) ->
  b ∈ (match a with ACall => prog i | _ => rest end) \/ P (act i a rest x).
Proof using Type.
  intros Hx Hi Hb Hmono Hset Hold.
  destruct (wf_step i a rest (fi_wf n x Hx i _ Hi)) as [[-> ->]|[Ha _]]; [by left|].
  destruct Hold as [[->|Hin]%elem_of_cons|HP]; [by intros [= ? ?]|right; by apply Hset|left; by destruct a|right; auto].
Qed.

(** A goroutine of [Fork] that is about to report success has set the reply. *)
Lemma fork_set n x i rest :
  FInv n x -> knd = Fork -> withReply = true -> gs x !! i = Some (ASend :: rest) -> succeeded i = true -> freply x <> None.
Proof using Type.
  intros Hx Hk Hw Hi Hs. unfold succeeded in Hs. destruct (snd (outcome i)) as [e|] eqn:Eo; [done|].
  destruct (fi_reply_all n x Hx i _ Hi ltac:(done) Eo Hw) as [Hin|?]; [|done]. exfalso.
  destruct (fi_wf n x Hx i _ Hi) as [?|[pre Hpre]]; [done|]. rewrite Hk, Hw, Eo in Hpre. cbn in Hpre.
  destruct pre as [|p0 [|p1 [|p2 pre]]]; cbn in Hpre; try done. injection Hpre as _ <-.
  apply elem_of_cons in Hin as [?|?%elem_of_nil]; done.
Qed.

Lemma act_inv n x i a rest :
  FInv n x -> gs x !! i = Some (a :: rest) -> ready i a x -> FInv n (act i a rest x).
Proof using Type.
  intros Hx Hi Hrd. pose proof (lookup_lt_Some _ _ _ Hi) as Hlt. rewrite (fi_length n x Hx) in Hlt.
  assert (returns i = true) as Hret.
  { destruct (wf_step i a rest (fi_wf n x Hx i _ Hi)) as [[-> ->]|[Ha _]]; [done|].
    apply (fi_called n x Hx i _ Hi). by intros [= ? ?]. }
  assert (a ∈ prog i \/ a = ACall) as Hprog.
  { destruct (wf_step i a rest (fi_wf n x Hx i _ Hi)) as [[-> ->]|[_ [pre Hpre]]]; [auto|left]. rewrite Hpre. set_solver. }
  split.
  - rewrite act_gs, length_insert. apply Hx.
  - rewrite act_cap. apply Hx.
  - intros j l. rewrite act_gs, list_lookup_insert_Some. intros [(<- & <- & _)|[_ Hj]]; [by eapply act_wf|].
    by apply (fi_wf n x Hx).
  - intros j l. rewrite act_gs, list_lookup_insert_Some. intros [(<- & _ & _)|[_ Hj]]; [done|by eapply (fi_called n x Hx)].
  - rewrite (act_sends n x i a rest Hx Hi). apply Hx.
  - rewrite act_mn, (act_sends n x i a rest Hx Hi). apply (fi_wait n x Hx).
  - destruct a; cbn; try apply (fi_errs n x Hx). intros e. destruct (snd (outcome i)) as [e'|] eqn:Eo; [|apply (fi_errs n x Hx)].
    unfold MultiError_Append. rewrite elem_of_app, list_elem_of_singleton. intros [He| ->]; [by apply (fi_errs n x Hx)|].
    right. by exists i.
  - destruct a; cbn; try apply (fi_reply n x Hx). intros r. destruct (freply x) as [r'|] eqn:Er.
    + intros [= <-]. by apply (fi_reply n x Hx).
    + intros [= <-]. exists i. split_and!; [done|done|]. destruct Hprog as [Hp|]; [|done].
      apply in_program in Hp as [Ho _]. destruct (outcome i) as [r0 e0]. cbn in Ho. by subst e0.
  - destruct a; cbn; try apply (fi_receipts n x Hx). intros r. rewrite elem_of_app, list_elem_of_singleton.
    intros [He| ->]; [by apply (fi_receipts n x Hx)|]. by exists i.
  - intros Hk Hw Ht. destruct a; cbn in *; try (by apply (fi_fork n x Hx)).
    + apply elem_of_app in Ht as [Ht|Ht%list_elem_of_singleton]; [by apply (fi_fork n x Hx)|].
      by eapply fork_set.
    + apply (act_reply_mono i AReply rest). by apply (fi_fork n x Hx).
  - intros j l e Hj Hl Ho. rewrite act_gs, list_lookup_insert_Some in Hj. destruct Hj as [(<- & <- & _)|[_ Hj]].
    + apply (act_leaves n x i a rest AAppend (fun x => e ∈ errs x) Hx Hi); [apply program_has; by rewrite Ho
        |apply act_errs_mono| |intros Hne; by eapply (fi_errs_all n x Hx)].
      intros ->. cbn. rewrite Ho. unfold MultiError_Append. set_solver.
    + destruct (fi_errs_all n x Hx j l e Hj Hl Ho); auto using act_errs_mono.
  - intros j l Hj Hl Ho Hw. rewrite act_gs, list_lookup_insert_Some in Hj. destruct Hj as [(<- & <- & _)|[_ Hj]].
    + apply (act_leaves n x i a rest AReply (fun x => freply x <> None) Hx Hi); [by apply program_has
        |apply act_reply_mono| |intros Hne; by eapply (fi_reply_all n x Hx)].
      intros ->. cbn. by destruct (freply x).
    + destruct (fi_reply_all n x Hx j l Hj Hl Ho Hw); auto using act_reply_mono.
  - intros j l Hk Hj Hl. rewrite act_gs, list_lookup_insert_Some in Hj. destruct Hj as [(<- & <- & _)|[_ Hj]].
    + apply (act_leaves n x i a rest AReceipt (fun x => the_receipt i ∈ receipts x) Hx Hi); [by apply program_has
        |apply act_receipts_mono| |intros Hne; by eapply (fi_receipts_all n x Hx)].
      intros ->. cbn. set_solver.
    + destruct (fi_receipts_all n x Hx j l Hk Hj Hl); auto using act_receipts_mono.
  - intros Hk. by apply act_receipts_count.
Qed.

Lemma receive_wait l b m : receive l b = MWait m -> m = l /\ l <> 0%nat.
Proof using Type.
  unfold receive. destruct knd, b; cbn; repeat split_match; try done; intros [= <-];
    (split; [done|]); intros ->; done.
Qed.

Lemma fstep_inv n x y : FInv n x -> fstep x y -> FInv n y.
Proof using Type.
  intros Hx Hs. destruct Hs as [i a rest x Hi Hr|l b bs x Hm Hd|l x Hm|x Hm]; [by apply act_inv|..];
    destruct Hx as [H1 H2 H3 H4 H5 H6 H7 H8 H9 H10 H11 H12 H13 H14]; split; cbn; try done.
  - rewrite Hd in H5. cbn in H5. lia.
  - intros m Hrw. destruct (receive_wait l b m Hrw) as [-> Hl].
    destruct (H6 _ Hm) as [_ Heq]. rewrite Hd in Heq. cbn in Heq. lia.
  - intros Hk Hw Ht. apply (H10 Hk Hw). rewrite Hd. by right.
  - intros e. unfold MultiError_Append. rewrite elem_of_app, list_elem_of_singleton. intros [He| ->]; [by apply H7|by left].
  - intros i l' e Hi Hl Ho. unfold MultiError_Append. rewrite elem_of_app. destruct (H11 i l' e Hi Hl Ho); auto.
Qed.

Lemma freach_inv n x : (0 < n)%nat -> freach n x -> FInv n x.
Proof using Type. intros Hn. induction 1; [by apply start_inv|by eapply fstep_inv]. Qed.

(** Steps from [x] to [y], with their number. *)
Inductive fsteps : nat -> fan -> fan -> Prop :=
  | fs_refl x : fsteps 0 x x
  | fs_step k x y z : fstep x y -> fsteps k y z -> fsteps (S k) x z.

Definition stuck (x : fan) : Prop := forall y, ~ fstep x y.

(** A goroutine that is through, or whose call does not return. *)
Definition over (i : nat) (l : list action) : Prop := l = [] \/ (l = [ACall] /\ returns i = false).

(** There is room for a send that is due. *)
Lemma send_ready n x i rest :
  FInv n x -> gs x !! i = Some (ASend :: rest) -> (length (doneCh x) < doneCap x)%nat.
Proof using Type.
  intros Hx Hi. rewrite (fi_cap n x Hx). pose proof (fi_room n x Hx) as Hroom.
  pose proof (sum_insert (due ASend) (gs x) i _ [] Hi) as Hs. rewrite due_cons in Hs.
  rewrite bool_decide_eq_true_2 in Hs by auto. change (due ASend []) with 0%nat in Hs. lia.
Qed.

Lemma stuck_over n x : FInv n x -> stuck x -> forall i l, gs x !! i = Some l -> over i l.
Proof using Type.
  intros Hx Hs i l Hi. destruct l as [|a rest]; [by left|].
  destruct (decide (a = ACall)) as [->|Ha].
  - destruct (wf_step i ACall rest (fi_wf n x Hx i _ Hi)) as [[_ ->]|[? _]]; [|done]. right. split; [done|].
    destruct (returns i) eqn:Er; [|done]. destruct (Hs _ (go_act i ACall [] x Hi Er)).
  - exfalso. eapply (Hs _), (go_act i a rest x Hi). destruct a; cbn; try done. by eapply send_ready.
Qed.

Lemma stuck_returned x : stuck x -> exists b rs, mn x = MDone b rs.
Proof using Type.
  intros Hs. destruct (mn x) as [l| |b rs] eqn:Em; [| |by eauto].
  - destruct (Hs _ (main_timeout l x Em)).
  - destruct (Hs _ (main_return x Em)).
Qed.

Lemma fsteps_inv n k y z : fsteps k y z -> FInv n y -> (k + fmeasure z <= fmeasure y)%nat /\ FInv n z.
Proof using Type.
  induction 1 as [y|k' y1 y2 y3 H12 _ IH]; intros Hy; [split; [lia|done]|].
  destruct (IH (fstep_inv n _ _ Hy H12)) as [Hle Hz]. pose proof (fstep_decreases _ _ H12). split; [lia|done].
Qed.

(** C18. The fan-outs return. With at least one server, every interleaving of the goroutines and
    the caller, in which calls return at any time or never, sends wait for room in the channel and
    the caller's timer may run out while it waits, is finite. Where it ends, the caller has returned,
    and every goroutine is through but for those whose call never returns: no goroutine is left
    behind blocked on the channel, also when the caller returned early and receives no more. And a
    caller that waits when all goroutines are through has a result to receive: it is not its timer
    that ends the wait. *)
Theorem fan_out_returns n k x :
  (0 < n)%nat -> fsteps k (start n) x ->
  (k <= fmeasure (start n))%nat /\
  (stuck x -> (exists b rs, mn x = MDone b rs) /\ forall i l, gs x !! i = Some l -> over i l) /\
  (forall l, mn x = MWait l -> Forall (fun l => l = []) (gs x) -> doneCh x <> []).
Proof using Type.
  intros Hn Hs. destruct (fsteps_inv n k _ _ Hs (start_inv n Hn)) as [Hle Hx]. split_and!; [lia| |].
  - intros Hst. split; [by apply stuck_returned|by apply (stuck_over n)].
  - intros l Hm Hg Hd. destruct (fi_wait n x Hx l Hm) as [Hl Heq]. rewrite Hd in Heq.
    assert (sum_list_with (due ASend) (gs x) = 0%nat) as H0; [|cbn in Heq; lia].
    clear -Hg. induction Hg as [|l gs -> _ IH]; done.
Qed.

(** C19. What the fan-outs report is what the servers did, in every interleaving. Every error is one
    that a server returned or the timeout; the reply is the reply of a server that returned no
    error; every receipt has the address and the reply of a server that returned; [Fork] has set the
    reply before its caller can see the success. And nothing is left out: a goroutine that is
    through has appended its server's error, has set the reply unless another had, and in [Inform]
    has added its receipt, so that when all are through there is one for each server. The error in a
    receipt is not the server's: every receipt refers to the one [MultiError] of the fan-out. *)
Theorem fan_out_sound n x :
  (0 < n)%nat -> freach n x ->
  (forall e, e ∈ errs x -> e = timeoutError \/ exists i, (i < n)%nat /\ returns i = true /\ snd (outcome i) = Some e) /\
  (forall r, freply x = Some r -> exists i, (i < n)%nat /\ returns i = true /\ outcome i = (r, None)) /\
  (forall rc, rc ∈ receipts x -> exists i, (i < n)%nat /\ returns i = true /\
     r_Address rc = receiptAddress (server i) /\
     r_Reply rc = (if withReply then Some (fst (outcome i)) else None) /\ r_Error rc = SharedMultiError) /\
  (knd = Fork -> withReply = true -> true ∈ doneCh x ->
     exists i r, (i < n)%nat /\ outcome i = (r, None) /\ freply x = Some r) /\
  (forall i, gs x !! i = Some [] ->
     (forall e, snd (outcome i) = Some e -> e ∈ errs x) /\
     (snd (outcome i) = None -> withReply = true -> freply x <> None) /\
     (knd = Inform -> the_receipt i ∈ receipts x)) /\
  (knd = Inform -> Forall (fun l => l = []) (gs x) -> length (receipts x) = n).
Proof using Type.
  intros Hn Hr. pose proof (freach_inv n x Hn Hr) as Hx. split_and!; [apply Hx|apply Hx| | | |].
  - intros rc Hrc. destruct (fi_receipts n x Hx rc Hrc) as (i & Hi & Hret & ->). by exists i.
  - intros Hk Hw Ht. pose proof (fi_fork n x Hx Hk Hw Ht) as Hne. destruct (freply x) as [r|] eqn:Er; [|done].
    destruct (fi_reply n x Hx r Er) as (i & Hi & _ & Ho). by exists i, r.
  - intros i Hi. split_and!.
    + intros e Ho. by destruct (fi_errs_all n x Hx i [] e Hi ltac:(done) Ho) as [?%elem_of_nil|?].
    + intros Ho Hw. by destruct (fi_reply_all n x Hx i [] Hi ltac:(done) Ho Hw) as [?%elem_of_nil|?].
    + intros Hk. by destruct (fi_receipts_all n x Hx i [] Hk Hi ltac:(done)) as [?%elem_of_nil|?].
  - intros Hk Hg. pose proof (fi_receipts_count n x Hx Hk) as Hc.
    assert (sum_list_with (due AReceipt) (gs x) = 0%nat) as H0; [|lia].
    clear -Hg. induction Hg as [|l gs -> _ IH]; done.
Qed.

(** The error that a receipt gives when it is read. *)
Definition receipt_error (rc : Receipt R) (x : fan) : error :=
  match r_Error rc with SharedMultiError => MultiError (errs x) end.
End Fan.

(** C20. [Broadcast] can report success although a server failed, and so can [Fork] and [Inform]
    although their only server failed, and [Inform] then without its receipt: a goroutine signals
    its failure before it appends its error, and the caller that returns in between finds none. *)
Theorem broadcast_false_success {R} knd reply returns (outcome : nat -> R * option error) server n i e :
  (i < n)%nat -> returns i = true -> snd (outcome i) = Some e ->
  (knd = Broadcast \/ (knd <> Broadcast /\ n = 1%nat)) ->
  exists x, freach knd reply returns outcome server n x /\ mn x = MDone true [] /\ errs x = [].
Proof.
  intros Hi Hret Ho Hk.
  assert (replicate n [ACall] !! i = Some [ACall]) as Hg by (by apply lookup_replicate_2).
  destruct n as [|n]; [lia|].
  set (x1 := act knd reply outcome server i ACall [] (start (R := R) (S n))).
  assert (exists rest, program knd reply (Some e) = ASend :: rest) as [rest Hp] by (by destruct knd; eexists).
  set (x2 := act knd reply outcome server i ASend rest x1).
  assert (freach knd reply returns outcome server (S n) x1) as H1.
  { eapply fr_step; [apply fr_start|]. by apply (go_act knd reply returns outcome server i ACall []). }
  assert (freach knd reply returns outcome server (S n) x2) as H2.
  { eapply fr_step; [exact H1|]. apply (go_act knd reply returns outcome server i ASend rest); [|cbn; lia].
    unfold x1. rewrite act_gs, Ho, Hp. cbn [gs start]. rewrite list_lookup_insert_eq; [done|].
    by rewrite length_replicate. }
  eexists. split.
  - eapply fr_step; [eapply fr_step; [exact H2|]|].
    + apply (main_recv knd reply returns outcome server n (succeeded outcome i) [] x2); [reflexivity|reflexivity].
    + apply main_return. cbn. unfold succeeded. rewrite Ho.
      destruct Hk as [->|[Hb [= ->]]]; cbn; [by rewrite orb_true_r|by destruct knd].
  - done.
Qed.

(** A receipt of [Inform] for a server that answered carries an error as soon as another failed. *)
Theorem receipt_error_shared {R} reply returns (outcome : nat -> R * option error) server n x rc i e :
  (0 < n)%nat -> freach Inform reply returns outcome server n x -> rc ∈ receipts x ->
  gs x !! i = Some [] -> snd (outcome i) = Some e ->
  exists es, receipt_error rc x = MultiError es /\ e ∈ es.
Proof.
  intros Hn Hr Hrc Hi Ho. unfold receipt_error. destruct (r_Error rc). exists (errs x). split; [done|].
  pose proof (freach_inv Inform reply returns outcome server n x Hn Hr) as Hx.
  by destruct (fi_errs_all _ _ _ _ _ _ _ Hx i [] e Hi ltac:(done) Ho) as [?%elem_of_nil|?].
Qed.

(** ** Two servers, of which the first fails *)

Definition demo_outcome (i : nat) : string * option error :=
  if (i =? 0)%nat then (""%string, Some ErrShutdown) else ("pong"%string, None).
Definition demo_server (i : nat) : string := "tcp@127.0.0.1"%string.
Definition demo_returns (i : nat) : bool := true.

Lemma fan_out_returns_witness :
  (0 <= fmeasure (R := string) (start 2))%nat /\
  (stuck Broadcast true demo_returns demo_outcome demo_server (start 2) ->
   (exists b rs, mn (R := string) (start 2) = MDone b rs) /\
   forall i l, gs (R := string) (start 2) !! i = Some l -> over demo_returns i l) /\
  (forall l, mn (R := string) (start 2) = MWait l -> Forall (fun l => l = []) (gs (R := string) (start 2)) ->
   doneCh (R := string) (start 2) <> []).
Proof.
  apply (fan_out_returns Broadcast true demo_returns demo_outcome demo_server 2 0 (start 2)); [lia|apply fs_refl].
Defined.

(** [Inform], with the goroutine of the failed server through. *)
Definition demo_informed : fan (R := string) :=
  MkFan [[]; [ACall]] [false] 2 [ErrShutdown] None [MkReceipt "127.0.0.1" (Some ""%string) SharedMultiError] (MWait 2).

Lemma demo_informed_reach : freach Inform true demo_returns demo_outcome demo_server 2 demo_informed.
Proof.
  eapply fr_step; [eapply fr_step; [eapply fr_step; [eapply fr_step; [apply fr_start|]|]|]|].
  - apply (go_act Inform true demo_returns demo_outcome demo_server 0 ACall []); reflexivity.
  - apply (go_act Inform true demo_returns demo_outcome demo_server 0 ASend [AAppend; AReceipt]); [reflexivity|cbn; lia].
  - apply (go_act Inform true demo_returns demo_outcome demo_server 0 AAppend [AReceipt]); [reflexivity|done].
  - refine (go_act Inform true demo_returns demo_outcome demo_server 0 AReceipt [] _ _ _); [reflexivity|done].
Qed.

Lemma fan_out_sound_witness :
  ErrShutdown ∈ errs demo_informed /\
  MkReceipt "127.0.0.1" (Some ""%string) SharedMultiError ∈ receipts demo_informed.
Proof.
  destruct (fan_out_sound Inform true demo_returns demo_outcome demo_server 2 demo_informed)
    as (_ & _ & _ & _ & Hg & _); [lia|exact demo_informed_reach|].
  destruct (Hg 0%nat eq_refl) as (He & _ & Hr). split; [by apply He|exact (Hr eq_refl)].
Defined.

Lemma broadcast_false_success_witness :
  exists x, freach Broadcast true demo_returns demo_outcome demo_server 2 x /\ mn x = MDone true [] /\ errs x = [].
Proof.
  apply (broadcast_false_success Broadcast true demo_returns demo_outcome demo_server 2 0 ErrShutdown);
    [lia|reflexivity|reflexivity|by left].
Defined.
