(* ===== verification/XClientConc.v ===== *)
(** client/xclient.go with many goroutines: one xClient whose methods run at the same time.

    Every part of a method that runs between taking and releasing [c.mu], and every operation
    outside it that touches shared state, is one step; the steps of all goroutines are
    interleaved by a schedule, together with changes of the world (connections that die). The
    parts are those of XClient, which runs one method at a time: [solo_select] and [solo_fan]
    show that a goroutine that runs alone does what is defined there. A fan-out keeps [c.mu]
    while it waits for connections. *)

From S2P Require Import Prelude GoStd Share Breaker Message Hooks ClientPlugins Selector XClient XClientProofs XClientInv FanOut.

(** ** golang.org/x/sync/singleflight *)

(** A group: [sf_join k] is the call that a [Do] with key [k] would wait for; [sf_start] and
    [sf_finish] are the start and the end of a call's function. The caller names the calls. *)
Class Singleflight (G : Type) := {
  sf_new : G;
  sf_join : string -> G -> option nat;
  sf_start : string -> nat -> G -> G;
  sf_finish : string -> nat -> G -> G;
  sf_Forget : string -> G -> G;
}.

(** What its documentation says: a duplicate waits for the call in flight, until that call ends
    or the key is forgotten. *)
Class SingleflightOk (G : Type) `{Singleflight G} : Prop := {
  sf_join_new k : sf_join k sf_new = None;
  sf_join_start k id g k' : sf_join k g = None ->
    sf_join k' (sf_start k id g) = if decide (k' = k) then Some id else sf_join k' g;
  sf_join_finish k id g k' :
    sf_join k' (sf_finish k id g) =
      if decide (k' = k /\ sf_join k g = Some id) then None else sf_join k' g;
  sf_join_forget k g k' : sf_join k' (sf_Forget k g) = if decide (k' = k) then None else sf_join k' g;
}.

Module XConc.

(** ** Goroutines *)

(** Whether the search for a client runs in [selectClient] or in the loop of a fan-out, which
    has servers left, clients, and clients that are new. *)
Inductive holder := Alone | InFan (todo : list string) (clients : list (string * nat)) (fresh : list nat).

(** What a method returned. *)
Inductive outcome :=
  | RClient (k : string) (c : option nat) (e : option error)
  | RFan (r : list (string * nat) + error)
  | RErr (e : option error)
  | RUnit
  | RPanic (why : string).

Section Conc.
Context {W A R B G : Type} `{BreakerOps B} `{RPCClients W A R} `{SelectorObj W A} `{SF : Singleflight G} {SFok : SingleflightOk G}.
Context (option_ : xOption (B := B)) (servicePath : string).
Context (Plugins : pluginContainer W nat A R).
Context (builders : gmap string (CacheClientBuilder W)).
(** The service method that goroutine [i] calls. *)
Context (method_of : nat -> string).
Local Abbreviation xc := (xClient (W := W) (B := B)).
Local Abbreviation X := (Go xc).

(** Where a goroutine is: [selectClient] up to [PSticky], with [getCachedClient] from [PShut] to
    [PConnected]; the start of the fan-outs ([PFan], [PLock], [PTell]), which run
    [getCachedClientWithoutLock] from [PFind] to [PForget]; [removeClient] ([PRemove],
    [PClosing]); [Close]; a round of [watch]. *)
Inductive pc :=
  | PSelect (args : A)
  | PShut (k : string)
  | PBreaker (k : string)
  | PFind (h : holder) (k : string)
  | PNeeds (h : holder) (k : string) (client : option nat)
  | PDo (h : holder) (k : string)
  | PRun (h : holder) (k : string) (id : nat)
  | PWait (h : holder) (k : string) (id : nat)
  | PGot (h : holder) (k : string) (r : res nat)
  | PStore (h : holder) (k : string) (c : nat)
  | PForget (h : holder) (k : string) (c : nat)
  | PConnected (k : string) (c : nat)
  | PSticky (k : string) (c : nat)
  | PFan (ctx : Ctx)
  | PLock
  | PTell (clients : list (string * nat)) (fresh : list nat)
  | PRemove (k : string) (client : option nat)
  | PClosing (client : option nat)
  | PClose
  | PWatch (pairs : list (string * string))
  | PDone (o : outcome).

(** [cmu] is the goroutine that holds the mutex between its steps; [ccalls] lists the calls of
    the group, by their names, with their keys and what they returned. *)
Record sys := MkSys {
  cx : xc;
  cmu : option nat;
  cgroup : G;
  ccalls : list (string * option (res nat));
  cgs : list pc;
}.

Definition set_x (x : xc) (s : sys) : sys := MkSys x (cmu s) (cgroup s) (ccalls s) (cgs s).
Definition set_mu (m : option nat) (s : sys) : sys := MkSys (cx s) m (cgroup s) (ccalls s) (cgs s).
Definition set_group (g : G) (s : sys) : sys := MkSys (cx s) (cmu s) g (ccalls s) (cgs s).
Definition set_calls (l : list (string * option (res nat))) (s : sys) : sys :=
  MkSys (cx s) (cmu s) (cgroup s) l (cgs s).
Definition goto (i : nat) (p : pc) (s : sys) : sys :=
  MkSys (cx s) (cmu s) (cgroup s) (ccalls s) (<[i := p]> (cgs s)).

(** An operation on the xClient, and what follows it. A panic ends the goroutine. *)
Definition run {T} (i : nat) (m : X T) (next : T -> sys -> sys) (s : sys) : sys :=
  let '(x, r) := m (cx s) in
  match r with
  | Ok a => next a (set_x x s)
  | Er e => goto i (PDone (RPanic (Error_text e))) (set_x x s)
  | Panic why => goto i (PDone (RPanic why)) (set_x x s)
  end.

(** The same with [c.mu] taken and released; these parts do not defer the release. *)
Definition run_locked {T} (i : nat) (m : X T) (next : T -> sys -> sys) (s : sys) : option sys :=
  match cmu s with
  | Some _ => None
  | None => Some (run i m (fun a s => next a (set_mu None s)) (set_mu (Some i) s))
  end.

(** Under the lock that a fan-out already has, or taking it. *)
Definition run_held {T} (h : holder) (i : nat) (m : X T) (next : T -> sys -> sys) (s : sys) : option sys :=
  match h with
  | Alone => run_locked i m next s
  | InFan _ _ _ => if decide (cmu s = Some i) then Some (run i m next s) else None
  end.

(** ** The parts of the methods *)

(** [selectClient] up to its first [Unlock]: the sticky client, or the selected server. *)
Definition select_locked (sm : string) (args : A) : X (string * nat + string) :=
  x ← get;
  let sticky :=
    if Sticky option_ then
      match stickyRPCClient x with
      | Some c => if live c (xworld x) then Some c else None
      | None => None
      end
    else None in
  _ ← (if Sticky option_ then modify (with_sticky (stickyK x) sticky) else mret tt);
  match sticky with
  | Some c => mret (inl (stickyK x, c))
  | None => k ← selectServer Plugins servicePath sm args; mret (inr k)
  end.

(** Its second critical section. *)
Definition sticky_locked (k : string) (c : nat) : X unit :=
  x ← get;
  _ ← safeCloseClient (stickyRPCClient x);
  modify (with_sticky k (Some c)).

(** [removeClient] under the lock, and after it. *)
Definition remove_locked (k sm : string) (client : option nat) : X unit :=
  _ ← (if Sticky option_ then modify (with_sticky "" None) else mret tt);
  cl ← findCachedClient builders k servicePath sm;
  if decide (cl = client) then deleteCachedClient builders client k servicePath sm else mret tt.

Definition remove_rest (client : option nat) : X unit :=
  match client with
  | Some c => _ ← upd_world (rpc_UnregisterServerMessageChan c); close_client c
  | None => mret tt
  end.

(** The loop of a fan-out goes on with the next server; after the last it releases the lock. *)
Definition fan_next (i : nat) (todo : list string) (clients : list (string * nat)) (fresh : list nat)
    (s : sys) : sys :=
  match todo with
  | [] => goto i (PTell clients fresh) (set_mu None s)
  | k :: todo => goto i (PFind (InFan todo clients fresh) k) s
  end.

(** [getCachedClient] returned a client, to [selectClient]. *)
Definition selected_client (i : nat) (k : string) (client : option nat) (s : sys) : sys :=
  match client with
  | Some c => goto i (if Sticky option_ then PSticky k c else PDone (RClient k (Some c) None)) s
  | None => goto i (PDone (RClient k None None)) s
  end.

(** A client that was there, and an error. *)
Definition found (i : nat) (h : holder) (k : string) (client : option nat) (s : sys) : sys :=
  match h with
  | Alone => selected_client i k client s
  | InFan todo clients fresh =>
      fan_next i todo (match client with Some c => clients ++ [(k, c)] | None => clients end) fresh s
  end.

Definition failed (i : nat) (h : holder) (k : string) (err : error) (s : sys) : sys :=
  match h with
  | Alone => goto i (PDone (RClient k None (Some err))) s
  | InFan todo clients fresh => fan_next i todo clients fresh s
  end.

(** The next step of goroutine [i]; [None] when it cannot run. [ks] is the order in which a
    fan-out iterates over the servers. *)
Definition turn (i : nat) (ks : list string) (p : pc) (s : sys) : option sys :=
  let sm := method_of i in
  match p with
  | PSelect args =>
      run_locked i (select_locked sm args)
        (fun r => match r with
                  | inl (k, c) => goto i (PDone (RClient k (Some c) None))
                  | inr k =>
                      if bool_decide (k = ""%string)
                      then goto i (PDone (RClient "" None (Some ErrXClientNoServer)))
                      else goto i (PShut k)
                  end) s
  | PShut k =>
      Some (goto i (if isShutdown (cx s) then PDone (RClient k None (Some errXClientClosed)) else PBreaker k) s)
  | PBreaker k =>
      Some (run i (breakerReady k)
        (fun ok => goto i (if ok : bool then PFind Alone k else PDone (RClient k None (Some ErrBreakerOpen)))) s)
  | PFind h k =>
      run_held h i (usable_or_evict builders k servicePath sm)
        (fun '(client, usable) => if usable : bool then found i h k client else goto i (PNeeds h k client)) s
  | PNeeds h k client =>
      Some (if needs_new client (xworld (cx s)) then goto i (PDo h k) s else found i h k client s)
  | PDo h k =>
      Some match sf_join k (cgroup s) with
           | Some id => goto i (PWait h k id) s
           | None =>
               let id := length (ccalls s) in
               goto i (PRun h k id)
                 (set_calls (ccalls s ++ [(k, None)]) (set_group (sf_start k id (cgroup s)) s))
           end
  | PRun h k id =>
      Some (run i (generateClient option_ builders k servicePath sm)
        (fun r s => goto i (PGot h k r)
           (set_calls (<[id := (k, Some r)]> (ccalls s)) (set_group (sf_finish k id (cgroup s)) s))) s)
  | PWait h k id =>
      match ccalls s !! id with
      | Some (_, Some r) => Some (goto i (PGot h k r) s)
      | _ => None
      end
  | PGot h k r =>
      Some match r with
           | Ok c => run i (upd_world (rpc_RegisterServerMessageChan c)) (fun _ => goto i (PStore h k c)) s
           | Er err => failed i h k err (set_group (sf_Forget k (cgroup s)) s)
           | Panic why => goto i (PDone (RPanic why)) s
           end
  | PStore h k c =>
      run_held h i (setCachedClient builders c k servicePath sm) (fun _ => goto i (PForget h k c)) s
  | PForget h k c =>
      let s := set_group (sf_Forget k (cgroup s)) s in
      Some match h with
           | Alone => goto i (PConnected k c) s
           | InFan todo clients fresh => fan_next i todo (clients ++ [(k, c)]) (fresh ++ [c]) s
           end
  | PConnected k c => Some (run i (clientConnected Plugins c) (fun _ => selected_client i k (Some c)) s)
  | PSticky k c => run_locked i (sticky_locked k c) (fun _ => goto i (PDone (RClient k (Some c) None))) s
  | PFan ctx =>
      Some (if isShutdown (cx s) then goto i (PDone (RFan (inr ErrXClientShutdown))) s
            else run i (prepare ctx) (fun _ => goto i PLock) s)
  | PLock =>
      match cmu s with
      | Some _ => None
      | None =>
          if bool_decide (ks ≡ₚ (map_to_list (servers (cx s))).*1)
          then Some (fan_next i ks [] [] (set_mu (Some i) s)) else None
      end
  | PTell clients [] =>
      Some (goto i (PDone (RFan match clients with [] => inr ErrXClientNoServer | _ => inl clients end)) s)
  | PTell clients (c :: fresh) =>
      Some (run i (clientConnected Plugins c) (fun _ => goto i (PTell clients fresh)) s)
  | PRemove k client => run_locked i (remove_locked k sm client) (fun _ => goto i (PClosing client)) s
  | PClosing client => Some (run i (remove_rest client) (fun _ => goto i (PDone RUnit)) s)
  | PClose => run_locked i Close (fun e => goto i (PDone (RErr e))) s
  | PWatch pairs => run_locked i (watch option_ pairs) (fun _ => goto i (PDone RUnit)) s
  | PDone _ => None
  end.

(** A turn of a goroutine, or a change of the world around the xClient. *)
Inductive event := Turn (i : nat) (ks : list string) | World (f : W -> W).

Definition try_turn (i : nat) (ks : list string) (s : sys) : option sys :=
  p ← cgs s !! i; turn i ks p s.

Definition cstep (s : sys) (e : event) : sys :=
  match e with
  | Turn i ks => default s (try_turn i ks s)
  | World f => set_x (with_world (f (xworld (cx s))) (cx s)) s
  end.

Definition crun (es : list event) (s : sys) : sys := foldl cstep s es.

Definition start (x : xc) (ps : list pc) : sys := MkSys x None sf_new [] ps.
(** ** A goroutine that runs alone *)

(** Steps of goroutine [i], and nothing else. *)
Definition alone (i : nat) (ks : list string) (s s' : sys) : Prop := try_turn i ks s = Some s'.

(** Goroutine [i] is at [p], the mutex is as [m] says, and no call is in flight. *)
Record stands (i : nat) (p : pc) (x : xc) (m : option nat) (s : sys) : Prop := MkStands {
  st_pc : cgs s !! i = Some p;
  st_x : cx s = x;
  st_mu : cmu s = m;
  st_join k : sf_join k (cgroup s) = None;
}.

Definition held_by (h : holder) (i : nat) : option nat := match h with Alone => None | InFan _ _ _ => Some i end.

Lemma stands_goto i p q x m s : stands i p x m s -> stands i q x m (goto i q s).
Proof using Type.
  intros [Hp Hx Hm Hj]. split; [|done..]. cbn. apply list_lookup_insert_eq. by eapply lookup_lt_Some.
Qed.
Lemma stands_set_x i p x x' m s : stands i p x m s -> stands i p x' m (set_x x' s).
Proof using Type. by intros [Hp Hx Hm Hj]. Qed.
Lemma stands_set_mu i p x m m' s : stands i p x m s -> stands i p x m' (set_mu m' s).
Proof using Type. by intros [Hp Hx Hm Hj]. Qed.

(** What the goroutine comes to. *)
Definition reaches (i : nat) (ks : list string) (s : sys) (Q : sys -> Prop) : Prop :=
  exists s', rtc (alone i ks) s s' /\ Q s'.

Lemma reaches_now i ks s (Q : sys -> Prop) : Q s -> reaches i ks s Q.
Proof using Type. intros HQ. by exists s. Qed.

Lemma reaches_turn i ks p x m s s1 Q :
  stands i p x m s -> turn i ks p s = Some s1 -> reaches i ks s1 Q -> reaches i ks s Q.
Proof using Type.
  intros Hs Ht (s2 & Hr & HQ). exists s2. split; [|done]. eapply rtc_l; [|exact Hr].
  unfold alone, try_turn. by rewrite (st_pc _ _ _ _ _ Hs).
Qed.

Lemma reaches_mono i ks s (P Q : sys -> Prop) :
  reaches i ks s P -> (forall s', P s' -> reaches i ks s' Q) -> reaches i ks s Q.
Proof using Type.
  intros (s1 & H1' & HP) HQ. destruct (HQ s1 HP) as (s2 & H2' & ?). exists s2. split; [|done]. by etrans.
Qed.

(** The parts under the lock, seen from a goroutine that may take it. *)
Lemma run_held_alone {T} h i (m : X T) next p x s x' r :
  stands i p x (held_by h i) s -> m x = (x', r) ->
  exists s', run_held h i m next s = Some s' /\
    match r with
    | Ok a => exists s1, stands i p x' (held_by h i) s1 /\ s' = next a s1
    | Er e => stands i (PDone (RPanic (Error_text e))) x' (Some i) s'
    | Panic why => stands i (PDone (RPanic why)) x' (Some i) s'
    end.
Proof using Type.
  intros Hs Hm. pose proof Hs as [Hp Hx Hmu Hj]. unfold run_held, run_locked, run.
  destruct h as [|todo cl fr]; cbn [held_by] in Hmu; rewrite Hmu.
  - eexists. split; [reflexivity|]. cbn. rewrite Hx, Hm. destruct r as [a|e|why].
    + eexists. split; [|reflexivity]. by eapply stands_set_mu, stands_set_x, stands_set_mu.
    + by eapply stands_goto, stands_set_x, stands_set_mu.
    + by eapply stands_goto, stands_set_x, stands_set_mu.
  - rewrite decide_True by done. eexists. split; [reflexivity|]. rewrite Hx, Hm. destruct r as [a|e|why].
    + eexists. split; [|reflexivity]. by eapply stands_set_x.
    + eapply stands_goto. by eapply stands_set_x.
    + eapply stands_goto. by eapply stands_set_x.
Qed.

Lemma run_alone {T} i (m : X T) next p x mu s x' a :
  stands i p x mu s -> m x = (x', Ok a) ->
  exists s1, stands i p x' mu s1 /\ run i m next s = next a s1.
Proof using Type.
  intros Hs Hm. pose proof Hs as [Hp Hx Hmu Hj]. unfold run. rewrite Hx, Hm.
  eexists. split; [|reflexivity]. by eapply stands_set_x.
Qed.

(** The flight of a lone goroutine: it starts the call and ends it. *)
Lemma flight_alone i ks h k x m s x' r Q :
  stands i (PDo h k) x m s -> generateClient option_ builders k servicePath (method_of i) x = (x', Ok r) ->
  (forall s', stands i (PGot h k r) x' m s' -> reaches i ks s' Q) -> reaches i ks s Q.
Proof using SFok.
  intros Hs Hg HQ. pose proof Hs as [Hp Hx Hm Hj].
  eapply reaches_turn; [exact Hs|cbn; rewrite Hj; reflexivity|].
  set (id := length (ccalls s)). set (s1 := goto _ _ _).
  assert (cgs s1 !! i = Some (PRun h k id)) as Hp1.
  { cbn. apply list_lookup_insert_eq. by eapply lookup_lt_Some. }
  set (s2 := goto i (PGot h k r) (set_calls (<[id := (k, Some r)]> (ccalls s1))
    (set_group (sf_finish k id (cgroup s1)) (set_x x' s1)))).
  assert (try_turn i ks s1 = Some s2) as Ht.
  { unfold try_turn. rewrite Hp1. cbn. unfold run. cbn. by rewrite Hx, Hg. }
  assert (stands i (PGot h k r) x' m s2) as Hs2.
  { split; [cbn; apply list_lookup_insert_eq; by eapply lookup_lt_Some|done|done|].
    intros k'. cbn. rewrite sf_join_finish, !sf_join_start by done.
    destruct (decide (k = k)) as [_|]; [|done]. case_decide as Hd; [done|].
    destruct (decide (k' = k)) as [->|]; [by destruct Hd|apply Hj]. }
  destruct (HQ s2 Hs2) as (s3 & H3' & HQ3). exists s3. split; [|done]. eapply rtc_l; [exact Ht|exact H3'].
Qed.

(** From [PDo] on, a lone goroutine makes a client as [make_client] does. *)
Lemma make_alone i ks h k x s Q :
  stands i (PDo h k) x (held_by h i) s ->
  (forall s', match make_client option_ builders k servicePath (method_of i) x with
     | (x', Ok (Some c, None)) => stands i (PForget h k c) x' (held_by h i) s' -> reaches i ks s' Q
     | (x', Ok (None, Some err)) => forall p, stands i p x' (held_by h i) s' -> reaches i ks (failed i h k err s') Q
     | (x', Panic why) => stands i (PDone (RPanic why)) x' (held_by h i) s' -> reaches i ks s' Q
     | _ => True
     end) -> reaches i ks s Q.
Proof using SFok.
  intros Hs HQ. destruct (generateClient option_ builders k servicePath (method_of i) x) as [x1 [r|e|why]] eqn:Hg.
  2,3: exfalso; revert Hg; unfold generateClient, on_world; gocbn; repeat (split_match; gocbn); discriminate.
  eapply flight_alone; [exact Hs|exact Hg|]. intros s1 Hs1.
  revert HQ. unfold make_client. unfold mbind at 1, go_bind at 1. rewrite Hg. intros HQ. destruct r as [c|e|why].
  - gocbn_in HQ.
    destruct (run_alone i (upd_world (rpc_RegisterServerMessageChan c)) (fun _ => goto i (PStore h k c)) _ _ _ s1
      (with_world (rpc_RegisterServerMessageChan c (xworld x1)) x1) tt Hs1 eq_refl) as (s2 & Hs2 & Hr2).
    eapply reaches_turn; [exact Hs1|cbn [turn]; rewrite Hr2; reflexivity|].
    pose proof (stands_goto _ _ (PStore h k c) _ _ _ Hs2) as Hs3.
    set (x2 := with_world _ x1) in *.
    assert (exists x3, setCachedClient builders c k servicePath (method_of i) x2 = (x3, Ok tt)) as [x3 Hc].
    { unfold setCachedClient. destruct (builder_of builders k); by eexists. }
    destruct (run_held_alone h i (setCachedClient builders c k servicePath (method_of i))
      (fun _ => goto i (PForget h k c)) _ _ _ _ _ Hs3 Hc) as (s4 & Hr4 & s5 & Hs5 & ->).
    eapply reaches_turn; [exact Hs3|cbn [turn]; exact Hr4|].
    apply stands_goto with (q := PForget h k c) in Hs5. revert HQ Hs5. 
    change (upd_world (rpc_RegisterServerMessageChan c) x1) with (x2, Ok tt).
    cbn -[setCachedClient]. rewrite Hc. cbn. intros HQ Hs5. by apply HQ.
  - eapply reaches_turn; [exact Hs1|reflexivity|]. gocbn_in HQ.
    eapply HQ. destruct Hs1 as [Hp1 Hx1 Hm1 Hj1]. split; [exact Hp1|exact Hx1|exact Hm1|].
    intros k'. cbn. rewrite sf_join_forget. case_decide; [done|apply Hj1].
  - eapply reaches_turn; [exact Hs1|reflexivity|]. apply HQ. by eapply stands_goto.
Qed.

Lemma usable_total k sm (x : xc) :
  exists x' c u, usable_or_evict builders k servicePath sm x = (x', Ok (c, u)).
Proof using Type.
  unfold usable_or_evict, findCachedClient, deleteCachedClient, close_client, on_world. gocbn.
  repeat (split_match; gocbn); by eexists _, _, _.
Qed.

(** The search of a lone goroutine, in [selectClient] or in a fan-out. *)
Definition search (k sm : string) : X (option nat * bool * option error) :=
  '(client, usable) ← usable_or_evict builders k servicePath sm;
  x ← get;
  if usable : bool then mret (client, false, None)
  else if needs_new client (xworld x) then
    '(client, err) ← make_client option_ builders k servicePath sm;
    mret (client, true, err)
  else mret (client, false, None).

Lemma search_shape k sm x x' c fresh err :
  search k sm x = (x', Ok (c, fresh, err)) ->
  match c, fresh, err with _, false, None | Some _, true, None | None, true, Some _ => True | _, _, _ => False end.
Proof using Type.
  unfold search. intros (x1 & [c1 u] & _ & Hr)%go_bind_inv_Ok. gocbn_in Hr.
  destruct u; [injection Hr as _ <- <- <-; by destruct c1|].
  destruct (needs_new c1 (xworld x1)); [|injection Hr as _ <- <- <-; by destruct c1].
  destruct (make_client option_ builders k servicePath sm x1) as [x2 [[c2 e2]|e|why]] eqn:Hm; [|done..].
  pose proof (make_client_paired _ _ _ _ _ _ _ _ _ Hm) as Hp.
  injection Hr as _ <- <- <-. by destruct c2, e2.
Qed.

Lemma search_alone i ks h k x s Q :
  stands i (PFind h k) x (held_by h i) s ->
  (forall s', match search k (method_of i) x with
     | (x', Ok (client, false, _)) => forall p, stands i p x' (held_by h i) s' -> reaches i ks (found i h k client s') Q
     | (x', Ok (Some c, true, _)) => stands i (PForget h k c) x' (held_by h i) s' -> reaches i ks s' Q
     | (x', Ok (None, true, Some err)) =>
         forall p, stands i p x' (held_by h i) s' -> reaches i ks (failed i h k err s') Q
     | (x', Panic why) => forall m, stands i (PDone (RPanic why)) x' m s' -> reaches i ks s' Q
     | _ => True
     end) -> reaches i ks s Q.
Proof using SFok.
  intros Hs HQ. destruct (usable_total k (method_of i) x) as (x1 & client & usable & Hu).
  destruct (run_held_alone h i (usable_or_evict builders k servicePath (method_of i))
    (fun '(client, usable) => if usable : bool then found i h k client else goto i (PNeeds h k client))
    _ _ _ _ _ Hs Hu) as (s1 & Hr1 & s2 & Hs2 & ->).
  eapply reaches_turn; [exact Hs|cbn [turn]; exact Hr1|]. unfold search in HQ.
  unfold mbind at 1, go_bind at 1 in HQ. rewrite Hu in HQ. gocbn_in HQ. destruct usable.
  { destruct client; by eapply HQ. }
  pose proof (stands_goto _ _ (PNeeds h k client) _ _ _ Hs2) as Hs3.
  eapply reaches_turn; [exact Hs3|reflexivity|]. rewrite (st_x _ _ _ _ _ Hs3).
  destruct (needs_new client (xworld x1)); [|destruct client; by eapply HQ].
  apply stands_goto with (q := PDo h k) in Hs3. eapply make_alone; [exact Hs3|]. intros s4. specialize (HQ s4).
  destruct (make_client option_ builders k servicePath (method_of i) x1) as [x2 [[[c|] [e|]]|e|why]]; try done.
  all: cbn in HQ; eauto.
Qed.

Lemma getCachedClient_search k sm x :
  isShutdown x = false ->
  getCachedClient option_ Plugins builders k servicePath sm x =
    (ok ← breakerReady k;
     if negb ok then mret (None, Some ErrBreakerOpen)
     else
       '(client, fresh, err) ← search k sm;
       _ ← match client with Some c => if fresh : bool then clientConnected Plugins c else mret tt | None => mret tt end;
       mret (client, err)) x.
Proof using Type.
  intros Hsh. unfold getCachedClient, search. gocbn. rewrite Hsh.
  destruct (breakerReady k x) as [x1 [[]|e|why]]; [|done..]. cbn.
  destruct (usable_or_evict builders k servicePath sm x1) as [x2 [[c []]|e|why]]; [|..|done|done].
  - by destruct c.
  - destruct (needs_new c (xworld x2)); [|by destruct c].
    by destruct (make_client option_ builders k servicePath sm x2) as [x3 [[[c'|] e]|e|why]].
Qed.

Lemma get_alone i ks k x s Q :
  stands i (PShut k) x None s ->
  (forall s', match getCachedClient option_ Plugins builders k servicePath (method_of i) x with
     | (x', Ok (client, None)) => forall p, stands i p x' None s' -> reaches i ks (selected_client i k client s') Q
     | (x', Ok (None, Some err)) => stands i (PDone (RClient k None (Some err))) x' None s' -> reaches i ks s' Q
     | (x', Panic why) => forall m, stands i (PDone (RPanic why)) x' m s' -> reaches i ks s' Q
     | _ => True
     end) -> reaches i ks s Q.
Proof using SFok.
  intros Hs HQ. pose proof Hs as [_ Hx _ _].
  eapply reaches_turn; [exact Hs|reflexivity|]. rewrite Hx. destruct (isShutdown x) eqn:Hsh.
  { revert HQ. unfold getCachedClient. gocbn. rewrite Hsh. intros HQ. apply HQ. by eapply stands_goto. }
  revert HQ. rewrite getCachedClient_search by done. intros HQ.
  pose proof (stands_goto _ _ (PBreaker k) _ _ _ Hs) as Hs1.
  destruct (total_breakerReady (W := W) (B := B) k x) as (x1 & ok & Hb). unfold mbind at 1, go_bind at 1 in HQ.
  rewrite Hb in HQ.
  destruct (run_alone i (breakerReady k) (fun ok => goto i (if ok : bool then PFind Alone k
    else PDone (RClient k None (Some ErrBreakerOpen)))) _ _ _ _ _ _ Hs1 Hb) as (s2 & Hs2 & Hr2).
  eapply reaches_turn; [exact Hs1|cbn [turn]; rewrite Hr2; reflexivity|].
  destruct ok; cbn [negb] in HQ; [|apply HQ; by eapply stands_goto].
  apply stands_goto with (q := PFind Alone k) in Hs2. eapply search_alone; [exact Hs2|].
  intros s3. cbv beta iota delta [mbind go_bind mret go_ret] in HQ. destruct (search k (method_of i) x1) as [x2 [[[client fresh] err]|e|why]] eqn:Hsr; [|done|].
  2:{ intros m Hs3. eapply HQ. exact Hs3. }
  apply search_shape in Hsr. destruct fresh.
  - destruct client as [c|].
    + intros Hs3. eapply reaches_turn; [exact Hs3|reflexivity|].
      pose proof Hs3 as [Hp3 Hx3 Hm3 Hj3].
      assert (stands i (PConnected k c) x2 None (goto i (PConnected k c) (set_group (sf_Forget k (cgroup s3)) s3))) as Hs4.
      { eapply stands_goto. split; [exact Hp3|exact Hx3|exact Hm3|]. intros k'. cbn. rewrite sf_join_forget.
        case_decide; [done|apply Hj3]. }
      destruct (clientConnected Plugins c x2) as [x3 r] eqn:Hc.
      assert (r = Ok tt) as ->.
      { revert Hc. unfold clientConnected, on_world. gocbn. destruct (DoClientConnected Plugins c (xworld x2)). by intros [= _ <-]. }
      destruct (run_alone i (clientConnected Plugins c) (fun _ => selected_client i k (Some c)) _ _ _ _ _ _ Hs4 Hc)
        as (s5 & Hs5 & Hr5).
      eapply reaches_turn; [exact Hs4|cbn [turn]; rewrite Hr5; reflexivity|].
      destruct err as [err|]; [done|]. eapply HQ. exact Hs5.
    + destruct err as [err|]; [|done]. intros p Hs3. apply HQ. by eapply stands_goto.
  - destruct err as [err|]; [by destruct client|]. destruct client; intros p Hs3; eapply HQ; exact Hs3.
Qed.

Lemma selectClient_parts sm args x :
  selectClient option_ Plugins builders servicePath sm args x =
    (r ← select_locked sm args;
     match r with
     | inl (k, c) => mret (k, Some c, None)
     | inr k =>
         if bool_decide (k = ""%string) then mret (""%string, None, Some ErrXClientNoServer)
         else
           '(client, err) ← getCachedClient option_ Plugins builders k servicePath sm;
           _ ← match client with Some c => if Sticky option_ then sticky_locked k c else mret tt | None => mret tt end;
           mret (k, client, err)
     end) x.
Proof using Type.
  unfold selectClient, select_locked. cbv beta iota delta [mbind go_bind mret go_ret get].
  set (st := if Sticky option_ then _ else None).
  destruct ((if Sticky option_ then modify (with_sticky (stickyK x) st) else _) x) as [x1 [[]|e|why]]; [|done..].
  destruct st as [c|]; [done|].
  destruct (selectServer Plugins servicePath sm args x1) as [x2 [k|e|why]]; [|done..].
  case_bool_decide; [done|].
  destruct (getCachedClient option_ Plugins builders k servicePath sm x2) as [x3 [[[c|] e]|e|why]]; [|done..].
  by destruct (Sticky option_).
Qed.

(** A goroutine that runs alone, from a state in which no lock is held and no connection is
    being made, does what [selectClient] of the sequential model does: it comes to the same
    state of the xClient with the same result, and leaves lock and group as they were. *)
Theorem solo_select i args x s :
  stands i (PSelect args) x None s ->
  reaches i [] s (fun s' =>
    match selectClient option_ Plugins builders servicePath (method_of i) args x with
    | (x', Ok (k, c, e)) => stands i (PDone (RClient k c e)) x' None s'
    | (x', Panic why) => exists m, stands i (PDone (RPanic why)) x' m s'
    | (x', Er e) => exists m, stands i (PDone (RPanic (Error_text e))) x' m s'
    end).
Proof using SFok.
  intros Hs. rewrite selectClient_parts.
  destruct (select_locked (method_of i) args x) as [x1 r] eqn:Hl.
  edestruct (run_held_alone Alone i (select_locked (method_of i) args)) as (s1 & Hr1 & Hs1); [exact Hs|exact Hl|].
  eapply reaches_turn; [exact Hs|cbn [turn]; exact Hr1|]. unfold mbind at 1, go_bind at 1. rewrite Hl.
  destruct r as [[[k c]|k]|e|why]; [| |apply reaches_now; by eexists..]; destruct Hs1 as (s2 & Hs2 & ->).
  { apply reaches_now. by eapply stands_goto. }
  case_bool_decide; [apply reaches_now; by eapply stands_goto|].
  eapply get_alone; [by eapply stands_goto|]. intros s3.
  pose proof (getCachedClient_paired option_ Plugins builders k servicePath (method_of i) x1) as Hp.
  cbv beta iota delta [mbind go_bind mret go_ret].
  destruct (getCachedClient option_ Plugins builders k servicePath (method_of i) x1) as [x2 [[c e]|e|why]]; [|done|].
  2:{ intros m Hs3. apply reaches_now. by exists m. }
  specialize (Hp _ _ _ eq_refl). destruct c as [c|], e as [e|]; try done.
  2:{ intros Hs3. by apply reaches_now. }
  intros p Hs3. cbn [selected_client]. destruct (Sticky option_).
  2:{ apply reaches_now. by eapply stands_goto. }
  apply stands_goto with (q := PSticky k c) in Hs3.
  assert (exists x3, sticky_locked k c x2 = (x3, Ok tt)) as [x3 Hk].
  { unfold sticky_locked, safeCloseClient, close_client, on_world. gocbn. destruct (stickyRPCClient x2) as [c'|]; [|by eexists].
    destruct (rpc_Close c' (xworld x2)). by eexists. }
  edestruct (run_held_alone Alone i (sticky_locked k c)) as (s4 & Hr4 & Hs4); [exact Hs3|exact Hk|].
  eapply reaches_turn; [exact Hs3|cbn [turn]; exact Hr4|]. destruct Hs4 as (s5 & Hs5 & ->). rewrite Hk. apply reaches_now. by eapply stands_goto.
Qed.

(** The loop of a fan-out. *)
Lemma loop_alone i ks todo cl fr p x s Q :
  stands i p x (Some i) s ->
  (forall s', match collectClients option_ servicePath builders todo (method_of i) x with
     | (x', Ok (cs, fs)) => stands i (PTell (cl ++ cs) (fr ++ fs)) x' None s' -> reaches i ks s' Q
     | (x', Panic why) => forall m, stands i (PDone (RPanic why)) x' m s' -> reaches i ks s' Q
     | _ => True
     end) -> reaches i ks (fan_next i todo cl fr s) Q.
Proof using SFok.
  revert cl fr p x s. induction todo as [|k todo IH]; intros cl fr p x s Hs HQ.
  { cbn [fan_next]. apply HQ. rewrite !app_nil_r. by eapply stands_goto, stands_set_mu. }
  cbn [fan_next]. eapply search_alone; [by eapply stands_goto|]. intros s1. cbn [collectClients] in HQ.
  assert (getCachedClientWithoutLock option_ builders k servicePath (method_of i) x =
    ('(c, fresh, err) ← search k (method_of i);
     mret (c, match c with Some _ => fresh | None => false end, err)) x) as Hg.
  { unfold getCachedClientWithoutLock, search. gocbn.
    destruct (usable_or_evict builders k servicePath (method_of i) x) as [x1 [[c []]|e|why]]; [by destruct c|..]; try done.
    destruct (needs_new c (xworld x1)); [|by destruct c].
    destruct (make_client option_ builders k servicePath (method_of i) x1) as [x2 [[[c'|] e]|e|why]] eqn:Hm; try done.
    pose proof (make_client_paired _ _ _ _ _ _ _ _ _ Hm). by destruct e. }
  cbv beta iota delta [mbind go_bind mret go_ret] in HQ, Hg. rewrite Hg in HQ. clear Hg.
  destruct (search k (method_of i) x) as [x1 [[[c fresh] err]|e|why]] eqn:Hsr; [|done|].
  2:{ intros m Hs1. eapply HQ. exact Hs1. }
  apply search_shape in Hsr.
  assert (forall s2 p cl' fr', stands i p x1 (Some i) s2 ->
    (forall x2 cs fs, collectClients option_ servicePath builders todo (method_of i) x1 = (x2, Ok (cs, fs)) ->
       forall s', stands i (PTell (cl' ++ cs) (fr' ++ fs)) x2 None s' -> reaches i ks s' Q) ->
    reaches i ks (fan_next i todo cl' fr' s2) Q) as Hnext.
  { intros s2 p2 cl' fr' Hs2 Hok. eapply IH; [exact Hs2|]. intros s3. specialize (HQ s3).
    destruct (collectClients _ _ _ todo (method_of i) x1) as [x2 [[cs fs]|e|why]]; [by eapply Hok|done|].
    by destruct c. }
  destruct c as [c|], fresh, err as [err|]; try done.
  - intros Hs1. eapply reaches_turn; [exact Hs1|reflexivity|]. cbn [held_by] in Hs1. pose proof Hs1 as [Hp1 Hx1 Hm1 Hj1].
    eapply (Hnext _ (PForget (InFan todo cl fr) k c)).
    { split; [exact Hp1|exact Hx1|exact Hm1|]. intros k'. cbn. rewrite sf_join_forget. case_decide; [done|apply Hj1]. }
    intros x2 cs fs Hc s3 Hs3. specialize (HQ s3). rewrite Hc in HQ. apply HQ. by rewrite <- !app_assoc in Hs3.
  - intros p1 Hs1. eapply Hnext; [exact Hs1|]. intros x2 cs fs Hc s3 Hs3. specialize (HQ s3). rewrite Hc in HQ.
    apply HQ. by rewrite <- !app_assoc in Hs3.
  - intros p1 Hs1. eapply Hnext; [exact Hs1|]. intros x2 cs fs Hc s3 Hs3. specialize (HQ s3). rewrite Hc in HQ. by apply HQ.
  - intros p1 Hs1. eapply Hnext; [exact Hs1|]. intros x2 cs fs Hc s3 Hs3. specialize (HQ s3). rewrite Hc in HQ. by apply HQ.
Qed.

Lemma prepare_total ctx (x : xc) : exists x' c, prepare ctx x = (x', Ok c) /\ servers x' = servers x.
Proof using Type.
  unfold prepare, setServerTimeout, on_world. gocbn. destruct (bool_decide _); cbn; (destruct (cx_deadline ctx); cbn);
    try (destruct (rpc_now (xworld x)) as [w t]); eexists _, _; split; reflexivity.
Qed.

Lemma connected_total c (x : xc) : exists x', clientConnected Plugins c x = (x', Ok tt).
Proof using Type. unfold clientConnected, on_world. gocbn. destruct (DoClientConnected Plugins c (xworld x)). by eexists. Qed.

Lemma tell_alone i ks cl fr x s Q :
  stands i (PTell cl fr) x None s ->
  (forall s' x', foldr (fun c rest => _ ← clientConnected Plugins c; rest) (mret tt) fr x = (x', Ok tt) ->
     stands i (PDone (RFan match cl with [] => inr ErrXClientNoServer | _ => inl cl end)) x' None s' ->
     reaches i ks s' Q) -> reaches i ks s Q.
Proof using Type.
  revert x s. induction fr as [|c fr IH]; intros x s Hs HQ; (eapply reaches_turn; [exact Hs|reflexivity|]).
  - eapply HQ; [reflexivity|]. by eapply stands_goto.
  - destruct (connected_total c x) as [x1 Hc].
    destruct (run_alone i (clientConnected Plugins c) (fun _ => goto i (PTell cl fr)) _ _ _ _ _ _ Hs Hc) as (s1 & Hs1 & ->).
    eapply IH; [by eapply stands_goto|]. intros s' x' Hf. apply HQ. cbn [foldr]. by rewrite (go_bind_Ok _ _ _ _ _ Hc).
Qed.

(** The same for the fan-outs, when they iterate over the servers in the order [ks]. *)
Theorem solo_fan i ks ctx x s :
  ks ≡ₚ (map_to_list (servers x)).*1 -> stands i (PFan ctx) x None s ->
  reaches i ks s (fun s' =>
    match fanClients option_ servicePath Plugins builders ks ctx (method_of i) x with
    | (x', Ok r) => stands i (PDone (RFan r)) x' None s'
    | (x', Panic why) => exists m, stands i (PDone (RPanic why)) x' m s'
    | (x', Er e) => True
    end).
Proof using SFok.
  intros Hks Hs. unfold fanClients. cbv beta iota delta [mbind go_bind get mret go_ret].
  pose proof (st_x _ _ _ _ _ Hs) as Hx. destruct (isShutdown x) eqn:Hsh.
  { eapply reaches_turn; [exact Hs|cbn [turn]; rewrite Hx, Hsh; reflexivity|]. apply reaches_now. by eapply stands_goto. }
  destruct (prepare_total ctx x) as (x1 & c1 & Hp & Hsv). rewrite Hp.
  destruct (run_alone i (prepare ctx) (fun _ => goto i PLock) _ _ _ _ _ _ Hs Hp) as (s1 & Hs1 & Hr1).
  eapply reaches_turn; [exact Hs|cbn [turn]; rewrite Hx, Hsh, Hr1; reflexivity|].
  apply stands_goto with (q := PLock) in Hs1. pose proof Hs1 as [_ Hx1 Hm1 _].
  eapply reaches_turn; [exact Hs1|cbn [turn]; rewrite Hm1, Hx1, Hsv, bool_decide_eq_true_2 by done; reflexivity|].
  eapply loop_alone; [by eapply stands_set_mu|]. intros s2.
  destruct (collectClients option_ servicePath builders ks (method_of i) x1) as [x2 [[cs fs]|e|why]]; [|done|].
  2:{ intros m Hs2. apply reaches_now. by exists m. }
  intros Hs2. eapply tell_alone; [exact Hs2|]. intros s3 x3 Hf Hs3. apply reaches_now.
  cbv beta iota delta [mbind go_bind mret go_ret app] in Hf. rewrite Hf. by destruct cs.
Qed.
End Conc.
End XConc.
