(* ===== verification/XConcInv.v ===== *)
(** The methods of one xClient at the same time (XClientConc.v): what holds in every
    interleaving, and why every method returns.

    The connections, the selector and the group are used through their laws only. *)

From S2P Require Import Prelude GoStd Share Breaker Message Hooks ClientPlugins Selector XClient XClientProofs XClientInv FanOut XClientConc.

Module XConcInv.
Import XConc.

Section Inv.
Context {W A R B G : Type} `{BreakerOps B} `{RPCClients W A R} `{SelectorObj W A}.
Context `{SF : Singleflight G} {SFok : SingleflightOk G}.
Context (addr_of : W -> nat -> option (string * string)) (offers : W -> gset string -> Prop).
Context {laws : XLaws W A R addr_of offers}.
Context (option_ : xOption (B := B)) (servicePath : string) (method_of : nat -> string).
Local Abbreviation xc := (xClient (W := W) (B := B)).
Local Abbreviation X := (Go xc).
Local Abbreviation no_builders := (∅ : gmap string (CacheClientBuilder W)).
Local Abbreviation no_plugins := ([] : pluginContainer W nat A R).
Local Abbreviation sys := (sys (W := W) (A := A) (B := B) (G := G)).
Local Abbreviation pc := (pc (A := A)).
Local Abbreviation XInv := (XInv addr_of offers).
Local Abbreviation turn := (turn option_ servicePath no_plugins no_builders method_of).
Local Abbreviation try_turn := (try_turn option_ servicePath no_plugins no_builders method_of).
Local Abbreviation cstep := (cstep option_ servicePath no_plugins no_builders method_of).
Local Abbreviation crun := (crun option_ servicePath no_plugins no_builders method_of).

(** ** Operations keep connections where they lead *)

Definition agrows (w w' : W) : Prop := forall c a, addr_of w c = Some a -> addr_of w' c = Some a.

Lemma agrows_refl w : agrows w w.
Proof using Type. by intros c a. Qed.
Lemma agrows_trans w1 w2 w3 : agrows w1 w2 -> agrows w2 w3 -> agrows w1 w3.
Proof using Type. intros H1' H2' c a Ha. by apply H2', H1'. Qed.

Definition Mono {T} (m : X T) : Prop := forall x, agrows (xworld x) (xworld (fst (m x))).

Lemma mono_ret {T} (a : T) : Mono (mret a).
Proof using Type. intros x. apply agrows_refl. Qed.
Lemma mono_get : Mono get.
Proof using Type. intros x. apply agrows_refl. Qed.
Lemma mono_panic {T} why : Mono (panic (A := T) why).
Proof using Type. intros x. apply agrows_refl. Qed.
Lemma mono_modify f : (forall x, xworld (f x) = xworld x) -> Mono (modify f).
Proof using Type. intros Hf x. cbn. rewrite Hf. apply agrows_refl. Qed.
Lemma mono_find k sp sm : Mono (findCachedClient no_builders k sp sm).
Proof using Type. intros x. apply agrows_refl. Qed.
Lemma mono_world {T} (f : W -> W * T) : (forall w, grows addr_of offers w (fst (f w))) -> Mono (on_world f).
Proof using Type.
  intros Hf x. unfold on_world. specialize (Hf (xworld x)). destruct (f (xworld x)) as [w t]. exact (proj1 Hf).
Qed.
Lemma mono_upd f : (forall w, grows addr_of offers w (f w)) -> Mono (upd_world f).
Proof using Type. intros Hf x. exact (proj1 (Hf (xworld x))). Qed.
Lemma mono_bind {T U} (m : X T) (k : T -> X U) : Mono m -> (forall a, Mono (k a)) -> Mono (m ≫= k).
Proof using Type.
  intros Hm Hk x. unfold mbind, go_bind. specialize (Hm x).
  destruct (m x) as [x' [a|e|w]]; cbn in *; [|done|done]. eapply agrows_trans; [exact Hm|apply Hk].
Qed.

Lemma connect_grows n a w : grows addr_of offers w (fst (rpc_Connect n a w)).
Proof using laws.
  pose proof (xl_connect (XLaws := laws) n a w) as Hc.
  destruct (rpc_Connect n a w) as [w' [c|e|why]]; [by destruct Hc|done|done].
Qed.

Create HintDb monodb.
Hint Resolve mono_ret mono_get mono_panic mono_find : monodb.
Hint Extern 1 (grows _ _ _ _) =>
  first [apply xl_close | apply xl_unregister | apply xl_now | apply xl_register | apply connect_grows] : monodb.

Ltac mono_solve :=
  repeat first
    [ solve [eauto with monodb]
    | apply mono_modify; done
    | apply mono_bind; [|intros ?]
    | apply mono_world; intros ?
    | apply mono_upd; intros ?
    | match goal with |- Mono (match ?b with _ => _ end) => destruct b end ].

(** An operation that returns something with [P] from a state with the invariant, and changes
    neither the servers nor where a connection leads. *)
Definition does {T} (m : X T) (P : T -> xc -> Prop) : Prop :=
  forall x, XInv x -> selectorSet x = true ->
    exists x' a, m x = (x', Ok a) /\ XInv x' /\ agrows (xworld x) (xworld x') /\ config x' = config x /\ P a x'.

Lemma does_yields {T} (m : X T) P : yields addr_of offers m P -> Mono m -> does m P.
Proof using Type.
  intros Hy Hm x Hx _. destruct (Hy x Hx) as (x' & a & Hr & Hx' & Hc & HP). exists x', a.
  specialize (Hm x). rewrite Hr in Hm. by split_and!.
Qed.

Lemma does_keeps {T} (m : X T) : Total m -> Keeps addr_of offers m -> Mono m -> does m (fun _ _ => True).
Proof using Type. intros Ht Hk Hm. apply does_yields; [|done]. by apply yields_keeps. Qed.

(** Where a connection leads, at a state. *)
Definition leads (w : W) (k : string) (c : nat) : Prop := addr_of w c = Some (splitNetworkAndAddress k).

Lemma nob k : builder_of no_builders k = None.
Proof using Type. unfold builder_of. apply lookup_empty. Qed.

Lemma mono_close_client c : Mono (close_client c).
Proof using laws. unfold close_client. mono_solve. Qed.
Hint Resolve mono_close_client : monodb.

Lemma does_breaker k : does (breakerReady k) (fun _ _ => True).
Proof using laws.
  apply does_keeps; [exact (total_breakerReady k)|exact (keeps_breakerReady addr_of offers k)|].
  unfold breakerReady. mono_solve.
Qed.

Lemma does_usable k sm :
  does (usable_or_evict no_builders k servicePath sm)
    (fun '(c, usable) x => if usable then exists c', c = Some c' /\ leads (xworld x) k c' else c = None).
Proof using laws.
  intros x Hx Hs. destruct (usable_yields addr_of offers k servicePath sm x Hx) as (x' & [c u] & Hr & Hx' & Hc & Hu).
  assert (Mono (usable_or_evict no_builders k servicePath sm)) as Hm.
  { unfold usable_or_evict, deleteCachedClient. rewrite nob. mono_solve. }
  exists x', (c, u). specialize (Hm x). rewrite Hr in Hm. split_and!; try done.
  destruct u; [|done]. destruct Hu as (c' & -> & _ & Ha). by exists c'.
Qed.

Lemma does_generate k sm :
  does (generateClient option_ no_builders k servicePath sm)
    (fun r x => match r with Ok c => leads (xworld x) k c | Er _ => True | Panic _ => False end).
Proof using laws.
  intros x Hx Hs. destruct (generateClient_yields addr_of offers option_ k servicePath sm x Hx) as (x' & r & Hr & Hx' & Hc & Hg).
  assert (Mono (generateClient option_ no_builders k servicePath sm)) as Hm.
  { unfold generateClient. rewrite nob. destruct (splitNetworkAndAddress k). mono_solve. }
  exists x', r. specialize (Hm x). rewrite Hr in Hm. split_and!; try done. destruct r; [apply Hg|done|done].
Qed.

Lemma does_register c : does (upd_world (rpc_RegisterServerMessageChan c)) (fun _ _ => True).
Proof using laws.
  apply does_keeps; [apply _|apply keeps_upd; intros w; apply xl_register|mono_solve].
Qed.

Lemma does_prepare ctx : does (prepare ctx) (fun _ _ => True).
Proof using laws.
  apply does_keeps; [|exact (keeps_prepare addr_of offers ctx)|unfold prepare, setServerTimeout; mono_solve].
  intros x. destruct (prepare_total ctx x) as (x' & c & Hr & _). by exists x', c.
Qed.

Lemma does_remove_rest c : does (remove_rest c) (fun _ _ => True).
Proof using laws.
  unfold remove_rest. destruct c as [c|]; [|by apply does_keeps; [apply _|intros x Hx|apply mono_ret]].
  apply does_keeps; [unfold close_client; apply _| |mono_solve].
  apply keeps_bind; [apply keeps_upd; intros w; apply xl_unregister|intros []]. exact (keeps_close_client addr_of offers c).
Qed.

Lemma does_remove_locked k sm c : does (remove_locked option_ servicePath no_builders k sm c) (fun _ _ => True).
Proof using laws.
  unfold remove_locked, deleteCachedClient. rewrite nob. apply does_keeps.
  - destruct (Sticky option_); apply total_bind; try apply _; intros []; apply total_bind; try apply _; intros cl;
      (destruct (decide (cl = c)); [|apply _]); destruct c; unfold close_client; apply _.
  - apply keeps_bind; [destruct (Sticky option_); [apply keeps_unsticky|apply keeps_ret]|intros []].
    apply keeps_bind; [apply keeps_find|intros cl]. destruct (decide (cl = c)); [|apply keeps_ret].
    pose proof (keeps_deleteCachedClient (B := B) addr_of offers c k servicePath sm) as Hk.
    unfold deleteCachedClient in Hk. by rewrite nob in Hk.
  - mono_solve.
Qed.

Lemma total_close_all l : Total (close_all l : X (list error)).
Proof using Type. induction l as [|[k c] l IH]; cbn [close_all]; apply _. Qed.

Lemma mono_close_all l : Mono (close_all l : X (list error)).
Proof using laws. induction l as [|[k c] l IH]; cbn [close_all]; mono_solve. Qed.

Lemma does_Close : does Close (fun _ _ => True).
Proof using laws.
  apply does_keeps; [|exact (keeps_Close addr_of offers)|].
  - intros x. unfold Close. gocbn. destruct (total_close_all (map_to_list (cachedClient x)) (with_shutdown x)) as (x' & es & Hr).
    cbn in Hr. rewrite Hr. by eexists _, _.
  - unfold Close. apply mono_bind; [by apply mono_modify|intros []]. apply mono_bind; [apply mono_get|intros x].
    apply mono_bind; [apply mono_close_all|intros es]. apply mono_ret.
Qed.

Lemma does_select sm args :
  does (select_locked option_ servicePath no_plugins sm args)
    (fun r x => match r with inl (k, c) => leads (xworld x) k c | inr _ => True end).
Proof using laws.
  intros x Hx Hsel. unfold select_locked. cbv beta iota delta [mbind go_bind mret go_ret get].
  set (st := if Sticky option_ then _ else None).
  assert (forall c, st = Some c -> stickyRPCClient x = Some c) as Hst.
  { intros c. unfold st. destruct (Sticky option_); [|done]. destruct (stickyRPCClient x) as [c'|]; [|done].
    by destruct (live c' (xworld x)). }
  set (x1 := if Sticky option_ then with_sticky (stickyK x) st x else x).
  assert ((if Sticky option_ then modify (with_sticky (stickyK x) st) else fun s => (s, Ok tt)) x = (x1, Ok tt)) as ->.
  { unfold x1. by destruct (Sticky option_). }
  assert (XInv x1 /\ config x1 = config x /\ xworld x1 = xworld x) as (Hx1 & Hc1 & Hw1).
  { unfold x1. destruct (Sticky option_); [|done]. split_and!; [|done|done].
    apply XInv_sticky; [done|]. intros c' Hc'. by eapply xi_sticky, Hst. }
  destruct st as [c|].
  { eexists _, _. split; [reflexivity|]. split_and!; [done|rewrite Hw1; apply agrows_refl|done|].
    unfold leads. rewrite Hw1. by eapply xi_sticky, Hst. }
  destruct (xl_select (XLaws := laws) servicePath sm args (xworld x1) (dom (servers x1))) as (w & k & Hr & Hg & _).
  { apply (xi_selector _ _ _ Hx1). unfold config in Hc1. congruence. }
  unfold selectServer, on_world. gocbn. assert (selectorSet x1 = true) as -> by (unfold config in Hc1; congruence).
  rewrite Hr. eexists _, _. split; [reflexivity|].
  split_and!; [by apply XInv_grows|rewrite <- Hw1; exact (proj1 Hg)|done|done].
Qed.

Lemma store_cached k c sm (x : xc) :
  XInv x -> leads (xworld x) k c ->
  exists x', setCachedClient no_builders c k servicePath sm x = (x', Ok tt) /\ XInv x' /\
    xworld x' = xworld x /\ config x' = config x.
Proof using Type.
  intros [Hc Hs Ho] Hl. unfold setCachedClient. rewrite nob. eexists. split; [reflexivity|]. split_and!; [|done|done].
  split; [|done|done]. cbn. intros k' c' Hk. apply lookup_insert_Some in Hk as [[<- <-]|[_ Hk]]; [done|by apply Hc].
Qed.

Lemma store_sticky k c (x : xc) :
  XInv x -> leads (xworld x) k c ->
  exists x', sticky_locked k c x = (x', Ok tt) /\ XInv x' /\ agrows (xworld x) (xworld x') /\ config x' = config x.
Proof using laws.
  intros Hx Hl. unfold sticky_locked, safeCloseClient. gocbn.
  assert (exists x1, match stickyRPCClient x with Some c0 => close_client c0 | None => fun s => (s, Ok tt) end x = (x1, Ok tt) /\
    XInv x1 /\ agrows (xworld x) (xworld x1) /\ config x1 = config x) as (x1 & -> & Hx1 & Hg & Hc).
  { destruct (stickyRPCClient x) as [c0|]; [|exists x; split_and!; [done|done|apply agrows_refl|done]].
    pose proof (keeps_close_client addr_of offers c0 x Hx) as [Hx1 Hc1]. pose proof (mono_close_client c0 x) as Hg.
    destruct (close_client c0 x) as [x1 r] eqn:Hr. exists x1. split; [|done]. f_equal.
    revert Hr. unfold close_client, on_world. gocbn. destruct (rpc_Close c0 (xworld x)). by intros [= _ <-]. }
  eexists. split; [reflexivity|]. split_and!; [|done|done]. apply XInv_sticky; [done|]. intros c' [= <-]. by apply Hg.
Qed.

(** ** The invariant *)

(** A bound on the number of servers that the discovery announces. *)
Context (N : nat).

Definition armed (x : xc) : Prop := selectorSet x = true /\ (size (servers x) <= N)%nat.

Definition call_ok (w : W) (call : string * option (res nat)) : Prop :=
  match call with
  | (k, Some (Ok c)) => leads w k c
  | (_, Some (Panic _)) => False
  | _ => True
  end.

Definition clients_ok (w : W) (cl : list (string * nat)) : Prop := Forall (fun kc => leads w kc.1 kc.2) cl.
Definition holder_ok (w : W) (h : holder) : Prop := match h with Alone => True | InFan _ cl _ => clients_ok w cl end.

Definition outcome_ok (w : W) (o : outcome) : Prop :=
  match o with
  | RClient k (Some c) e => leads w k c /\ e = None
  | RClient _ None e => e <> None
  | RFan (inl cl) => clients_ok w cl
  | RPanic _ => False
  | _ => True
  end.

(** What a goroutine knows where it is. *)
Definition pc_ok (w : W) (calls : list (string * option (res nat))) (p : pc) : Prop :=
  match p with
  | PFind h _ | PDo h _ => holder_ok w h
  | PNeeds h _ client => holder_ok w h /\ client = None
  | PRun h k id => holder_ok w h /\ calls !! id = Some (k, None)
  | PWait h k id => holder_ok w h /\ exists r, calls !! id = Some (k, r)
  | PGot h k r => holder_ok w h /\ call_ok w (k, Some r)
  | PStore h k c | PForget h k c => holder_ok w h /\ leads w k c
  | PConnected k c | PSticky k c => leads w k c
  | PTell cl _ => clients_ok w cl
  | PWatch pairs => few option_ pairs /\ (size (announced option_ pairs) <= N)%nat
  | PDone o => outcome_ok w o
  | _ => True
  end.

(** Does a goroutine there have the mutex between its steps? *)
Definition in_fan (h : holder) : bool := match h with Alone => false | InFan _ _ _ => true end.
Definition holds (p : pc) : bool :=
  match p with
  | PFind h _ | PNeeds h _ _ | PDo h _ | PRun h _ _ | PWait h _ _ | PGot h _ _ | PStore h _ _ | PForget h _ _ => in_fan h
  | _ => false
  end.

Definition runs_call (p : pc) : option nat := match p with PRun _ _ id => Some id | _ => None end.

Record CInv (s : sys) : Prop := {
  ci_x : XInv (cx s);
  ci_armed : armed (cx s);
  ci_calls : Forall (call_ok (xworld (cx s))) (ccalls s);
  ci_group k id : sf_join k (cgroup s) = Some id -> ccalls s !! id = Some (k, None);
  ci_pc i p : cgs s !! i = Some p -> pc_ok (xworld (cx s)) (ccalls s) p;
  ci_lead id k : ccalls s !! id = Some (k, None) -> exists i p, cgs s !! i = Some p /\ runs_call p = Some id;
  ci_uniq i j p q id :
    cgs s !! i = Some p -> cgs s !! j = Some q -> runs_call p = Some id -> runs_call q = Some id -> i = j;
  ci_mu i : cmu s = Some i <-> exists p, cgs s !! i = Some p /\ holds p = true;
}.

Lemma leads_mono w w' k c : agrows w w' -> leads w k c -> leads w' k c.
Proof using Type. intros Hg Hl. by apply Hg. Qed.
Lemma clients_mono w w' cl : agrows w w' -> clients_ok w cl -> clients_ok w' cl.
Proof using Type. intros Hg Hc. eapply Forall_impl; [exact Hc|]. intros kc. by apply leads_mono. Qed.
Lemma holder_mono w w' h : agrows w w' -> holder_ok w h -> holder_ok w' h.
Proof using Type. intros Hg. destruct h; [done|by apply clients_mono]. Qed.
Lemma call_mono w w' c : agrows w w' -> call_ok w c -> call_ok w' c.
Proof using Type. intros Hg. destruct c as [k [[c|e|why]|]]; cbn; eauto using leads_mono. Qed.

Hint Resolve leads_mono clients_mono holder_mono call_mono : monodb.

(** A call that is there stays, under its key; the one that [p] runs may get its result. *)
Definition calls_grow (p : pc) (l l' : list (string * option (res nat))) : Prop :=
  forall id k r, l !! id = Some (k, r) -> exists r', l' !! id = Some (k, r') /\ (runs_call p <> Some id -> r' = r).

Lemma pc_mono w w' l l' p q :
  agrows w w' -> calls_grow q l l' -> (forall id, runs_call p = Some id -> runs_call q <> Some id) ->
  pc_ok w l p -> pc_ok w' l' p.
Proof using Type.
  intros Hg Hl Hq. destruct p; cbn; try solve [eauto with monodb];
    try (intros [Hh Hc]; split; [by eapply holder_mono|solve [eauto with monodb]]).
  - intros [Hh Hc]. split; [by eapply holder_mono|]. destruct (Hl _ _ _ Hc) as (r' & Hr' & Heq).
    rewrite Heq in Hr' by (by apply Hq). done.
  - intros [Hh [r Hc]]. split; [by eapply holder_mono|]. destruct (Hl _ _ _ Hc) as (r' & Hr' & _). by exists r'.
  - intros [Hh Hc]. split; [by eapply holder_mono|]. exact (call_mono _ _ (k, Some r) Hg Hc).
  - destruct o as [k [c|] e|[cl|e]| | |]; cbn; try done; [|by apply clients_mono].
    intros [Hc He]. split; [by eapply leads_mono|done].
Qed.

Definition new_mu (i : nat) (p q : pc) (m : option nat) : option nat :=
  if holds q then Some i else if holds p then None else m.

(** Goroutine [i] goes from [p] to [q]. *)
Lemma CInv_step s s' i p q :
  CInv s -> cgs s !! i = Some p -> cgs s' = <[i := q]> (cgs s) ->
  XInv (cx s') -> armed (cx s') -> agrows (xworld (cx s)) (xworld (cx s')) ->
  calls_grow p (ccalls s) (ccalls s') -> Forall (call_ok (xworld (cx s'))) (ccalls s') ->
  (forall k id, sf_join k (cgroup s') = Some id -> ccalls s' !! id = Some (k, None)) ->
  pc_ok (xworld (cx s')) (ccalls s') q ->
  (forall id k, ccalls s' !! id = Some (k, None) ->
     runs_call q = Some id \/ (ccalls s !! id = Some (k, None) /\ runs_call p <> Some id)) ->
  (forall id, runs_call q = Some id -> (length (ccalls s) <= id)%nat) ->
  cmu s' = new_mu i p q (cmu s) -> (holds q = true -> holds p = true \/ cmu s = None) ->
  CInv s'.
Proof using Type.
  intros [Hx Hsel Hcalls Hgr Hpc Hlead Huniq Hmu] Hi Hgs Hx' Hsel' Hg Hcg Hcalls' Hgr' Hq Hl' Hfresh Hmu' Hhold.
  pose proof (lookup_lt_Some _ _ _ Hi) as Hlt.
  assert (forall j p', cgs s' !! j = Some p' -> (j = i /\ p' = q) \/ (j <> i /\ cgs s !! j = Some p')) as Hlk.
  { intros j p'. rewrite Hgs. intros Hj. apply list_lookup_insert_Some in Hj as [(<- & <- & _)|[Hne Hj]]; [by left|by right]. }
  assert (forall j p', j <> i -> cgs s !! j = Some p' -> cgs s' !! j = Some p') as Hold.
  { intros j p' Hne Hj. rewrite Hgs. by rewrite list_lookup_insert_ne. }
  assert (cgs s' !! i = Some q) as Hself by (rewrite Hgs; by apply list_lookup_insert_eq).
  assert (forall j p' id, cgs s !! j = Some p' -> runs_call p' = Some id -> (id < length (ccalls s))%nat) as Hrun.
  { intros j p' id Hj Hr. specialize (Hpc j p' Hj). destruct p'; try done. injection Hr as ->.
    destruct Hpc as [_ Hc]. by eapply lookup_lt_Some. }
  split; try done.
  - intros j p' Hj. destruct (Hlk j p' Hj) as [[-> ->]|[Hne Hj']]; [done|].
    eapply pc_mono; [exact Hg|exact Hcg| |by eapply Hpc].
    intros id Hr Hp. apply Hne. by eapply Huniq.
  - intros id k Hc. destruct (Hl' id k Hc) as [Hr|[Hc' Hr]]; [by exists i, q|].
    destruct (Hlead id k Hc') as (j & p' & Hj & Hp'). exists j, p'. split; [|done].
    apply Hold; [|done]. intros ->. congruence.
  - intros j1 j2 p1 p2 id H1' H2' R1 R2.
    destruct (Hlk _ _ H1') as [[-> ->]|[N1 J1]]; destruct (Hlk _ _ H2') as [[-> ->]|[N2 J2]]; [done| | |by eapply Huniq].
    + pose proof (Hfresh _ R1). pose proof (Hrun _ _ _ J2 R2). lia.
    + pose proof (Hfresh _ R2). pose proof (Hrun _ _ _ J1 R1). lia.
  - intros j. rewrite Hmu'. unfold new_mu. split.
    + destruct (holds q) eqn:Eq; [intros [= <-]; by exists q|]. destruct (holds p) eqn:Ep; [done|].
      intros Hm. apply Hmu in Hm as (p' & Hj & Hp'). exists p'. split; [|done]. apply Hold; [|done]. intros ->. congruence.
    + intros (p' & Hj & Hp'). destruct (Hlk _ _ Hj) as [[-> ->]|[Hne Hj']]; [by rewrite Hp'|].
      assert (cmu s = Some j) as Hm by (apply Hmu; by exists p').
      destruct (holds q); [destruct (Hhold eq_refl) as [Ep|]; [|congruence]|destruct (holds p) eqn:Ep; [|done]];
        exfalso; apply Hne; assert (cmu s = Some i) by (apply Hmu; by exists p); congruence.
Qed.

(** A step that starts and ends no call. *)
Lemma CInv_move s s' i p q :
  CInv s -> cgs s !! i = Some p -> cgs s' = <[i := q]> (cgs s) -> ccalls s' = ccalls s ->
  (forall k id, sf_join k (cgroup s') = Some id -> sf_join k (cgroup s) = Some id) ->
  XInv (cx s') -> armed (cx s') -> agrows (xworld (cx s)) (xworld (cx s')) ->
  runs_call p = None -> runs_call q = None ->
  pc_ok (xworld (cx s')) (ccalls s) q ->
  cmu s' = new_mu i p q (cmu s) -> (holds q = true -> holds p = true \/ cmu s = None) ->
  CInv s'.
Proof using Type.
  intros HI Hi Hgs Hcl Hgr Hx' Hsel' Hg Hp Hq Hpc Hmu Hh. eapply CInv_step; try done.
  - rewrite Hcl. intros id k r Hc. exists r. done.
  - rewrite Hcl. eapply Forall_impl; [exact (ci_calls s HI)|]. intros c. by apply call_mono.
  - rewrite Hcl. intros k id Hj. by apply (ci_group s HI), Hgr.
  - by rewrite Hcl.
  - rewrite Hcl. intros id k Hc. right. by rewrite Hp.
  - by rewrite Hq.
Qed.

(** ** Turns *)

(** How many steps a goroutine has left, at most. *)
Definition stage (h : holder) (n : nat) : nat :=
  match h with Alone => n + 2 | InFan todo _ fresh => n + 2 + 9 * length todo + length fresh end.

Definition weight (p : pc) : nat :=
  match p with
  | PSelect _ => 12
  | PShut _ => 11
  | PBreaker _ => 10
  | PFind h _ => stage h 7
  | PNeeds h _ _ => stage h 6
  | PDo h _ => stage h 5
  | PRun h _ _ | PWait h _ _ => stage h 4
  | PGot h _ _ => stage h 3
  | PStore h _ _ => stage h 2
  | PForget h _ _ => stage h 1
  | PConnected _ _ => 2
  | PSticky _ _ => 1
  | PFan _ => 9 * N + 3
  | PLock => 9 * N + 2
  | PTell _ fresh => 1 + length fresh
  | PRemove _ _ => 2
  | PClosing _ | PClose | PWatch _ => 1
  | PDone _ => 0
  end.

(** A good step of goroutine [i] from [p]. *)
Definition stepped (i : nat) (p : pc) (s s' : sys) : Prop :=
  CInv s' /\ exists q, cgs s' = <[i := q]> (cgs s) /\ (weight q < weight p)%nat.

(** The state before the goroutine's next place is noted: the xClient and the group changed. *)
Record tame (s s1 : sys) : Prop := MkTame {
  ta_x : XInv (cx s1);
  ta_armed : armed (cx s1);
  ta_grows : agrows (xworld (cx s)) (xworld (cx s1));
  ta_mu : cmu s1 = cmu s;
  ta_gs : cgs s1 = cgs s;
  ta_calls : ccalls s1 = ccalls s;
  ta_group k id : sf_join k (cgroup s1) = Some id -> sf_join k (cgroup s) = Some id;
}.

Lemma tame_refl s : CInv s -> tame s s.
Proof using Type. intros []. split; try done. apply agrows_refl. Qed.

Lemma tame_forget s s1 k : tame s s1 -> tame s (set_group (sf_Forget k (cgroup s1)) s1).
Proof using SFok.
  intros [? ? ? ? ? ? Hg]. split; try done. cbn. intros k' id. rewrite sf_join_forget. case_decide; [done|apply Hg].
Qed.

Lemma goto_tame s s1 i p q :
  CInv s -> tame s s1 -> cgs s !! i = Some p -> runs_call p = None -> runs_call q = None -> holds q = holds p ->
  pc_ok (xworld (cx s1)) (ccalls s) q -> (weight q < weight p)%nat -> stepped i p s (goto i q s1).
Proof using Type.
  intros HI [] Hi Hp Hq Hh Hok Hw. split.
  - eapply CInv_move; try done; cbn; [congruence| |rewrite Hh; by left].
    unfold new_mu. rewrite Hh, ta_mu0. destruct (holds p) eqn:Ep; [|done]. apply (ci_mu s HI). by exists p.
  - exists q. split; [|done]. cbn. congruence.
Qed.

(** The loop of a fan-out goes on; it has the mutex, or takes it. *)
Lemma fan_tame s s1 i p todo cl fr :
  CInv s -> tame s s1 -> cgs s !! i = Some p -> runs_call p = None -> holds p = true ->
  clients_ok (xworld (cx s1)) cl ->
  (match todo with [] => 1 + length fr | _ :: t => 9 + 9 * length t + length fr end < weight p)%nat ->
  stepped i p s (fan_next i todo cl fr s1).
Proof using Type.
  intros HI Ht Hi Hp Hh Hcl Hw. destruct todo as [|k todo].
  - destruct Ht. split; [|eexists; split; [cbn; by rewrite ta_gs0|exact Hw]].
    eapply CInv_move with (q := PTell cl fr); try done; cbn; [congruence|]. unfold new_mu. cbn. by rewrite Hh.
  - by apply goto_tame.
Qed.

Lemma found_tame s s1 i p h k client :
  CInv s -> tame s s1 -> cgs s !! i = Some p -> runs_call p = None -> holds p = in_fan h ->
  holder_ok (xworld (cx s1)) h -> (exists c, client = Some c /\ leads (xworld (cx s1)) k c) ->
  (stage h 0 < weight p)%nat -> stepped i p s (found option_ i h k client s1).
Proof using Type.
  intros HI Ht Hi Hp Hh Hok (c & -> & Hc) Hw. destruct h as [|todo cl fr]; cbn [found selected_client stage in_fan] in *.
  - destruct (Sticky option_); apply goto_tame; try done; cbn; lia.
  - eapply fan_tame; try done; [apply Forall_app; split; [done|by apply Forall_singleton]|].
    destruct todo; cbn in *; lia.
Qed.

Lemma failed_tame s s1 i p h k err :
  CInv s -> tame s s1 -> cgs s !! i = Some p -> runs_call p = None -> holds p = in_fan h ->
  holder_ok (xworld (cx s1)) h -> (stage h 0 < weight p)%nat -> stepped i p s (failed i h k err s1).
Proof using Type.
  intros HI Ht Hi Hp Hh Hok Hw. destruct h as [|todo cl fr]; cbn [failed stage in_fan] in *.
  - apply goto_tame; try done. cbn. lia.
  - eapply fan_tame; try done. destruct todo; cbn in *; lia.
Qed.

(** What an operation of the xClient leaves. *)
Lemma does_tame s x' :
  CInv s -> XInv x' -> agrows (xworld (cx s)) (xworld x') -> config x' = config (cx s) -> tame s (set_x x' s).
Proof using Type.
  intros HI Hx Hg Hc. destruct (ci_armed s HI) as [Hs Hn]. unfold config in Hc.
  split; try done. split; cbn; congruence.
Qed.

Lemma run_does {T} i (m : X T) next P s :
  CInv s -> does m P ->
  exists x' a, run i m next s = next a (set_x x' s) /\ tame s (set_x x' s) /\ P a x'.
Proof using Type.
  intros HI Hd. destruct (Hd (cx s) (ci_x s HI) (proj1 (ci_armed s HI))) as (x' & a & Hr & Hx & Hg & Hc & HP).
  exists x', a. split; [unfold run; by rewrite Hr|]. split; [by apply does_tame|done].
Qed.

Lemma run_locked_inv {T} i (m : X T) next (s s' : sys) x' a :
  run_locked i m next s = Some s' -> m (cx s) = (x', Ok a) -> s' = next a (set_x x' s).
Proof using Type.
  unfold run_locked, run. destruct (cmu s) eqn:Hm; [done|]. cbn. intros Hs Hr. rewrite Hr in Hs.
  injection Hs as <-. f_equal. destruct s. cbn in *. by subst.
Qed.

Lemma run_held_inv {T} h i (m : X T) next (s s' : sys) x' a :
  run_held h i m next s = Some s' -> m (cx s) = (x', Ok a) -> s' = next a (set_x x' s).
Proof using Type.
  destruct h; cbn [run_held]; [apply run_locked_inv|]. case_decide; [|done].
  unfold run. intros Hs Hr. rewrite Hr in Hs. by injection Hs as <-.
Qed.

Lemma run_held_does {T} h i (m : X T) next P s s' :
  CInv s -> does m P -> run_held h i m next s = Some s' ->
  exists x' a, s' = next a (set_x x' s) /\ tame s (set_x x' s) /\ P a x'.
Proof using Type.
  intros HI Hd Hs. destruct (Hd (cx s) (ci_x s HI) (proj1 (ci_armed s HI))) as (x' & a & Hr & Hx & Hg & Hc & HP).
  exists x', a. split; [by eapply run_held_inv|]. split; [by apply does_tame|done].
Qed.

(** The start and the end of a call. *)
Lemma start_stepped s i h k :
  CInv s -> cgs s !! i = Some (PDo h k) -> sf_join k (cgroup s) = None ->
  stepped i (PDo h k) s (goto i (PRun h k (length (ccalls s)))
    (set_calls (ccalls s ++ [(k, None)]) (set_group (sf_start k (length (ccalls s)) (cgroup s)) s))).
Proof using SFok.
  intros HI Hi Hj. pose proof (ci_pc s HI _ _ Hi) as Hok. split.
  2:{ eexists. split; [reflexivity|]. cbn. destruct h; cbn; lia. }
  assert ((ccalls s ++ [(k, None)]) !! length (ccalls s) = Some (k, @None (res nat))) as Hnew
    by (by rewrite lookup_app_r, Nat.sub_diag by lia).
  eapply CInv_step with (q := PRun h k (length (ccalls s))); try done; cbn; try apply HI.
  - apply agrows_refl.
  - intros id k' r Hc. exists r. split; [by apply lookup_app_l_Some|done].
  - apply Forall_app. split; [apply HI|by apply Forall_singleton].
  - intros k' id. rewrite sf_join_start by done. case_decide as Hk; [intros [= <-]; by subst|].
    intros Hc. apply (ci_group s HI) in Hc. by apply lookup_app_l_Some.
  - intros id k' Hc. apply lookup_app_Some in Hc as [Hc|[Hle Hc]]; [by right|left].
    destruct (id - length (ccalls s))%nat eqn:E; [f_equal; lia|done].
  - intros id [= <-]. lia.
  - unfold new_mu. cbn. destruct (in_fan h) eqn:Ef; [|done]. apply (ci_mu s HI). by eexists.
  - intros ->. by left.
Qed.

Lemma finish_stepped s x' i h k id r :
  CInv s -> cgs s !! i = Some (PRun h k id) -> tame s (set_x x' s) -> call_ok (xworld x') (k, Some r) ->
  stepped i (PRun h k id) s (goto i (PGot h k r)
    (set_calls (<[id := (k, Some r)]> (ccalls s)) (set_group (sf_finish k id (cgroup s)) (set_x x' s)))).
Proof using SFok.
  intros HI Hi [Hx Ha Hg _ _ _ _] Hr. pose proof (ci_pc s HI _ _ Hi) as [Hh Hc]. cbn in Hx, Ha, Hg. split.
  2:{ eexists. split; [reflexivity|]. cbn. destruct h; cbn; lia. }
  assert (forall id', id' <> id -> <[id := (k, Some r)]> (ccalls s) !! id' = ccalls s !! id') as Hne
    by (intros id' Hn; by rewrite list_lookup_insert_ne).
  assert (<[id := (k, Some r)]> (ccalls s) !! id = Some (k, Some r)) as Heq
    by (apply list_lookup_insert_eq; by eapply lookup_lt_Some).
  eapply CInv_step with (q := PGot h k r); try done; cbn.
  - intros id' k' r' Hc'. destruct (decide (id' = id)) as [->|Hn].
    + rewrite Hc in Hc'. injection Hc' as <- <-. exists (Some r). done.
    + exists r'. by rewrite Hne.
  - apply Forall_insert; [|done]. eapply Forall_impl; [exact (ci_calls s HI)|]. intros c. by apply call_mono.
  - intros k' id'. rewrite sf_join_finish. case_decide as Hd; [done|]. intros Hj. pose proof (ci_group s HI _ _ Hj) as Hj'.
    rewrite Hne; [done|]. intros ->. rewrite Hc in Hj'. injection Hj' as <-. by destruct Hd.
  - split; [by eapply holder_mono|done].
  - intros id' k' Hc'. right. destruct (decide (id' = id)) as [->|Hn]; [congruence|]. rewrite Hne in Hc' by done.
    split; [done|]. congruence.
  - unfold new_mu. cbn. destruct (in_fan h) eqn:Ef; [|done]. apply (ci_mu s HI). by eexists.
  - intros ->. by left.
Qed.

Lemma lock_stepped s i ks :
  CInv s -> cgs s !! i = Some PLock -> cmu s = None -> ks ≡ₚ (map_to_list (servers (cx s))).*1 ->
  stepped i PLock s (fan_next i ks [] [] (set_mu (Some i) s)).
Proof using Type.
  intros HI Hi Hm Hks. pose proof (proj2 (ci_armed s HI)) as Hn.
  assert (length ks <= N)%nat as Hl by (rewrite Hks, length_fmap, length_map_to_list; done).
  assert (forall q, runs_call q = None -> pc_ok (xworld (cx s)) (ccalls s) q -> forall m,
    m = new_mu i PLock q (cmu s) -> CInv (goto i q (set_mu m s))) as Hgo.
  { intros q Hq Hok m Hmu. eapply CInv_move with (p := PLock) (q := q); try done; cbn; try apply HI; [apply agrows_refl|].
    intros _. by right. }
  destruct ks as [|k ks]; cbn [fan_next].
  - split; [|eexists; split; [reflexivity|cbn; lia]].
    apply (Hgo (PTell [] [])); [done|by apply Forall_nil|]. unfold new_mu. cbn. done.
  - split; [|eexists; split; [reflexivity|cbn in *; lia]].
    apply (Hgo (PFind (InFan ks [] []) k)); [done|by apply Forall_nil|done].
Qed.

Lemma watch_stepped pairs (x : xc) :
  few option_ pairs -> XInv x ->
  exists x', watch (A := A) option_ pairs x = (x', Ok tt) /\ XInv x' /\ agrows (xworld x) (xworld x') /\
    servers x' = announced option_ pairs /\ selectorSet x' = selectorSet x.
Proof using laws.
  intros Hf Hx. destruct (watch_inv addr_of offers option_ pairs x Hf Hx) as (x' & Hr & Hx' & Hsv & Hs).
  exists x'. split_and!; try done. revert Hr. unfold watch, upd_world. gocbn.
  destruct (selectorSet x) eqn:Es; intros [= <-]; [|apply agrows_refl]. cbn.
  destruct (xl_update (XLaws := laws) _ (announced option_ pairs) (xworld x) _ (xi_selector _ _ _ Hx Es) (reflexivity _) Hf)
    as [_ Ha]. exact Ha.
Qed.

(** The steps after a call of the group has ended. *)
Lemma got_stepped s s' i ks h k r :
  CInv s -> cgs s !! i = Some (PGot h k r) -> turn i ks (PGot h k r) s = Some s' -> stepped i (PGot h k r) s s'.
Proof using SFok laws.
  intros HI Hi. destruct (ci_pc s HI _ _ Hi) as [Hh Hr]. pose proof (tame_refl s HI) as Hrefl.
  intros [= <-]. destruct r as [c|err|why]; [| |done].
  - edestruct (run_does i (upd_world (rpc_RegisterServerMessageChan c))) as (x' & [] & -> & Ht & _); [done|apply does_register|].
    pose proof (ta_grows _ _ Ht) as Hg. apply goto_tame; try done; [|destruct h; cbn; lia].
    split; [by eapply holder_mono|by eapply leads_mono].
  - apply failed_tame; try done; [by apply tame_forget|destruct h; cbn; lia].
Qed.

Lemma store_stepped s s' i ks h k c :
  CInv s -> cgs s !! i = Some (PStore h k c) -> turn i ks (PStore h k c) s = Some s' -> stepped i (PStore h k c) s s'.
Proof using SFok laws.
  intros HI Hi Hr. destruct (ci_pc s HI _ _ Hi) as [Hh Hl]. pose proof (tame_refl s HI) as Hrefl.
  destruct (store_cached k c (method_of i) (cx s) (ci_x s HI) Hl) as (x' & Hs & Hx & Hw & Hc).
  eapply run_held_inv in Hr; [|exact Hs]. subst s'.
  assert (tame s (set_x x' s)) as Ht by (apply does_tame; try done; rewrite Hw; apply agrows_refl).
  apply goto_tame; try done; [|destruct h; cbn; lia]. cbn. by rewrite Hw.
Qed.

Lemma forget_stepped s s' i ks h k c :
  CInv s -> cgs s !! i = Some (PForget h k c) -> turn i ks (PForget h k c) s = Some s' -> stepped i (PForget h k c) s s'.
Proof using SFok laws.
  intros HI Hi [= <-]. destruct (ci_pc s HI _ _ Hi) as [Hh Hl].
  pose proof (tame_forget s s k (tame_refl s HI)) as Ht. destruct h as [|todo cl fr].
  - apply goto_tame; try done; cbn; lia.
  - apply fan_tame; try done; [apply Forall_app; split; [done|by apply Forall_singleton]|].
    rewrite length_app. destruct todo; cbn; lia.
Qed.

Lemma sticky_stepped s s' i ks k c :
  CInv s -> cgs s !! i = Some (PSticky k c) -> turn i ks (PSticky k c) s = Some s' -> stepped i (PSticky k c) s s'.
Proof using SFok laws.
  intros HI Hi Hr. pose proof (tame_refl s HI) as Hrefl.
  destruct (store_sticky k c (cx s) (ci_x s HI) (ci_pc s HI _ _ Hi)) as (x' & Hs & Hx & Hw & Hc).
  eapply run_locked_inv in Hr; [|exact Hs]. subst s'.
  apply goto_tame; try done; [by apply does_tame| |cbn; lia]. pose proof (ci_pc s HI _ _ Hi) as Hok. split; [by apply Hw|done].
Qed.

Lemma round_stepped s s' i ks pairs :
  CInv s -> cgs s !! i = Some (PWatch pairs) -> turn i ks (PWatch pairs) s = Some s' -> stepped i (PWatch pairs) s s'.
Proof using SFok laws.
  intros HI Hi Hr. destruct (ci_pc s HI _ _ Hi) as [Hf Hn]. pose proof (tame_refl s HI) as Hrefl.
  destruct (watch_stepped pairs (cx s) Hf (ci_x s HI)) as (x' & Hs & Hx & Hg & Hsv & Hse).
  eapply run_locked_inv in Hr; [|exact Hs]. subst s'. apply goto_tame; try done; [|cbn; lia].
  destruct Hrefl as [? [? _] ? ? ? ? ?]. split; try done. split; cbn; [congruence|by rewrite Hsv].
Qed.

(** Every step of every goroutine keeps the invariant and brings it nearer to its end. *)
Lemma turn_stepped s s' i ks p :
  CInv s -> cgs s !! i = Some p -> turn i ks p s = Some s' -> stepped i p s s'.
Proof using SFok laws.
  intros HI Hi. pose proof (ci_pc s HI _ _ Hi) as Hok. pose proof (tame_refl s HI) as Hrefl.
  destruct p; cbn [turn] in *.
  - intros Hr. eapply (run_held_does Alone) in Hr as (x' & r & -> & Ht & HP); [|done|apply does_select].
    destruct r as [[k c]|k]; [|case_bool_decide]; apply goto_tame; try done; cbn; lia.
  - intros [= <-]. destruct (isShutdown (cx s)); apply goto_tame; try done; cbn; lia.
  - intros [= <-]. edestruct (run_does i (breakerReady k)) as (x' & ok & -> & Ht & _); [done|apply does_breaker|].
    destruct ok; apply goto_tame; try done; cbn; lia.
  - intros Hr. eapply run_held_does in Hr as (x' & [client u] & -> & Ht & HP); [|done|apply does_usable].
    assert (holder_ok (xworld (cx (set_x x' s))) h) as Hok' by (eapply holder_mono; [apply Ht|exact Hok]).
    destruct u; [eapply found_tame; try done; cbn; destruct h; cbn; lia|].
    apply goto_tame; try done. destruct h; cbn; lia.
  - intros [= <-]. destruct Hok as [Hh ->]. cbn [needs_new]. apply goto_tame; try done. destruct h; cbn; lia.
  - intros [= <-]. destruct (sf_join k (cgroup s)) as [id|] eqn:Hj; [|by apply start_stepped].
    apply goto_tame; try done; [|destruct h; cbn; lia]. split; [done|]. exists None. by apply (ci_group s HI).
  - intros [= <-]. edestruct (run_does i (generateClient option_ no_builders k servicePath (method_of i))) as (x' & r & -> & Ht & HP);
      [done|apply does_generate|].
    refine (finish_stepped s x' i h k id r HI Hi Ht _). by destruct r.
  - destruct Hok as [Hh [r Hr]]. rewrite Hr. destruct r as [r|]; [|done]. intros [= <-].
    apply goto_tame; try done; [|destruct h; cbn; lia]. split; [done|].
    eapply (Forall_lookup_1 _ _ id _ (ci_calls s HI)). exact Hr.
  - by apply (got_stepped s s' i ks).
  - by apply (store_stepped s s' i ks).
  - by apply (forget_stepped s s' i ks).
  - intros [= <-]. unfold run. rewrite clientConnected_nil.
    assert (tame s (set_x (cx s) s)) as Ht by (by destruct Hrefl).
    unfold selected_client. destruct (Sticky option_); apply goto_tame; try done; cbn; lia.
  - by apply (sticky_stepped s s' i ks).
  - intros [= <-]. destruct (isShutdown (cx s)); [apply goto_tame; try done; cbn; lia|].
    edestruct (run_does i (prepare ctx)) as (x' & r & -> & Ht & HP); [done|apply does_prepare|]. apply goto_tame; try done. cbn. lia.
  - destruct (cmu s) eqn:Hm; [done|]. case_bool_decide as Hks; [|done]. intros [= <-]. by apply lock_stepped.
  - destruct fresh as [|c fresh]; intros [= <-].
    + apply goto_tame; try done; [|cbn; lia]. by destruct clients.
    + unfold run. rewrite clientConnected_nil. assert (tame s (set_x (cx s) s)) as Ht by (by destruct Hrefl).
      apply goto_tame; try done. cbn. lia.
  - intros Hr. eapply (run_held_does Alone) in Hr as (x' & [] & -> & Ht & HP); [|done|apply does_remove_locked].
    apply goto_tame; try done. cbn. lia.
  - intros [= <-]. edestruct (run_does i (remove_rest client)) as (x' & [] & -> & Ht & HP); [done|apply does_remove_rest|].
    apply goto_tame; try done. cbn. lia.
  - intros Hr. eapply (run_held_does Alone) in Hr as (x' & e & -> & Ht & HP); [|done|apply does_Close].
    apply goto_tame; try done. cbn. lia.
  - by apply (round_stepped s s' i ks).
  - done.
Qed.

(** ** Progress *)

Definition needs_mu (p : pc) : bool :=
  match p with
  | PSelect _ | PSticky _ _ | PLock | PRemove _ _ | PClose | PWatch _ => true
  | PFind h _ | PStore h _ _ => negb (in_fan h)
  | _ => false
  end.

Definition finished (p : pc) : bool := match p with PDone _ => true | _ => false end.
Definition waits (p : pc) : bool := match p with PWait _ _ _ => true | _ => false end.

Lemma run_locked_free {T} i (m : X T) next (s : sys) : cmu s = None -> is_Some (run_locked i m next s).
Proof using Type. unfold run_locked. intros ->. by eexists. Qed.

Lemma run_held_free {T} h i (m : X T) next (s : sys) :
  cmu s = (if in_fan h then Some i else None) -> is_Some (run_held h i m next s).
Proof using Type.
  destruct h; cbn; [apply run_locked_free|]. intros Hm. rewrite decide_True by done. by eexists.
Qed.

(** A goroutine that neither has returned nor waits for a call runs, if it can have the mutex. *)
Lemma runnable s i p :
  CInv s -> cgs s !! i = Some p -> finished p = false -> waits p = false -> (needs_mu p = true -> cmu s = None) ->
  exists ks, is_Some (turn i ks p s).
Proof using Type.
  intros HI Hi Hf Hw Hmu.
  assert (forall h, holds p = in_fan h -> (in_fan h = false -> cmu s = None) ->
    cmu s = if in_fan h then Some i else None) as Hheld.
  { intros h Hh Hm. destruct (in_fan h); [apply (ci_mu s HI); by exists p|by apply Hm]. }
  destruct p; try done; cbn [turn];
    try (exists []; by eexists); try (exists []; apply run_locked_free, Hmu; done).
  - exists []. apply run_held_free, Hheld; [done|]. intros E. apply Hmu. cbn. by rewrite E.
  - exists []. apply run_held_free, Hheld; [done|]. intros E. apply Hmu. cbn. by rewrite E.
  - exists ((map_to_list (servers (cx s))).*1). rewrite (Hmu eq_refl), bool_decide_eq_true_2 by done. by eexists.
  - exists []. destruct fresh; by eexists.
Qed.

(** Behind a goroutine that waits for a call there is one that runs. *)
Lemma waiting_runs s i p :
  CInv s -> cgs s !! i = Some p -> waits p = true -> exists j ks, is_Some (try_turn j ks s).
Proof using Type.
  intros HI Hi Hw. destruct p; try done. destruct (ci_pc s HI _ _ Hi) as [_ [r Hr]]. destruct r as [r|].
  - exists i, []. unfold XConc.try_turn. rewrite Hi. cbn. rewrite Hr. by eexists.
  - destruct (ci_lead s HI _ _ Hr) as (j & q & Hj & Hq). exists j, []. unfold XConc.try_turn. rewrite Hj.
    destruct q; try done.
Qed.

Lemma progress s j p :
  CInv s -> cgs s !! j = Some p -> finished p = false -> exists i ks, is_Some (try_turn i ks s).
Proof using Type.
  intros HI Hj Hf.
  assert (forall i q, cgs s !! i = Some q -> finished q = false -> (needs_mu q = true -> cmu s = None) ->
    exists i ks, is_Some (try_turn i ks s)) as Hrun.
  { intros i q Hi Hq Hm. destruct (waits q) eqn:Hw; [by eapply waiting_runs|].
    destruct (runnable s i q HI Hi Hq Hw Hm) as [ks Ht]. exists i, ks. unfold XConc.try_turn. by rewrite Hi. }
  destruct (cmu s) as [i|] eqn:Hm; [|by eapply Hrun].
  destruct (proj1 (ci_mu s HI i) Hm) as (q & Hi & Hq).
  eapply Hrun; [exact Hi|by destruct q|]. intros Hn. exfalso. destruct q; try done; cbn in Hn, Hq; by rewrite Hq in Hn.
Qed.

(** ** Schedules *)

Definition total (s : sys) : nat := sum_list_with weight (cgs s).

Lemma total_step (s s' : sys) i p q :
  cgs s !! i = Some p -> cgs s' = <[i := q]> (cgs s) -> (weight q < weight p)%nat -> (total s' < total s)%nat.
Proof using Type. intros Hi Hs Hw. unfold total. rewrite Hs. pose proof (sum_insert weight _ _ _ q Hi). lia. Qed.

(** The world may change, but connections lead where they led, and the selector stays. *)
Definition event_ok (e : event (W := W)) : Prop :=
  match e with Turn _ _ => True | World f => forall w, grows addr_of offers w (f w) end.

Lemma CInv_event s e : event_ok e -> CInv s -> CInv (cstep s e) /\ (total (cstep s e) <= total s)%nat.
Proof using SFok laws.
  intros He HI. destruct e as [i ks|f]; cbn [XConc.cstep].
  - unfold XConc.try_turn. destruct (cgs s !! i) as [p|] eqn:Hi; [|done]. cbn.
    destruct (turn i ks p s) as [s'|] eqn:Ht; [|done]. cbn.
    destruct (turn_stepped s s' i ks p HI Hi Ht) as [HI' (q & Hs & Hw)]. split; [done|].
    pose proof (total_step s s' i p q Hi Hs Hw). lia.
  - split; [|done]. destruct HI as [Hx Ha Hc Hg Hpc Hl Hu Hm]. specialize (He (xworld (cx s))). pose proof (proj1 He) as Hgr.
    split; try done; cbn.
    + by apply XInv_grows.
    + eapply Forall_impl; [exact Hc|]. intros c. by apply call_mono.
    + intros i p Hi. eapply (pc_mono _ _ (ccalls s) (ccalls s) p PLock); [exact Hgr| |done|by eapply Hpc].
      intros id k r Hr. by exists r.
Qed.

(** How many turns of a schedule found a goroutine that could run. *)
Fixpoint turns (es : list (event (W := W))) (s : sys) : nat :=
  match es with
  | [] => 0
  | e :: es =>
      (match e with Turn i ks => match try_turn i ks s with Some _ => 1 | None => 0 end | World _ => 0 end + turns es (cstep s e))%nat
  end.

Lemma turns_bound es s :
  Forall event_ok es -> CInv s -> CInv (crun es s) /\ (turns es s + total (crun es s) <= total s)%nat.
Proof using SFok laws.
  intros He. revert s. induction He as [|e es He _ IH]; intros s HI; [done|].
  destruct (CInv_event s e He HI) as [HI' Hle]. destruct (IH _ HI') as [HI'' Hle']. split; [done|]. cbn [turns].
  cbn [XConc.crun foldl] in *. unfold XConc.crun in *.
  assert (match e with Turn i ks => match try_turn i ks s with Some _ => 1 | None => 0 end | World _ => 0 end + total (cstep s e) <= total s)%nat
    as Hs; [|lia].
  destruct e as [i ks|f]; [|done]. destruct (try_turn i ks s) as [s'|] eqn:Ht; [|done].
  assert (cstep s (Turn i ks) = s') as -> by (cbn [XConc.cstep]; by rewrite Ht).
  unfold XConc.try_turn in Ht. destruct (cgs s !! i) as [p|] eqn:Hi; [|done]. cbn in Ht.
  destruct (turn_stepped s s' i ks p HI Hi Ht) as [_ (q & Hq & Hw)]. pose proof (total_step s s' i p q Hi Hq Hw). lia.
Qed.

(** Where methods start. *)
Definition initial (p : pc) : Prop :=
  match p with
  | PSelect _ | PFan _ | PRemove _ _ | PClose => True
  | PWatch pairs => few option_ pairs /\ (size (announced option_ pairs) <= N)%nat
  | _ => False
  end.

Lemma CInv_start x ps : XInv x -> armed x -> Forall initial ps -> CInv (start x ps).
Proof using SFok.
  intros Hx Ha Hp. rewrite Forall_lookup in Hp. split; cbn; try done.
  - intros k id. by rewrite sf_join_new.
  - intros i p Hi. specialize (Hp i p Hi). by destruct p.
  - intros i j p q id Hi _ Hr. specialize (Hp i p Hi). by destruct p.
  - intros i. split; [done|]. intros (p & Hi & Hh). specialize (Hp i p Hi). by destruct p.
Qed.

(** What holds in every interleaving; XSelect.v states it for the selectors of the package. *)
Lemma conc_safe x ps es :
  XInv x -> armed x -> Forall initial ps -> Forall event_ok es ->
  let s := crun es (start x ps) in
  XInv (cx s) /\ (forall i o, cgs s !! i = Some (PDone o) -> outcome_ok (xworld (cx s)) o) /\
  (forall i j p q, cgs s !! i = Some p -> cgs s !! j = Some q -> holds p = true -> holds q = true -> i = j).
Proof using SFok laws.
  intros Hx Ha Hp He. cbv zeta. destruct (turns_bound es (start x ps) He (CInv_start x ps Hx Ha Hp)) as [HI _].
  split_and!; [apply HI| |].
  - intros i o Hi. exact (ci_pc _ HI i _ Hi).
  - intros i j p q Hi Hj Hp' Hq.
    pose proof (proj2 (ci_mu _ HI i) (ex_intro _ p (conj Hi Hp'))).
    pose proof (proj2 (ci_mu _ HI j) (ex_intro _ q (conj Hj Hq))). congruence.
Qed.

(** C11. Every method of an xClient returns. In no schedule do the goroutines run for more steps
    than their methods have, which is at most nine for each server and a few more; and as long
    as one of them has not returned, some goroutine can run: fan-outs that keep the mutex while
    they wait for a connection that another goroutine makes do not block that goroutine. *)
Theorem methods_return x ps es :
  XInv x -> armed x -> Forall initial ps -> Forall event_ok es ->
  let s := crun es (start x ps) in
  (turns es (start x ps) <= length ps * (9 * N + 12))%nat /\
  ((forall i p, cgs s !! i = Some p -> finished p = true) \/ exists i ks, is_Some (try_turn i ks s)).
Proof using SFok laws.
  intros Hx Ha Hp He. cbv zeta. destruct (turns_bound es (start x ps) He (CInv_start x ps Hx Ha Hp)) as [HI Hle]. split.
  - assert (total (start x ps) <= length ps * (9 * N + 12))%nat; [|lia]. clear - Hp. unfold total. cbn [start cgs].
    induction Hp as [|p ps Hi _ IH]; [done|]. cbn [sum_list_with length]. assert (weight p <= 9 * N + 12)%nat; [|lia].
    destruct p; try done; cbn; lia.
  - destruct (decide (Forall (fun p => finished p = true) (cgs (crun es (start x ps))))) as [Hf|Hn].
    + left. intros i p Hi. by eapply (Forall_lookup_1 _ _ i p Hf).
    + right. apply not_Forall_Exists in Hn; [|apply _]. apply Exists_exists in Hn as (p & Hin & Hnf).
      apply list_elem_of_lookup in Hin as [j Hj]. eapply progress; [exact HI|exact Hj|].
      cbn in Hnf. by destruct (finished p).
Qed.
End Inv.
End XConcInv.
