(* ===== verification/XSelect.v ===== *)
(** The xClient with the selectors of client/selector.go: the laws of XClientInv.v are proved for
    every network whose connections lead where they were made to, with the random, the
    round-robin and the consistent-hash selector, and with any selector of a user that keeps the
    promises of the interface ([SelectorLaws]).

    The two weighted selectors do not keep them: after an update they go on selecting among the
    servers from before ([weighted_update_stale]), and one that was made without servers panics
    ([weighted_first_update_panics]). *)

From S2P Require Import Prelude GoStd Share Breaker Message Hooks ClientPlugins Selector XClient XClientProofs XClientInv FanOut XClientConc XConcInv XClientDemo.

(** ** The connections *)

(** [addr n c] is the network and address that connection [c] was made to. A dial returns, with a
    connection that can be used or an error, and nothing changes where a connection leads. *)
Class ConnLaws (N A R : Type) `{RPCClients N A R} (addr : N -> nat -> option (string * string)) : Prop := {
  cl_connect n a w :
    match rpc_Connect n a w with
    | (w', Ok c) => (forall c a, addr w c = Some a -> addr w' c = Some a) /\
                    addr w' c = Some (n, a) /\ live c w' = true
    | (w', Er _) => forall c a, addr w c = Some a -> addr w' c = Some a
    | (_, Panic _) => False
    end;
  cl_call c ctx sp sm (a : A) (r : R) w d x : addr w d = Some x -> addr (fst (rpc_Call c ctx sp sm a r w)) d = Some x;
  cl_go c ctx sp sm (a : A) w d x : addr w d = Some x -> addr (rpc_Go c ctx sp sm a w) d = Some x;
  cl_raw c ctx m w d x : addr w d = Some x -> addr (fst (rpc_SendRaw c ctx m w)) d = Some x;
  cl_close c w d x : addr w d = Some x -> addr (fst (rpc_Close c w)) d = Some x;
  cl_register c w d x : addr w d = Some x -> addr (rpc_RegisterServerMessageChan c w) d = Some x;
  cl_register_live c w : live c (rpc_RegisterServerMessageChan c w) = live c w;
  cl_unregister c w d x : addr w d = Some x -> addr (rpc_UnregisterServerMessageChan c w) d = Some x;
  cl_now w d x : addr w d = Some x -> addr (fst (rpc_now w)) d = Some x;
}.

(** ** The selectors that follow an update *)

Inductive followingSelector (H U : Type) :=
  | FRandom (s : randomSelector)
  | FRoundRobin (s : roundRobinSelector)
  | FHash (s : consistentHashSelector H)
  | FUser (s : U).
Arguments FRandom {H U} s.
Arguments FRoundRobin {H U} s.
Arguments FHash {H U} s.
Arguments FUser {H U} s.

(** What [newSelector] makes, when it is one of them. *)
Definition following {H U} (s : anySelector H) : option (followingSelector H U) :=
  match s with
  | SRandom s => Some (FRandom s)
  | SRoundRobin s => Some (FRoundRobin s)
  | SHash s => Some (FHash s)
  | SWeighted _ | SICMP _ | SNil => None
  end.

Section Following.
Context {H U : Type} `{DoubleJump H} (nodes : H -> gset string) `{!DoubleJumpOk H nodes}.
Context `{Selector U} (user_serves : U -> gset string -> Prop) `{!SelectorLaws U user_serves}.

#[export] Instance following_selector : Selector (followingSelector H U) := {|
  Select path method args rnd s :=
    match s with
    | FRandom s => let '(s, r) := Select path method args rnd s in (FRandom s, r)
    | FRoundRobin s => let '(s, r) := Select path method args rnd s in (FRoundRobin s, r)
    | FHash s => let '(s, r) := Select path method args rnd s in (FHash s, r)
    | FUser s => let '(s, r) := Select path method args rnd s in (FUser s, r)
    end;
  UpdateServer kvs s :=
    match s with
    | FRandom s => FRandom (UpdateServer kvs s)
    | FRoundRobin s => FRoundRobin (UpdateServer kvs s)
    | FHash s => FHash (UpdateServer kvs s)
    | FUser s => FUser (UpdateServer kvs s)
    end;
|}.

Definition following_serves (s : followingSelector H U) (X : gset string) : Prop :=
  match s with
  | FRandom s => random_serves s X
  | FRoundRobin s => rr_serves s X
  | FHash s => ch_serves nodes s X
  | FUser s => user_serves s X
  end.

Ltac select_with L :=
  let s' := fresh in let k := fresh in let E := fresh in
  edestruct L as (s' & k & E & ? & ?); [eassumption..|];
  cbn [Select following_selector] in *; rewrite E; by eexists _, _.

#[export] Instance following_laws : SelectorLaws (followingSelector H U) following_serves.
Proof.
  split.
  - intros path method args rnd [s|s|s|s] X Hr Hs HX;
      [select_with (select_member (serves := random_serves) path method args rnd s X)
      |select_with (select_member (serves := rr_serves) path method args rnd s X)
      |select_with (select_member (serves := ch_serves nodes) path method args rnd s X)
      |select_with (select_member (serves := user_serves) path method args rnd s X)].
  - intros path method args rnd [s|s|s|s] Hs;
      [destruct (select_none (serves := random_serves) path method args rnd s Hs) as (s' & E & ?)
      |destruct (select_none (serves := rr_serves) path method args rnd s Hs) as (s' & E & ?)
      |destruct (select_none (serves := ch_serves nodes) path method args rnd s Hs) as (s' & E & ?)
      |destruct (select_none (serves := user_serves) path method args rnd s Hs) as (s' & E & ?)];
      cbn [Select following_selector] in *; rewrite E; by eexists.
  - intros kvs m [s|s|s|s] X Hk Hf Hs;
      [exact (update_serves (serves := random_serves) kvs m s X Hk Hf Hs)
      |exact (update_serves (serves := rr_serves) kvs m s X Hk Hf Hs)
      |exact (update_serves (serves := ch_serves nodes) kvs m s X Hk Hf Hs)
      |exact (update_serves (serves := user_serves) kvs m s X Hk Hf Hs)].
Qed.

(** The modes whose selectors follow an update; [Closest] and [SelectByUser] start without one. *)
Definition follows (mode : SelectMode) : bool :=
  match mode with WeightedRoundRobin | WeightedICMP => false | _ => true end.

Lemma newSelector_serves ping mode kvs (m : gmap string string) :
  mode = RandomSelect \/ mode = RoundRobin \/ mode = ConsistentHash ->
  kvs ≡ₚ map_to_list m -> zlen kvs < 2 ^ 31 ->
  exists a s, newSelector ping mode kvs = Ok a /\ following a = Some s /\ following_serves s (dom m).
Proof.
  intros Hmode Hk Hf. destruct Hmode as [->|[->| ->]]; eexists _, _; (split; [reflexivity|]; split; [reflexivity|]); cbn.
  - split; cbn; [by apply list_to_set_enum|]. unfold zlen in *. by rewrite length_fmap.
  - split; [by apply list_to_set_enum|done].
  - by apply (newConsistentHashSelector_serves nodes).
Qed.
End Following.

(** ** A network and a selector *)

Section Client.
Context {N A R B H U : Type} `{BreakerOps B} `{RPCClients N A R}.
Context (addr : N -> nat -> option (string * string)) {conns : ConnLaws N A R addr}.
Context `{DoubleJump H} (nodes : H -> gset string) `{!DoubleJumpOk H nodes}.
Context `{Selector U} (user_serves : U -> gset string -> Prop) `{!SelectorLaws U user_serves}.
(** How [fmt] prints the arguments, the numbers that the random source gives, and the round-trip
    times. *)
Context (show : A -> string) (rnds : nat -> Z -> Z) (rnds_ok : forall i, rnd_ok (rnds i)) (ping : string -> Z).

Record world := MkWorld { w_net : N; w_sel : followingSelector H U; w_draws : nat }.

Definition set_net (w : world) (n : N) : world := MkWorld n (w_sel w) (w_draws w).

#[export] Instance world_rpc : RPCClients world A R := {|
  rpc_Connect n a w := let '(net, r) := rpc_Connect n a (w_net w) in (set_net w net, r);
  rpc_Call c ctx sp sm a r w := let '(net, x) := rpc_Call c ctx sp sm a r (w_net w) in (set_net w net, x);
  rpc_Go c ctx sp sm a w := set_net w (rpc_Go c ctx sp sm a (w_net w));
  rpc_SendRaw c ctx m w := let '(net, x) := rpc_SendRaw c ctx m (w_net w) in (set_net w net, x);
  rpc_IsClosing c w := rpc_IsClosing c (w_net w);
  rpc_IsShutdown c w := rpc_IsShutdown c (w_net w);
  rpc_Close c w := let '(net, e) := rpc_Close c (w_net w) in (set_net w net, e);
  rpc_RegisterServerMessageChan c w := set_net w (rpc_RegisterServerMessageChan c (w_net w));
  rpc_UnregisterServerMessageChan c w := set_net w (rpc_UnregisterServerMessageChan c (w_net w));
  rpc_now w := let '(net, t) := rpc_now (w_net w) in (set_net w net, t);
|}.

#[export] Instance world_sel : SelectorObj world A := {|
  sel_Select sp sm a w :=
    let '(s, r) := Select sp sm (show a) (rnds (w_draws w)) (w_sel w) in
    (MkWorld (w_net w) s (S (w_draws w)), r);
  sel_UpdateServer kvs w := MkWorld (w_net w) (UpdateServer kvs (w_sel w)) (w_draws w);
|}.

Definition w_addr (w : world) (c : nat) : option (string * string) := addr (w_net w) c.
Definition w_offers (w : world) (X : gset string) : Prop := following_serves nodes user_serves (w_sel w) X.

Lemma following_select_keeps sp sm a rnd (s : followingSelector H U) X :
  rnd_ok rnd -> following_serves nodes user_serves s X ->
  following_serves nodes user_serves (fst (Select sp sm a rnd s)) X.
Proof using All.
  intros Hr HX. destruct (decide (X = ∅)) as [->|Hne].
  - by destruct (select_none (serves := following_serves nodes user_serves) sp sm a rnd s HX) as (s' & -> & ?).
  - by destruct (select_member (serves := following_serves nodes user_serves) sp sm a rnd s X Hr HX Hne)
      as (s' & k & -> & _ & ?).
Qed.

#[export] Instance world_laws : XLaws world A R w_addr w_offers.
Proof using All.
  split; unfold grows, w_addr, w_offers; cbn [rpc_Connect rpc_Call rpc_Go rpc_SendRaw rpc_Close
    rpc_RegisterServerMessageChan rpc_UnregisterServerMessageChan rpc_now sel_Select sel_UpdateServer world_rpc world_sel].
  - intros n a w. pose proof (cl_connect (addr := addr) n a (w_net w)) as Hc.
    destruct (rpc_Connect n a (w_net w)) as [net [c|e|why]]; cbn; [|by split|done].
    destruct Hc as (H1' & H2' & H3'). by split_and!.
  - intros c ctx sp sm a r w. pose proof (cl_call (addr := addr) c ctx sp sm a r (w_net w)).
    destruct (rpc_Call c ctx sp sm a r (w_net w)). by split.
  - intros c ctx sp sm a w. split; [|done]. apply (cl_go (addr := addr)).
  - intros c ctx m w. pose proof (cl_raw (addr := addr) c ctx m (w_net w)).
    destruct (rpc_SendRaw c ctx m (w_net w)). by split.
  - intros c w. pose proof (cl_close (addr := addr) c (w_net w)). destruct (rpc_Close c (w_net w)). by split.
  - intros c w. split; [split; [|done]|]; [apply (cl_register (addr := addr))|apply (cl_register_live (addr := addr))].
  - intros c w. split; [|done]. apply (cl_unregister (addr := addr)).
  - intros w. pose proof (cl_now (addr := addr) (w_net w)). destruct (rpc_now (w_net w)). by split.
  - intros sp sm a w X HX.
    pose proof (fun X' => following_select_keeps sp sm (show a) (rnds (w_draws w)) (w_sel w) X' (rnds_ok _)) as Hk.
    destruct (decide (X = ∅)) as [->|Hne].
    + destruct (select_none (serves := following_serves nodes user_serves) sp sm (show a) (rnds (w_draws w)) (w_sel w) HX)
        as (s & Hs & _). rewrite Hs in *. eexists _, _. split; [reflexivity|]. by split_and!.
    + destruct (select_member (serves := following_serves nodes user_serves) sp sm (show a) (rnds (w_draws w)) (w_sel w)
        X (rnds_ok _) HX Hne) as (s & k & Hs & Hin & _). rewrite Hs in *. eexists _, _. split; [reflexivity|]. by split_and!.
  - intros kvs m w X HX Hk Hl. split; [|done]. by eapply (update_serves (serves := following_serves nodes user_serves)).
Qed.

(** [c.selector = newSelector(selectMode, servers)]. *)
Definition install (mode : SelectMode) (kvs : list (string * string)) (w : world) : world :=
  match newSelector ping mode kvs with
  | Ok a => match following a with Some s => MkWorld (w_net w) s (w_draws w) | None => w end
  | _ => w
  end.

Context (option_ : xOption (B := B)) (servicePath : string).
Context (raw_args : bytes -> A) (nil_reply : R).
Local Abbreviation xc := (xClient (W := world) (B := B)).
Local Abbreviation no_builders := (∅ : gmap string (CacheClientBuilder world)).
Local Abbreviation no_plugins := ([] : pluginContainer world nat A R).

(** The histories of an xClient that was made with one of these modes, with the servers it was
    last told of: calls in all fail modes, raw messages, the look-ups of a fan-out, updates from
    the discovery, a user's selector, a new token, [Close]. *)
Inductive history : xc * gmap string string -> Prop :=
  | h_new fm mode pairs w :
      follows mode = true -> few option_ pairs ->
      history (NewXClient option_ fm mode pairs (install mode) w, announced option_ pairs)
  | h_step x y :
      history x -> xstep w_addr w_offers option_ servicePath raw_args nil_reply x y -> history y.

Lemma install_offers mode kvs (m : gmap string string) w :
  mode = RandomSelect \/ mode = RoundRobin \/ mode = ConsistentHash ->
  kvs ≡ₚ map_to_list m -> zlen kvs < 2 ^ 31 -> w_offers (install mode kvs w) (dom m).
Proof using All.
  intros Hm Hk Hf. unfold install, w_offers.
  by destruct (newSelector_serves (U := U) nodes user_serves ping mode kvs m Hm Hk Hf) as (a & s & -> & -> & Hs).
Qed.

Lemma history_inv x m : history (x, m) -> XInv w_addr w_offers x /\ servers x = m.
Proof using All.
  intros Hh. remember (x, m) as y eqn:E. revert x m E.
  induction Hh as [fm mode pairs w Hm Hf|[x0 m0] [x1 m1] _ IH Hs]; intros x m [= <- <-].
  - assert (forall mode', mode' = RandomSelect \/ mode' = RoundRobin \/ mode' = ConsistentHash ->
      XInv w_addr w_offers (NewXClient option_ fm mode' pairs (install mode') w)) as Hset.
    { intros mode' Hm'. split; [done|done|]. intros _. cbn [NewXClient xworld servers].
      destruct Hm' as [->|[->| ->]]; apply install_offers; auto. }
    split; [|done]. destruct mode; try done; try (apply Hset; auto); by split.
  - destruct (IH x0 m0 eq_refl) as [Hx Hm]. exact (xstep_inv w_addr w_offers option_ servicePath raw_args nil_reply _ _ _ _ Hs Hx Hm).
Qed.

(** C8. In every history of an xClient (calls in all fail modes, raw messages, the look-ups of
    fan-outs, updates from the discovery, a user's selector, closing), without plugins and client
    builders, each cached client and the sticky one lead to the server they are filed under; the
    servers are those of the last update that the state and group filter keeps; and a selection by
    the selector that it has does not panic and returns one of those, or no server when there is
    none. The selector is the random, the round-robin or the consistent-hash one of the package, or
    one of a user that keeps the promises of the interface; the two weighted selectors are excluded,
    which go on selecting among the servers from before an update ([weighted_update_stale]). Fewer
    than 2^31 servers are kept at a time. *)
Theorem xclient_invariant x m :
  history (x, m) ->
  (forall k c, cachedClient x !! k = Some c -> addr (w_net (xworld x)) c = Some (splitNetworkAndAddress k)) /\
  (forall c, stickyRPCClient x = Some c ->
     addr (w_net (xworld x)) c = Some (splitNetworkAndAddress (stickyK x))) /\
  servers x = m /\
  (selectorSet x = true -> forall sp sm args,
     exists s k, Select sp sm (show args) (rnds (w_draws (xworld x))) (w_sel (xworld x)) = (s, Ok k) /\
       (m = ∅ -> k = ""%string) /\ (m <> ∅ -> k ∈ dom m)).
Proof using All.
  intros [[Hc Hs Ho] <-]%history_inv. split_and!; [done|done|done|]. intros Hset sp sm args.
  destruct (xl_select (XLaws := world_laws) sp sm args (xworld x) _ (Ho Hset)) as (w' & k & Hsel & _ & H0' & H1').
  cbn [sel_Select world_sel] in Hsel. destruct (Select sp sm (show args) _ _) as [s r]. injection Hsel as <- ->.
  exists s, k. split_and!; [done|intros He; apply H0'; by rewrite He, dom_empty_L|].
  intros Hne. apply H1'. by rewrite dom_empty_iff_L.
Qed.

(** C9. In every history, selecting a client does not panic and gives a client or an error, and a
    client that is selected can be used: it is neither closing nor shut down, and it is connected to
    the network and the address that the selected server names. That server is one of those of the
    last update that the filter kept; or else the option [Sticky] is set and it is the sticky server,
    whose client is still alive, whether or not it is still announced. *)
Theorem selectClient_sound x m sm args :
  history (x, m) -> selectorSet x = true ->
  exists x' k c e,
    selectClient option_ no_plugins no_builders servicePath sm args x = (x', Ok (k, c, e)) /\
    servers x' = m /\
    match c, e with
    | Some c, None =>
        live c (xworld x') = true /\ addr (w_net (xworld x')) c = Some (splitNetworkAndAddress k) /\
        (k ∈ dom m \/ Sticky option_ = true /\ stickyRPCClient x = Some c /\ stickyK x = k)
    | None, Some _ => True
    | _, _ => False
    end.
Proof using All.
  intros [Hx <-]%history_inv Hset.
  destruct (selectClient_aux w_addr w_offers option_ servicePath sm args x Hx Hset) as (x' & k & c & e & Hr & _ & Hc & Hp).
  exists x', k, c, e. split; [exact Hr|]. split; [unfold config in Hc; congruence|]. exact Hp.
Qed.

Section Concurrent.
Context {G : Type} `{SF : Singleflight G} {SFok : SingleflightOk G} (method_of : nat -> string) (most : nat).
Import XConc XConcInv.

(** C10. Many goroutines use one xClient after any history: they select clients, fan out, remove
    clients, close the xClient, and the discovery updates it, while connections die at any time. In
    every interleaving each cached client and the sticky one lead to the server they are filed
    under; two goroutines that stand inside the loop of a fan-out, which is run with the mutex held,
    are the same goroutine; a method that returns a client for a server returns one that leads there
    and no error, one that returns no client returns an error, a fan-out gets only clients that lead
    to their servers, and no method panics. Dials do not panic ([ConnLaws]), and the selectors are
    those of [xclient_invariant], which are proved not to. *)
Theorem conc_sound x m ps es :
  history (x, m) -> selectorSet x = true -> (size m <= most)%nat ->
  Forall (initial option_ most) ps -> Forall (event_ok w_addr w_offers) es ->
  let s := crun (G := G) option_ servicePath no_plugins no_builders method_of es (start x ps) in
  (forall k c, cachedClient (cx s) !! k = Some c -> addr (w_net (xworld (cx s))) c = Some (splitNetworkAndAddress k)) /\
  (forall c, stickyRPCClient (cx s) = Some c ->
     addr (w_net (xworld (cx s))) c = Some (splitNetworkAndAddress (stickyK (cx s)))) /\
  (forall i j p q, cgs s !! i = Some p -> cgs s !! j = Some q -> holds p = true -> holds q = true -> i = j) /\
  (forall i o, cgs s !! i = Some (PDone o) -> outcome_ok w_addr (xworld (cx s)) o).
Proof using All.
  intros [Hx <-]%history_inv Hset Hsz Hp He. cbv zeta.
  destruct (conc_safe (G := G) w_addr w_offers option_ servicePath method_of most x ps es Hx (conj Hset Hsz) Hp He)
    as ([Hc Hs _] & Ho & Hm). by split_and!.
Qed.
End Concurrent.
End Client.
