(* ===== verification/XConcDemo.v ===== *)
(** Goroutines of one xClient on the network of XClientDemo.v: the theorems of XClientConc.v and
    XConcInv.v applied, and what interleavings can do that the sequential model cannot. *)

From S2P Require Import Prelude GoStd Share Breaker Message Hooks ClientPlugins Selector XClient XClientProofs XClientInv FanOut XClientConc XConcInv XClientDemo XSelect.

Module XConcDemo.
Import XConc XConcInv.

(** A group as the map of its calls. *)
#[export] Instance map_flight : Singleflight (gmap string nat) := {|
  sf_new := ∅;
  sf_join k g := g !! k;
  sf_start k id g := <[k := id]> g;
  sf_finish k id g := if decide (g !! k = Some id) then delete k g else g;
  sf_Forget k g := delete k g;
|}.

#[export] Instance map_flight_ok : SingleflightOk (gmap string nat).
Proof.
  split; cbn.
  - intros k. apply lookup_empty.
  - intros k id g k' _. case_decide; [by subst; rewrite lookup_insert_eq|by rewrite lookup_insert_ne].
  - intros k id g k'. case_decide as Hk; case_decide as Hd.
    + destruct Hd as [-> _]. by rewrite lookup_delete_eq.
    + destruct (decide (k' = k)) as [->|Hne]; [by destruct Hd|]. by rewrite lookup_delete_ne.
    + by destruct Hd.
    + done.
  - intros k g k'. case_decide; [by subst; rewrite lookup_delete_eq|by rewrite lookup_delete_ne].
Qed.

Local Abbreviation netr := (net roundRobinSelector).
Local Abbreviation xdemo := (xClient (W := netr) (B := ConsecCircuitBreaker)).

Definition opt (sticky : bool) : xOption (B := ConsecCircuitBreaker) := MkXOption sticky 3 "" None.

Definition one_server (sticky : bool) : xdemo :=
  NewXClient (opt sticky) Failover RoundRobin [("tcp@z"%string, ""%string)] rr_new (MkNet [] ∅ (RRSel [] 0)).

Definition T (i : nat) : event (W := netr) := Turn i [].
Definition sel : pc (A := string) := PSelect "a"%string.
Definition methods (i : nat) : string := "Mul".

Definition conc (sticky : bool) (es : list (event (W := netr))) (ps : list (pc (A := string))) :
    sys (W := netr) (A := string) (B := ConsecCircuitBreaker) (G := gmap string nat) :=
  crun (opt sticky) "Arith" no_plugins no_cache methods es (start (one_server sticky) ps).

(** What is left at the end: the places of the goroutines, the connections that were made and
    those that are closed, the cache, and whether the xClient was closed. *)
Definition summary (s : sys (W := netr) (A := string) (B := ConsecCircuitBreaker) (G := gmap string nat)) :=
  (cgs s, length (n_conns (xworld (cx s))), elements (n_closed (xworld (cx s))),
   map_to_list (cachedClient (cx s)), isShutdown (cx s)).

(** Two goroutines look for the same server before either has stored its client. *)
Definition double_dial : list (event (W := netr)) :=
  [T 0; T 0; T 0; T 0; T 0; T 1; T 1; T 1; T 1; T 1] ++ repeat (T 0) 10 ++ repeat (T 1) 10 ++ [T 2].

(** A goroutine that has passed the check for a closed xClient, and then [Close]. *)
Definition late_select : list (event (W := netr)) := [T 0; T 0; T 1] ++ repeat (T 0) 10.

(** With [Sticky], two goroutines that get the same client. *)
Definition sticky_pair : list (event (W := netr)) :=
  [T 1] ++ repeat (T 0) 12 ++ repeat (T 1) 8.

(** What interleaving breaks. Two selections of one server can make two connections, since a
    call of the group may end before its client is in the cache; the second replaces the first,
    and [Close] leaves the first open. A selection that overlaps [Close] succeeds and leaves an
    open connection in the cache of the closed xClient. With [Sticky], the second of two
    selections that share a cached client closes it as the former sticky one, and returns it. *)
Theorem concurrent_selects_leak :
  summary (conc false double_dial [sel; sel; PClose]) =
    ([PDone (RClient "tcp@z" (Some 0%nat) None); PDone (RClient "tcp@z" (Some 1%nat) None); PDone (RErr None)],
     2%nat, [1%nat], [], true) /\
  summary (conc false late_select [sel; PClose]) =
    ([PDone (RClient "tcp@z" (Some 0%nat) None); PDone (RErr None)], 1%nat, [], [("tcp@z"%string, 0%nat)], true) /\
  summary (conc true sticky_pair [sel; sel]) =
    ([PDone (RClient "tcp@z" (Some 0%nat) None); PDone (RClient "tcp@z" (Some 0%nat) None)],
     1%nat, [0%nat], [("tcp@z"%string, 0%nat)], false).
Proof. vm_compute. repeat split. Qed.

(** ** The theorems applied *)

Lemma one_server_inv sticky : XInv n_addr (n_offers (serves := rr_serves)) (one_server sticky).
Proof.
  split; [done|done|]. intros _.
  unfold one_server, NewXClient. cbn [xworld servers]. apply rr_new_offers. reflexivity.
Qed.

Lemma one_server_armed : armed 2 (one_server false).
Proof. split; [reflexivity|]. vm_compute. repeat constructor. Qed.

(** A schedule in which the first connection dies as soon as it is made. *)
Definition unlucky : list (event (W := netr)) := double_dial ++ [World (n_close 0); Turn 3 ["tcp@z"%string]; T 4] ++ repeat (T 3) 9.
Definition crew : list (pc (A := string)) :=
  [sel; sel; PClose; PFan demo_ctx; PWatch [("tcp@z"%string, ""%string); ("tcp@y"%string, ""%string)]].

Lemma crew_initial : Forall (initial (opt false) 2) crew.
Proof.
  unfold crew. rewrite !Forall_cons. split_and!; done.
Qed.

Lemma unlucky_ok : Forall (event_ok n_addr (n_offers (serves := rr_serves))) unlucky.
Proof. unfold unlucky, double_dial. cbn [app repeat]. rewrite !Forall_cons. split_and!; done. Qed.

Lemma methods_return_witness :
  let s := conc false unlucky crew in
  (turns (opt false) "Arith" methods unlucky (start (one_server false) crew) <= length crew * (9 * 2 + 12))%nat /\
  ((forall i p, cgs s !! i = Some p -> finished p = true) \/
   exists i ks, is_Some (try_turn (opt false) "Arith" no_plugins no_cache methods i ks s)).
Proof.
  exact (methods_return (G := gmap string nat) n_addr (n_offers (serves := rr_serves)) (opt false) "Arith" methods 2
    (one_server false) crew unlucky (one_server_inv false) one_server_armed crew_initial unlucky_ok).
Defined.

Lemma solo_select_witness :
  exists s', rtc (alone (opt true) "Arith" no_plugins no_cache methods 0 []) (start (one_server true) [sel]) s' /\
    stands 0 (PDone (RClient "tcp@z" (Some 0%nat) None))
      (fst (selectClient (opt true) no_plugins no_cache "Arith" "Mul" "a"%string (one_server true))) None s'.
Proof.
  destruct (solo_select (G := gmap string nat) (opt true) "Arith" no_plugins no_cache methods 0 "a"%string
    (one_server true) (start (one_server true) [sel])) as (s' & Hr & Hs).
  { split; try reflexivity. }
  exists s'. split; [exact Hr|]. change (methods 0) with "Mul"%string in Hs.
  assert (snd (selectClient (opt true) no_plugins no_cache "Arith" "Mul" "a"%string (one_server true)) =
    Ok ("tcp@z"%string, Some 0%nat, None)) as Hres by (vm_compute; reflexivity).
  destruct (selectClient (opt true) no_plugins no_cache "Arith" "Mul" "a"%string (one_server true)) as [x r].
  cbn in Hres. subst r. exact Hs.
Defined.

(** ** With the selectors of the package *)

#[export] Instance net_conns {S} : ConnLaws (net S) string string n_addr.
Proof.
  assert (forall c (w : net S) d x, n_addr w d = Some x -> n_addr (fst (n_call c w)) d = Some x) as Hcall.
  { intros c w d x Hd. unfold n_call. repeat split_match; done. }
  split; try done.
  - intros n a w. cbn. destruct (decide (a = "down"%string)); [done|]. split_and!.
    + unfold n_addr. cbn. intros c x Hc. by apply lookup_app_l_Some.
    + unfold n_addr. cbn. by rewrite lookup_app_r, Nat.sub_diag by lia.
    + unfold live. cbn. rewrite !bool_decide_eq_false_2 by set_solver. done.
  - intros c ctx sp sm a r w d x Hd. cbn. pose proof (Hcall c w d x Hd). by destruct (n_call c w).
  - intros c ctx m w d x Hd. cbn. pose proof (Hcall c w d x Hd). by destruct (n_call c w).
Qed.

(** A consistent hash as the list of its nodes. *)
#[export] Instance list_jump : DoubleJump (list string) := {|
  dj_NewHash := [];
  dj_Add k h := k :: h;
  dj_Remove k h := filter (fun x => x <> k) h;
  dj_Get _ h := head h;
|}.
#[export] Instance list_jump_ok : DoubleJumpOk (list string) list_to_set.
Proof.
  split; cbn; [done|done| |].
  - intros k h. apply set_eq. intros x. rewrite elem_of_difference, !elem_of_list_to_set, list_elem_of_filter. set_solver.
  - intros _ [|k h]; cbn; [done|]. intros _. exists k. set_solver.
Qed.

Local Abbreviation demo_world := (world (N := net unit) (H := list string) (U := roundRobinSelector)).
Local Abbreviation shown := (fun a : string => a).
Local Abbreviation zeros := (fun (_ : nat) (_ : Z) => 0).
Local Abbreviation fast := (fun _ : string => 1).
Local Abbreviation demo_history :=
  (history (N := net unit) (R := string) n_addr list_to_set rr_serves shown zeros fast).
#[local] Existing Instance world_rpc.
Local Instance demo_rpc : RPCClients demo_world string string := world_rpc.
Local Instance demo_sel : SelectorObj demo_world string := world_sel shown zeros.

Definition start_world : demo_world := MkWorld (MkNet [] ∅ tt) (FRoundRobin (RRSel [] 0)) 0.
Definition made (mode : SelectMode) : xClient (W := demo_world) (B := ConsecCircuitBreaker) :=
  NewXClient demo_opt Failover mode demo_pairs (install fast mode) start_world.

Lemma zeros_ok (i : nat) : rnd_ok (zeros i).
Proof. apply rnd_zero_ok. Qed.

(** The server "z" leaves and "y" comes. *)
Definition later_pairs : list (string * string) := [("tcp@y"%string, ""%string); ("tcp@flaky"%string, ""%string)].
Definition updated : xClient (W := demo_world) (B := ConsecCircuitBreaker) :=
  fst (watch (A := string) demo_opt later_pairs
    (fst (Call demo_opt "Arith" [] ∅ Latency Latency demo_ctx "Mul" "hi" "" (made ConsistentHash)))).

Lemma updated_history : demo_history demo_opt "Arith" (fun _ => ""%string) ""%string (updated, announced demo_opt later_pairs).
Proof.
  eapply h_step; [eapply h_step; [apply (h_new _ _ _ _ _ _ _ _ _ _ Failover ConsistentHash demo_pairs start_world eq_refl)|]|].
  - vm_compute. reflexivity.
  - apply xs_call.
  - apply xs_watch. vm_compute. reflexivity.
Qed.

Lemma xclient_invariant_witness :
  servers updated = announced demo_opt later_pairs /\
  exists s k, Select "Arith" "Mul" "hi" (fun _ => 0) (w_sel (xworld updated)) = (s, Ok k) /\
    k ∈ dom (announced demo_opt later_pairs).
Proof.
  destruct (xclient_invariant (N := net unit) (R := string) n_addr list_to_set rr_serves shown zeros zeros_ok fast
    demo_opt "Arith" (fun _ => ""%string) ""%string updated (announced demo_opt later_pairs) updated_history)
    as (_ & _ & Hs & Hk).
  split; [exact Hs|]. destruct (Hk ltac:(vm_compute; reflexivity) "Arith" "Mul" "hi")%string as (s & k & Hsel & _ & Hin).
  exists s, k. split; [exact Hsel|]. apply Hin. vm_compute. discriminate.
Defined.

Lemma selectClient_sound_witness :
  exists x' k c e,
    selectClient demo_opt [] ∅ "Arith" "Mul" "hi"%string updated = (x', Ok (k, c, e))  /\
    servers x' = announced demo_opt later_pairs /\
    match c, e with
    | Some c, None =>
        live c (xworld x') = true /\ n_addr (w_net (xworld x')) c = Some (splitNetworkAndAddress k) /\
        (k ∈ dom (announced demo_opt later_pairs) \/
         Sticky demo_opt = true /\ stickyRPCClient updated = Some c /\ stickyK updated = k)
    | None, Some _ => True
    | _, _ => False
    end.
Proof.
  apply (selectClient_sound (N := net unit) (R := string) n_addr list_to_set rr_serves shown zeros zeros_ok fast
    demo_opt "Arith" (fun _ => ""%string) ""%string updated (announced demo_opt later_pairs));
    [exact updated_history|vm_compute; reflexivity].
Defined.

(** Two selections, [Close], a fan-out and an update, while the first connection dies. *)
Definition DT (i : nat) : event (W := demo_world) := Turn i [].
Definition dies : event (W := demo_world) := World (fun w => set_net w (n_close 0 (w_net w))).
Definition hard_day : list (event (W := demo_world)) :=
  [DT 0; DT 0; DT 0; DT 0; DT 0; DT 1; DT 1; DT 1; DT 1; DT 1] ++ repeat (DT 0) 10 ++ repeat (DT 1) 10 ++
  [DT 2; dies; Turn 3 ["tcp@y"%string]; DT 4] ++ repeat (DT 3) 9.

Lemma hard_day_ok : Forall (event_ok (w_addr n_addr) (w_offers list_to_set rr_serves)) hard_day.
Proof. unfold hard_day. cbn [app repeat]. rewrite !Forall_cons. split_and!; done. Qed.

Definition day_end : sys (W := demo_world) (A := string) (B := ConsecCircuitBreaker) (G := gmap string nat) :=
  crun demo_opt "Arith" [] ∅ methods hard_day (start updated crew).

Lemma conc_sound_witness :
  cgs day_end !! 1%nat = Some (PDone (RClient "tcp@flaky" (Some 2%nat) None)) /\
  outcome_ok (w_addr n_addr) (xworld (cx day_end)) (RClient "tcp@flaky" (Some 2%nat) None).
Proof.
  destruct (conc_sound (N := net unit) (R := string) n_addr list_to_set rr_serves shown zeros zeros_ok fast
    demo_opt "Arith" (fun _ => ""%string) ""%string (G := gmap string nat) methods 2 updated
    (announced demo_opt later_pairs) crew hard_day updated_history ltac:(vm_compute; reflexivity)
    ltac:(vm_compute; repeat constructor) ltac:(unfold crew; rewrite !Forall_cons; split_and!; done) hard_day_ok)
    as (_ & _ & _ & Ho).
  split; [vm_compute; reflexivity|].
  refine (Ho 1%nat (RClient "tcp@flaky" (Some 2%nat) None) _). vm_compute. reflexivity.
Defined.
End XConcDemo.
