(* ===== verification/Discovery.v ===== *)
(** client/discovery.go, multiple_servers_discovery.go, peer2peer_discovery.go,
    dns_discovery.go and mdns_discovery.go: where an xClient learns of its servers.

    A watcher is a buffered channel, a number here. An update is sent to each channel by a
    goroutine of its own: until it runs the update is among the [sends], and the goroutines run
    in any order. Queries of the network are arguments. *)

From S2P Require Import Prelude GoStd.

Module Discovery.

Abbreviation KVPair := (string * string)%type.

(** The interface that the xClient and the cache use. *)
Class ServiceDiscovery (D : Type) := {
  sd_GetServices : D -> D * list KVPair;
  sd_WatchService : D -> D * option nat;
  sd_RemoveWatcher : option nat -> D -> D;
  sd_SetFilter : (KVPair -> bool) -> D -> D;
  sd_Close : D -> res D;
}.

(** ** Watchers *)

(** What the discoveries that can change keep: the servers, the watchers' channels, the sends
    whose goroutine has not run, what each channel buffers, and the channels that were closed
    by their watcher. *)
Record watched := MkWatched {
  wt_pairs : list KVPair;
  wt_chans : list nat;
  wt_sends : list (nat * list KVPair);
  wt_queues : gmap nat (list (list KVPair));
  wt_closed : gset nat;
  wt_next : nat;
}.

Definition newWatched (pairs : list KVPair) : watched := MkWatched pairs [] [] ∅ ∅ 0.

Definition queue (d : watched) (ch : nat) : list (list KVPair) := default [] (wt_queues d !! ch).

Definition add_watcher (d : watched) : watched * option nat :=
  (MkWatched (wt_pairs d) (wt_chans d ++ [wt_next d]) (wt_sends d) (wt_queues d) (wt_closed d)
     (S (wt_next d)), Some (wt_next d)).

Definition del_watcher (ch : option nat) (d : watched) : watched :=
  MkWatched (wt_pairs d) (filter (fun c => Some c <> ch) (wt_chans d)) (wt_sends d) (wt_queues d)
    (wt_closed d) (wt_next d).

(** The servers become [pairs], and a goroutine per watcher sends them. *)
Definition publish (pairs : list KVPair) (d : watched) : watched :=
  MkWatched pairs (wt_chans d) (wt_sends d ++ ((fun ch => (ch, pairs)) <$> wt_chans d))
    (wt_queues d) (wt_closed d) (wt_next d).

Definition bufferSize : nat := 10.

(** One step of a sending goroutine, a receive of the watcher or the end of the watcher. A
    send on a closed channel panics and is recovered; a send on a full channel is given up
    after a minute. *)
Inductive label :=
  | LSend (ch : nat) (ps : list KVPair)
  | LDrop (ch : nat) (ps : list KVPair)
  | LRecv (ch : nat) (ps : list KVPair)
  | LClose (ch : nat).

Inductive wt_step : watched -> label -> watched -> Prop :=
  | wt_send d i ch ps :
      wt_sends d !! i = Some (ch, ps) -> (length (queue d ch) < bufferSize)%nat ->
      ch ∉ wt_closed d ->
      wt_step d (LSend ch ps)
        (MkWatched (wt_pairs d) (wt_chans d) (delete i (wt_sends d))
           (<[ch := queue d ch ++ [ps]]> (wt_queues d)) (wt_closed d) (wt_next d))
  | wt_drop d i ch ps :
      wt_sends d !! i = Some (ch, ps) -> (bufferSize <= length (queue d ch))%nat \/ ch ∈ wt_closed d ->
      wt_step d (LDrop ch ps)
        (MkWatched (wt_pairs d) (wt_chans d) (delete i (wt_sends d))
           (wt_queues d) (wt_closed d) (wt_next d))
  | wt_recv d ch ps q :
      queue d ch = ps :: q ->
      wt_step d (LRecv ch ps)
        (MkWatched (wt_pairs d) (wt_chans d) (wt_sends d)
           (<[ch := q]> (wt_queues d)) (wt_closed d) (wt_next d))
  | wt_close d ch :
      wt_step d (LClose ch)
        (MkWatched (wt_pairs d) (wt_chans d) (wt_sends d) (wt_queues d)
           ({[ch]} ∪ wt_closed d) (wt_next d)).

Inductive wt_exec : watched -> list label -> watched -> Prop :=
  | wt_done d : wt_exec d [] d
  | wt_more d l d' ls d'' : wt_step d l d' -> wt_exec d' ls d'' -> wt_exec d (l :: ls) d''.

(** ** MultipleServersDiscovery *)

Definition NewMultipleServersDiscovery (pairs : list KVPair) : watched := newWatched pairs.
Definition Multiple_Clone (servicePath : string) (d : watched) : watched := d.
Definition Multiple_SetFilter (filter : KVPair -> bool) (d : watched) : watched := d.
Definition Multiple_GetServices (d : watched) : watched * list KVPair := (d, wt_pairs d).
Definition Multiple_WatchService (d : watched) : watched * option nat := add_watcher d.
Definition Multiple_RemoveWatcher (ch : option nat) (d : watched) : watched := del_watcher ch d.
Definition Multiple_Update (pairs : list KVPair) (d : watched) : watched := publish pairs d.
Definition Multiple_Close (d : watched) : res watched := Ok d.

Definition multiple_discovery : ServiceDiscovery watched := {|
  sd_GetServices := Multiple_GetServices;
  sd_WatchService := Multiple_WatchService;
  sd_RemoveWatcher := Multiple_RemoveWatcher;
  sd_SetFilter := Multiple_SetFilter;
  sd_Close := Multiple_Close;
|}.

(** ** Peer2PeerDiscovery *)

Record Peer2Peer := NewPeer2PeerDiscovery { p2p_server : string; p2p_metadata : string }.

Definition P2P_Clone (servicePath : string) (d : Peer2Peer) : Peer2Peer := d.
Definition P2P_GetServices (d : Peer2Peer) : Peer2Peer * list KVPair :=
  (d, [(p2p_server d, p2p_metadata d)]).
Definition P2P_WatchService (d : Peer2Peer) : Peer2Peer * option nat := (d, None).

Definition peer2peer_discovery : ServiceDiscovery Peer2Peer := {|
  sd_GetServices := P2P_GetServices;
  sd_WatchService := P2P_WatchService;
  sd_RemoveWatcher := fun _ d => d;
  sd_SetFilter := fun _ d => d;
  sd_Close := fun d => Ok d;
|}.

(** ** DNSDiscovery *)

(** [dns_stopCh = None] is the nil channel. *)
Record DNSDiscovery := MkDNS {
  dns_network : string;
  dns_port : Z;
  dns_filter : option (KVPair -> bool);
  dns_stopCh : option nat;
  dns_watched : watched;
}.

Definition accepts (filter : option (KVPair -> bool)) (p : KVPair) : bool :=
  match filter with Some f => f p | None => true end.

Definition dns_pair (network : string) (port : Z) (ip : string) : KVPair :=
  (network +:+ "@" +:+ ip +:+ ":" +:+ FormatInt port, ""%string)%string.

Definition key_le (x y : KVPair) : Prop := String.le x.1 y.1.

Global Instance key_le_dec x y : Decision (key_le x y).
Proof. unfold key_le. apply _. Defined.

(** [lookup], given the addresses or the error that [net.LookupIP] returns. *)
Definition DNS_lookup (ips : list string + error) (d : DNSDiscovery) : DNSDiscovery :=
  match ips with
  | inr _ => d
  | inl ips =>
      let pairs := List.filter (accepts (dns_filter d)) (dns_pair (dns_network d) (dns_port d) <$> ips) in
      let pairs := merge_sort key_le pairs in
      MkDNS (dns_network d) (dns_port d) (dns_filter d) (dns_stopCh d) (publish pairs (dns_watched d))
  end.

(** The first lookup; the goroutine of [watch] is [DNS_tick]. *)
Definition NewDNSDiscovery (network : string) (port : Z) (ips : list string + error) : DNSDiscovery :=
  DNS_lookup ips (MkDNS network port None None (newWatched [])).

Definition DNS_Clone (servicePath : string) (ips : list string + error) (d : DNSDiscovery) : DNSDiscovery :=
  NewDNSDiscovery (dns_network d) (dns_port d) ips.

Definition DNS_SetFilter (filter : KVPair -> bool) (d : DNSDiscovery) : DNSDiscovery :=
  MkDNS (dns_network d) (dns_port d) (Some filter) (dns_stopCh d) (dns_watched d).
Definition DNS_GetServices (d : DNSDiscovery) : DNSDiscovery * list KVPair :=
  (d, wt_pairs (dns_watched d)).
Definition dns_with (d : DNSDiscovery) (w : watched) : DNSDiscovery :=
  MkDNS (dns_network d) (dns_port d) (dns_filter d) (dns_stopCh d) w.
Definition DNS_WatchService (d : DNSDiscovery) : DNSDiscovery * option nat :=
  let '(w, ch) := add_watcher (dns_watched d) in (dns_with d w, ch).
Definition DNS_RemoveWatcher (ch : option nat) (d : DNSDiscovery) : DNSDiscovery :=
  dns_with d (del_watcher ch (dns_watched d)).

(** A round of [watch]: a nil [stopCh] is never ready, so every tick looks up again. *)
Definition DNS_tick (ips : list string + error) (d : DNSDiscovery) : DNSDiscovery := DNS_lookup ips d.

Definition DNS_Close (d : DNSDiscovery) : res DNSDiscovery :=
  match dns_stopCh d with
  | None => Panic "close of nil channel"
  | Some _ => Ok d
  end.

Definition dns_discovery : ServiceDiscovery DNSDiscovery := {|
  sd_GetServices := DNS_GetServices;
  sd_WatchService := DNS_WatchService;
  sd_RemoveWatcher := DNS_RemoveWatcher;
  sd_SetFilter := DNS_SetFilter;
  sd_Close := DNS_Close;
|}.

(** ** MDNSDiscovery *)

Record serviceMeta := MkSMeta { sm_Service : string; sm_Meta : string; sm_ServiceAddress : string }.

(** An object as it stands in the text: the fields it has. *)
Record smFields := MkFields {
  f_Service : option string; f_Meta : option string; f_ServiceAddress : option string }.

Record MDNSDiscovery := MkMDNS {
  md_filter : option (KVPair -> bool);
  md_stopped : bool;
  md_watched : watched;
}.

(** [json.Unmarshal] decodes into the elements that the slice has: a field that an object
    leaves out keeps its value, and so do the elements behind the length, up to the capacity.
    [None] is a null. *)
Definition decode_into (old : serviceMeta) (o : smFields) : serviceMeta :=
  MkSMeta (default (sm_Service old) (f_Service o)) (default (sm_Meta old) (f_Meta o))
          (default (sm_ServiceAddress old) (f_ServiceAddress o)).

Definition zeroMeta : serviceMeta := MkSMeta "" "" "".

(** [cells] are the elements up to the capacity, [None] for a nil pointer. *)
Fixpoint unmarshal_cells (cells : list (option serviceMeta)) (os : list (option smFields)) :
    list (option serviceMeta) :=
  match os with
  | [] => cells
  | o :: os =>
      let old := default None (head cells) in
      (decode_into (default zeroMeta old) <$> o) :: unmarshal_cells (tail cells) os
  end.

Section MDNS.
(** [url.QueryUnescape] and then [json.Unmarshal] of an entry's text: the objects that were
    decoded, and whether there was an error. *)
Context (parse_services : string -> list (option smFields) * bool).

(** The pairs of one entry; a nil element panics. *)
Fixpoint entry_pairs (filter : option (KVPair -> bool)) (services : list (option serviceMeta)) :
    res (list KVPair) :=
  match services with
  | [] => Ok []
  | None :: _ => Panic "invalid memory address or nil pointer dereference"
  | Some sm :: r =>
      match entry_pairs filter r with
      | Ok ps =>
          let pair := (sm_ServiceAddress sm, sm_Meta sm) in
          Ok (if accepts filter pair then pair :: ps else ps)
      | e => e
      end
  end.

(** The goroutine of [browse] over the entries that the resolver delivers; an entry is its list
    of texts. *)
Fixpoint browse_entries (filter : option (KVPair -> bool)) (cells : list (option serviceMeta))
    (entries : list (list string)) : res (list KVPair) :=
  match entries with
  | [] => Ok []
  | [] :: _ => Panic "index out of range"
  | (text :: _) :: rest =>
      let '(os, bad) := parse_services text in
      let cells := unmarshal_cells cells os in
      if bad : bool then browse_entries filter cells rest
      else
        match entry_pairs filter (take (length os) cells) with
        | Ok ps =>
            match browse_entries filter cells rest with
            | Ok qs => Ok (ps ++ qs)
            | e => e
            end
        | e => e
        end
  end.

(** [browse]; [entries] are an error when the resolver cannot be made. *)
Definition MDNS_browse (entries : list (list string) + error) (d : MDNSDiscovery) : res (list KVPair) :=
  match entries with
  | inr err => Er err
  | inl entries => browse_entries (md_filter d) [] entries
  end.

Definition md_with (d : MDNSDiscovery) (w : watched) : MDNSDiscovery :=
  MkMDNS (md_filter d) (md_stopped d) w.

(** A panic of the goroutine ends the process. *)
Definition NewMDNSDiscovery (entries : list (list string) + error) : res MDNSDiscovery :=
  let d := MkMDNS None false (newWatched []) in
  match MDNS_browse entries d with
  | Ok pairs => Ok (md_with d (newWatched pairs))
  | Er _ => Ok d
  | Panic why => Panic why
  end.

(** A round of [watch]. *)
Definition MDNS_tick (entries : list (list string) + error) (d : MDNSDiscovery) : res MDNSDiscovery :=
  if md_stopped d then Ok d
  else
    match MDNS_browse entries d with
    | Ok pairs => Ok (md_with d (publish pairs (md_watched d)))
    | Er _ => Ok d
    | Panic why => Panic why
    end.

Definition MDNS_Clone (entries : list (list string) + error) : res MDNSDiscovery := NewMDNSDiscovery entries.
End MDNS.

Definition MDNS_SetFilter (filter : KVPair -> bool) (d : MDNSDiscovery) : MDNSDiscovery :=
  MkMDNS (Some filter) (md_stopped d) (md_watched d).
Definition MDNS_GetServices (d : MDNSDiscovery) : MDNSDiscovery * list KVPair :=
  (d, wt_pairs (md_watched d)).
Definition MDNS_WatchService (d : MDNSDiscovery) : MDNSDiscovery * option nat :=
  let '(w, ch) := add_watcher (md_watched d) in (md_with d w, ch).
Definition MDNS_RemoveWatcher (ch : option nat) (d : MDNSDiscovery) : MDNSDiscovery :=
  md_with d (del_watcher ch (md_watched d)).
Definition MDNS_Close (d : MDNSDiscovery) : res MDNSDiscovery :=
  if md_stopped d then Panic "close of closed channel"
  else Ok (MkMDNS (md_filter d) true (md_watched d)).

Definition mdns_discovery : ServiceDiscovery MDNSDiscovery := {|
  sd_GetServices := MDNS_GetServices;
  sd_WatchService := MDNS_WatchService;
  sd_RemoveWatcher := MDNS_RemoveWatcher;
  sd_SetFilter := MDNS_SetFilter;
  sd_Close := MDNS_Close;
|}.

(** ** Updates reach the watchers *)

(** What was sent on [ch], in order. *)
Definition sent (ch : nat) (ls : list label) : list (list KVPair) :=
  omap (fun l => match l with LSend c ps => if decide (c = ch) then Some ps else None | _ => None end) ls.

Definition dropped (ch : nat) (ls : list label) : Prop := exists ps, LDrop ch ps ∈ ls.

(** The sends that are still to come on [ch]. *)
Definition outstanding (ch : nat) (d : watched) : list (list KVPair) :=
  omap (fun '(c, ps) => if decide (c = ch) then Some ps else None) (wt_sends d).

Lemma outstanding_delete ch d i c ps :
  wt_sends d !! i = Some (c, ps) ->
  outstanding ch d ≡ₚ (if decide (c = ch) then [ps] else []) ++
    omap (fun '(c, ps) => if decide (c = ch) then Some ps else None) (delete i (wt_sends d)).
Proof.
  intros Hi. unfold outstanding.
  rewrite (delete_Permutation _ _ _ Hi) at 1. cbn. by destruct (decide (c = ch)).
Qed.

(** Nothing is lost or made up: what was sent on a channel and what is still to come is a
    reordering of what was to come, unless something was dropped. *)
Lemma exec_outstanding d ls d' ch :
  wt_exec d ls d' -> ~ dropped ch ls -> sent ch ls ++ outstanding ch d' ≡ₚ outstanding ch d.
Proof.
  induction 1 as [d|d l d1 ls d2 Hs Hx IH]; intros Hd; [done|].
  assert (~ dropped ch ls) as Hd' by (intros [ps Hps]; apply Hd; exists ps; by right).
  specialize (IH Hd'). destruct Hs as [d i c ps Hi _ _|d i c ps Hi _|d c ps q Hq|d c].
  - rewrite (outstanding_delete ch d i c ps Hi). unfold sent. cbn [omap list_omap].
    destruct (decide (c = ch)); cbn [app]; [f_equiv|]; exact IH.
  - rewrite (outstanding_delete ch d i c ps Hi). unfold sent. cbn [omap list_omap].
    destruct (decide (c = ch)) as [->|]; [destruct Hd; exists ps; left|exact IH].
  - exact IH.
  - exact IH.
Qed.

Lemma outstanding_publish ch ps d :
  NoDup (wt_chans d) -> ch ∈ wt_chans d -> wt_sends d = [] -> outstanding ch (publish ps d) = [ps].
Proof.
  intros Hnd Hin Hs. unfold outstanding, publish. cbn [wt_sends]. rewrite Hs. cbn [app].
  induction (wt_chans d) as [|c l IH]; [by apply not_elem_of_nil in Hin|].
  apply NoDup_cons in Hnd as [Hc Hnd]. cbn. destruct (decide (c = ch)) as [->|Hne].
  - f_equal. clear IH Hin Hnd. induction l as [|c l IH]; [done|]. cbn.
    rewrite decide_False by (intros ->; apply Hc; left). apply IH.
    intros H. apply Hc. by right.
  - apply IH; [done|]. by apply elem_of_cons in Hin as [?|?].
Qed.

(** An update that is published when no other is in flight is sent exactly once on every
    watcher's channel, once its goroutines have run without finding a full or closed channel:
    watchers end with the servers that [GetServices] returns. *)
Theorem update_delivered_once ps d ls d' ch :
  NoDup (wt_chans d) -> ch ∈ wt_chans d -> wt_sends d = [] ->
  wt_exec (Multiple_Update ps d) ls d' -> ~ dropped ch ls -> outstanding ch d' = [] ->
  sent ch ls = [ps] /\ snd (Multiple_GetServices (Multiple_Update ps d)) = ps.
Proof.
  intros Hnd Hin Hs Hx Hd Ho. split; [|done].
  pose proof (exec_outstanding _ _ _ ch Hx Hd) as Hp.
  rewrite Ho, app_nil_r in Hp. unfold Multiple_Update in Hp.
  rewrite outstanding_publish in Hp by done. by apply Permutation_singleton_r in Hp.
Qed.

(** Two updates in a row may reach a watcher in the wrong order: it ends with the servers of
    the first one, while [GetServices] returns those of the second. *)
Theorem updates_reordered p1 p2 d ch :
  wt_chans d = [ch] -> wt_sends d = [] -> queue d ch = [] -> ch ∉ wt_closed d ->
  exists ls d', wt_exec (Multiple_Update p2 (Multiple_Update p1 d)) ls d' /\
    wt_sends d' = [] /\ queue d' ch = [p2; p1] /\ snd (Multiple_GetServices d') = p2.
Proof.
  intros Hc Hs Hq Hcl. unfold Multiple_Update, publish. cbn [wt_chans wt_sends wt_queues wt_closed].
  rewrite Hc, Hs. cbn [fmap list_fmap app].
  eexists [LSend ch p2; LSend ch p1], _. split.
  - eapply wt_more; [eapply (wt_send _ 1 ch p2); [reflexivity| |done]|].
    { unfold queue in *. cbn. rewrite Hq. unfold bufferSize. cbn. lia. }
    eapply wt_more; [eapply (wt_send _ 0 ch p1); [reflexivity| |done]|apply wt_done].
    unfold queue in *. cbn. rewrite lookup_insert_eq, Hq. unfold bufferSize. cbn. lia.
  - cbn. split_and!; [done| |done]. unfold queue in *. cbn.
    rewrite lookup_insert_eq. cbn. rewrite lookup_insert_eq. cbn. by rewrite Hq.
Qed.

(** ** DNS *)

(** A lookup that succeeds publishes the accepted addresses, each as often as it was returned,
    sorted by key; one that fails changes nothing. *)
Theorem dns_lookup_spec ips d :
  let d' := DNS_lookup (inl ips) d in
  wt_pairs (dns_watched d') ≡ₚ
    List.filter (accepts (dns_filter d)) (dns_pair (dns_network d) (dns_port d) <$> ips) /\
  StronglySorted key_le (wt_pairs (dns_watched d')) /\
  (forall e, DNS_lookup (inr e) d = d).
Proof.
  assert (Transitive key_le) by (intros x y z; apply (transitivity (R := String.le))).
  assert (Total key_le) by (intros x y; apply (total String.le)).
  split_and!; [apply merge_sort_Permutation| |done].
  apply (StronglySorted_merge_sort _).
Qed.

(** The operations of a DNS discovery. *)
Inductive dns_op := DLookup (ips : list string + error) | DFilter (f : KVPair -> bool) | DWatch | DRemove (ch : option nat).

Definition do_dns_op (d : DNSDiscovery) (o : dns_op) : DNSDiscovery :=
  match o with
  | DLookup ips => DNS_tick ips d
  | DFilter f => DNS_SetFilter f d
  | DWatch => fst (DNS_WatchService d)
  | DRemove ch => DNS_RemoveWatcher ch d
  end.

(** [stopCh] is never made: closing the discovery panics, whatever happened before. *)
Theorem dns_close_panics network port ips ops :
  exists why, DNS_Close (foldl do_dns_op (NewDNSDiscovery network port ips) ops) = Panic why.
Proof.
  assert (forall d, dns_stopCh d = None -> dns_stopCh (foldl do_dns_op d ops) = None) as H.
  { induction ops as [|o ops IH]; intros d Hd; [done|]. cbn [foldl]. apply IH.
    destruct o as [[ips'|e]|f| |ch]; done. }
  unfold DNS_Close. rewrite H; [eauto|]. by destruct ips.
Qed.

(** ** mDNS *)

Definition full (o : smFields) (sm : serviceMeta) : Prop :=
  f_Service o = Some (sm_Service sm) /\ f_Meta o = Some (sm_Meta sm) /\
  f_ServiceAddress o = Some (sm_ServiceAddress sm).

Lemma unmarshal_full cells os sms :
  Forall2 (fun o sm => exists o', o = Some o' /\ full o' sm) os sms ->
  take (length os) (unmarshal_cells cells os) = Some <$> sms.
Proof.
  intros H. revert cells. induction H as [|o sm os sms (o' & -> & H1 & H2 & H3) _ IH]; intros cells; [done|].
  cbn [unmarshal_cells length take]. rewrite IH. cbn. f_equal. f_equal. unfold decode_into.
  rewrite H1, H2, H3. by destruct sm.
Qed.

Definition pair_of (sm : serviceMeta) : KVPair := (sm_ServiceAddress sm, sm_Meta sm).

Lemma entry_pairs_full f sms :
  entry_pairs f (Some <$> sms) = Ok (List.filter (accepts f) (pair_of <$> sms)).
Proof. induction sms as [|sm sms IH]; [done|]. cbn. rewrite IH. by destruct (accepts _ _). Qed.

(** When every entry lists its services with all their fields, browsing finds the accepted
    services of all entries, in order. *)
Theorem browse_full parse f entries services cells :
  Forall2 (fun e sms => exists text rest os, e = text :: rest /\ parse text = (os, false) /\
             Forall2 (fun o sm => exists o', o = Some o' /\ full o' sm) os sms) entries services ->
  browse_entries parse f cells entries =
    Ok (List.filter (accepts f) (pair_of <$> concat services)).
Proof.
  intros H. revert cells.
  induction H as [|e sms es ss (text & rest & os & -> & Hp & Hf) _ IH]; intros cells; [done|].
  cbn [browse_entries]. rewrite Hp, (unmarshal_full _ _ _ Hf), entry_pairs_full, IH.
  cbn [concat]. by rewrite fmap_app, List.filter_app.
Qed.

(** A service without metadata, whose field is then left out of the text, is listed with the
    metadata of the service at its place in the entry before. *)
Theorem browse_stale_meta parse t1 t2 addr1 addr2 meta svc :
  parse t1 = ([Some (MkFields (Some svc) (Some meta) (Some addr1))], false) ->
  parse t2 = ([Some (MkFields (Some svc) None (Some addr2))], false) ->
  MDNS_browse parse (inl [[t1]; [t2]]) (MkMDNS None false (newWatched [])) =
    Ok [(addr1, meta); (addr2, meta)].
Proof.
  intros H1 H2. cbn [MDNS_browse browse_entries md_filter]. rewrite H1. cbn. by rewrite H2.
Qed.
End Discovery.
