(* ===== verification/CachedDiscovery.v ===== *)
(** client/discovery.go: the discovery that remembers servers for the time when the registry is
    lost. [D] is the discovery behind it, through its interface; the file system and the JSON
    text of the servers are parameters. *)

From S2P Require Import Prelude GoStd Discovery.

Module CachedDiscovery.
Import Discovery.

Section Cached.
Context {D : Type} {inner : ServiceDiscovery D}.
Context (json_Marshal : list KVPair -> bytes) (json_Unmarshal : bytes -> list KVPair).
(** What a file holds after [os.WriteFile], which may fail. *)
Context (WriteFile : bytes -> option bytes -> option bytes).

(** [cd_file] is the cached file; the channels handed to watchers have numbers, [cd_out] is
    what was sent on them and [cd_closed] those that are closed. *)
Record cachedServiceDiscovery := MkCached {
  cd_threshold : Z;
  cd_cached : list KVPair;
  cd_chans : gmap nat nat;
  cd_inner : D;
  cd_file : option bytes;
  cd_out : gmap nat (list (list KVPair));
  cd_closed : gset nat;
  cd_next : nat;
}.

(** [mkdir] is the error of [os.MkdirAll], when the directory did not exist. *)
Definition CacheDiscovery (threshold : Z) (file : option bytes) (dirExists : bool)
    (mkdir : option error) (discovery : D) : res cachedServiceDiscovery :=
  match dirExists, mkdir with
  | false, Some err => Panic (Error_text err)
  | _, _ => Ok (MkCached threshold [] ∅ discovery file ∅ ∅ 0)
  end.

Definition storeCached (kvPairs : list KVPair) (cd : cachedServiceDiscovery) : cachedServiceDiscovery :=
  MkCached (cd_threshold cd) (cd_cached cd) (cd_chans cd) (cd_inner cd)
    (WriteFile (json_Marshal kvPairs) (cd_file cd)) (cd_out cd) (cd_closed cd) (cd_next cd).

Definition loadCached (cd : cachedServiceDiscovery) : list KVPair :=
  match cd_file cd with
  | None | Some [] => []
  | Some data => json_Unmarshal data
  end.

Definition set_cached (l : list KVPair) (cd : cachedServiceDiscovery) : cachedServiceDiscovery :=
  MkCached (cd_threshold cd) l (cd_chans cd) (cd_inner cd) (cd_file cd) (cd_out cd) (cd_closed cd)
    (cd_next cd).

Definition set_inner (d : D) (cd : cachedServiceDiscovery) : cachedServiceDiscovery :=
  MkCached (cd_threshold cd) (cd_cached cd) (cd_chans cd) d (cd_file cd) (cd_out cd) (cd_closed cd)
    (cd_next cd).

(** The cache takes a list that is longer than its own. *)
Definition remember (kvPairs : list KVPair) (cd : cachedServiceDiscovery) : cachedServiceDiscovery :=
  if zlen kvPairs >? zlen (cd_cached cd) then storeCached kvPairs (set_cached kvPairs cd) else cd.

(** [GetServices]; the result of [loadCached] is not used. *)
Definition GetServices (cd : cachedServiceDiscovery) : cachedServiceDiscovery * list KVPair :=
  let '(d, kvPairs) := sd_GetServices (cd_inner cd) in
  let cd := set_inner d cd in
  if zlen kvPairs >? cd_threshold cd then (remember kvPairs cd, kvPairs)
  else
    let _ := if zlen (cd_cached cd) =? 0 then loadCached cd else [] in
    (cd, cd_cached cd).

(** [WatchService] up to the start of its goroutine; a nil channel of the inner discovery is
    never ready, so its goroutine never runs. *)
Definition WatchService (cd : cachedServiceDiscovery) : cachedServiceDiscovery * nat :=
  let '(d, ch) := sd_WatchService (cd_inner cd) in
  let cachedCh := cd_next cd in
  (MkCached (cd_threshold cd) (cd_cached cd)
     (match ch with Some ch => <[cachedCh := ch]> (cd_chans cd) | None => cd_chans cd end) d
     (cd_file cd) (cd_out cd) (cd_closed cd) (S cachedCh), cachedCh).

(** A round of that goroutine: what it received from the inner channel, [None] when that was
    closed. [defer recover()] does not recover: a panic ends the process. *)
Definition forward (cachedCh : nat) (msg : option (list KVPair)) (cd : cachedServiceDiscovery) :
    res cachedServiceDiscovery :=
  match msg with
  | None =>
      if decide (cachedCh ∈ cd_closed cd) then Panic "close of closed channel"
      else Ok (MkCached (cd_threshold cd) (cd_cached cd) (cd_chans cd) (cd_inner cd) (cd_file cd)
                 (cd_out cd) ({[cachedCh]} ∪ cd_closed cd) (cd_next cd))
  | Some kvPairs =>
      let cd := remember kvPairs cd in
      if decide (cachedCh ∈ cd_closed cd) then Panic "send on closed channel"
      else Ok (MkCached (cd_threshold cd) (cd_cached cd) (cd_chans cd) (cd_inner cd) (cd_file cd)
                 (<[cachedCh := default [] (cd_out cd !! cachedCh) ++ [kvPairs]]> (cd_out cd))
                 (cd_closed cd) (cd_next cd))
  end.

Definition RemoveWatcher (ch : nat) (cd : cachedServiceDiscovery) : cachedServiceDiscovery :=
  let origin := cd_chans cd !! ch in
  let d := match origin with
           | Some o => sd_RemoveWatcher (Some o) (cd_inner cd)
           | None => cd_inner cd
           end in
  MkCached (cd_threshold cd) (cd_cached cd) (delete ch (cd_chans cd)) d (cd_file cd) (cd_out cd)
    (cd_closed cd) (cd_next cd).

(** The watcher closes its channel, as the xClient does when it is closed. *)
Definition close_watcher (ch : nat) (cd : cachedServiceDiscovery) : cachedServiceDiscovery :=
  MkCached (cd_threshold cd) (cd_cached cd) (cd_chans cd) (cd_inner cd) (cd_file cd) (cd_out cd)
    ({[ch]} ∪ cd_closed cd) (cd_next cd).

(** ** What the cache guarantees *)

(** Everything that happens to the discovery; the registry behind it may change at will. *)
Inductive op :=
  | OGet | OWatch | OForward (ch : nat) (msg : option (list KVPair))
  | ORemove (ch : nat) | OClose (ch : nat) | ORegistry (d : D).

Definition do_op (cd : cachedServiceDiscovery) (o : op) : cachedServiceDiscovery :=
  match o with
  | OGet => fst (GetServices cd)
  | OWatch => fst (WatchService cd)
  | OForward ch msg => match forward ch msg cd with Ok cd => cd | _ => cd end
  | ORemove ch => RemoveWatcher ch cd
  | OClose ch => close_watcher ch cd
  | ORegistry d => set_inner d cd
  end.

Lemma remember_grows l cd :
  zlen (cd_cached cd) <= zlen (cd_cached (remember l cd)) /\
  zlen l <= zlen (cd_cached (remember l cd)) /\ cd_threshold (remember l cd) = cd_threshold cd.
Proof. unfold remember. destruct (_ >? _) eqn:E; zbool; cbn; lia. Qed.

(** No operation makes the cache shorter. *)
Lemma do_op_grows cd o :
  zlen (cd_cached cd) <= zlen (cd_cached (do_op cd o)) /\ cd_threshold (do_op cd o) = cd_threshold cd.
Proof.
  destruct o as [| |ch [ps|]|ch|ch|d]; cbn [do_op]; [| | | |done|done|done].
  - unfold GetServices. destruct (sd_GetServices _) as [d kvs].
    destruct (_ >? _); [|done]. cbn [fst].
    destruct (remember_grows kvs (set_inner d cd)) as (H1 & _ & H2). done.
  - unfold WatchService. destruct (sd_WatchService _) as [d ch]. done.
  - unfold forward. destruct (remember_grows ps cd) as (H1 & _ & H2).
    destruct (decide _); [done|]. cbn. done.
  - unfold forward. by destruct (decide _).
Qed.

Lemma do_ops_grow ops cd :
  zlen (cd_cached cd) <= zlen (cd_cached (foldl do_op cd ops)) /\
  cd_threshold (foldl do_op cd ops) = cd_threshold cd.
Proof.
  revert cd. induction ops as [|o ops IH]; intros cd; [done|]. cbn [foldl].
  destruct (do_op_grows cd o), (IH (do_op cd o)). split; [lia|congruence].
Qed.

(** C30. Once [GetServices] has returned more services than the threshold, every later call does,
    whatever becomes of the registry, the watchers and the file. The comment on [CacheDiscovery]
    says that the cached services are returned when the number of services is greater than the
    threshold. The code does the reverse, which is what serves a lost registry: in the case that
    the comment names, the answer is the registry's own list, even where the cached one is longer;
    the cached list, which is then longer than the threshold, is the answer when the registry lists
    no more services than the threshold. *)
Theorem cached_survives cd ops :
  let '(cd1, r1) := GetServices cd in
  cd_threshold cd < zlen r1 ->
  let cd2 := foldl do_op cd1 ops in
  let r2 := snd (GetServices cd2) in
  let fresh := snd (sd_GetServices (cd_inner cd2)) in
  cd_threshold cd < zlen r2 /\
  (cd_threshold cd < zlen fresh -> r2 = fresh) /\
  (zlen fresh <= cd_threshold cd -> r2 = cd_cached cd2 /\ cd_threshold cd < zlen (cd_cached cd2)).
Proof.
  destruct (GetServices cd) as [cd1 r1] eqn:E1. intros Hr cd2 r2 fresh.
  assert (zlen r1 <= zlen (cd_cached cd1) /\ cd_threshold cd1 = cd_threshold cd) as [H1 Ht].
  { unfold GetServices in E1. destruct (sd_GetServices (cd_inner cd)) as [d kvs].
    destruct (_ >? _); injection E1 as <- <-; [|done].
    destruct (remember_grows kvs (set_inner d cd)) as (_ & H2 & H3). done. }
  destruct (do_ops_grow ops cd1) as [H2 H3]. fold cd2 in H2, H3.
  unfold r2, fresh, GetServices. destruct (sd_GetServices (cd_inner cd2)) as [d kvs].
  cbn [snd]. change (cd_threshold (set_inner d cd2)) with (cd_threshold cd2).
  rewrite H3, Ht. change (cd_cached (set_inner d cd2)) with (cd_cached cd2).
  destruct (_ >? _) eqn:E; zbool; cbn [snd]; split_and!; [done|done|lia|lia|lia|split; [done|lia]].
Qed.

(** After a restart the cached file does not help: a new discovery whose registry is lost
    returns no services, whatever the file holds, although [loadCached] reads them. *)
Theorem cached_file_unused threshold file discovery cd :
  CacheDiscovery threshold file true None discovery = Ok cd ->
  zlen (snd (sd_GetServices discovery)) <= threshold ->
  snd (GetServices cd) = [] /\
  (forall data, file = Some data -> data <> [] -> loadCached cd = json_Unmarshal data).
Proof.
  intros [= <-] Hn. split.
  - unfold GetServices. cbn [cd_inner]. destruct (sd_GetServices discovery) as [d kvs]. cbn [snd] in Hn.
    cbn [cd_threshold set_inner]. destruct (_ >? _) eqn:E; zbool; [lia|done].
  - intros data -> Hne. unfold loadCached. cbn. by destruct data.
Qed.

(** An update that is on its way when the watcher of a cached discovery is removed and closed
    panics in the forwarding goroutine. *)
Theorem cached_close_race cd ch ps :
  exists why, forward ch (Some ps) (close_watcher ch (RemoveWatcher ch cd)) = Panic why.
Proof.
  unfold forward. eexists. rewrite decide_True; [reflexivity|].
  assert (cd_closed (remember ps (close_watcher ch (RemoveWatcher ch cd))) =
          cd_closed (close_watcher ch (RemoveWatcher ch cd))) as ->
    by (unfold remember; by destruct (_ >? _)).
  cbn. set_solver.
Qed.
End Cached.
Arguments cachedServiceDiscovery : clear implicits.

Section Demo.
Local Instance demo_inner : ServiceDiscovery watched := multiple_discovery.

Lemma cached_survives_witness :
  let cd := MkCached 1 [] ∅ (newWatched [("a"%string, ""%string); ("b"%string, ""%string)]) None ∅ ∅ 0 in
  let cd1 := fst (GetServices (fun _ => []) (fun _ => []) (fun _ f => f) cd) in
  let cd2 := foldl (do_op (fun _ => []) (fun _ => []) (fun _ f => f)) cd1 [ORegistry (newWatched [])] in
  1 < zlen (snd (GetServices (fun _ => []) (fun _ => []) (fun _ f => f) cd2)).
Proof.
  intros cd cd1 cd2.
  pose proof (cached_survives (inner := demo_inner) (fun _ => []) (fun _ => []) (fun _ f => f) cd
                [ORegistry (newWatched [])]) as H.
  cbv beta zeta in H. refine (proj1 (H _)). vm_compute. reflexivity.
Defined.
End Demo.
End CachedDiscovery.
