(* ===== verification/OneClient.v ===== *)
(** client/oneclient.go, oneclient_pool.go and xclient_pool.go: one client for many services,
    which makes an xClient per service path on first use, and pools of clients.

    The xClients are used through their interface [XClients], over the world [W]; an xClient is
    a number. [P] are the plugins, [S] the selectors, [O] the operations of an xClient with
    their arguments and [T] their results. *)

From S2P Require Import Prelude GoStd.

Module OneClient.

(** What [OneClient] uses of discovery and of the [XClient] interface. [xc_New] is
    [NewXClient], or [NewBidirectionalXClient] when its flag is set. All of them may panic. *)
Class XClients (W P S O T : Type) := {
  xc_Clone : string -> W -> W * res unit;
  xc_New : string -> bool -> W -> W * res nat;
  xc_SetPlugins : P -> nat -> W -> W * res unit;
  xc_SetSelector : S -> nat -> W -> W * res unit;
  xc_ConfigGeoSelector : Z -> Z -> nat -> W -> W * res unit;
  xc_Auth : string -> nat -> W -> W * res unit;
  xc_run : O -> nat -> W -> W * res T;
  xc_Close : nat -> W -> W * res (option error);
}.

Section OneClient.
Context {W P S O T : Type} {xc : XClients W P S O T}.

(** An entry [Some None] of [oc_xclients] is a nil interface in the map. [oc_closest] is
    [selectMode == Closest]; latitude and longitude are kept as they are. *)
Record OneClient := MkOne {
  oc_xclients : gmap string (option nat);
  oc_closest : bool;
  oc_bidirectional : bool;
  oc_selectors : gmap string S;
  oc_Plugins : option P;
  oc_latitude : Z;
  oc_longitude : Z;
  oc_auth : string;
  oc_world : W;
}.

Definition NewOneClient (closest : bool) (w : W) : OneClient :=
  MkOne ∅ closest false ∅ None 0 0 "" w.

Definition NewBidirectionalOneClient (closest : bool) (w : W) : OneClient :=
  MkOne ∅ closest true ∅ None 0 0 "" w.

Definition set_world (w : W) (c : OneClient) : OneClient :=
  MkOne (oc_xclients c) (oc_closest c) (oc_bidirectional c) (oc_selectors c) (oc_Plugins c)
    (oc_latitude c) (oc_longitude c) (oc_auth c) w.

Definition set_xclients (m : gmap string (option nat)) (c : OneClient) : OneClient :=
  MkOne m (oc_closest c) (oc_bidirectional c) (oc_selectors c) (oc_Plugins c)
    (oc_latitude c) (oc_longitude c) (oc_auth c) (oc_world c).

(** A method of an xClient, or of a nil one. *)
Definition on_x {X} (f : nat -> W -> W * res X) (x : option nat) : Go OneClient X := fun c =>
  match x with
  | None => (c, Panic "invalid memory address or nil pointer dereference")
  | Some x => let '(w, r) := f x (oc_world c) in (set_world w c, r)
  end.

(** A loop over the entries of the map, in the order [xs] that the map is ranged over. *)
Fixpoint for_each (f : nat -> W -> W * res unit) (xs : list (option nat)) : Go OneClient unit :=
  match xs with
  | [] => mret tt
  | x :: xs => _ ← on_x f x; for_each f xs
  end.

(** ** Configuration *)

Definition SetSelector (servicePath : string) (s : S) : Go OneClient unit :=
  _ ← modify (fun c => MkOne (oc_xclients c) (oc_closest c) (oc_bidirectional c)
                         (<[servicePath := s]> (oc_selectors c)) (oc_Plugins c)
                         (oc_latitude c) (oc_longitude c) (oc_auth c) (oc_world c));
  c ← get;
  match oc_xclients c !! servicePath with
  | Some x => on_x (xc_SetSelector s) x
  | None => mret tt
  end.

Definition SetPlugins (plugins : P) (xs : list (option nat)) : Go OneClient unit :=
  _ ← modify (fun c => MkOne (oc_xclients c) (oc_closest c) (oc_bidirectional c) (oc_selectors c)
                         (Some plugins) (oc_latitude c) (oc_longitude c) (oc_auth c) (oc_world c));
  for_each (xc_SetPlugins plugins) xs.

Definition GetPlugins (c : OneClient) : option P := oc_Plugins c.

Definition ConfigGeoSelector (latitude longitude : Z) (xs : list (option nat)) : Go OneClient unit :=
  _ ← modify (fun c => MkOne (oc_xclients c) true (oc_bidirectional c) (oc_selectors c)
                         (oc_Plugins c) latitude longitude (oc_auth c) (oc_world c));
  for_each (xc_ConfigGeoSelector latitude longitude) xs.

Definition Auth (auth : string) (xs : list (option nat)) : Go OneClient unit :=
  _ ← modify (fun c => MkOne (oc_xclients c) (oc_closest c) (oc_bidirectional c) (oc_selectors c)
                         (oc_Plugins c) (oc_latitude c) (oc_longitude c) auth (oc_world c));
  for_each (xc_Auth auth) xs.

(** ** The xClient of a service *)

(** The part of [newXClient] after the xClient was made. *)
Definition configure (servicePath : string) (x : nat) : Go OneClient unit :=
  c ← get;
  _ ← match oc_Plugins c with
      | Some p => on_x (xc_SetPlugins p) (Some x)
      | None => mret tt
      end;
  _ ← match oc_selectors c !! servicePath with
      | Some s => on_x (xc_SetSelector s) (Some x)
      | None => mret tt
      end;
  _ ← (if oc_closest c
       then on_x (xc_ConfigGeoSelector (oc_latitude c) (oc_longitude c)) (Some x) else mret tt);
  if negb (bool_decide (oc_auth c = ""%string)) then on_x (xc_Auth (oc_auth c)) (Some x) else mret tt.

(** [newXClient]: a panic becomes the error, and the result keeps the value it has then. *)
Definition newXClient (servicePath : string) (c : OneClient) : OneClient * (option nat * option error) :=
  let '(w, r) := xc_Clone servicePath (oc_world c) in
  let c := set_world w c in
  match r with
  | Er e => (c, (None, Some e))
  | Panic why => (c, (None, Some (errorString why)))
  | Ok _ =>
      let '(w, r) := xc_New servicePath (oc_bidirectional c) (oc_world c) in
      let c := set_world w c in
      match r with
      | Er e => (c, (None, Some e))
      | Panic why => (c, (None, Some (errorString why)))
      | Ok x =>
          match configure servicePath x c with
          | (c, Ok _) => (c, (Some x, None))
          | (c, Er e) => (c, (Some x, Some e))
          | (c, Panic why) => (c, (Some x, Some (errorString why)))
          end
      end
  end.

(** The part of every call that runs under the write lock. *)
Definition locked_lookup (servicePath : string) (c : OneClient) :
    OneClient * (option nat * option error) :=
  match oc_xclients c !! servicePath with
  | Some (Some x) => (c, (Some x, None))
  | _ =>
      let '(c, (x, err)) := newXClient servicePath c in
      (set_xclients (<[servicePath := x]> (oc_xclients c)) c, (x, err))
  end.

(** The beginning of every call: a look under the read lock, then under the write lock. *)
Definition xclient_for (servicePath : string) (c : OneClient) : OneClient * (option nat * option error) :=
  match oc_xclients c !! servicePath with
  | Some (Some x) => (c, (Some x, None))
  | _ => locked_lookup servicePath c
  end.

Definition on_service (servicePath : string) (o : O) : Go OneClient T := fun c =>
  let '(c, (x, err)) := xclient_for servicePath c in
  match err with
  | Some e => (c, Er e)
  | None => on_x (xc_run o) x c
  end.

(** The calls: each passes its operation on to the xClient of its service path. *)
Definition SendFileServiceName := "_filetransfer"%string.
Definition StreamServiceName := "_streamservice"%string.

Definition Go_ (servicePath : string) (o : O) : Go OneClient T := on_service servicePath o.
Definition Call (servicePath : string) (o : O) : Go OneClient T := on_service servicePath o.
Definition SendRaw (servicePath : string) (o : O) : Go OneClient T := on_service servicePath o.
Definition Broadcast (servicePath : string) (o : O) : Go OneClient T := on_service servicePath o.
Definition Fork (servicePath : string) (o : O) : Go OneClient T := on_service servicePath o.
Definition SendFile (o : O) : Go OneClient T := on_service SendFileServiceName o.
Definition DownloadFile (o : O) : Go OneClient T := on_service SendFileServiceName o.
Definition Stream (o : O) : Go OneClient T := on_service StreamServiceName o.

(** [Close] collects the errors; the map keeps its entries. *)
Fixpoint Close (xs : list (option nat)) : Go OneClient (list error) :=
  match xs with
  | [] => mret []
  | x :: xs =>
      e ← on_x xc_Close x;
      es ← Close xs;
      mret (match e with Some e => e :: es | None => es end)
  end.

(** ** One xClient per service *)

(** Everything that callers do, in the order of their lock sections. *)
Inductive op :=
  | OLookup (servicePath : string)
  | ORun (servicePath : string) (o : O)
  | OSetSelector (servicePath : string) (s : S)
  | OSetPlugins (p : P) (xs : list (option nat))
  | OGeo (latitude longitude : Z) (xs : list (option nat))
  | OAuth (auth : string) (xs : list (option nat))
  | OClose (xs : list (option nat)).

Definition do_op (c : OneClient) (o : op) : OneClient :=
  match o with
  | OLookup sp => fst (locked_lookup sp c)
  | ORun sp o => fst (on_service sp o c)
  | OSetSelector sp s => fst (SetSelector sp s c)
  | OSetPlugins p xs => fst (SetPlugins p xs c)
  | OGeo la lo xs => fst (ConfigGeoSelector la lo xs c)
  | OAuth a xs => fst (Auth a xs c)
  | OClose xs => fst (Close xs c)
  end.

Lemma on_x_xclients {X} (f : nat -> W -> W * res X) x c :
  oc_xclients (fst (on_x f x c)) = oc_xclients c.
Proof. unfold on_x. destruct x as [x|]; [|done]. by destruct (f x (oc_world c)). Qed.

Lemma bind_xclients {X Y} (f : Go OneClient X) (k : X -> Go OneClient Y) c :
  oc_xclients (fst (f c)) = oc_xclients c ->
  (forall x c, oc_xclients (fst (k x c)) = oc_xclients c) ->
  oc_xclients (fst ((f ≫= k) c)) = oc_xclients c.
Proof.
  intros Hf Hk. unfold mbind, go_bind. destruct (f c) as [c' [x|e|why]]; cbn [fst] in *; [|done|done].
  rewrite Hk. done.
Qed.

Lemma for_each_xclients f xs c : oc_xclients (fst (for_each f xs c)) = oc_xclients c.
Proof.
  revert c. induction xs as [|x xs IH]; intros c; [done|].
  apply bind_xclients; [apply on_x_xclients|auto].
Qed.

Lemma Close_xclients xs c : oc_xclients (fst (Close xs c)) = oc_xclients c.
Proof.
  revert c. induction xs as [|x xs IH]; intros c; [done|].
  apply bind_xclients; [apply on_x_xclients|]. intros e c'. apply bind_xclients; [apply IH|done].
Qed.

Lemma configure_xclients sp x c : oc_xclients (fst (configure sp x c)) = oc_xclients c.
Proof.
  unfold configure. apply bind_xclients; [done|]. intros c0 c1.
  apply bind_xclients; [destruct (oc_Plugins c0); [apply on_x_xclients|done]|]. intros _ c2.
  apply bind_xclients; [destruct (oc_selectors c0 !! sp); [apply on_x_xclients|done]|]. intros _ c3.
  apply bind_xclients; [destruct (oc_closest c0); [apply on_x_xclients|done]|]. intros _ c4.
  destruct (negb _); [apply on_x_xclients|done].
Qed.

Lemma newXClient_xclients sp c : oc_xclients (fst (newXClient sp c)) = oc_xclients c.
Proof.
  unfold newXClient. destruct (xc_Clone sp _) as [w1 [[]|e|why]]; [|done|done].
  destruct (xc_New sp _ _) as [w2 [x|e|why]]; [|done|done].
  pose proof (configure_xclients sp x (set_world w2 (set_world w1 c))) as H.
  destruct (configure sp x _) as [c' [[]|e|why]]; done.
Qed.

Lemma locked_lookup_keeps sp sp' x c :
  oc_xclients c !! sp' = Some (Some x) ->
  oc_xclients (fst (locked_lookup sp c)) !! sp' = Some (Some x).
Proof.
  intros Hx. unfold locked_lookup.
  destruct (oc_xclients c !! sp) as [[y|]|] eqn:E; [done| |].
  all: pose proof (newXClient_xclients sp c) as H;
    destruct (newXClient sp c) as [c' [y err]]; cbn [fst oc_xclients set_xclients] in *;
    rewrite H, lookup_insert_ne; [done|congruence].
Qed.

Lemma do_op_keeps sp x c o :
  oc_xclients c !! sp = Some (Some x) -> oc_xclients (do_op c o) !! sp = Some (Some x).
Proof.
  intros Hx. destruct o as [sp'|sp' o|sp' s|p xs|la lo xs|a xs|xs]; cbn [do_op].
  - by apply locked_lookup_keeps.
  - unfold on_service, xclient_for.
    assert (oc_xclients (fst (match oc_xclients c !! sp' with
              | Some (Some x) => (c, (Some x, None)) | _ => locked_lookup sp' c end)) !! sp
            = Some (Some x)) as H.
    { destruct (oc_xclients c !! sp') as [[y|]|]; [done|by apply locked_lookup_keeps..]. }
    destruct (match oc_xclients c !! sp' with Some (Some x) => _ | _ => _ end) as [c' [y [e|]]];
      cbn [fst] in *; [done|]. by rewrite on_x_xclients.
  - unfold SetSelector. gocbn. rewrite <- Hx.
    match goal with |- oc_xclients (fst (?f ?c0)) !! _ = _ => set (c1 := c0) end.
    change (oc_xclients c) with (oc_xclients c1). f_equal.
    destruct (oc_xclients c1 !! sp'); [apply on_x_xclients|done].
  - unfold SetPlugins. gocbn. by rewrite for_each_xclients.
  - unfold ConfigGeoSelector. gocbn. by rewrite for_each_xclients.
  - unfold Auth. gocbn. by rewrite for_each_xclients.
  - by rewrite Close_xclients.
Qed.

(** Once the xClient of a service path exists, every later call on that path, from whichever
    goroutine and between whatever other calls and changes of configuration, uses that same
    xClient and makes no other. *)
Theorem oneclient_single sp x c ops :
  oc_xclients c !! sp = Some (Some x) ->
  let c' := foldl do_op c ops in
  xclient_for sp c' = (c', (Some x, None)) /\ locked_lookup sp c' = (c', (Some x, None)).
Proof.
  intros Hx c'.
  assert (oc_xclients c' !! sp = Some (Some x)) as H.
  { unfold c'. clear c'. revert c Hx. induction ops as [|o ops IH]; intros c Hx; [done|].
    cbn [foldl]. apply IH. by apply do_op_keeps. }
  unfold xclient_for, locked_lookup. by rewrite !H.
Qed.

(** ** Where creation fails *)

(** When the discovery cannot be cloned the call returns the error, and the next call tries
    again; but the map holds a nil xClient from then on, on which closing the client, and
    setting its plugins, its token or its location, panic. *)
Theorem oneclient_nil_entry sp o c w e :
  oc_xclients c !! sp = None -> xc_Clone sp (oc_world c) = (w, Er e) ->
  let c1 := fst (on_service sp o c) in
  snd (on_service sp o c) = Er e /\ oc_xclients c1 = <[sp := None]> (oc_xclients c) /\
  (exists why, snd (Close [None] c1) = Panic why) /\
  (forall a, exists why, snd (Auth a [None] c1) = Panic why).
Proof.
  intros Hx He c1.
  assert (on_service sp o c =
    (set_xclients (<[sp := None]> (oc_xclients c)) (set_world w c), Er e)) as H.
  { unfold on_service, xclient_for, locked_lookup, newXClient. by rewrite Hx, He. }
  unfold c1. rewrite H. split_and!; [done|done|cbn; eauto|intros a; cbn; eauto].
Qed.

(** When setting the plugins, the selector or the location of a new xClient panics, the call
    returns the panic as an error, but the next call on the service path uses the xClient as it
    is, and it was never given the token. *)
Theorem oneclient_half_configured sp o1 o2 c w1 w2 x c3 why :
  oc_xclients c !! sp = None ->
  xc_Clone sp (oc_world c) = (w1, Ok tt) -> xc_New sp (oc_bidirectional c) w1 = (w2, Ok x) ->
  configure sp x (set_world w2 c) = (c3, Panic why) ->
  let c4 := fst (on_service sp o1 c) in
  snd (on_service sp o1 c) = Er (errorString why) /\ oc_world c4 = oc_world c3 /\
  on_service sp o2 c4 = on_x (xc_run o2) (Some x) c4.
Proof.
  intros Hx H1 H2 H3 c4.
  assert (on_service sp o1 c =
    (set_xclients (<[sp := Some x]> (oc_xclients c3)) c3, Er (errorString why))) as H.
  { unfold on_service, xclient_for, locked_lookup, newXClient. rewrite Hx, H1.
    cbn [oc_world set_world oc_bidirectional]. rewrite H2.
    change (set_world w2 (set_world w1 c)) with (set_world w2 c). by rewrite H3. }
  unfold c4. rewrite H. cbn [fst snd]. split_and!; [done|done|].
  unfold on_service at 1, xclient_for. cbn [oc_xclients set_xclients]. by rewrite lookup_insert_eq.
Qed.
End OneClient.
Arguments OneClient : clear implicits.

(** ** A concrete network *)

Section Demo.
Inductive event := ENew (x : nat) | ESelector (x : nat) | EAuth (x : nat) | ECall (x : nat).

(** The world is the list of what happened; the clone of "bad" fails, and a selector "boom"
    panics when it is installed. *)
Local Instance demo_xclients : XClients (list event) unit string unit unit := {|
  xc_Clone sp w := (w, if decide (sp = "bad"%string) then Er EOF else Ok tt);
  xc_New sp b w := (w ++ [ENew (length w)], Ok (length w));
  xc_SetPlugins p x w := (w, Ok tt);
  xc_SetSelector s x w := (w ++ [ESelector x], if decide (s = "boom"%string) then Panic "boom" else Ok tt);
  xc_ConfigGeoSelector a b x w := (w, Ok tt);
  xc_Auth a x w := (w ++ [EAuth x], Ok tt);
  xc_run o x w := (w ++ [ECall x], Ok tt);
  xc_Close x w := (w, Ok None);
|}.

Definition demo_client : OneClient (list event) unit string :=
  MkOne ∅ false false {["S"%string := "boom"%string]} None 0 0 "token" [].

Lemma oneclient_single_witness :
  let c := fst (on_service "A" tt demo_client) in
  let c' := foldl do_op c [ORun "B" tt; OAuth "t" [Some 0%nat]; ORun "A" tt] in
  xclient_for "A" c' = (c', (Some 0%nat, None)).
Proof.
  intros c c'.
  apply (oneclient_single "A" 0 c [ORun "B" tt; OAuth "t" [Some 0%nat]; ORun "A" tt]). reflexivity.
Defined.

Lemma oneclient_nil_entry_witness :
  exists why, snd (Close [None] (fst (on_service "bad" tt demo_client))) = Panic why.
Proof.
  apply (oneclient_nil_entry "bad" tt demo_client [] EOF); reflexivity.
Defined.

(** The call is made with an xClient that was never given the token. *)
Lemma oneclient_half_configured_witness :
  let c4 := fst (on_service "S" tt demo_client) in
  snd (on_service "S" tt demo_client) = Er (errorString "boom") /\
  oc_world (fst (on_service "S" tt c4)) = [ENew 0; ESelector 0; ECall 0].
Proof.
  intros c4.
  destruct (oneclient_half_configured "S" tt tt demo_client [] [ENew 0] 0
              (set_world [ENew 0; ESelector 0] demo_client) "boom") as (H1 & H2 & H3);
    [reflexivity|reflexivity|reflexivity|reflexivity|].
  fold c4 in H2, H3. split; [exact H1|]. rewrite H3. reflexivity.
Defined.
End Demo.
End OneClient.

(** ** Pools *)

Module Pools.

Section Pool.
(** [X] is an xClient or a OneClient; [x_Auth] and [x_Close] are its methods on the world. *)
Context {W X : Type} (x_Auth : string -> X -> W -> W) (x_Close : X -> W -> W).

(** [OneClientPool] and [XClientPool]: [count] and [index] are uint64. *)
Record pool := MkPool { pl_count : Z; pl_index : Z; pl_clients : list X; pl_auth : string }.

(** The loop of the constructors: [make] of a negative length panics. *)
Fixpoint make_clients (n : nat) (new : W -> W * X) (w : W) : W * list X :=
  match n with
  | O => (w, [])
  | S n => let '(w, x) := new w in let '(w, xs) := make_clients n new w in (w, x :: xs)
  end.

Definition newPool (count : Z) (new : W -> W * X) (w : W) : W * res pool :=
  if count <? 0 then (w, Panic "makeslice: len out of range")
  else let '(w, xs) := make_clients (Z.to_nat count) new w in (w, Ok (MkPool (u64 count) 0 xs "")).

Definition NewOneClientPool := newPool.
Definition NewBidirectionalOneClientPool := newPool.
Definition NewXClientPool := newPool.
Definition NewBidirectionalXClientPool := newPool.

Definition pool_Auth (auth : string) (p : pool) (w : W) : pool * W :=
  (MkPool (pl_count p) (pl_index p) (pl_clients p) auth, foldl (fun w x => x_Auth auth x w) w (pl_clients p)).

Definition OneClientPool_Auth := pool_Auth.
Definition XClientPool_Auth := pool_Auth.

(** [Get]: the remainder by zero and an index behind the slice panic. *)
Definition pool_Get : Go pool X := fun p =>
  let i := u64 (pl_index p + 1) in
  let p := MkPool (pl_count p) i (pl_clients p) (pl_auth p) in
  if pl_count p =? 0 then (p, Panic "integer divide by zero")
  else
    match pl_clients p !! Z.to_nat (i mod pl_count p) with
    | Some x => (p, Ok x)
    | None => (p, Panic "index out of range")
    end.

Definition OneClientPool_Get : Go pool X := pool_Get.
Definition XClientPool_Get : Go pool X := pool_Get.

Definition pool_Close (p : pool) (w : W) : pool * W :=
  (MkPool (pl_count p) (pl_index p) [] (pl_auth p), foldl (fun w x => x_Close x w) w (pl_clients p)).

Definition OneClientPool_Close := pool_Close.
Definition XClientPool_Close := pool_Close.

(** ** Round robin *)

(** The pools that the constructors make, until they are closed. *)
Definition pool_ok (p : pool) : Prop :=
  pl_count p = zlen (pl_clients p) /\ 0 < pl_count p < 2 ^ 63 /\ 0 <= pl_index p < 2 ^ 64.

Lemma make_clients_length n new w : length (snd (make_clients n new w)) = n.
Proof.
  revert w. induction n as [|n IH]; intros w; [done|]. cbn [make_clients].
  destruct (new w) as [w1 x]. specialize (IH w1). destruct (make_clients n new w1). cbn in *. lia.
Qed.

Lemma newPool_ok count new w :
  0 < count < 2 ^ 63 -> exists w' p, newPool count new w = (w', Ok p) /\ pool_ok p.
Proof.
  intros Hc. unfold newPool. rewrite (proj2 (Z.ltb_ge _ _)) by lia.
  pose proof (make_clients_length (Z.to_nat count) new w) as Hl.
  destruct (make_clients _ new w) as [w' xs]. cbn [snd] in Hl. eexists _, _. split; [reflexivity|].
  unfold pool_ok, zlen. cbn. rewrite wrap_small by lia. lia.
Qed.

Lemma pool_Get_ok p :
  pool_ok p ->
  exists x, pl_clients p !! Z.to_nat (u64 (pl_index p + 1) mod pl_count p) = Some x /\
    pool_Get p = (MkPool (pl_count p) (u64 (pl_index p + 1)) (pl_clients p) (pl_auth p), Ok x) /\
    pool_ok (MkPool (pl_count p) (u64 (pl_index p + 1)) (pl_clients p) (pl_auth p)).
Proof.
  intros (Hc & Hn & Hi). unfold pool_Get. cbn [pl_count pl_clients].
  rewrite (proj2 (Z.eqb_neq _ _)) by lia.
  destruct (lookup_lt_is_Some_2 (pl_clients p) (Z.to_nat (u64 (pl_index p + 1) mod pl_count p))) as [x Hx].
  { unfold zlen in Hc. pose proof (Z.mod_pos_bound (u64 (pl_index p + 1)) (pl_count p)). lia. }
  exists x. rewrite Hx. split_and!; [done|done|]. unfold pool_ok. cbn.
  split_and!; try lia; apply (wrap_range 64); lia.
Qed.

(** [n] calls of [Get] in a row. *)
Fixpoint gets (n : nat) : Go pool (list X) :=
  match n with
  | O => mret []
  | S n => x ← pool_Get; xs ← gets n; mret (x :: xs)
  end.

Lemma gets_spec n p :
  pool_ok p -> pl_index p + Z.of_nat n < 2 ^ 64 ->
  exists p' xs, gets n p = (p', Ok xs) /\ length xs = n /\
    forall j, (j < n)%nat ->
      xs !! j = pl_clients p !! Z.to_nat ((pl_index p + 1 + Z.of_nat j) mod pl_count p).
Proof.
  revert p. induction n as [|n IH]; intros p Hp Hn; [eexists _, []; split_and!; [done|done|lia]|].
  cbn [gets]. destruct (pool_Get_ok p Hp) as (x & Hx & Hg & Hok).
  rewrite (go_bind_Ok _ _ _ _ _ Hg). destruct Hp as (Hc & Hcn & Hi).
  rewrite wrap_small in Hx, Hok |- * by lia.
  destruct (IH _ Hok) as (p' & xs & Hgs & Hl & Hxs); [cbn; lia|].
  rewrite (go_bind_Ok _ _ _ _ _ Hgs). eexists _, _. split; [reflexivity|]. split; [cbn; lia|].
  intros [|j] Hj; cbn [lookup list_lookup].
  - rewrite <- Hx. do 2 f_equal. f_equal. lia.
  - rewrite Hxs by lia. cbn [pl_index pl_clients pl_count]. do 3 f_equal. lia.
Qed.

Lemma rotation_perm (l : list X) k xs :
  (k < length l)%nat -> length xs = length l ->
  (forall j, (j < length l)%nat -> xs !! j = l !! ((k + j) mod length l)%nat) -> xs ≡ₚ l.
Proof.
  intros Hk Hl Hx.
  assert (xs = drop k l ++ take k l) as ->.
  { apply list_eq. intros j. destruct (decide (j < length l)%nat) as [Hj|Hj].
    - rewrite Hx by done. destruct (decide (k + j < length l)%nat) as [H1|H1].
      + rewrite Nat.mod_small by done. rewrite lookup_app_l by (rewrite length_drop; lia).
        by rewrite lookup_drop.
      + assert ((k + j) mod length l = k + j - length l)%nat as ->.
        { replace (k + j)%nat with ((k + j - length l) + 1 * length l)%nat at 1 by lia.
          rewrite Nat.Div0.mod_add. apply Nat.mod_small. lia. }
        rewrite lookup_app_r by (rewrite length_drop; lia). rewrite length_drop.
        rewrite lookup_take_lt by lia. f_equal. lia.
    - rewrite !lookup_ge_None_2; [done| |lia]. rewrite length_app, length_drop, length_take. lia. }
  rewrite Permutation_app_comm. by rewrite take_drop.
Qed.

(** A pool of positive size never picks an index outside its slice, and as many calls of [Get]
    as it has clients return every client exactly once, whatever the index is when they start,
    until it wraps around. *)
Theorem pool_round_robin count new w :
  0 < count < 2 ^ 63 ->
  exists w' p, newPool count new w = (w', Ok p) /\ zlen (pl_clients p) = count /\
    forall i, 0 <= i -> i + count < 2 ^ 64 ->
      let p := MkPool (pl_count p) i (pl_clients p) (pl_auth p) in
      (exists p' x, pool_Get p = (p', Ok x)) /\
      exists p' xs, gets (Z.to_nat count) p = (p', Ok xs) /\ xs ≡ₚ pl_clients p.
Proof.
  intros Hc. destruct (newPool_ok count new w Hc) as (w' & p & Hp & (H1 & H2 & H3)).
  assert (pl_count p = count) as Hpc.
  { unfold newPool in Hp. rewrite (proj2 (Z.ltb_ge _ _)) in Hp by lia.
    destruct (make_clients _ new w). injection Hp as _ <-. cbn. by rewrite wrap_small by lia. }
  exists w', p. split_and!; [done|congruence|]. intros i Hi Hi' p1.
  assert (pool_ok p1) as Hp1 by (unfold pool_ok, p1; cbn; lia).
  split.
  { destruct (pool_Get_ok p1 Hp1) as (x & _ & Hg & _). eauto. }
  destruct (gets_spec (Z.to_nat count) p1 Hp1) as (p' & xs & Hg & Hl & Hxs); [cbn; lia|].
  exists p', xs. split; [done|].
  assert (length (pl_clients p) = Z.to_nat count) as Hlen by (unfold zlen in H1; lia).
  change (pl_clients p1) with (pl_clients p) in *.
  apply (rotation_perm _ (Z.to_nat ((i + 1) mod count))); rewrite ?Hlen.
  - pose proof (Z.mod_pos_bound (i + 1) count). lia.
  - done.
  - intros j Hj. rewrite Hxs by lia. f_equal. cbn [pl_index pl_count p1]. rewrite Hpc.
    pose proof (Z.mod_pos_bound (i + 1) count).
    apply Nat2Z.inj. rewrite Z2Nat.id by (apply Z.mod_pos_bound; lia).
    rewrite Nat2Z.inj_mod, Nat2Z.inj_add, !Z2Nat.id by lia.
    by rewrite Zplus_mod_idemp_l.
Qed.

(** A pool of no clients, and a closed one, panic on [Get]. *)
Theorem pool_Get_panics p w :
  (pl_count p = 0 -> exists why, snd (pool_Get p) = Panic why) /\
  (exists why, snd (pool_Get (fst (pool_Close p w))) = Panic why).
Proof.
  split.
  - intros Hc. unfold pool_Get. cbn. rewrite Hc. cbn. eauto.
  - unfold pool_Get, pool_Close. cbn. destruct (pl_count p =? 0); cbn; eauto.
Qed.
End Pool.

Lemma pool_round_robin_witness :
  exists w' p, newPool 3 (fun w : nat => (S w, w)) 0%nat = (w', Ok p) /\
    exists p' xs, gets 3 (MkPool (pl_count p) 7 (pl_clients p) (pl_auth p)) = (p', Ok xs) /\
      xs ≡ₚ pl_clients p.
Proof.
  destruct (pool_round_robin 3 (fun w : nat => (S w, w)) 0%nat) as (w' & p & H1 & _ & H2); [lia|].
  exists w', p. split; [exact H1|]. exact (proj2 (H2 7 ltac:(lia) ltac:(lia))).
Defined.
End Pools.
