(* ===== verification/RedisRegistry.v ===== *)
(** serverplugin/redis.go: the plugin that registers the services of a server in redis,
    refreshes them, and takes them out again when the server stops.

    The store behind it (libkv) is the class [KVStore] over the world [W]; [H] is a connection
    to it. Every part that runs under the lifecycle lock or the store lock is one definition;
    channels are numbers, with a flag that says that they were closed. *)

From S2P Require Import Prelude GoStd Http.

Module RedisRegistry.

Record WriteOptions := MkOptions { IsDir : bool; TTL : Z }.

Class KVStore (W H : Type) := {
  kv_NewStore : W -> W * (H + error);
  kv_Put : H -> string -> string -> WriteOptions -> W -> W * option error;
  kv_Get : H -> string -> W -> W * (string + error);
  kv_Exists : H -> string -> W -> W * (bool * option error);
  kv_Delete : H -> string -> W -> W * option error;
  kv_Close : H -> W -> W;
}.

(** ** Strings *)

(** Is the UTF-8 text only white space, so that [strings.TrimSpace] leaves nothing? *)
Definition space1 (b : Z) : bool := ((9 <=? b) && (b <=? 13)) || (b =? 32).
Definition space2 (b c : Z) : bool := (b =? 0xC2) && ((c =? 0x85) || (c =? 0xA0)).
Definition space3 (b c d : Z) : bool :=
  ((b =? 0xE1) && (c =? 0x9A) && (d =? 0x80)) ||
  ((b =? 0xE2) && (c =? 0x80) && (((0x80 <=? d) && (d <=? 0x8A)) || (d =? 0xA8) || (d =? 0xA9) || (d =? 0xAF))) ||
  ((b =? 0xE2) && (c =? 0x81) && (d =? 0x9F)) ||
  ((b =? 0xE3) && (c =? 0x80) && (d =? 0x80)).

Fixpoint blank_bytes (fuel : nat) (l : bytes) : bool :=
  match fuel, l with
  | _, [] => true
  | O, _ => false
  | S f, b :: r =>
      if space1 b then blank_bytes f r
      else
        match r with
        | c :: r' =>
            if space2 b c then blank_bytes f r'
            else match r' with
                 | d :: r'' => space3 b c d && blank_bytes f r''
                 | [] => false
                 end
        | [] => false
        end
  end.

Definition blank (s : string) : bool :=
  let l := string_bytes s in blank_bytes (length l) l.

(** [strings.Contains] *)
Fixpoint Contains_text (needle l : bytes) : bool :=
  bool_decide (take (length needle) l = needle) ||
  match l with
  | [] => false
  | _ :: r => Contains_text needle r
  end.

Definition not_a_file (e : error) : bool :=
  Contains_text (string_bytes "Not a file") (string_bytes (Error_text e)).

(** ** Errors *)

Definition errRedisBasePathEmpty : error := errorString "redis register plugin BasePath can't be empty".
Definition errRedisRegisterPluginStopped : error := errorString "redis register plugin has stopped".
Definition errNameEmpty : error := errorString "Register service `name` can't be empty".
(** The text of the timeout, without the duration that it ends with. *)
Definition ErrRedisRegisterPluginStopTimeout : error := errorString "redis register plugin stop timeout".

Definition wrap_error (what path : string) (e : error) : error :=
  errorString (what +:+ " redis path " +:+ path +:+ ": " +:+ Error_text e).

(** [errors.Join] *)
Definition Join (es : list error) : option error :=
  match es with
  | [] => None
  | _ => Some (errorString (sconcat (bytes_string [10]) (Error_text <$> es)))
  end.

Section Redis.
Context {W H : Type} {store : KVStore W H}.
Context (ServiceAddress BasePath : string) (UpdateInterval : Z).

(** A stop attempt: the channel it waits for, and how far its goroutine has come. *)
Inductive attempt_pc := AWaiting | ACleaned (err : option error) | AFinished (err : option error).
Record redisStopAttempt := MkAttempt { at_refreshDone : option nat; at_pc : attempt_pc }.

(** A call of [Stop]: before the lifecycle lock, waiting for an attempt, returned. *)
Inductive stop_call := SRequested | SWaiting (a : nat) | SReturned (err : option error).

(** The plugin with its goroutines: [refresher] is the refreshing one with what it captured,
    [chans] are the channels that were made, true when closed. *)
Record RedisRegisterPlugin := MkRedis {
  Services : list string;
  metas : option (gmap string string);
  kv : option H;
  dying : option nat;
  done_ : option nat;
  started : bool;
  stopped : bool;
  stopComplete : bool;
  stopAttempt : option nat;
  stopRequested : bool;
  chans : list bool;
  refresher : option (H * nat * nat);
  attempts : list redisStopAttempt;
  stops : list stop_call;
  world : W;
}.

Definition newRedis (w : W) : RedisRegisterPlugin :=
  MkRedis [] None None None None false false false None false [] None [] [] w.

Definition R (A : Type) := Go RedisRegisterPlugin A.

Definition set_world w p := MkRedis (Services p) (metas p) (kv p) (dying p) (done_ p) (started p) (stopped p) (stopComplete p) (stopAttempt p) (stopRequested p) (chans p) (refresher p) (attempts p) (stops p) w.
Definition set_kv h p := MkRedis (Services p) (metas p) h (dying p) (done_ p) (started p) (stopped p) (stopComplete p) (stopAttempt p) (stopRequested p) (chans p) (refresher p) (attempts p) (stops p) (world p).
Definition set_services s m p := MkRedis s m (kv p) (dying p) (done_ p) (started p) (stopped p) (stopComplete p) (stopAttempt p) (stopRequested p) (chans p) (refresher p) (attempts p) (stops p) (world p).
Definition set_channels dy dn cs p := MkRedis (Services p) (metas p) (kv p) dy dn (started p) (stopped p) (stopComplete p) (stopAttempt p) (stopRequested p) cs (refresher p) (attempts p) (stops p) (world p).
Definition set_chans cs p := set_channels (dying p) (done_ p) cs p.
Definition set_flags st sp sc sr p := MkRedis (Services p) (metas p) (kv p) (dying p) (done_ p) st sp sc (stopAttempt p) sr (chans p) (refresher p) (attempts p) (stops p) (world p).
Definition set_refresher r p := MkRedis (Services p) (metas p) (kv p) (dying p) (done_ p) (started p) (stopped p) (stopComplete p) (stopAttempt p) (stopRequested p) (chans p) r (attempts p) (stops p) (world p).
Definition set_attempts sa l p := MkRedis (Services p) (metas p) (kv p) (dying p) (done_ p) (started p) (stopped p) (stopComplete p) sa (stopRequested p) (chans p) (refresher p) l (stops p) (world p).
Definition set_stops l p := MkRedis (Services p) (metas p) (kv p) (dying p) (done_ p) (started p) (stopped p) (stopComplete p) (stopAttempt p) (stopRequested p) (chans p) (refresher p) (attempts p) l (world p).

Definition on_store {A} (f : W -> W * A) : R A := fun p =>
  let '(w, a) := f (world p) in (set_world w p, Ok a).

Definition make_channels : R (nat * nat) := fun p =>
  let n := length (chans p) in
  (set_channels (Some (S n)) (Some n) (chans p ++ [false; false]) p, Ok (n, S n)).

Definition close_chan (ch : nat) : R unit := fun p =>
  match chans p !! ch with
  | Some false => (set_chans (<[ch := true]> (chans p)) p, Ok tt)
  | Some true => (p, Panic "close of closed channel")
  | None => (p, Panic "close of nil channel")
  end.

Definition nodePath (name : string) : string := BasePath +:+ "/" +:+ name +:+ "/" +:+ ServiceAddress.
Definition dirPath (name : string) : string := BasePath +:+ "/" +:+ name.

Definition validateBasePath : option error :=
  if blank BasePath then Some errRedisBasePathEmpty else None.

(** [p.kv], made first when it is nil. *)
Definition ensure_kv : R (H + error) :=
  p ← get;
  match kv p with
  | Some h => mret (inl h)
  | None =>
      r ← on_store kv_NewStore;
      match r with
      | inr e => mret (inr e)
      | inl h => _ ← modify (set_kv (Some h)); mret (inl h)
      end
  end.

(** A [Put] of a directory: the error that is not tolerated. *)
Definition put_dir (h : H) (path value : string) : R (option error) :=
  e ← on_store (kv_Put h path value (MkOptions true 0));
  mret (match e with
        | Some e => if not_a_file e then None else Some e
        | None => None
        end).

Definition ttl : Z := i64 (UpdateInterval * 2).

(** ** Start *)

Definition Start : R (option error) :=
  p ← get;
  if stopRequested p || stopped p then mret (Some errRedisRegisterPluginStopped)
  else if started p then mret None
  else
    match validateBasePath with
    | Some e => mret (Some e)
    | None =>
        chs ← make_channels;
        r ← ensure_kv;
        match r with
        | inr e => _ ← close_chan chs.1; mret (Some e)
        | inl h =>
            e ← put_dir h BasePath "rpcx_path";
            match e with
            | Some e =>
                _ ← on_store (fun w => (kv_Close h w, tt));
                _ ← modify (set_kv None);
                _ ← close_chan chs.1;
                mret (Some e)
            | None =>
                _ ← modify (fun p => set_flags true (stopped p) (stopComplete p) (stopRequested p) p);
                if UpdateInterval >? 0
                then _ ← modify (set_refresher (Some (h, chs.2, chs.1))); mret None
                else _ ← close_chan chs.1; mret None
            end
        end
    end.

(** A tick of the refreshing goroutine for one service; [extra] are the metrics. *)
Definition refresh_one (h : H) (ms : option (gmap string string)) (extra : list (string * string))
    (name : string) : R unit :=
  r ← on_store (kv_Get h (nodePath name));
  match r with
  | inr _ =>
      _ ← on_store (kv_Put h (nodePath name) (default ""%string (default ∅ ms !! name)) (MkOptions false ttl));
      mret tt
  | inl value =>
      let v := foldl (fun v '(k, x) => <[k := [x]]> v) (fst (ParseQuery value)) extra in
      _ ← on_store (kv_Put h (nodePath name) (Values_Encode v) (MkOptions false ttl));
      mret tt
  end.

Fixpoint refresh_all (h : H) (ms : option (gmap string string)) (extra : list (string * string))
    (names : list string) : R unit :=
  match names with
  | [] => mret tt
  | n :: r => _ ← refresh_one h ms extra n; refresh_all h ms extra r
  end.

Definition tick (extra : list (string * string)) : R unit :=
  p ← get;
  match refresher p with
  | Some (h, _, _) => refresh_all h (metas p) extra (Services p)
  | None => mret tt
  end.

(** The goroutine sees that [dying] is closed and returns. *)
Definition refresh_exit : R unit :=
  p ← get;
  match refresher p with
  | Some (_, _, dn) => _ ← modify (set_refresher None); close_chan dn
  | None => mret tt
  end.

(** ** Stop *)

Definition Stop_request : R unit :=
  _ ← modify (fun p => set_flags (started p) (stopped p) (stopComplete p) true p);
  modify (fun p => set_stops (stops p ++ [SRequested]) p).

(** The part of [Stop] that holds the lifecycle lock, for the call number [i]. *)
Definition Stop_locked (i : nat) : R unit :=
  p ← get;
  if stopComplete p then modify (fun p => set_stops (<[i := SReturned None]> (stops p)) p)
  else
    _ ← (if negb (stopped p)
         then
           _ ← modify (fun p => set_flags false true (stopComplete p) (stopRequested p) p);
           match dying p with
           | Some d => close_chan d
           | None => mret tt
           end
         else mret tt);
    p ← get;
    a ← match stopAttempt p with
        | Some a => mret a
        | None =>
            let a := length (attempts p) in
            _ ← put (set_attempts (Some a) (attempts p ++ [MkAttempt (done_ p) AWaiting]) p);
            mret a
        end;
    modify (fun p => set_stops (<[i := SWaiting a]> (stops p)) p).

(** One service of [cleanupRegistry]. *)
Definition cleanup_one (h : H) (name : string) : R (option error) :=
  r ← on_store (kv_Exists h (nodePath name));
  match r with
  | (_, Some e) => mret (Some (wrap_error "check" (nodePath name) e))
  | (false, None) => mret None
  | (true, None) =>
      e ← on_store (kv_Delete h (nodePath name));
      mret (wrap_error "delete" (nodePath name) <$> e)
  end.

Fixpoint cleanup_all (h : H) (names : list string) : R (list error) :=
  match names with
  | [] => mret []
  | n :: r =>
      e ← cleanup_one h n;
      es ← cleanup_all h r;
      mret (match e with Some e => e :: es | None => es end)
  end.

Definition cleanupRegistry : R (option error) :=
  p ← get;
  match kv p with
  | None => mret None
  | Some h =>
      errs ← cleanup_all h (Services p);
      match Join errs with
      | Some e => mret (Some e)
      | None =>
          _ ← on_store (fun w => (kv_Close h w, tt));
          _ ← modify (set_kv None);
          mret None
      end
  end.

Definition set_pc (a : nat) (pc : attempt_pc) (p : RedisRegisterPlugin) : RedisRegisterPlugin :=
  set_attempts (stopAttempt p)
    (alter (fun x => MkAttempt (at_refreshDone x) pc) a (attempts p)) p.

(** [runStopAttempt] in two parts: the clean-up, once the refreshing goroutine is gone, and the
    end under the lifecycle lock. *)
Definition attempt_cleanup (a : nat) : R unit :=
  e ← cleanupRegistry;
  modify (set_pc a (ACleaned e)).

Definition attempt_finish (a : nat) (err : option error) : R unit :=
  _ ← modify (fun p => match err with
                       | None => set_flags (started p) (stopped p) true (stopRequested p) p
                       | Some _ => p
                       end);
  _ ← modify (fun p => if bool_decide (stopAttempt p = Some a)
                       then set_attempts None (attempts p) p else p);
  modify (set_pc a (AFinished err)).

(** ** Register and Unregister *)

Definition Register (name metadata : string) : R (option error) :=
  if blank name then mret (Some errNameEmpty)
  else
    p ← get;
    if stopRequested p || stopped p then mret (Some errRedisRegisterPluginStopped)
    else
      match validateBasePath with
      | Some e => mret (Some e)
      | None =>
          r ← ensure_kv;
          match r with
          | inr e => mret (Some e)
          | inl h =>
              e ← put_dir h BasePath "rpcx_path";
              match e with
              | Some e => mret (Some e)
              | None =>
                  e ← put_dir h (dirPath name) name;
                  match e with
                  | Some e => mret (Some e)
                  | None =>
                      e ← on_store (kv_Put h (nodePath name) metadata (MkOptions false ttl));
                      match e with
                      | Some e => mret (Some e)
                      | None =>
                          _ ← modify (fun p => set_services (Services p ++ [name])
                                        (Some (<[name := metadata]> (default ∅ (metas p)))) p);
                          mret None
                      end
                  end
              end
          end
      end.

Definition Unregister (name : string) : R (option error) :=
  p ← get;
  if stopRequested p || stopped p then mret None
  else if bool_decide (Services p = []) then mret None
  else if blank name then mret (Some errNameEmpty)
  else
    r ← ensure_kv;
    match r with
    | inr e => mret (Some e)
    | inl h =>
        e ← put_dir h BasePath "rpcx_path";
        match e with
        | Some e => mret (Some e)
        | None =>
            e ← put_dir h (dirPath name) name;
            match e with
            | Some e => mret (Some e)
            | None =>
                e ← on_store (kv_Delete h (nodePath name));
                match e with
                | Some e => mret (Some e)
                | None =>
                    _ ← modify (fun p => set_services (filter (fun s => s <> name) (Services p))
                                  (Some (delete name (default ∅ (metas p)))) p);
                    mret None
                end
            end
        end
    end.

(** The hooks that count connections and calls, when there are metrics: [mark] is the third
    party's [Mark(1)] of a meter. *)
Definition HandleConnAccept {M C : Type} (mark : string -> M -> M) (metrics : option M) (conn : C) :
    option M * (C * bool) :=
  (mark "connections"%string <$> metrics, (conn, true)).

Definition PreCall {M A : Type} (mark : string -> M -> M) (metrics : option M) (args : A) :
    option M * (A * option error) :=
  (mark "calls"%string <$> metrics, (args, None)).
End Redis.

(** ** How long a call of [Stop] waits *)

Definition Millisecond : Z := 1000000.
Definition DefaultRedisRegisterPluginStopTimeout : Z := 5 * 1000 * Millisecond.

Definition stop_timeout (StopTimeout : Z) : Z :=
  if StopTimeout <=? 0 then DefaultRedisRegisterPluginStopTimeout else StopTimeout.

(** [lockLifecycleUntil]: the [n]-th attempt gets the lock when [tryLock n] says so; a timer
    fires [late n] after its time. The result is whether the lock was taken, and when. *)
Fixpoint lockLifecycleUntil (fuel : nat) (tryLock : nat -> bool) (late : nat -> Z) (n : nat)
    (now deadline : Z) : option (bool * Z) :=
  match fuel with
  | O => None
  | S f =>
      if tryLock n then Some (true, now)
      else
        let remaining := deadline - now in
        if remaining <=? 0 then Some (false, now)
        else
          let pause := if remaining <? Millisecond then remaining else Millisecond in
          lockLifecycleUntil f tryLock late (S n) (now + pause + late n) deadline
  end.

(** The end of [Stop], from the time [now] at which it has let go of the lock: [finish] is when
    and how the attempt ends, if it does. *)
Definition Stop_wait (now deadline late : Z) (finish : option (Z * option error)) : Z * option error :=
  let timeout := Some ErrRedisRegisterPluginStopTimeout in
  match finish with
  | Some (t, err) =>
      if t <=? now then (now, err)
      else if deadline - now <=? 0 then (now, timeout)
      else if t <=? deadline + late then (t, err)
      else (deadline + late, timeout)
  | None => if deadline - now <=? 0 then (now, timeout) else (deadline + late, timeout)
  end.

(** [Stop] in time: when it returns and what. [locked] is what the part under the lock gives:
    nothing to do, or an attempt that ends as [finish] says. *)
Definition Stop_timed (fuel : nat) (StopTimeout now : Z) (tryLock : nat -> bool) (late : nat -> Z)
    (last_late : Z) (complete : bool) (finish : option (Z * option error)) : option (Z * option error) :=
  let deadline := now + stop_timeout StopTimeout in
  match lockLifecycleUntil fuel tryLock late 0 now deadline with
  | None => None
  | Some (false, t) => Some (t, Some ErrRedisRegisterPluginStopTimeout)
  | Some (true, t) => Some (if complete then (t, None) else Stop_wait t deadline last_late finish)
  end.
End RedisRegistry.
