(* ===== verification/RedisProofs.v ===== *)
(** The life of the redis registration plugin: callers of its methods, the refreshing
    goroutine, the stop attempts and other users of the store, interleaved. *)

From S2P Require Import Prelude GoStd Http RedisRegistry.

Module RedisProofs.
Import RedisRegistry.

(** What is relied on of the store: a successful [Put] is seen, a successful [Delete] and a
    negative [Exists] mean that the key is gone, and no operation touches other keys. An
    operation that fails may or may not have had its effect. *)
Class KVLaws (W H : Type) {store : KVStore W H} := {
  kv_lookup : string -> W -> option string;
  put_ok h k v o w w' : kv_Put h k v o w = (w', None) -> kv_lookup k w' = Some v;
  put_frame h k v o w k' : k' <> k -> kv_lookup k' (fst (kv_Put h k v o w)) = kv_lookup k' w;
  exists_absent h k w w' : kv_Exists h k w = (w', (false, None)) -> kv_lookup k w' = None;
  exists_frame h k w k' : kv_lookup k' (fst (kv_Exists h k w)) = kv_lookup k' w;
  delete_absent h k w w' : kv_Delete h k w = (w', None) -> kv_lookup k w' = None;
  delete_frame h k w k' :
    kv_lookup k' (fst (kv_Delete h k w)) = kv_lookup k' w \/
    k' = k /\ kv_lookup k' (fst (kv_Delete h k w)) = None;
  close_frame h w k' : kv_lookup k' (kv_Close h w) = kv_lookup k' w;
  new_frame w k' : kv_lookup k' (fst (kv_NewStore w)) = kv_lookup k' w;
}.

Section Life.
Context {W H : Type} {store : KVStore W H} {laws : KVLaws W H}.
Context (ServiceAddress BasePath : string) (UpdateInterval : Z).

(** What others do to the store, and the expiry of keys. *)
Context (env : W -> W -> Prop).

Local Abbreviation plugin := (RedisRegisterPlugin (W := W) (H := H)).
Local Abbreviation node := (nodePath ServiceAddress BasePath).
Local Abbreviation Start := (RedisRegistry.Start BasePath UpdateInterval).
Local Abbreviation Register := (RedisRegistry.Register ServiceAddress BasePath UpdateInterval).
Local Abbreviation Unregister := (RedisRegistry.Unregister ServiceAddress BasePath).
Local Abbreviation tick := (RedisRegistry.tick ServiceAddress BasePath UpdateInterval).
Local Abbreviation attempt_cleanup := (RedisRegistry.attempt_cleanup ServiceAddress BasePath).

(** ** The transitions *)

Inductive action :=
  | RStart | RRegister (name metadata : string) | RUnregister (name : string)
  | RTick (extra : list (string * string)) | RRefreshExit
  | RStopCall | RStopLock (i : nat) | RStopGiveUp (i : nat)
  | RStopReturn (i : nat) | RStopTimeout (i : nat)
  | RCleanup (a : nat) | RFinish (a : nat)
  | REnv (w : W).

Definition closed (ch : option nat) (p : plugin) : Prop :=
  match ch with None => True | Some c => chans p !! c = Some true end.

(** When an action can happen: [<-dying] and [<-refreshDone] need a closed channel, and [Start]
    is called before services are registered, as a server does. *)
Definition enabled (o : action) (p : plugin) : Prop :=
  match o with
  | RStart => Services p = []
  | RRegister _ _ | RUnregister _ | RStopCall => True
  | RTick _ => is_Some (refresher p)
  | RRefreshExit => exists h dy dn, refresher p = Some (h, dy, dn) /\ closed (Some dy) p
  | RStopLock i | RStopGiveUp i => stops p !! i = Some SRequested
  | RStopReturn i => exists a x e, stops p !! i = Some (SWaiting a) /\
                       attempts p !! a = Some x /\ at_pc x = AFinished e
  | RStopTimeout i => exists a, stops p !! i = Some (SWaiting a)
  | RCleanup a => exists x, attempts p !! a = Some x /\ at_pc x = AWaiting /\ closed (at_refreshDone x) p
  | RFinish a => exists x e, attempts p !! a = Some x /\ at_pc x = ACleaned e
  | REnv w => env (world p) w
  end.

Definition return_stop (i : nat) (e : option error) : R unit (W := W) (H := H) :=
  modify (fun p => set_stops (<[i := SReturned e]> (stops p)) p).

Definition run (o : action) : R unit (W := W) (H := H) :=
  match o with
  | RStart => _ ← Start; mret tt
  | RRegister n md => _ ← Register n md; mret tt
  | RUnregister n => _ ← Unregister n; mret tt
  | RTick extra => tick extra
  | RRefreshExit => refresh_exit
  | RStopCall => Stop_request
  | RStopLock i => Stop_locked i
  | RStopGiveUp i | RStopTimeout i => return_stop i (Some ErrRedisRegisterPluginStopTimeout)
  | RStopReturn i =>
      p ← get;
      match stops p !! i with
      | Some (SWaiting a) =>
          match at_pc <$> attempts p !! a with
          | Some (AFinished e) => return_stop i e
          | _ => mret tt
          end
      | _ => mret tt
      end
  | RCleanup a => attempt_cleanup a
  | RFinish a =>
      p ← get;
      match at_pc <$> attempts p !! a with
      | Some (ACleaned e) => attempt_finish a e
      | _ => mret tt
      end
  | REnv w => modify (set_world w)
  end.

Inductive reachable (w0 : W) : plugin -> Prop :=
  | reach_init : reachable w0 (newRedis w0)
  | reach_step p o p' r : reachable w0 p -> enabled o p -> run o p = (p', r) -> reachable w0 p'.

(** ** The invariant *)

(** No service of this server is in the store. *)
Definition clean (p : plugin) : Prop :=
  forall name, name ∈ Services p -> kv_lookup (node name) (world p) = None.

Definition unfinished (x : redisStopAttempt) : Prop := forall e, at_pc x <> AFinished e.

Definition channels_ok (p : plugin) : Prop :=
  match dying p, done_ p with
  | None, None => refresher p = None
  | Some dy, Some dn =>
      dy <> dn /\ chans p !! dy = Some (stopped p) /\
      chans p !! dn = Some (match refresher p with Some _ => false | None => true end) /\
      (forall h dy' dn', refresher p = Some (h, dy', dn') -> dy' = dy /\ dn' = dn)
  | _, _ => False
  end.

Definition attempt_ok (p : plugin) (a : nat) (x : redisStopAttempt) : Prop :=
  at_refreshDone x = done_ p /\ (unfinished x <-> stopAttempt p = Some a) /\
  (at_pc x <> AWaiting -> refresher p = None) /\
  (at_pc x = ACleaned None -> clean p) /\
  (at_pc x = AFinished None -> stopComplete p = true).

Definition call_ok (p : plugin) (c : stop_call) : Prop :=
  match c with
  | SRequested => stopRequested p = true
  | SWaiting a => (a < length (attempts p))%nat
  | SReturned None => stopComplete p = true
  | SReturned (Some _) => True
  end.

Record Inv (p : plugin) : Prop := MkInv {
  i_chans : channels_ok p;
  i_running : is_Some (refresher p) -> started p = true \/ stopped p = true;
  i_requested : stopped p = true -> stopRequested p = true;
  i_stopped : attempts p <> [] -> stopped p = true;
  i_attempts : forall a x, attempts p !! a = Some x -> attempt_ok p a x;
  i_current : forall a, stopAttempt p = Some a -> (a < length (attempts p))%nat;
  i_complete : stopComplete p = true ->
    clean p /\ refresher p = None /\ stopAttempt p = None /\ stopped p = true;
  i_calls : forall i c, stops p !! i = Some c -> call_ok p c;
  i_kv : kv p = None -> clean p;
  i_open : is_Some (refresher p) -> is_Some (kv p);
}.

Lemma Inv_init w : Inv (newRedis w).
Proof. split; cbn; try done. intros _ name Hn. by apply not_elem_of_nil in Hn. Qed.

Lemma not_stopped p :
  Inv p -> stopped p = false -> stopComplete p = false /\ attempts p = [] /\ stopAttempt p = None.
Proof.
  intros [H1 H2 H3 H4 H5 H6 H7 H8 H9 H10] Hs.
  assert (attempts p = []) as Ha by (destruct (attempts p) eqn:E; [done|by rewrite H4 in Hs]).
  split_and!; [|done|].
  - destruct (stopComplete p); [|done]. destruct (H7 eq_refl) as (_ & _ & _ & ?). congruence.
  - destruct (stopAttempt p) as [a|] eqn:E; [|done]. specialize (H6 a eq_refl). rewrite Ha in H6. cbn in H6. lia.
Qed.

(** Changes of the store while the plugin is not being stopped, or while the refreshing
    goroutine is alive, keep the invariant. *)
Lemma Inv_store p w :
  Inv p -> is_Some (kv p) -> stopped p = false \/ is_Some (refresher p) -> Inv (set_world w p).
Proof.
  intros [H1 H2 H3 H4 H5 H6 H7 H8 H9 H10] [h Hk] Hor.
  assert (stopComplete p = false) as Hc.
  { destruct (stopComplete p); [|done]. destruct (H7 eq_refl) as (_ & Hr & _ & Hs).
    destruct Hor as [?|[? ?]]; congruence. }
  split; try done; cbn.
  - intros a x Hx. destruct (H5 a x Hx) as (E1 & E2 & E3 & E4 & E5).
    refine (conj E1 (conj E2 (conj E3 (conj _ E5)))).
    intros Hpc. exfalso. destruct Hor as [Hs|[r Hr]].
    + assert (attempts p <> []) as Hne by (intros E; rewrite E in Hx; done). by rewrite H4 in Hs.
    + rewrite E3 in Hr by congruence. done.
  - by rewrite Hc.
  - by rewrite Hk.
Qed.

(** A change of the store that adds no node of this server keeps it in any case. *)
Lemma Inv_world p w :
  Inv p -> (forall n, kv_lookup (node n) (world p) = None -> kv_lookup (node n) w = None) ->
  Inv (set_world w p).
Proof.
  intros [H1 H2 H3 H4 H5 H6 H7 H8 H9 H10] Hw.
  assert (clean p -> clean (set_world w p)) as Hcl by (intros Hc n Hn; by apply Hw, Hc).
  split; try done; cbn.
  - intros a x Hx. destruct (H5 a x Hx) as (E1 & E2 & E3 & E4 & E5).
    exact (conj E1 (conj E2 (conj E3 (conj (fun H => Hcl (E4 H)) E5)))).
  - intros Hc. destruct (H7 Hc) as (E1 & E2). exact (conj (Hcl E1) E2).
  - intros Hk. apply Hcl. by apply H9.
Qed.

(** The connection that a plugin opens. *)
Lemma Inv_connect p h : Inv p -> stopped p = false -> Inv (set_kv (Some h) p).
Proof.
  intros HI Hs. destruct (not_stopped p HI Hs) as (Hc & Ha & _).
  destruct HI as [H1 H2 H3 H4 H5 H6 H7 H8 H9 H10].
  split; done.
Qed.

(** ** Operations on an open store change only the world *)

Definition total {A} (f : R A (W := W) (H := H)) : Prop :=
  forall p, exists w r, f p = (set_world w p, Ok r).

Lemma total_ret {A} (a : A) : total (mret a).
Proof. intros p. exists (world p), a. by destruct p. Qed.

Lemma total_bind {A B} (f : R A) (k : A -> R B) : total f -> (forall a, total (k a)) -> total (f ≫= k).
Proof.
  intros Hf Hk p. destruct (Hf p) as (w1 & a & E1). destruct (Hk a (set_world w1 p)) as (w2 & b & E2).
  exists w2, b. by rewrite (go_bind_Ok _ _ _ _ _ E1).
Qed.

Lemma total_store {A} (f : W -> W * A) : total (on_store f).
Proof. intros p. unfold on_store. destruct (f (world p)) as [w a]. by exists w, a. Qed.

Create HintDb redis.
Hint Resolve total_ret total_bind total_store : redis.

Lemma total_put_dir h path v : total (put_dir h path v).
Proof. unfold put_dir. auto with redis. Qed.

Lemma total_refresh_all h ms extra names :
  total (refresh_all ServiceAddress BasePath UpdateInterval h ms extra names).
Proof.
  induction names as [|n names IH]; cbn [refresh_all]; [auto with redis|].
  apply total_bind; [|auto]. unfold refresh_one. apply total_bind; [auto with redis|].
  intros [v|e]; auto with redis.
Qed.

Hint Resolve total_put_dir total_refresh_all : redis.

(** ** Every action keeps the invariant and does not panic *)

Definition safe {A} (f : R A) (p : plugin) : Prop := exists p' a, f p = (p', Ok a) /\ Inv p'.

Lemma safe_ret {A} (a : A) p : Inv p -> safe (mret a) p.
Proof. intros HI. by eexists _, _. Qed.

Lemma safe_bind {A B} (f : R A) (k : A -> R B) p :
  (exists p' a, f p = (p', Ok a) /\ safe (k a) p') -> safe (f ≫= k) p.
Proof. intros (p' & a & E & Hk). unfold safe. by rewrite (go_bind_Ok _ _ _ _ _ E). Qed.

Lemma safe_then {A B} (f : R A) (k : A -> R B) p :
  safe f p -> (forall a p', Inv p' -> safe (k a) p') -> safe (f ≫= k) p.
Proof. intros (p' & a & E & HI) Hk. apply safe_bind. eauto. Qed.

Lemma safe_get {B} (k : plugin -> R B) p : safe (k p) p -> safe (get ≫= k) p.
Proof. intros Hk. apply safe_bind. by eexists _, _. Qed.

Lemma safe_modify {B} (f : plugin -> plugin) (k : unit -> R B) p :
  safe (k tt) (f p) -> safe (modify f ≫= k) p.
Proof. intros Hk. apply safe_bind. by eexists _, _. Qed.

(** A store operation of a plugin that is not stopped, or that refreshes. *)
Lemma safe_store {A B} (f : R A) (k : A -> R B) p :
  total f -> Inv p -> is_Some (kv p) -> stopped p = false \/ is_Some (refresher p) ->
  (forall a w, Inv (set_world w p) -> safe (k a) (set_world w p)) ->
  safe (f ≫= k) p.
Proof.
  intros Hf HI Hk Hor Hs. destruct (Hf p) as (w & a & E).
  apply safe_bind. eexists _, _. split; [exact E|]. apply Hs. by apply Inv_store.
Qed.

Lemma safe_total {A} (f : R A) p :
  total f -> Inv p -> is_Some (kv p) -> stopped p = false \/ is_Some (refresher p) -> safe f p.
Proof.
  intros Hf HI Hk Hor. destruct (Hf p) as (w & a & E).
  eexists _, _. split; [exact E|]. by apply Inv_store.
Qed.

(** [p.kv] is there afterwards, or could not be made. *)
Lemma safe_ensure_kv {B} (k : H + error -> R B) p :
  Inv p -> stopped p = false ->
  (forall w e, Inv (set_world w p) -> safe (k (inr e)) (set_world w p)) ->
  (forall h w kv', let p' := set_kv kv' (set_world w p) in Inv p' -> is_Some (kv p') -> safe (k (inl h)) p') ->
  safe (ensure_kv ≫= k) p.
Proof.
  intros HI Hs Hbad Hgood. apply safe_bind. unfold ensure_kv, mbind, go_bind, get.
  destruct (kv p) as [h|] eqn:E.
  - eexists _, _. split; [reflexivity|].
    assert (p = set_kv (Some h) (set_world (world p) p)) as Hp by (rewrite <- E; by destruct p).
    rewrite Hp. apply Hgood; [by rewrite <- Hp|eauto].
  - unfold on_store. pose proof (new_frame (world p)) as Hf. destruct (kv_NewStore (world p)) as [w [h|e]].
    + eexists _, _. split; [reflexivity|]. apply (Hgood h w (Some h)); [|eauto].
      apply Inv_connect; [|done]. apply Inv_world; [done|]. intros n Hn. by rewrite Hf.
    + eexists _, _. split; [reflexivity|]. apply Hbad. apply Inv_world; [done|]. intros n Hn. by rewrite Hf.
Qed.

Lemma tick_safe extra p : Inv p -> is_Some (refresher p) -> safe (tick extra) p.
Proof.
  intros HI Hr. unfold RedisRegistry.tick. apply safe_get. pose proof (i_open p HI Hr) as Hk.
  destruct Hr as [[[h dy] dn] Hr]. rewrite Hr.
  apply safe_total; [auto with redis|done|done|]. right. rewrite Hr. eauto.
Qed.

Lemma Inv_services p s m : Inv p -> stopped p = false -> is_Some (kv p) -> Inv (set_services s m p).
Proof.
  intros HI Hs [h Hk]. destruct (not_stopped p HI Hs) as (Hc & Ha & _).
  destruct HI as [H1 H2 H3 H4 H5 H6 H7 H8 H9 H10].
  split; try done; cbn; [by rewrite Ha|by rewrite Hc|by rewrite Hk].
Qed.

Ltac store_step :=
  apply safe_store; [auto with redis|assumption|assumption|auto|];
  let a := fresh "a" in let w := fresh "w" in let HI := fresh "HI" in intros a w HI.

Lemma Register_safe n md p : Inv p -> safe (Register n md) p.
Proof.
  intros HI. unfold RedisRegistry.Register. destruct (blank n); [by apply safe_ret|].
  apply safe_get. destruct (stopRequested p || stopped p) eqn:Es; [by apply safe_ret|].
  apply orb_false_iff in Es as [_ Es]. destruct (validateBasePath BasePath); [by apply safe_ret|].
  apply safe_ensure_kv; [done|done|intros; by apply safe_ret|]. intros h w kv' p' HI' Hk'.
  store_step. destruct a; [by apply safe_ret|].
  store_step. destruct a; [by apply safe_ret|].
  store_step. destruct a; [by apply safe_ret|].
  apply safe_modify, safe_ret, Inv_services; done.
Qed.

Lemma Unregister_safe n p : Inv p -> safe (Unregister n) p.
Proof.
  intros HI. unfold RedisRegistry.Unregister.
  apply safe_get. destruct (stopRequested p || stopped p) eqn:Es; [by apply safe_ret|].
  apply orb_false_iff in Es as [_ Es].
  destruct (bool_decide _); [by apply safe_ret|]. destruct (blank n); [by apply safe_ret|].
  apply safe_ensure_kv; [done|done|intros; by apply safe_ret|]. intros h w kv' p' HI' Hk'.
  store_step. destruct a; [by apply safe_ret|].
  store_step. destruct a; [by apply safe_ret|].
  store_step. destruct a; [by apply safe_ret|].
  apply safe_modify, safe_ret, Inv_services; done.
Qed.

(** Between the making of the channels and the end of [Start]: [n] is open and nothing runs. *)
Definition opening (n : nat) (p : plugin) : Prop :=
  dying p = Some (S n) /\ done_ p = Some n /\ chans p !! n = Some false /\
  chans p !! S n = Some false /\ refresher p = None /\ stopped p = false /\
  stopComplete p = false /\ attempts p = [] /\ stopAttempt p = None /\ Services p = [] /\
  (forall i c, stops p !! i = Some c -> call_ok p c).

Lemma opening_start p :
  Inv p -> stopped p = false -> refresher p = None -> Services p = [] ->
  let n := length (chans p) in
  opening n (set_channels (Some (S n)) (Some n) (chans p ++ [false; false]) p).
Proof.
  intros HI Hs Hr Hsv n. destruct (not_stopped p HI Hs) as (Hc & Ha & Hsa).
  unfold opening. cbn. split_and!; try done; [| |exact (i_calls p HI)].
  - by rewrite lookup_app_r, Nat.sub_diag by lia.
  - rewrite lookup_app_r by lia. by replace (S n - length (chans p))%nat with 1%nat by lia.
Qed.

Lemma safe_opening {A B} n (f : R A) (k : A -> R B) p :
  total f -> opening n p ->
  (forall a w, opening n (set_world w p) -> safe (k a) (set_world w p)) -> safe (f ≫= k) p.
Proof.
  intros Hf Ho Hk. destruct (Hf p) as (w & a & E).
  apply safe_bind. eexists _, _. split; [exact E|]. apply Hk. exact Ho.
Qed.

Lemma clean_no_services p : Services p = [] -> clean p.
Proof. intros Hs n Hn. rewrite Hs in Hn. by apply not_elem_of_nil in Hn. Qed.

(** [close(p.done)] ends [Start] without a refreshing goroutine. *)
Lemma opening_close {A} n (a : A) p : opening n p -> safe (_ ← close_chan n; mret a) p.
Proof.
  intros (H1 & H2 & H3 & H4 & H5 & H6 & H7 & H8 & H9 & H9' & H10).
  apply safe_bind. unfold close_chan. rewrite H3. eexists _, _. split; [reflexivity|]. apply safe_ret.
  split; cbn.
  - unfold channels_ok. cbn. rewrite H1, H2, H5, H6. split_and!; [lia| | |done].
    + rewrite list_lookup_insert_ne by lia. done.
    + rewrite list_lookup_insert_eq; [done|]. by eapply lookup_lt_Some.
  - rewrite H5. by intros [? ?].
  - by rewrite H6.
  - by rewrite H8.
  - by rewrite H8.
  - by rewrite H9.
  - by rewrite H7.
  - exact H10.
  - intros _. by apply clean_no_services.
  - rewrite H5. by intros [? ?].
Qed.

Lemma opening_launch {A} n h (a : A) p :
  opening n p -> is_Some (kv p) ->
  safe (_ ← modify (fun p => set_flags true (stopped p) (stopComplete p) (stopRequested p) p);
        if UpdateInterval >? 0
        then _ ← modify (set_refresher (Some (h, S n, n))); mret a
        else _ ← close_chan n; mret a) p.
Proof.
  intros Ho Hk. apply safe_modify. destruct (UpdateInterval >? 0).
  - destruct Ho as (H1 & H2 & H3 & H4 & H5 & H6 & H7 & H8 & H9 & H9' & H10).
    apply safe_modify, safe_ret. split; cbn.
    + unfold channels_ok. cbn. rewrite H1, H2, H6. split_and!; [lia|done|done|]. by intros ??? [= <- <- <-].
    + by left.
    + by rewrite H6.
    + by rewrite H8.
    + by rewrite H8.
    + by rewrite H9.
    + by rewrite H7.
    + exact H10.
    + intros _. by apply clean_no_services.
    + done.
  - apply opening_close. exact Ho.
Qed.

Lemma opening_ensure_kv {B} n (k : H + error -> R B) p :
  opening n p ->
  (forall p', opening n p' -> forall e, safe (k (inr e)) p') ->
  (forall p', opening n p' -> is_Some (kv p') -> forall h, safe (k (inl h)) p') ->
  safe (ensure_kv ≫= k) p.
Proof.
  intros Ho Hbad Hgood. apply safe_bind. unfold ensure_kv, mbind, go_bind, get.
  destruct (kv p) as [h|] eqn:E.
  - eexists _, _. split; [reflexivity|]. apply Hgood; [done|rewrite E; eauto].
  - unfold on_store. destruct (kv_NewStore (world p)) as [w [h|e]]; eexists _, _; (split; [reflexivity|]).
    + apply Hgood; [exact Ho|cbn; eauto].
    + apply Hbad. exact Ho.
Qed.

Lemma Start_safe p : Inv p -> Services p = [] -> safe Start p.
Proof.
  intros HI Hsv. unfold RedisRegistry.Start. apply safe_get.
  destruct (stopRequested p || stopped p) eqn:Es; [by apply safe_ret|].
  apply orb_false_iff in Es as [_ Es]. destruct (started p) eqn:Est; [by apply safe_ret|].
  destruct (validateBasePath BasePath); [by apply safe_ret|].
  assert (refresher p = None) as Hr.
  { destruct (refresher p) eqn:E; [|done]. destruct (i_running p HI); [rewrite E; eauto|congruence..]. }
  apply safe_bind. eexists _, _. split; [reflexivity|]. cbn [fst snd].
  pose proof (opening_start p HI Es Hr Hsv) as Ho. cbv zeta in Ho.
  eapply opening_ensure_kv; [exact Ho|intros; by apply opening_close|]. clear Ho. intros p1 Ho Hk h.
  eapply safe_opening; [auto with redis|exact Ho|]. clear Ho. intros [e|] w1 Ho; [|by apply opening_launch].
  eapply safe_opening; [auto with redis|exact Ho|]. clear Ho. intros [] w2 Ho.
  apply safe_modify. apply opening_close. exact Ho.
Qed.

(** ** Stopping *)

Lemma safe_modify_last (f : plugin -> plugin) p : Inv (f p) -> safe (modify f) p.
Proof. intros HI. by eexists _, _. Qed.

Lemma Inv_stops p l :
  Inv p -> (forall i c, l !! i = Some c -> call_ok p c) -> Inv (set_stops l p).
Proof. intros [H1 H2 H3 H4 H5 H6 H7 H8 H9 H10] Hl. split; done. Qed.

Lemma return_stop_safe i e p :
  Inv p -> (e = None -> stopComplete p = true) -> safe (return_stop i e) p.
Proof.
  intros HI He. apply safe_modify_last, Inv_stops; [done|].
  intros j c [(-> & <- & _)|[_ Hc]]%list_lookup_insert_Some; [|by eapply i_calls].
  destruct e; [done|by apply He].
Qed.

Lemma Stop_request_safe p : Inv p -> safe Stop_request p.
Proof.
  intros HI. apply safe_modify, safe_modify_last.
  assert (Inv (set_flags (started p) (stopped p) (stopComplete p) true p)) as HI'.
  { destruct HI as [H1 H2 H3 H4 H5 H6 H7 H8 H9 H10]. split; try done.
    intros i c Hc. specialize (H8 i c Hc). by destruct c. }
  apply Inv_stops; [done|].
  intros i c [Hc|[_ Hc]]%lookup_app_Some; [by eapply (i_calls _ HI')|].
  by apply list_lookup_singleton_Some in Hc as [_ <-].
Qed.

Lemma refresh_exit_safe p :
  Inv p -> (exists h dy dn, refresher p = Some (h, dy, dn) /\ closed (Some dy) p) -> safe refresh_exit p.
Proof.
  intros HI (h & dy & dn & Hr & Hdy). unfold refresh_exit. apply safe_get. rewrite Hr. apply safe_modify.
  destruct HI as [H1 H2 H3 H4 H5 H6 H7 H8 H9 H10].
  unfold channels_ok in H1. destruct (dying p) as [dy'|] eqn:Edy, (done_ p) as [dn'|] eqn:Edn; [|done|done|congruence].
  destruct H1 as (C1 & C2 & C3 & C4). destruct (C4 _ _ _ Hr) as [-> ->]. rewrite Hr in C3.
  cbn in Hdy. assert (stopped p = true) as Hs by congruence.
  unfold close_chan. exists (set_chans (<[dn' := true]> (chans p)) (set_refresher None p)), tt.
  split; [cbn; by rewrite C3|]. split; try done; cbn.
  - unfold channels_ok. cbn. rewrite Edy, Edn. split_and!; [done| | |done].
    + by rewrite list_lookup_insert_ne.
    + rewrite list_lookup_insert_eq; [done|]. by eapply lookup_lt_Some.
  - by intros [? ?].
  - intros a x Hx. destruct (H5 a x Hx) as (E1 & E2 & E3 & E4 & E5).
    exact (conj E1 (conj E2 (conj (fun _ => eq_refl) (conj E4 E5)))).
  - intros Hc. destruct (H7 Hc) as (E1 & E2 & E3). rewrite Hr in E2. done.
  - by intros [? ?].
Qed.

(** Closing [dying] when the plugin is stopped for the first time. *)
Lemma Inv_stopped p :
  Inv p -> stopped p = false -> stopRequested p = true ->
  let p1 := set_flags false true (stopComplete p) (stopRequested p) p in
  exists p2, (match dying p1 with Some d => close_chan d | None => mret tt end) p1 = (p2, Ok tt) /\
    Inv p2 /\ stopped p2 = true /\ stopComplete p2 = false /\ stops p2 = stops p /\
    attempts p2 = [] /\ stopAttempt p2 = None.
Proof.
  intros HI Hs Hq p1. destruct (not_stopped p HI Hs) as (Hc & Ha & Hsa).
  destruct HI as [H1 H2 H3 H4 H5 H6 H7 H8 H9 H10]. unfold channels_ok in H1.
  destruct (dying p) as [dy|] eqn:Edy, (done_ p) as [dn|] eqn:Edn; [|done|done|].
  - destruct H1 as (C1 & C2 & C3 & C4). rewrite Hs in C2.
    assert (dying p1 = Some dy) as -> by done.
    unfold close_chan. exists (set_chans (<[dy := true]> (chans p1)) p1).
    split; [cbn; by rewrite C2|]. split; [|done].
    split; try done; cbn; rewrite ?Ha, ?Hc; try done; [|by right].
    unfold channels_ok. cbn. rewrite Edy, Edn. split_and!; [done| | |done].
    + rewrite list_lookup_insert_eq; [done|]. by eapply lookup_lt_Some.
    + by rewrite list_lookup_insert_ne.
  - assert (dying p1 = None) as -> by done. exists p1. split; [done|]. split; [|done].
    split; try done; cbn; rewrite ?Ha, ?Hc; try done; [|by right].
    unfold channels_ok. cbn. by rewrite Edy, Edn.
Qed.

(** Starting an attempt, when none is under way. *)
Lemma Inv_attempt p :
  Inv p -> stopped p = true -> stopComplete p = false -> stopAttempt p = None ->
  Inv (set_attempts (Some (length (attempts p))) (attempts p ++ [MkAttempt (done_ p) AWaiting]) p).
Proof.
  intros [H1 H2 H3 H4 H5 H6 H7 H8 H9 H10] Hs Hc Hsa. split; try done; cbn.
  - intros a x [Hx|[Hle Hx]]%lookup_app_Some.
    + destruct (H5 a x Hx) as (E1 & E2 & E3 & E4 & E5).
      refine (conj E1 (conj _ (conj E3 (conj E4 E5)))). cbn. apply lookup_lt_Some in Hx.
      rewrite E2, Hsa. split; [done|]. intros [= Heq]. lia.
    + apply list_lookup_singleton_Some in Hx as [Hi <-]. unfold attempt_ok. cbn.
      assert (a = length (attempts p)) as -> by lia.
      refine (conj eq_refl (conj _ (conj _ (conj _ _)))); [|done..]. unfold unfinished. cbn. done.
  - intros a [= <-]. rewrite length_app. cbn. lia.
  - by rewrite Hc.
  - intros i c Hic. specialize (H8 i c Hic). destruct c as [|a|e]; [done| |done].
    cbn in *. rewrite length_app. lia.
Qed.

Lemma Stop_locked_safe i p : Inv p -> stops p !! i = Some SRequested -> safe (Stop_locked i) p.
Proof.
  intros HI Hi. unfold Stop_locked. apply safe_get.
  destruct (stopComplete p) eqn:Hc.
  { apply (return_stop_safe i None); [done|]. done. }
  pose proof (i_calls p HI i _ Hi) as Hq. cbn in Hq.
  set (rest := fun _ : unit => _).
  assert (forall q, Inv q -> stopped q = true -> stopComplete q = false -> safe (rest tt) q) as Hrest.
  { intros q HIq Hsq Hcq. unfold rest. apply safe_get.
    assert (forall q', Inv q' -> forall a, (a < length (attempts q'))%nat ->
      safe (modify (fun p => set_stops (<[i := SWaiting a]> (stops p)) p)) q') as Hend.
    { intros q' HI' a Ha. apply safe_modify_last, Inv_stops; [done|].
      intros j c [(-> & <- & _)|[_ Hc']]%list_lookup_insert_Some; [done|by eapply (i_calls q')]. }
    destruct (stopAttempt q) as [a|] eqn:Ea.
    - apply safe_bind. eexists q, a. split; [done|]. apply Hend; [done|]. by apply (i_current q).
    - apply safe_bind. eexists _, (length (attempts q)). split; [reflexivity|].
      apply Hend; [by apply Inv_attempt|]. cbn. rewrite length_app. cbn. lia. }
  destruct (stopped p) eqn:Hs; cbn [negb].
  - apply safe_bind. eexists p, tt. split; [done|]. by apply Hrest.
  - destruct (Inv_stopped p HI Hs Hq) as (p2 & E & HI2 & S2 & C2 & _).
    apply safe_bind. exists p2, tt. split; [|by apply Hrest].
    unfold mbind, go_bind, modify. rewrite Hc in *. exact E.
Qed.

(** ** The clean-up *)

(** No key appears. *)
Definition shrinks (w w' : W) : Prop := forall k, kv_lookup k w = None -> kv_lookup k w' = None.

Lemma cleanup_one_spec h n (p : plugin) :
  exists w e, cleanup_one ServiceAddress BasePath h n p = (set_world w p, Ok e) /\
    shrinks (world p) w /\ (e = None -> kv_lookup (node n) w = None).
Proof.
  unfold cleanup_one, mbind, go_bind, on_store.
  pose proof (exists_frame h (node n) (world p)) as Hf.
  pose proof (exists_absent h (node n) (world p)) as Ha.
  destruct (kv_Exists h _ (world p)) as [w1 [ex [e|]]]; cbn [fst] in Hf.
  - exists w1, (Some (wrap_error "check" (node n) e)). split; [by destruct ex|]. split; [|done].
    intros k Hk. by rewrite Hf.
  - destruct ex.
    + pose proof (delete_frame h (node n) w1) as Hd. pose proof (delete_absent h (node n) w1) as Hda.
      cbn [world set_world]. destruct (kv_Delete h _ w1) as [w2 e]; cbn [fst] in Hd.
      eexists _, _. split; [reflexivity|]. split.
      * intros k Hk. destruct (Hd k) as [->|[_ ->]]; [by rewrite Hf|done].
      * destruct e; [done|]. intros _. by apply Hda.
    + eexists _, _. split; [reflexivity|]. split; [intros k Hk; by rewrite Hf|]. intros _. by apply Ha.
Qed.

Lemma cleanup_all_spec h names (p : plugin) :
  exists w es, cleanup_all ServiceAddress BasePath h names p = (set_world w p, Ok es) /\
    shrinks (world p) w /\ (es = [] -> forall n, n ∈ names -> kv_lookup (node n) w = None).
Proof.
  revert p. induction names as [|n names IH]; intros p; cbn [cleanup_all].
  - exists (world p), []. split; [by destruct p|]. split; [by intros k|].
    intros _ n Hn. by apply not_elem_of_nil in Hn.
  - destruct (cleanup_one_spec h n p) as (w1 & e & E1 & S1 & A1).
    destruct (IH (set_world w1 p)) as (w2 & es & E2 & S2 & A2).
    rewrite (go_bind_Ok _ _ _ _ _ E1), (go_bind_Ok _ _ _ _ _ E2).
    eexists _, _. split; [reflexivity|]. split; [intros k Hk; by apply S2, S1|].
    destruct e as [e|]; [done|]. intros He m [->|Hm]%elem_of_cons; [by apply S2, A1|by apply A2].
Qed.

Lemma cleanupRegistry_spec (p : plugin) :
  exists w k e, cleanupRegistry ServiceAddress BasePath p = (set_kv k (set_world w p), Ok e) /\
    shrinks (world p) w /\
    (k = None -> (kv p = None /\ w = world p) \/ forall n, n ∈ Services p -> kv_lookup (node n) w = None) /\
    (e = None -> k = None).
Proof.
  unfold cleanupRegistry. unfold mbind at 1, go_bind, get.
  destruct (kv p) as [h|] eqn:Ek.
  - destruct (cleanup_all_spec h (Services p) p) as (w & es & E & Hs & Ha).
    rewrite (go_bind_Ok _ _ _ _ _ E). unfold Join. destruct es as [|e es].
    + unfold mbind, go_bind, on_store, modify. cbn [world set_world].
      exists (kv_Close h w), None, None. split; [by destruct p|]. split_and!; [| |done].
      * intros k Hk. rewrite close_frame. by apply Hs.
      * intros _. right. intros n Hn. rewrite close_frame. by apply Ha.
    + eexists w, (Some h), _. split; [cbn; rewrite <- Ek; by destruct p|]. split_and!; done.
  - exists (world p), None, None. split; [rewrite <- Ek; by destruct p|]. split_and!; [by intros k| |done].
    intros _. by left.
Qed.

(** The attempt that is under way waits with the others done. *)
Lemma waiting_no_refresher p a x :
  Inv p -> attempts p !! a = Some x -> closed (at_refreshDone x) p -> refresher p = None.
Proof.
  intros HI Hx Hcl. destruct (i_attempts p HI a x Hx) as (E1 & _). rewrite E1 in Hcl.
  pose proof (i_chans p HI) as Hc. unfold channels_ok in Hc.
  destruct (dying p), (done_ p) as [dn|]; [|done|done|done].
  destruct Hc as (_ & _ & C3 & _). cbn in Hcl. destruct (refresher p); [congruence|done].
Qed.

Lemma set_pc_lookup a pc (p : plugin) b y :
  attempts (set_pc a pc p) !! b = Some y ->
  exists x, attempts p !! b = Some x /\
    if decide (a = b) then y = MkAttempt (at_refreshDone x) pc else y = x.
Proof.
  cbn. destruct (decide (a = b)) as [->|Hne].
  - rewrite list_lookup_alter_eq. destruct (attempts p !! b) as [x|]; [|done]. cbn. intros [= <-]. eauto.
  - rewrite list_lookup_alter_ne by done. eauto.
Qed.

Lemma attempt_cleanup_safe a p :
  Inv p -> (exists x, attempts p !! a = Some x /\ at_pc x = AWaiting /\ closed (at_refreshDone x) p) ->
  safe (attempt_cleanup a) p.
Proof.
  intros HI (x & Hx & Hpc & Hcl). pose proof (waiting_no_refresher p a x HI Hx Hcl) as Hr.
  destruct (cleanupRegistry_spec p) as (w & k & e & E & Hs & Hk & He).
  unfold RedisRegistry.attempt_cleanup. apply safe_bind. eexists _, _. split; [exact E|].
  apply safe_modify_last.
  destruct (i_attempts p HI a x Hx) as (E1 & E2 & E3 & E4 & E5).
  assert (stopAttempt p = Some a) as Hsa by (apply E2; intros e'; by rewrite Hpc).
  destruct HI as [H1 H2 H3 H4 H5 H6 H7 H8 H9 H10].
  assert (stopComplete p = false) as Hc.
  { destruct (stopComplete p); [|done]. destruct (H7 eq_refl) as (_ & _ & ? & _). congruence. }
  set (p1 := set_kv k (set_world w p)).
  assert (k = None -> clean p1) as Hclean.
  { intros Hkn n Hn. cbn. destruct (Hk Hkn) as [[Hkv ->]|Hall]; [by apply H9|by apply Hall]. }
  split; try done; cbn.
  - intros Ha. apply H4. intros E0. rewrite E0 in Ha. by destruct a.
  - intros b y Hy. destruct (set_pc_lookup a _ p1 b y Hy) as (x' & Hx' & Hif).
    destruct (decide (a = b)) as [<-|Hne].
    + assert (x' = x) as -> by (cbn in Hx'; congruence). subst y.
      refine (conj E1 (conj _ (conj (fun _ => Hr) (conj _ _)))); cbn.
      * split; [done|]. intros _ e'. done.
      * intros [= ->]. by apply Hclean, He.
      * done.
    + subst y. destruct (H5 b x' Hx') as (F1 & F2 & F3 & F4 & F5).
      refine (conj F1 (conj F2 (conj F3 (conj _ F5)))). intros Hp. exfalso.
      assert (stopAttempt p = Some b) as Hb by (apply F2; intros e'; by rewrite Hp).
      congruence.
  - intros b Hb. rewrite length_alter. by apply H6.
  - by rewrite Hc.
  - intros i c Hic. specialize (H8 i c Hic). destruct c as [|b|e']; [done| |done]. cbn in *. by rewrite length_alter.
  - by rewrite Hr.
Qed.

(** The attempt that finishes, and the others beside it. *)
Lemma finished_attempt_ok a (p p' : plugin) x e b y :
  Inv p -> attempts p !! a = Some x -> at_pc x = ACleaned e ->
  attempts p' = attempts (set_pc a (AFinished e) p) ->
  refresher p' = None -> stopAttempt p' = None -> done_ p' = done_ p -> (clean p -> clean p') ->
  stopComplete p = false -> stopComplete p' = match e with None => true | Some _ => stopComplete p end ->
  attempts p' !! b = Some y -> attempt_ok p' b y.
Proof.
  intros HI Hx Hpc Hat Hr Hn Hd Hcl Hc Hc' Hy. rewrite Hat in Hy.
  destruct (i_attempts p HI a x Hx) as (E1 & E2 & _).
  assert (stopAttempt p = Some a) as Hsa by (apply E2; intros e'; by rewrite Hpc).
  destruct (set_pc_lookup a _ p b y Hy) as (x' & Hx' & Hif).
  unfold attempt_ok. rewrite Hd, Hn. destruct (decide (a = b)) as [<-|Hne].
  - assert (x' = x) as -> by congruence. subst y. cbn.
    refine (conj E1 (conj _ (conj (fun _ => Hr) (conj _ _)))).
    + split; [|done]. intros Hu. by destruct (Hu e).
    + done.
    + intros [= ->]. by rewrite Hc'.
  - subst y. destruct (i_attempts p HI b x' Hx') as (F1 & F2 & F3 & F4 & F5).
    refine (conj F1 (conj _ (conj (fun _ => Hr) (conj _ _)))).
    + rewrite F2, Hsa. split; [congruence|done].
    + intros Hp. apply Hcl, F4. exact Hp.
    + intros Hp. specialize (F5 Hp). congruence.
Qed.

Lemma attempt_finish_safe a p x e :
  Inv p -> attempts p !! a = Some x -> at_pc x = ACleaned e -> safe (attempt_finish a e) p.
Proof.
  intros HI Hx Hpc. destruct (i_attempts p HI a x Hx) as (E1 & E2 & E3 & E4 & E5).
  assert (stopAttempt p = Some a) as Hsa by (apply E2; intros e'; by rewrite Hpc).
  assert (refresher p = None) as Hr by (apply E3; congruence).
  assert (stopped p = true) as Hst.
  { apply (i_stopped p HI). intros E0. by rewrite E0 in Hx. }
  unfold attempt_finish. apply safe_modify, safe_modify, safe_modify_last.
  set (p1 := match e with None => _ | Some _ => p end).
  assert (stopAttempt p1 = Some a /\ attempts p1 = attempts p /\ refresher p1 = None /\ stopped p1 = true /\
          stops p1 = stops p /\ Services p1 = Services p /\ world p1 = world p /\ kv p1 = kv p /\
          dying p1 = dying p /\ done_ p1 = done_ p /\ chans p1 = chans p /\ stopRequested p1 = stopRequested p /\
          stopComplete p1 = match e with None => true | Some _ => stopComplete p end)
    as (G1 & G2 & G3 & G4 & G5 & G6 & G7 & G8 & G9 & G10 & G11 & G12 & G13)
    by (unfold p1; destruct e; done).
  rewrite G1, bool_decide_eq_true_2 by done.
  assert (clean p -> clean p1) as Hcl by (unfold clean; by rewrite G6, G7).
  pose proof HI as [H1 H2 H3 H4 _ H6 H7 H8 H9 H10].
  assert (stopComplete p = false) as Hc.
  { destruct (stopComplete p); [|done]. destruct (H7 eq_refl) as (_ & _ & ? & _). congruence. }
  clearbody p1. split; cbn.
  - unfold channels_ok in *. cbn. rewrite G9, G10, G11, G3, G4. rewrite Hr, Hst in H1. exact H1.
  - rewrite G3. by intros [? ?].
  - rewrite G4, G12. intros _. by apply H3.
  - done.
  - intros b y Hy. eapply (finished_attempt_ok a p _ x e b y HI Hx Hpc); [..|exact Hy]; cbn; try done. by rewrite G2.
  - done.
  - rewrite G13. destruct e as [e|]; [congruence|]. intros _. split_and!; [|done|done|done].
    apply Hcl, E4. exact Hpc.
  - intros i c Hic. rewrite G5 in Hic. specialize (H8 i c Hic). destruct c as [|b|[e'|]]; cbn in *.
    + by rewrite G12.
    + by rewrite length_alter, G2.
    + done.
    + congruence.
  - rewrite G8. intros Hk. by apply Hcl, H9.
  - rewrite G3. by intros [? ?].
Qed.

(** Others never create a node of this server. *)
Context (Henv : forall w w', env w w' -> forall n, kv_lookup (node n) w = None -> kv_lookup (node n) w' = None).

Lemma run_safe o p : Inv p -> enabled o p -> safe (run o) p.
Proof using Henv laws.
  intros HI Hen. destruct o as [|n md|n|extra| | |i|i|i|i|a|a|w]; cbn [run enabled] in *.
  - apply safe_then; [by apply Start_safe|intros; by apply safe_ret].
  - apply safe_then; [by apply Register_safe|intros; by apply safe_ret].
  - apply safe_then; [by apply Unregister_safe|intros; by apply safe_ret].
  - by apply tick_safe.
  - by apply refresh_exit_safe.
  - by apply Stop_request_safe.
  - by apply Stop_locked_safe.
  - by apply return_stop_safe.
  - apply safe_get. destruct Hen as (a & x & e & H1 & H2 & H3). rewrite H1, H2. cbn. rewrite H3.
    apply return_stop_safe; [done|]. intros ->. destruct (i_attempts p HI a x H2) as (_ & _ & _ & _ & E5). by apply E5.
  - by apply return_stop_safe.
  - by apply attempt_cleanup_safe.
  - apply safe_get. destruct Hen as (x & e & H1 & H2). rewrite H1. cbn. rewrite H2.
    by eapply attempt_finish_safe.
  - apply safe_modify_last. apply Inv_world; [done|]. by apply Henv.
Qed.

Lemma reachable_Inv w0 p : reachable w0 p -> Inv p.
Proof using Henv laws.
  induction 1 as [|p o p' r _ IH Hen E]; [apply Inv_init|].
  destruct (run_safe o p IH Hen) as (p2 & a & E2 & HI). rewrite E2 in E. by injection E as <- _.
Qed.

(** C14. In every interleaving of registrations, refreshes, stops, their attempts and other users of
    the store: nothing panics (in particular no channel is closed twice), and once a call of
    [Stop] has returned without an error, no service of this server is in the store and none can
    come back, because the refreshing goroutine is gone before the clean-up starts. Others do
    not create nodes of this server, and [Start] comes before the registrations. *)
Theorem redis_stop_cleans w0 p :
  reachable w0 p ->
  (forall o, enabled o p -> exists p', run o p = (p', Ok tt)) /\
  (forall i, stops p !! i = Some (SReturned None) ->
     clean p /\ refresher p = None /\ stopped p = true /\
     forall o p' r, enabled o p -> run o p = (p', r) ->
       clean p' /\ refresher p' = None /\ stops p' !! i = Some (SReturned None)).
Proof using Henv laws.
  intros Hp. pose proof (reachable_Inv w0 p Hp) as HI. split.
  { intros o Hen. destruct (run_safe o p HI Hen) as (p' & [] & E & _). eauto. }
  intros i Hi. pose proof (i_calls p HI i _ Hi) as Hc. cbn in Hc.
  destruct (i_complete p HI Hc) as (H1 & H2 & H3 & H4). split_and!; [done|done|done|].
  intros o p' r Hen E. pose proof (i_requested p HI H4) as Hq.
  assert (forall j c, j <> i -> (<[j := c]> (stops p)) !! i = Some (SReturned None)) as Hins
    by (intros j c Hne; by rewrite list_lookup_insert_ne).
  destruct o as [|n md|n|extra| | |j|j|j|j|a|a|w]; cbn [run enabled] in *.
  - unfold RedisRegistry.Start, mbind, go_bind, get in E. rewrite Hq in E. by injection E as <- _.
  - unfold RedisRegistry.Register in E. destruct (blank n); [by injection E as <- _|].
    unfold mbind, go_bind, get in E. rewrite Hq in E. by injection E as <- _.
  - unfold RedisRegistry.Unregister, mbind, go_bind, get in E. rewrite Hq in E. by injection E as <- _.
  - rewrite H2 in Hen. by destruct Hen.
  - destruct Hen as (h & dy & dn & Hr & _). congruence.
  - injection E as <- _. split_and!; [done|done|]. cbn. by apply lookup_app_l_Some.
  - unfold Stop_locked, mbind, go_bind, get in E. rewrite Hc in E. injection E as <- _.
    split_and!; [done|done|]. cbn. apply Hins. congruence.
  - injection E as <- _. split_and!; [done|done|]. cbn. apply Hins. congruence.
  - destruct Hen as (a & x & e & S1 & S2 & S3). unfold mbind, go_bind, get in E. rewrite S1, S2 in E.
    cbn in E. rewrite S3 in E. injection E as <- _. split_and!; [done|done|]. cbn. apply Hins. congruence.
  - destruct Hen as (a & S1). injection E as <- _. split_and!; [done|done|]. cbn. apply Hins. congruence.
  - destruct Hen as (x & S1 & S2 & _). destruct (i_attempts p HI a x S1) as (_ & E2 & _).
    assert (stopAttempt p = Some a) by (apply E2; intros e'; by rewrite S2). congruence.
  - destruct Hen as (x & e & S1 & S2). destruct (i_attempts p HI a x S1) as (_ & E2 & _).
    assert (stopAttempt p = Some a) by (apply E2; intros e'; by rewrite S2). congruence.
  - injection E as <- _. split_and!; [|done|done]. intros n Hn. cbn in *. by apply (Henv _ _ Hen), H1.
Qed.

(** ** Stop attempts end *)

(** How many steps of its own an attempt still needs. *)
Definition remaining (a : nat) (p : plugin) : nat :=
  match at_pc <$> attempts p !! a with
  | Some AWaiting => match refresher p with Some _ => 3 | None => 2 end
  | Some (ACleaned _) => 1
  | _ => 0
  end.

(** The step that brings an attempt forward. *)
Definition helpful (a : nat) (p : plugin) : action :=
  match remaining a p with
  | 3%nat => RRefreshExit
  | 2%nat => RCleanup a
  | _ => RFinish a
  end.

Lemma remaining_same a (p p' : plugin) :
  attempts p' !! a = attempts p !! a -> refresher p' = refresher p -> remaining a p' = remaining a p.
Proof. unfold remaining. by intros -> ->. Qed.

Lemma Stop_locked_frame i (p p' : plugin) r a :
  Inv p -> stopped p = true -> Stop_locked i p = (p', r) ->
  (a < length (attempts p))%nat -> attempts p' !! a = attempts p !! a /\ refresher p' = refresher p.
Proof.
  intros HI Hs E Ha. unfold Stop_locked, mbind, go_bind, get in E.
  destruct (stopComplete p); [by injection E as <- _|]. rewrite Hs in E. cbn in E.
  destruct (stopAttempt p); injection E as <- _; [done|]. cbn. by rewrite lookup_app_l.
Qed.

Lemma set_pc_at a pc (p : plugin) c :
  attempts (set_pc a pc p) !! c =
    if decide (a = c) then (fun x => MkAttempt (at_refreshDone x) pc) <$> attempts p !! a else attempts p !! c.
Proof.
  cbn. destruct (decide (a = c)) as [<-|Hne]; [by rewrite list_lookup_alter_eq|by rewrite list_lookup_alter_ne].
Qed.

Lemma attempt_cleanup_frame a (p p' : plugin) r :
  attempt_cleanup a p = (p', r) ->
  refresher p' = refresher p /\ exists e, forall c, attempts p' !! c = attempts (set_pc a (ACleaned e) p) !! c.
Proof using laws.
  intros E. unfold RedisRegistry.attempt_cleanup in E.
  destruct (cleanupRegistry_spec p) as (w & k & e & Ec & _). rewrite (go_bind_Ok _ _ _ _ _ Ec) in E.
  injection E as <- _. split; [done|]. by exists e.
Qed.

Lemma attempt_finish_frame a e (p p' : plugin) r :
  attempt_finish a e p = (p', r) ->
  refresher p' = refresher p /\ forall c, attempts p' !! c = attempts (set_pc a (AFinished e) p) !! c.
Proof.
  intros E. unfold attempt_finish, mbind, go_bind, modify in E. injection E as <- _.
  unfold set_pc. cbn. destruct e; cbn; by destruct (bool_decide _).
Qed.

Lemma refresh_exit_frame (p p' : plugin) r :
  refresh_exit p = (p', r) -> attempts p' = attempts p /\ (is_Some (refresher p) -> refresher p' = None).
Proof.
  unfold refresh_exit, mbind, go_bind, get, modify. destruct (refresher p) as [[[h dy] dn]|] eqn:Er.
  - unfold close_chan. cbn. destruct (chans p !! dn) as [[|]|]; intros [= <- _]; done.
  - intros [= <- _]. split; [done|]. by intros [? ?].
Qed.

(** No action of anyone sets an attempt back. *)
Lemma remaining_le a x p o p' r :
  Inv p -> attempts p !! a = Some x -> enabled o p -> run o p = (p', r) ->
  (remaining a p' <= remaining a p)%nat.
Proof using laws.
  intros HI Hx Hen E.
  assert (stopped p = true) as Hs by (apply (i_stopped p HI); intros E0; by rewrite E0 in Hx).
  pose proof (i_requested p HI Hs) as Hq. pose proof (lookup_lt_Some _ _ _ Hx) as Hlt.
  assert (attempts p' !! a = attempts p !! a -> refresher p' = refresher p ->
          (remaining a p' <= remaining a p)%nat) as Hsame
    by (intros H1 H2; by rewrite (remaining_same a p p' H1 H2)).
  destruct o as [|n md|n|extra| | |j|j|j|j|b|b|w]; cbn [run enabled] in *.
  - unfold RedisRegistry.Start, mbind, go_bind, get in E. rewrite Hq in E. injection E as <- _. done.
  - unfold RedisRegistry.Register in E. destruct (blank n); [injection E as <- _; done|].
    unfold mbind, go_bind, get in E. rewrite Hq in E. injection E as <- _. done.
  - unfold RedisRegistry.Unregister, mbind, go_bind, get in E. rewrite Hq in E. injection E as <- _. done.
  - unfold RedisRegistry.tick, mbind, go_bind, get in E. destruct Hen as [[[h dy] dn] Hr]. rewrite Hr in E.
    destruct (total_refresh_all h (metas p) extra (Services p) p) as (w & u & Et). rewrite Et in E.
    injection E as <- _. by apply Hsame.
  - destruct (refresh_exit_frame p p' r E) as [Ha Hr]. unfold remaining. rewrite Ha.
    destruct Hen as (h & dy & dn & Hr' & _). rewrite Hr by (rewrite Hr'; eauto).
    destruct (at_pc <$> attempts p !! a) as [[| |]|]; try lia. destruct (refresher p); lia.
  - injection E as <- _. by apply Hsame.
  - destruct (Stop_locked_frame j p p' r a HI Hs E Hlt). by apply Hsame.
  - injection E as <- _. by apply Hsame.
  - destruct Hen as (b & y & e & S1 & S2 & S3). unfold mbind, go_bind, get in E. rewrite S1, S2 in E.
    cbn in E. rewrite S3 in E. injection E as <- _. by apply Hsame.
  - injection E as <- _. by apply Hsame.
  - destruct (attempt_cleanup_frame b p p' r E) as (Hr & e & Ha). specialize (Ha a). rewrite set_pc_at in Ha.
    destruct (decide (b = a)) as [->|Hne]; [|by apply Hsame].
    destruct Hen as (y & S1 & S2 & S3). unfold remaining. rewrite Ha, S1. cbn. rewrite S2.
    destruct (refresher p); lia.
  - destruct Hen as (y & e & S1 & S2). unfold mbind, go_bind, get in E. rewrite S1 in E. cbn in E. rewrite S2 in E.
    destruct (attempt_finish_frame b e p p' r E) as (Hr & Ha). specialize (Ha a). rewrite set_pc_at in Ha.
    destruct (decide (b = a)) as [->|Hne]; [|by apply Hsame].
    unfold remaining. rewrite Ha, S1. cbn. lia.
  - injection E as <- _. by apply Hsame.
Qed.

(** C25. A stop attempt ends: until it has, there is a step of the plugin's own goroutines that is
    possible, stays possible and brings it forward (the refreshing goroutine returns, the
    clean-up runs, the attempt ends: at most three), and no action of anyone sets it back. When
    it has ended, every call of [Stop] that waits for it can return. *)
Theorem redis_stop_live w0 p a x :
  reachable w0 p -> attempts p !! a = Some x ->
  ((0 < remaining a p <= 3)%nat ->
     enabled (helpful a p) p /\
     forall p' r, run (helpful a p) p = (p', r) -> (remaining a p' < remaining a p)%nat) /\
  (forall o p' r, enabled o p -> run o p = (p', r) ->
     (remaining a p' <= remaining a p)%nat /\
     (remaining a p' = remaining a p -> helpful a p' = helpful a p)) /\
  (remaining a p = 0%nat -> forall i, stops p !! i = Some (SWaiting a) -> enabled (RStopReturn i) p).
Proof using Henv laws.
  intros Hp Hx. pose proof (reachable_Inv w0 p Hp) as HI. split_and!.
  - intros Hrem.
    assert (stopped p = true) as Hs by (apply (i_stopped p HI); intros E0; by rewrite E0 in Hx).
    destruct (i_attempts p HI a x Hx) as (E1 & E2 & E3 & _). pose proof (i_chans p HI) as Hc.
    unfold helpful, remaining in *. rewrite Hx in *. cbn in *.
    destruct (at_pc x) as [|e|e] eqn:Epc; [|cbn|lia].
    + destruct (refresher p) as [[[h dy] dn]|] eqn:Er.
      * cbn. unfold channels_ok in Hc. destruct (dying p) as [dy'|], (done_ p) as [dn'|]; [|done|done|congruence].
        destruct Hc as (C1 & C2 & C3 & C4). rewrite Er in C4. destruct (C4 _ _ _ eq_refl) as [-> ->].
        split; [eexists _, _, _; split; [exact Er|]; cbn; by rewrite C2, Hs|].
        intros p' r E. destruct (refresh_exit_frame p p' r E) as [Ha Hr]. rewrite Ha, Hx. cbn. rewrite Epc.
        rewrite Hr by (rewrite Er; eauto). lia.
      * cbn. split.
        { exists x. split_and!; [done|done|]. rewrite E1. unfold closed, channels_ok in *.
          destruct (dying p), (done_ p); [|done|done|done]. rewrite Er in Hc. apply Hc. }
        intros p' r E. destruct (attempt_cleanup_frame a p p' r E) as (Hr & e & Ha).
        rewrite Ha, set_pc_at, decide_True, Hx by done. cbn. lia.
    + split; [eauto|]. intros p' r E. unfold mbind, go_bind, get in E. rewrite Hx in E. cbn in E. rewrite Epc in E.
      destruct (attempt_finish_frame a e p p' r E) as (Hr & Ha).
      rewrite Ha, set_pc_at, decide_True, Hx by done. cbn. lia.
  - intros o p' r Hen E. split; [by eapply remaining_le|]. unfold helpful. by intros ->.
  - intros Hz i Hi. cbn. unfold remaining in Hz. rewrite Hx in Hz. cbn in Hz.
    destruct (at_pc x) as [|e|e] eqn:Epc; [destruct (refresher p); lia|lia|]. eauto 10.
Qed.

(** ** Registering *)

Lemma bind_Ok_Some {A B} (f : R A) (k : A -> R B) (p p' : plugin) b :
  (f ≫= k) p = (p', Ok b) -> exists q a, f p = (q, Ok a) /\ k a q = (p', Ok b).
Proof. apply go_bind_inv_Ok. Qed.

(** The prefix that [Register] and [Unregister] share: the connection, then two directories. *)
Lemma ensure_kv_frame (p p' : plugin) r :
  ensure_kv p = (p', Ok r) -> exists k w, p' = set_kv k (set_world w p).
Proof.
  unfold ensure_kv, mbind, go_bind, get, on_store. destruct (kv p) eqn:E.
  - intros [= <- _]. exists (kv p), (world p). by destruct p.
  - destruct (kv_NewStore (world p)) as [w [h|e]]; intros [= <- _]; [by exists (Some h), w|].
    exists (kv p), w. by destruct p.
Qed.

Lemma total_frame {A} (f : R A) (p p' : plugin) a : total f -> f p = (p', Ok a) -> exists w, p' = set_world w p.
Proof. intros Hf E. destruct (Hf p) as (w & r & E'). rewrite E' in E. injection E as <- _. eauto. Qed.

Ltac dir_step w :=
  let q := fresh "q" in let r := fresh "r" in let E1 := fresh "E1" in let E := fresh "E" in
  intros (q & r & E1 & E)%bind_Ok_Some;
  apply total_frame in E1 as [w ->]; [|solve [auto with redis]];
  destruct r; [done|]; revert E.

(** A registration that succeeds puts the metadata at the service's node and remembers the
    service; one that is taken back leaves no node, and no entry of that name, however often it
    was registered. *)
Theorem redis_register_unregister name md (p p' : plugin) :
  (Register name md p = (p', Ok None) ->
     kv_lookup (node name) (world p') = Some md /\ Services p' = Services p ++ [name] /\
     metas p' = Some (<[name := md]> (default ∅ (metas p)))) /\
  (Unregister name p = (p', Ok None) -> stopRequested p = false -> stopped p = false -> Services p <> [] ->
     kv_lookup (node name) (world p') = None /\ Services p' = filter (fun s => s <> name) (Services p) /\
     metas p' = Some (delete name (default ∅ (metas p)))).
Proof using laws.
  split.
  - unfold RedisRegistry.Register. destruct (blank name); [done|]. unfold mbind at 1, go_bind, get.
    destruct (_ || _); [done|]. destruct (validateBasePath BasePath); [done|].
    intros (p1 & [h|e] & (k1 & w1 & ->)%ensure_kv_frame & E)%bind_Ok_Some; [|done]. revert E.
    dir_step w2.
    dir_step w3.
    intros (p4 & [e|] & E4 & E)%bind_Ok_Some; [done|]. unfold on_store in E4. cbn [world set_world] in E4.
    pose proof (put_ok h (node name) md (MkOptions false (ttl UpdateInterval)) w3) as Hp.
    destruct (kv_Put _ _ _ _ w3) as [w4 e4]. injection E4 as <- ->.
    injection E as <-. cbn. split_and!; [by apply Hp|done|done].
  - intros E Hq Hs Hne. revert E. unfold RedisRegistry.Unregister. unfold mbind at 1, go_bind, get.
    rewrite Hq, Hs. cbn [orb]. rewrite bool_decide_eq_false_2 by done. destruct (blank name); [done|].
    intros (p1 & [h|e] & (k1 & w1 & ->)%ensure_kv_frame & E)%bind_Ok_Some; [|done]. revert E.
    dir_step w2.
    dir_step w3.
    intros (p4 & [e|] & E4 & E)%bind_Ok_Some; [done|]. unfold on_store in E4. cbn [world set_world] in E4.
    pose proof (delete_absent h (node name) w3) as Hp.
    destruct (kv_Delete _ _ w3) as [w4 e4]. injection E4 as <- ->.
    injection E as <-. cbn. split_and!; [by apply Hp|done|done].
Qed.

(** When services were registered before [Start], and [Start] cannot write the base path, it
    drops the connection: the clean-up of a later [Stop] then finds nothing to do and succeeds,
    while the services stay in the store. *)
Theorem redis_start_failure_leaks (p : plugin) h name md w1 e :
  stopRequested p = false -> stopped p = false -> started p = false -> blank BasePath = false ->
  kv p = Some h -> name ∈ Services p -> kv_lookup (node name) (world p) = Some md ->
  kv_Put h BasePath "rpcx_path" (MkOptions true 0) (world p) = (w1, Some e) ->
  not_a_file e = false -> node name <> BasePath ->
  exists p1, Start p = (p1, Ok (Some e)) /\ name ∈ Services p1 /\
    cleanupRegistry ServiceAddress BasePath p1 = (p1, Ok None) /\
    kv_lookup (node name) (world p1) = Some md.
Proof using laws.
  intros Hq Hs Hst Hb Hk Hin Hl Hp Hn Hne.
  pose proof (put_frame h BasePath "rpcx_path" (MkOptions true 0) (world p) (node name) Hne) as Hf.
  rewrite Hp in Hf. cbn [fst] in Hf.
  set (n := length (chans p)).
  assert (forall (q : plugin), chans q = chans p ++ [false; false] ->
    close_chan n q = (set_chans (<[n := true]> (chans q)) q, Ok tt)) as Hcl.
  { intros q Hq'. unfold close_chan. rewrite Hq', lookup_app_r by done. unfold n. by rewrite Nat.sub_diag. }
  unfold RedisRegistry.Start, make_channels, ensure_kv, put_dir, on_store, validateBasePath, mbind, go_bind, get, modify, mret, go_ret.
  rewrite Hq, Hs, Hst. cbn [orb]. rewrite Hb. cbn [kv set_channels]. rewrite Hk. cbv beta iota. cbn [world set_channels].
  rewrite Hp, Hn. cbn [fst snd]. fold n. rewrite Hcl by done.
  eexists. split; [reflexivity|]. split; [done|]. split; [done|].
  cbn. rewrite close_frame. by rewrite Hf.
Qed.
End Life.

(** ** Stop returns in time *)

Lemma lockLifecycleUntil_bound tryLock late delta deadline fuel n now :
  (forall n, 0 <= late n <= delta) ->
  (deadline - now <= Z.of_nat fuel * Millisecond)%Z ->
  exists b t, lockLifecycleUntil (S (S fuel)) tryLock late n now deadline = Some (b, t) /\
    now <= t /\ t <= Z.max now (deadline + delta).
Proof.
  intros Hl. revert n now. induction fuel as [|fuel IH]; intros n now Hd.
  - cbn [lockLifecycleUntil]. destruct (tryLock n); [eexists _, _; split; [reflexivity|lia]|].
    rewrite (proj2 (Z.leb_le _ _)) by lia. eexists _, _. split; [reflexivity|lia].
  - remember (S fuel) as f. cbn [lockLifecycleUntil].
    destruct (tryLock n); [eexists _, _; split; [reflexivity|lia]|].
    destruct (deadline - now <=? 0) eqn:E; zbool; [eexists _, _; split; [reflexivity|lia]|].
    set (pause := if deadline - now <? Millisecond then deadline - now else Millisecond).
    assert (0 < pause /\ pause <= deadline - now /\ (pause = deadline - now \/ pause = Millisecond)) as (P1 & P2 & P3).
    { unfold pause. unfold Millisecond in *. destruct (_ <? _) eqn:E'; zbool; lia. }
    specialize (Hl n). subst f. destruct (IH (S n) (now + pause + late n)) as (b & t & Ht & H1 & H2).
    { unfold Millisecond in *. lia. }
    exists b, t. split; [exact Ht|]. lia.
Qed.

(** A call of [Stop] returns, by its timeout (five seconds when none is set) plus the delay of
    its timers, whoever holds the lifecycle lock and whether or not the clean-up ends; it tries
    the lock about once per millisecond; and without an error only when there was nothing left
    to do or its attempt ended without one. *)
Theorem redis_stop_bounded StopTimeout now tryLock late last_late delta complete finish :
  (forall n, 0 <= late n <= delta) -> 0 <= last_late <= delta ->
  let timeout := stop_timeout StopTimeout in
  exists t r, Stop_timed (S (S (S (Z.to_nat (timeout / Millisecond))))) StopTimeout now tryLock late last_late
                complete finish = Some (t, r) /\
    0 < timeout /\ now <= t <= now + timeout + delta /\
    (r = None -> complete = true \/ exists tf, finish = Some (tf, None) /\ tf <= now + timeout + delta).
Proof.
  intros Hl Hll timeout.
  assert (0 < timeout) as Hpos.
  { unfold timeout, stop_timeout. destruct (StopTimeout <=? 0) eqn:E; zbool; [reflexivity|done]. }
  destruct (lockLifecycleUntil_bound tryLock late delta (now + timeout) (S (Z.to_nat (timeout / Millisecond))) 0 now Hl)
    as (b & t & Ht & H1 & H2).
  { pose proof (Z.div_mod timeout Millisecond). pose proof (Z.mod_pos_bound timeout Millisecond).
    pose proof (Z.div_pos timeout Millisecond). unfold Millisecond in *. lia. }
  unfold Stop_timed. fold timeout. rewrite Ht. destruct b; [|eexists _, _; split_and!; [reflexivity|lia..|done]].
  destruct complete; [eexists _, _; split_and!; [reflexivity|lia..|by left]|].
  unfold Stop_wait. destruct finish as [[tf e]|].
  - destruct (tf <=? t) eqn:E1; zbool; [|destruct (_ <=? 0) eqn:E2; zbool; [|destruct (tf <=? _) eqn:E3; zbool]].
    + eexists _, _. split_and!; [reflexivity|lia..|]. intros ->. right. exists tf. split; [done|lia].
    + eexists _, _. split_and!; [reflexivity|lia..|done].
    + eexists _, _. split_and!; [reflexivity|lia..|]. intros ->. right. exists tf. split; [done|lia].
    + eexists _, _. split_and!; [reflexivity|lia..|done].
  - destruct (_ <=? 0) eqn:E2; zbool; eexists _, _; split_and!; try reflexivity; try lia; done.
Qed.

Lemma redis_stop_bounded_witness :
  exists t r, Stop_timed 5003 0 0 (fun _ => false) (fun _ => 7) 7 false None = Some (t, r) /\
    t <= 0 + stop_timeout 0 + 7.
Proof.
  destruct (redis_stop_bounded 0 0 (fun _ => false) (fun _ => 7) 7 7 false None) as (t & r & H1 & _ & H2 & _);
    [intros; lia|lia|].
  exists t, r. split; [exact H1|lia].
Defined.

(** ** A concrete store *)

Section Demo.
(** A map whose operations succeed. *)
Local Instance demo_store : KVStore (gmap string string) unit := {|
  kv_NewStore w := (w, inl tt);
  kv_Put _ k v _ w := (<[k := v]> w, None);
  kv_Get _ k w := (w, match w !! k with Some v => inl v | None => inr (errorString "Key not found in store") end);
  kv_Exists _ k w := (w, (bool_decide (is_Some (w !! k)), None));
  kv_Delete _ k w := (delete k w, None);
  kv_Close _ w := w;
|}.

Local Instance demo_laws : KVLaws (gmap string string) unit.
Proof.
  refine {| kv_lookup k w := w !! k |}.
  - intros h k v o w w' [= <-]. by rewrite lookup_insert_eq.
  - intros h k v o w k' Hne. cbn. by rewrite lookup_insert_ne.
  - intros h k w w' [= <- Hf]. apply bool_decide_eq_false in Hf. by apply eq_None_not_Some.
  - done.
  - intros h k w w' [= <-]. by rewrite lookup_delete_eq.
  - intros h k w k'. cbn. destruct (decide (k' = k)) as [->|Hne].
    + right. by rewrite lookup_delete_eq.
    + left. by rewrite lookup_delete_ne.
  - done.
  - done.
Defined.

(** Keys may expire. *)
Definition expiry (w w' : gmap string string) : Prop := w' ⊆ w.

Lemma expiry_ok n w w' : expiry w w' -> kv_lookup n w = None -> kv_lookup n w' = None.
Proof. intros Hs Hn. cbn in *. by eapply lookup_weaken_None. Qed.

Local Abbreviation st := (run (W := gmap string string) (H := unit) "tcp@a" "base" 60).

(** Start, register, stop, and let the goroutines end. *)
Definition demo_actions : list (action (W := gmap string string)) :=
  [RStart; RRegister "Arith" "group=x"; RStopCall; RStopLock 0; RRefreshExit; RCleanup 0; RFinish 0; RStopReturn 0].

Definition demo_run (l : list (action (W := gmap string string))) : RedisRegisterPlugin (W := gmap string string) (H := unit) :=
  foldl (fun p o => fst (st o p)) (newRedis ∅) l.

Fixpoint all_enabled (l : list (action (W := gmap string string))) (p : RedisRegisterPlugin (W := gmap string string) (H := unit)) : Prop :=
  match l with
  | [] => True
  | o :: l => enabled expiry o p /\ all_enabled l (fst (st o p))
  end.

Lemma all_enabled_reachable l w0 p :
  reachable "tcp@a" "base" 60 expiry w0 p -> all_enabled l p ->
  reachable "tcp@a" "base" 60 expiry w0 (foldl (fun p o => fst (st o p)) p l).
Proof.
  revert p. induction l as [|o l IH]; intros p Hp Hl; [done|]. destruct Hl as [Ho Hl]. cbn [foldl].
  apply IH; [|done]. eapply reach_step; [exact Hp|exact Ho|apply surjective_pairing].
Qed.

Lemma demo_reachable_all : reachable "tcp@a" "base" 60 expiry ∅ (demo_run demo_actions).
Proof.
  apply all_enabled_reachable; [apply reach_init|]. cbn [all_enabled demo_actions].
  repeat split; vm_compute; eauto 10.
Qed.

Lemma demo_reachable : reachable "tcp@a" "base" 60 expiry ∅ (demo_run (take 4 demo_actions)).
Proof.
  apply all_enabled_reachable; [apply reach_init|]. cbn [all_enabled demo_actions take].
  repeat split; vm_compute; eauto 10.
Qed.

Lemma redis_stop_cleans_witness :
  clean "tcp@a" "base" (demo_run demo_actions) /\ Services (demo_run demo_actions) = ["Arith"%string].
Proof.
  split; [|reflexivity].
  exact (proj1 (proj2 (redis_stop_cleans "tcp@a" "base" 60 expiry (fun w w' H n => expiry_ok _ w w' H) ∅ _
           demo_reachable_all) 0%nat eq_refl)).
Defined.

Lemma redis_stop_live_witness :
  let p := demo_run (take 4 demo_actions) in
  remaining 0 p = 3%nat /\ enabled expiry (helpful 0 p) p.
Proof.
  intros p. split; [reflexivity|].
  apply (redis_stop_live "tcp@a" "base" 60 expiry (fun w w' H n => expiry_ok _ w w' H) ∅ p 0
           (MkAttempt (Some 0%nat) AWaiting) demo_reachable eq_refl).
  vm_compute. split; auto.
Defined.

Lemma redis_register_unregister_witness :
  let p := demo_run [RStart] in
  let p' := fst (RedisRegistry.Register "tcp@a" "base" 60 "Arith" "group=x" p) in
  world p' !! "base/Arith/tcp@a"%string = Some "group=x"%string.
Proof.
  intros p p'.
  destruct (redis_register_unregister "tcp@a" "base" 60 "Arith" "group=x" p p') as [H _].
  exact (proj1 (H eq_refl)).
Defined.

End Demo.
End RedisProofs.
