(* ===== verification/MDNSRegister.v ===== *)
(** serverplugin/mdns.go: the plugin that announces the services of a server over mDNS, and what
    a client that browses (Discovery) finds.

    [json] is [json.Marshal] of the services; [zeroconf.Register] is an outcome that is given to
    the operation that calls it. Methods of a nil [zeroconf] server panic. *)

From S2P Require Import Prelude GoStd Http RedisRegistry Discovery.

Module MDNSRegister.
Import Discovery.

(** The announcing server: its text record, and whether it was shut down. *)
Record zserver := MkZ { z_text : string; z_down : bool }.

(** The loop of [Start]: not started, running (with the server it had when it started, which its
    deferred call shuts down), over, or ended by a panic. *)
Inductive loop := LNone | LRunning (deferred : bool) | LOver | LCrashed.

Record MDNSRegisterPlugin := MkPlug {
  mr_ServiceAddress : string;
  mr_port : Z;
  mr_Metrics : bool;
  mr_Services : list serviceMeta;
  mr_UpdateInterval : Z;
  mr_server : option zserver;
  mr_domain : string;
  mr_dying : bool;
  mr_done : bool;
  mr_loop : loop;
}.

Definition NewMDNSRegisterPlugin (serviceAddress : string) (port : Z) (m : bool) (updateInterval : Z)
    (domain : string) : MDNSRegisterPlugin :=
  MkPlug serviceAddress port m [] updateInterval None
    (if bool_decide (domain = ""%string) then "local." else domain) false false LNone.

Local Abbreviation P := (Go MDNSRegisterPlugin).

Definition nil_pointer {A} : P A := panic "invalid memory address or nil pointer dereference".

Definition with_services (l : list serviceMeta) (p : MDNSRegisterPlugin) : MDNSRegisterPlugin :=
  MkPlug (mr_ServiceAddress p) (mr_port p) (mr_Metrics p) l (mr_UpdateInterval p) (mr_server p)
    (mr_domain p) (mr_dying p) (mr_done p) (mr_loop p).
Definition with_server (port : Z) (z : option zserver) (p : MDNSRegisterPlugin) : MDNSRegisterPlugin :=
  MkPlug (mr_ServiceAddress p) port (mr_Metrics p) (mr_Services p) (mr_UpdateInterval p) z
    (mr_domain p) (mr_dying p) (mr_done p) (mr_loop p).
Definition with_loop (dying done_ : bool) (g : loop) (p : MDNSRegisterPlugin) : MDNSRegisterPlugin :=
  MkPlug (mr_ServiceAddress p) (mr_port p) (mr_Metrics p) (mr_Services p) (mr_UpdateInterval p)
    (mr_server p) (mr_domain p) dying done_ g.

(** The hooks that count connections and calls, when there are metrics. *)
Definition MDNS_HandleConnAccept {M C : Type} (mark : string -> M -> M) (metrics : option M) (conn : C) :
    option M * (C * bool) := (mark "connections"%string <$> metrics, (conn, true)).

Definition MDNS_PreCall {M A : Type} (mark : string -> M -> M) (metrics : option M) (args : A) :
    option M * (A * option error) := (mark "calls"%string <$> metrics, (args, None)).

Section Register.
Context (json : list serviceMeta -> string).

Definition announcement (l : list serviceMeta) : string := QueryEscape (json l).

(** [p.server.SetText] and [p.server.Shutdown]. *)
Definition SetText (s : string) : P unit :=
  p ← get;
  match mr_server p with
  | None => nil_pointer
  | Some z => put (with_server (mr_port p) (Some (MkZ s (z_down z))) p)
  end.
Definition Shutdown : P unit :=
  p ← get;
  match mr_server p with
  | None => nil_pointer
  | Some z => put (with_server (mr_port p) (Some (MkZ (z_text z) true)) p)
  end.

(** The address without its network. *)
Definition bare_addr (addr : string) : bytes :=
  let l := string_bytes addr in
  match IndexByte 64 l with Some (S i) => drop (S (S i)) l | _ => l end.

(** [reg] is the error of [zeroconf.Register]. *)
Definition initMDNS (reg : option error) : P unit :=
  p ← get;
  match SplitHostPort (bare_addr (mr_ServiceAddress p)) with
  | Er e => panic (Error_text e)
  | Panic w => panic w
  | Ok (_, portStr) =>
      match Atoi_err (bytes_string portStr) with
      | Er e => panic (Error_text e)
      | Panic w => panic w
      | Ok port =>
          _ ← put (with_server port (mr_server p) p);
          match reg with
          | Some e => panic (Error_text e)
          | None => put (with_server port (Some (MkZ (announcement (mr_Services p)) false)) p)
          end
      end
  end.

Definition Start (reg : option error) : P unit :=
  p ← get;
  _ ← match mr_server p, mr_Services p with
      | None, _ :: _ => initMDNS reg
      | _, _ => mret tt
      end;
  p ← get;
  if mr_UpdateInterval p >? 0
  then put (with_loop (mr_dying p) (mr_done p)
              (LRunning (match mr_server p with Some _ => true | None => false end)) p)
  else mret tt.

(** A tick of the loop: the metrics [extra] are set in the metadata of every service. *)
Definition refresh (extra : list (string * string)) (sm : serviceMeta) : serviceMeta :=
  let v := foldl (fun v '(k, x) => <[k := [x]]> v) (fst (ParseQuery (sm_Meta sm))) extra in
  MkSMeta (sm_Service sm) (Values_Encode v) (sm_ServiceAddress sm).

Definition loop_tick (calls connections : string) : P unit :=
  p ← get;
  match mr_loop p with
  | LRunning _ =>
      match mr_server p, mr_Services p with
      | None, [] => mret tt
      | _, _ =>
          let extra := if mr_Metrics p
                       then [("calls"%string, calls); ("connections"%string, connections)] else [] in
          _ ← put (with_services (refresh extra <$> mr_Services p) p);
          SetText (announcement (refresh extra <$> mr_Services p))
      end
  | _ => mret tt
  end.

(** The loop sees [dying]: it closes [done], and then its deferred call runs. *)
Definition loop_dying (p : MDNSRegisterPlugin) : MDNSRegisterPlugin :=
  match mr_loop p, mr_dying p with
  | LRunning deferred, true => with_loop true true (if deferred : bool then LOver else LCrashed) p
  | _, _ => p
  end.

(** [Stop] up to the receive from [done]. *)
Definition Stop_request : P unit :=
  _ ← Shutdown;
  p ← get;
  if mr_dying p then panic "close of closed channel"
  else put (with_loop true (mr_done p) (mr_loop p) p).

Definition Register (reg : option error) (name metadata : string) : P unit :=
  if RedisRegistry.blank name then fail (errorString "Register service `name` can't be empty")
  else
    p ← get;
    let services := mr_Services p ++ [MkSMeta name metadata (mr_ServiceAddress p)] in
    _ ← put (with_services services p);
    match mr_server p with
    | None => initMDNS reg
    | Some _ => SetText (announcement services)
    end.

Definition RegisterFunction (reg : option error) (serviceName fname metadata : string) : P unit :=
  Register reg serviceName metadata.

Definition Unregister (name : string) : P unit :=
  p ← get;
  if bool_decide (mr_Services p = []) then mret tt
  else if RedisRegistry.blank name then fail (errorString "Register service `name` can't be empty")
  else
    let services := filter (fun m => sm_Service m <> name) (mr_Services p) in
    _ ← put (with_services services p);
    SetText (announcement services).

(** ** What is announced *)

Inductive op := ORegister (reg : option error) (name metadata : string) | OUnregister (name : string)
  | OStart (reg : option error) | OTick (calls connections : string).

Definition do_op (o : op) : P unit :=
  match o with
  | ORegister reg name md => Register reg name md
  | OUnregister name => Unregister name
  | OStart reg => Start reg
  | OTick a b => loop_tick a b
  end.

(** Operations in turn; an error is reported and the next one runs, a panic ends the run. *)
Fixpoint ops (os : list op) (p : MDNSRegisterPlugin) : option MDNSRegisterPlugin :=
  match os with
  | [] => Some p
  | o :: os => match do_op o p with (_, Panic _) => None | (p, _) => ops os p end
  end.

(** The announcement is the current list of services; before the first there is none. *)
Definition current (p : MDNSRegisterPlugin) : Prop :=
  match mr_server p with
  | Some z => z_text z = announcement (mr_Services p)
  | None => mr_Services p = []
  end.

Lemma initMDNS_current reg p p' : initMDNS reg p = (p', Ok tt) -> current p' /\ mr_Services p' = mr_Services p.
Proof using Type.
  unfold initMDNS. gocbn. destruct (SplitHostPort _) as [[h po]| |]; [|done..].
  destruct (Atoi_err _); [|done..]. destruct reg; [done|]. intros [= <-]. done.
Qed.

Lemma SetText_current p p' s :
  s = announcement (mr_Services p) -> SetText s p = (p', Ok tt) -> current p' /\ mr_Services p' = mr_Services p.
Proof using Type.
  intros ->. unfold SetText. gocbn. destruct (mr_server p); [|done]. by intros [= <-].
Qed.

Lemma initMDNS_no_error reg p p' e : initMDNS reg p <> (p', Er e).
Proof using Type.
  unfold initMDNS. gocbn. destruct (SplitHostPort _) as [[h po]| |]; [|done..].
  destruct (Atoi_err _); [|done..]. by destruct reg.
Qed.

Lemma SetText_no_error s p p' e : SetText s p <> (p', Er e).
Proof using Type. unfold SetText. gocbn. by destruct (mr_server p). Qed.

Lemma do_op_current o p p' r : current p -> do_op o p = (p', r) -> (forall w, r <> Panic w) -> current p'.
Proof using Type.
  intros Hc Ho Hr. destruct o as [reg n m|n|reg|a b]; cbn [do_op] in Ho.
  - unfold Register in Ho. destruct (RedisRegistry.blank n); [by injection Ho as <- <-|]. gocbn_in Ho.
    destruct (mr_server p).
    + destruct r as [[]|e|w]; [|by apply SetText_no_error in Ho|by destruct (Hr w)].
      by eapply SetText_current in Ho as [? _].
    + destruct r as [[]|e|w]; [|by apply initMDNS_no_error in Ho|by destruct (Hr w)].
      by eapply initMDNS_current in Ho as [? _].
  - unfold Unregister in Ho. gocbn_in Ho. case_bool_decide; [by injection Ho as <- <-|].
    destruct (RedisRegistry.blank n); [by injection Ho as <- <-|]. gocbn_in Ho.
    destruct r as [[]|e|w]; [|by apply SetText_no_error in Ho|by destruct (Hr w)].
    by eapply SetText_current in Ho as [? _].
  - unfold Start in Ho. gocbn_in Ho.
    destruct (match mr_server p, mr_Services p with None, _ :: _ => initMDNS reg | _, _ => _ end p)
      as [p1 [[]|e|w]] eqn:Hi.
    + assert (current p1).
      { destruct (mr_server p); [by simplify_eq/=|].
        destruct (mr_Services p); [by simplify_eq/=|by eapply initMDNS_current]. }
      destruct (_ >? 0); by injection Ho as <- <-.
    + destruct (mr_server p); [by simplify_eq/=|].
      destruct (mr_Services p); [by simplify_eq/=|by apply initMDNS_no_error in Hi].
    + injection Ho as <- <-. by destruct (Hr w).
  - unfold loop_tick in Ho. gocbn_in Ho. destruct (mr_loop p); try (by injection Ho as <- <-).
    unfold current in Hc. destruct (mr_server p) as [z|] eqn:Hz.
    + gocbn_in Ho. destruct r as [[]|e|w]; [|by apply SetText_no_error in Ho|by destruct (Hr w)].
      by eapply SetText_current in Ho as [? _].
    + rewrite Hc in Ho. injection Ho as <- <-. unfold current. by rewrite Hz.
Qed.

Lemma ops_current os p p' : current p -> ops os p = Some p' -> current p'.
Proof using Type.
  revert p. induction os as [|o os IH]; intros p Hc; cbn; [by intros [= <-]|].
  destruct (do_op o p) as [p1 r] eqn:Ho. intros H.
  assert (forall w, r <> Panic w) as Hr by (by destruct r).
  pose proof (do_op_current o p p1 r Hc Ho Hr). destruct r; by apply (IH p1).
Qed.

(** The services, with their metadata, that are registered after some operations: [running] says
    whether the loop runs, whose ticks set the metrics in the metadata of every service. *)
Definition extras (m : bool) (calls connections : string) : list (string * string) :=
  if m then [("calls"%string, calls); ("connections"%string, connections)] else [].
Definition with_extras (extra : list (string * string)) (meta : string) : string :=
  Values_Encode (foldl (fun v '(k, x) => <[k := [x]]> v) (fst (ParseQuery meta)) extra).

Fixpoint registered (m : bool) (interval : Z) (running : bool) (os : list op)
    (l : list (string * string)) : list (string * string) :=
  match os with
  | [] => l
  | ORegister _ n md :: os =>
      registered m interval running os (if RedisRegistry.blank n then l else l ++ [(n, md)])
  | OUnregister n :: os =>
      registered m interval running os
        (if RedisRegistry.blank n then l else filter (fun s => s.1 <> n) l)
  | OStart _ :: os => registered m interval (running || (interval >? 0)) os l
  | OTick a b :: os =>
      registered m interval running os
        (if running then (fun s => (s.1, with_extras (extras m a b) s.2)) <$> l else l)
  end.

Definition own (addr : string) (s : string * string) : serviceMeta := MkSMeta s.1 s.2 addr.
Definition is_running (g : loop) : bool := match g with LRunning _ => true | _ => false end.

(** A plugin that announces [l] under its own address; a server was only made for an address that
    is not empty. *)
Record listed (addr : string) (m : bool) (interval : Z) (running : bool) (l : list (string * string))
    (p : MDNSRegisterPlugin) : Prop := MkListed {
  l_services : mr_Services p = own addr <$> l;
  l_addr : mr_ServiceAddress p = addr;
  l_metrics : mr_Metrics p = m;
  l_interval : mr_UpdateInterval p = interval;
  l_running : is_running (mr_loop p) = running;
  l_server : mr_server p <> None -> addr <> ""%string;
}.

Lemma SetText_frame t p p' r : SetText t p = (p', r) ->
  p' = with_server (mr_port p) (mr_server p') p /\ (mr_server p' <> None -> mr_server p <> None).
Proof using Type.
  unfold SetText. gocbn. destruct p as [? ? ? ? ? [z|]]; intros [= <- <-]; by split.
Qed.

Lemma initMDNS_frame reg p p' r : initMDNS reg p = (p', r) ->
  p' = with_server (mr_port p') (mr_server p') p /\
  (mr_server p' <> None -> mr_server p <> None \/ mr_ServiceAddress p <> ""%string).
Proof using Type.
  unfold initMDNS. gocbn. destruct (decide (mr_ServiceAddress p = ""%string)) as [He|He].
  - rewrite He. cbn. intros [= <- <-]. destruct p. by split; [|left].
  - destruct (SplitHostPort _) as [[h po]| |]; [|by intros [= <- <-]; destruct p; split; auto..].
    destruct (Atoi_err _); [|by intros [= <- <-]; destruct p; split; auto..].
    destruct reg; intros [= <- <-]; by split; auto.
Qed.

Lemma listed_with_server addr m interval running l p port z :
  (z <> None -> addr <> ""%string) ->
  listed addr m interval running l p -> listed addr m interval running l (with_server port z p).
Proof using Type. intros Hz [? ? ? ? ? ?]. by constructor. Qed.

Lemma listed_SetText addr m interval running l t p p' r :
  SetText t p = (p', r) -> listed addr m interval running l p -> listed addr m interval running l p'.
Proof using Type.
  intros [-> Hz]%SetText_frame Hl. apply listed_with_server; [|done].
  intros Hn. by apply (l_server _ _ _ _ _ _ Hl), Hz.
Qed.

Lemma listed_initMDNS addr m interval running l reg p p' r :
  initMDNS reg p = (p', r) -> listed addr m interval running l p -> listed addr m interval running l p'.
Proof using Type.
  intros [-> Hz]%initMDNS_frame Hl. apply listed_with_server; [|done].
  intros Hn. destruct (Hz Hn) as [?|Ha]; [by apply (l_server _ _ _ _ _ _ Hl)|].
  by rewrite (l_addr _ _ _ _ _ _ Hl) in Ha.
Qed.

Lemma listed_with_services addr m interval running l l' p services :
  services = own addr <$> l' -> listed addr m interval running l p ->
  listed addr m interval running l' (with_services services p).
Proof using Type. intros -> [? ? ? ? ? ?]. by constructor. Qed.

Lemma filter_own n addr (l : list (string * string)) :
  filter (fun m => sm_Service m <> n) (own addr <$> l) = own addr <$> filter (fun s => s.1 <> n) l.
Proof using Type.
  induction l as [|s l IH]; [done|]. rewrite fmap_cons, !filter_cons.
  destruct (decide (s.1 <> n)); cbn [own sm_Service]; [rewrite decide_True by done|rewrite decide_False by done];
    by rewrite IH.
Qed.

Lemma do_op_listed o addr m interval running l p p' r :
  listed addr m interval running l p -> do_op o p = (p', r) -> (forall w, r <> Panic w) ->
  listed addr m interval (match o with OStart _ => running || (interval >? 0) | _ => running end)
    (registered m interval running [o] l) p'.
Proof using Type.
  intros Hl Ho Hr. destruct o as [reg n md|n|reg|a b]; cbn [do_op registered] in *.
  - unfold Register in Ho. destruct (RedisRegistry.blank n); [by injection Ho as <- <-|]. gocbn_in Ho.
    assert (listed addr m interval running (l ++ [(n, md)])
      (with_services (mr_Services p ++ [MkSMeta n md (mr_ServiceAddress p)]) p)).
    { eapply listed_with_services, Hl. by rewrite (l_services _ _ _ _ _ _ Hl), (l_addr _ _ _ _ _ _ Hl), fmap_app. }
    destruct (mr_server p); [by eapply listed_SetText|by eapply listed_initMDNS].
  - unfold Unregister in Ho. gocbn_in Ho. case_bool_decide as He.
    { injection Ho as <- <-. rewrite (l_services _ _ _ _ _ _ Hl) in He. apply fmap_nil_inv in He. subst l.
      by destruct (RedisRegistry.blank n). }
    destruct (RedisRegistry.blank n); [by injection Ho as <- <-|]. gocbn_in Ho.
    eapply listed_SetText; [exact Ho|]. eapply listed_with_services, Hl.
    by rewrite (l_services _ _ _ _ _ _ Hl), filter_own.
  - unfold Start in Ho. gocbn_in Ho.
    destruct (match mr_server p, mr_Services p with None, _ :: _ => initMDNS reg | _, _ => _ end p)
      as [p1 r1] eqn:Hi.
    assert (listed addr m interval running l p1) as H1.
    { destruct (mr_server p); [by simplify_eq/=|].
      destruct (mr_Services p); [by injection Hi as <- <-|by eapply listed_initMDNS]. }
    assert (forall e, r1 <> Er e) as He1.
    { intros e ->. destruct (mr_server p); [done|].
      destruct (mr_Services p); [done|by apply initMDNS_no_error in Hi]. }
    destruct r1 as [[]|e|w]; [|by destruct (He1 e)|injection Ho as <- <-; by destruct (Hr w)].
    rewrite (l_interval _ _ _ _ _ _ H1) in Ho. destruct (interval >? 0); injection Ho as <- <-.
    + rewrite orb_true_r. destruct H1. by constructor.
    + by rewrite orb_false_r.
  - unfold loop_tick in Ho. gocbn_in Ho. pose proof (l_running _ _ _ _ _ _ Hl) as Hrun.
    destruct (mr_loop p); cbn in Hrun; subst running; try (by injection Ho as <- <-).
    assert (listed addr m interval true ((fun s => (s.1, with_extras (extras m a b) s.2)) <$> l)
      (with_services (refresh (extras m a b) <$> mr_Services p) p)) as H1.
    { eapply listed_with_services, Hl. rewrite (l_services _ _ _ _ _ _ Hl), <- !list_fmap_compose. done. }
    rewrite (l_metrics _ _ _ _ _ _ Hl) in Ho. fold (extras m a b) in Ho.
    destruct (mr_server p) as [z|], (mr_Services p) as [|sm sms] eqn:Hs;
      try (eapply listed_SetText; [exact Ho|exact H1]).
    injection Ho as <- <-. rewrite (l_services _ _ _ _ _ _ Hl) in Hs. apply fmap_nil_inv in Hs. by subst l.
Qed.

Lemma ops_listed os addr m interval running l p p' :
  listed addr m interval running l p -> ops os p = Some p' ->
  exists running', listed addr m interval running' (registered m interval running os l) p'.
Proof using Type.
  revert running l p. induction os as [|o os IH]; intros running l p Hl; [intros [= <-]; eauto|].
  cbn [ops]. destruct (do_op o p) as [p1 r] eqn:Ho. intros H.
  assert (forall w, r <> Panic w) as Hr by (by destruct r).
  pose proof (do_op_listed o _ _ _ _ _ p p1 r Hl Ho Hr) as H1.
  assert (ops os p1 = Some p') as H2 by (by destruct r).
  destruct (IH _ _ _ H1 H2) as [r' H3]. exists r'. by destruct o.
Qed.

(** ** What a client finds *)

(** A client reads the fields that are not empty ([omitempty]). *)
Definition nonempty (s : string) : option string := if bool_decide (s = ""%string) then None else Some s.
Definition written (sm : serviceMeta) : smFields :=
  MkFields (nonempty (sm_Service sm)) (nonempty (sm_Meta sm)) (nonempty (sm_ServiceAddress sm)).

(** [url.QueryUnescape], with its error dropped, and [json.Unmarshal]. *)
Definition parse_text (unjson : string -> list (option smFields) * bool) (text : string) :
    list (option smFields) * bool :=
  unjson (match unescape (string_bytes text) with Some l => bytes_string l | None => "" end).

Lemma nonempty_default s : default ""%string (nonempty s) = s.
Proof using Type. unfold nonempty. by case_bool_decide. Qed.

Lemma nonempty_keep s old : s <> ""%string \/ old = ""%string -> default old (nonempty s) = s.
Proof using Type. unfold nonempty. case_bool_decide; intros [|]; by subst. Qed.

(** The elements of the reused slice, past its end too, that can show through: none when the slice
    is new, and those under an empty field otherwise. *)
Lemma unmarshal_written cells l :
  cells = [] \/ Forall (fun sm => sm_Meta sm <> ""%string /\ sm_ServiceAddress sm <> ""%string) l ->
  exists l', take (length l) (unmarshal_cells cells (Some <$> (written <$> l))) = Some <$> l' /\
             pair_of <$> l' = pair_of <$> l.
Proof using Type.
  revert cells. induction l as [|sm l IH]; intros cells Hc; [by exists []|].
  destruct (IH (tail cells)) as (l' & H1 & H2).
  { destruct Hc as [->|Hc]; [by left|right]. by inversion Hc. }
  set (old := default zeroMeta (match cells with c :: _ => c | [] => None end)).
  exists (decode_into old (written sm) :: l'). cbn. split.
  - f_equal; [|exact H1]. by destruct cells.
  - f_equal; [|exact H2]. unfold pair_of, decode_into, written. cbn.
    destruct Hc as [->|Hc].
    + by rewrite !nonempty_keep by (right; reflexivity).
    + inversion Hc as [|? ? [? ?] ?]; subst. by rewrite !nonempty_keep by (by left).
Qed.

(** Text that is valid UTF-8 ([utf8.Valid]); [json.Marshal] replaces what is not. *)
Definition between (a b x : Z) : bool := (a <=? x) && (x <=? b).
Fixpoint utf8_valid (l : bytes) : bool :=
  match l with
  | [] => true
  | b :: r =>
      if b <? 128 then utf8_valid r
      else if between 194 223 b then
        match r with c :: r => between 128 191 c && utf8_valid r | _ => false end
      else if between 224 239 b then
        match r with
        | c :: d :: r =>
            between (if b =? 224 then 160 else 128) (if b =? 237 then 159 else 191) c &&
            between 128 191 d && utf8_valid r
        | _ => false
        end
      else if between 240 244 b then
        match r with
        | c :: d :: e :: r =>
            between (if b =? 240 then 144 else 128) (if b =? 244 then 143 else 191) c &&
            between 128 191 d && between 128 191 e && utf8_valid r
        | _ => false
        end
      else false
  end.
Definition printable (sm : serviceMeta) : Prop :=
  utf8_valid (string_bytes (sm_Service sm)) = true /\ utf8_valid (string_bytes (sm_Meta sm)) = true /\
  utf8_valid (string_bytes (sm_ServiceAddress sm)) = true.

(** A server on the network: how its plugin was made, the operations since, and the text that it
    announces now. *)
Record announcer := MkAnn {
  an_addr : string; an_port : Z; an_metrics : bool; an_interval : Z; an_domain : string;
  an_ops : list op; an_text : string;
}.
Definition an_services (a : announcer) : list (string * string) :=
  registered (an_metrics a) (an_interval a) false (an_ops a) [].
Definition announces (a : announcer) : Prop :=
  exists p z, ops (an_ops a) (NewMDNSRegisterPlugin (an_addr a) (an_port a) (an_metrics a) (an_interval a) (an_domain a)) = Some p /\
    mr_server p = Some z /\ z_text z = an_text a.

Lemma listed_new addr port m interval domain :
  listed addr m interval false [] (NewMDNSRegisterPlugin addr port m interval domain).
Proof using Type. by constructor. Qed.

Lemma announces_services a : announces a ->
  an_text a = announcement (own (an_addr a) <$> an_services a) /\ an_addr a <> ""%string.
Proof using Type.
  intros (p & z & Ho & Hz & <-).
  destruct (ops_listed (an_ops a) _ _ _ _ _ _ p (listed_new _ _ _ _ _) Ho) as [r Hl].
  pose proof (ops_current (an_ops a) _ p (eq_refl : current (NewMDNSRegisterPlugin (an_addr a) _ _ _ _)) Ho) as Hc.
  unfold current in Hc. rewrite Hz in Hc. split.
  - by rewrite Hc, (l_services _ _ _ _ _ _ Hl).
  - apply (l_server _ _ _ _ _ _ Hl). by rewrite Hz.
Qed.

Lemma parse_announcement unjson l :
  parse_text unjson (announcement l) = unjson (json l).
Proof using Type.
  unfold parse_text, announcement, QueryEscape.
  assert (unescape (string_bytes (bytes_string (escape (string_bytes (json l))))) =
          Some (string_bytes (json l))) as ->.
  { rewrite string_bytes_string; [apply unescape_escape, string_bytes_ok|apply plain_bytes_ok, escape_plain, string_bytes_ok]. }
  by rewrite bytes_string_bytes.
Qed.

Lemma browse_announcers unjson f ans cells :
  (forall l, Forall printable l -> unjson (json l) = (Some <$> (written <$> l), false)) ->
  Forall (fun a => announces a /\ Forall printable (own (an_addr a) <$> an_services a)) ans ->
  cells = [] \/ Forall (fun a => Forall (fun s => s.2 <> ""%string) (an_services a)) (take 1 ans) ->
  Forall (fun a => Forall (fun s => s.2 <> ""%string) (an_services a)) (tail ans) ->
  browse_entries (parse_text unjson) f cells ((fun a => [an_text a]) <$> ans) =
    Ok (List.filter (accepts f) (ans ≫= (fun a => (fun s => (an_addr a, s.2)) <$> an_services a))).
Proof using Type.
  intros Hj Ha. revert cells. induction Ha as [|a ans [Ha Hp] _ IH]; intros cells Hc Ht; [done|].
  destruct (announces_services a Ha) as [Htx Had].
  cbn [fmap list_fmap browse_entries]. rewrite Htx, parse_announcement, Hj by done. rewrite !length_fmap.
  destruct (unmarshal_written cells (own (an_addr a) <$> an_services a)) as (l' & H1 & H2).
  { destruct Hc as [->|Hc]; [by left|right]. inversion Hc as [|? ? Hm _]; subst.
    apply Forall_fmap. eapply Forall_impl; [exact Hm|]. by intros s Hs. }
  rewrite length_fmap in H1. rewrite H1, entry_pairs_full, H2, <- list_fmap_compose.
  rewrite IH.
  - cbn. by rewrite List.filter_app, <- list_fmap_compose.
  - right. cbn in Ht. by apply Forall_take.
  - cbn in Ht. destruct ans; [constructor|]. by inversion Ht.
Qed.

(** C29. From end to end: a client browses servers whose plugins each had any operations, services
    registered and unregistered, the plugin started, ticks that set metrics. It finds, for every
    server in turn, the plugin's own address once per registered service, with the metadata that was
    registered, the metrics of the ticks set in it; all those and no other that its filter accepts.
    Names, metadata and addresses are valid UTF-8, the strings that encoding/json promises to keep,
    and in every announcement but the first no service has empty metadata: an empty field is left out
    of the text and the client, which decodes every announcement into one slice, then shows the
    metadata of the announcement before ([browse_stale_meta]). The client is not told which service
    each server is for: it gets the servers of every service, not only of its own. *)
Theorem mdns_roundtrip unjson ans f stopped wt :
  (forall l, Forall printable l -> unjson (json l) = (Some <$> (written <$> l), false)) ->
  Forall (fun a => announces a /\ Forall printable (own (an_addr a) <$> an_services a)) ans ->
  Forall (fun a => Forall (fun s => s.2 <> ""%string) (an_services a)) (tail ans) ->
  MDNS_browse (parse_text unjson) (inl ((fun a => [an_text a]) <$> ans)) (MkMDNS f stopped wt) =
    Ok (List.filter (accepts f) (ans ≫= (fun a => (fun s => (an_addr a, s.2)) <$> an_services a))).
Proof using Type. intros Hj Ha Ht. apply browse_announcers; auto. Qed.

(** ** Stopping *)

(** [Stop] waits for the loop. Without an update interval there is no loop, and it waits
    forever. With one, it returns; but when the plugin was started before its first service, the
    usual order, the loop then shuts down the server it had when it started, which was nil, and
    the process ends. *)
Theorem mdns_stop p z p' :
  mr_server p = Some z -> mr_dying p = false -> mr_done p = false -> Stop_request p = (p', Ok tt) ->
  match mr_loop p with
  | LRunning true => mr_loop (loop_dying p') = LOver /\ mr_done (loop_dying p') = true
  | LRunning false => mr_loop (loop_dying p') = LCrashed
  | _ => loop_dying p' = p' /\ mr_done p' = false
  end.
Proof using Type.
  intros Hz Hd Hdone. unfold Stop_request, Shutdown. gocbn. rewrite Hz. gocbn. rewrite Hd.
  intros [= <-]. unfold loop_dying. cbn. by destruct (mr_loop p) as [|[]| |].
Qed.

Lemma start_first reg reg' name md addr port m interval domain p :
  interval > 0 -> ops [OStart reg; ORegister reg' name md] (NewMDNSRegisterPlugin addr port m interval domain) = Some p ->
  RedisRegistry.blank name = false -> mr_loop p = LRunning false /\ exists z, mr_server p = Some z.
Proof using Type.
  intros Hi. unfold ops, do_op, Start. gocbn. rewrite (proj2 (Z.gtb_gt _ _)) by lia. intros H Hb.
  unfold Register in H. rewrite Hb in H. gocbn_in H. revert H. unfold initMDNS. gocbn.
  destruct (SplitHostPort _) as [[h po]| |]; [|done..].
  destruct (Atoi_err _); [|done..]. destruct reg'; [done|]. intros [= <-]. cbn. eauto.
Qed.
End Register.

(** ** Instances *)

(** A text format that can stand for JSON: the digits of an encoding. *)
Fixpoint pos_string (p : positive) : string :=
  match p with
  | xH => ""
  | xO p => String (ascii_of_byte 48) (pos_string p)
  | xI p => String (ascii_of_byte 49) (pos_string p)
  end.
Fixpoint string_pos (s : string) : positive :=
  match s with
  | EmptyString => xH
  | String a s => if byte_of_ascii a =? 48 then xO (string_pos s) else xI (string_pos s)
  end.

Lemma string_pos_string p : string_pos (pos_string p) = p.
Proof. induction p as [p IH|p IH|]; cbn; by rewrite ?IH. Qed.

Definition fields (sm : serviceMeta) : string * string * string := (sm_Service sm, sm_Meta sm, sm_ServiceAddress sm).
Definition demo_json (l : list serviceMeta) : string := pos_string (encode (fields <$> l)).
Definition demo_unjson (s : string) : list (option smFields) * bool :=
  match decode (string_pos s) with
  | Some l => ((fun '(a, m, c) => Some (written (MkSMeta a m c))) <$> (l : list (string * string * string)), false)
  | None => ([], true)
  end.

Lemma demo_json_ok l : demo_unjson (demo_json l) = (Some <$> (written <$> l), false).
Proof.
  unfold demo_unjson, demo_json. rewrite string_pos_string, decode_encode. f_equal.
  rewrite <- !list_fmap_compose. apply list_fmap_ext. intros i sm _. by destruct sm.
Qed.

(** Two servers: one whose only service has no metadata, and one that is refreshed by a tick. *)
Definition demo_ops : list op := [OStart None; ORegister None "Arith" ""; ORegister None "Time" "w=1"; OUnregister "Time"].
Definition demo_ops2 : list op := [OStart None; ORegister None "Time" "w=1"; OTick "1.00" "2.00"].
Definition demo_text : string := announcement demo_json [MkSMeta "Arith" "" "tcp@h:8972"].
Definition demo_text2 : string :=
  announcement demo_json [MkSMeta "Time" "calls=1.00&connections=2.00&w=1" "tcp@g:1"].
Definition demo_server1 : announcer := MkAnn "tcp@h:8972" 0 false 60 "" demo_ops demo_text.
Definition demo_server2 : announcer := MkAnn "tcp@g:1" 0 true 60 "" demo_ops2 demo_text2.

Lemma demo_services1 : an_services demo_server1 = [("Arith", "")]%string.
Proof. reflexivity. Qed.
Lemma demo_services2 : an_services demo_server2 = [("Time", "calls=1.00&connections=2.00&w=1")]%string.
Proof. vm_compute. reflexivity. Qed.

Lemma mdns_roundtrip_witness :
  MDNS_browse (parse_text demo_unjson) (inl [[demo_text]; [demo_text2]]) (MkMDNS None false (newWatched [])) =
    Ok [("tcp@h:8972", ""); ("tcp@g:1", "calls=1.00&connections=2.00&w=1")]%string.
Proof.
  etrans; [refine (mdns_roundtrip demo_json demo_unjson [demo_server1; demo_server2] None false (newWatched [])
    (fun l _ => demo_json_ok l) _ _)|].
  - apply Forall_cons; split; [|apply Forall_cons; split; [|constructor]].
    + rewrite demo_services1. split; [|by repeat constructor].
      eexists _, _. split_and!; [vm_compute; reflexivity|reflexivity|reflexivity].
    + rewrite demo_services2. split; [|by repeat constructor].
      eexists _, _. split_and!; [vm_compute; reflexivity|reflexivity|reflexivity].
  - apply Forall_cons; split; [|constructor]. rewrite demo_services2. by repeat constructor.
  - cbn [mbind list_bind app]. by rewrite demo_services1, demo_services2.
Defined.

Definition demo_plugin : MDNSRegisterPlugin :=
  match ops (fun _ => "[]"%string) [OStart None; ORegister None "Arith" ""]
    (NewMDNSRegisterPlugin "tcp@h:8972" 0 false 60 "") with Some p => p | None => NewMDNSRegisterPlugin "" 0 false 0 "" end.

Lemma mdns_stop_witness :
  mr_loop (loop_dying (Stop_request demo_plugin).1) = LCrashed.
Proof.
  exact (mdns_stop demo_plugin (MkZ "%5B%5D" false) (Stop_request demo_plugin).1
    eq_refl eq_refl eq_refl eq_refl).
Defined.
End MDNSRegister.
