(* ===== verification/FileTransfer.v ===== *)
(** server/file_transfer.go, server/stream.go and the file and stream methods of
    client/xclient.go: a service hands out random tokens over RPC, and a loop on a port of its
    own accepts the connections that present one of them.

    The accept loops and the RPC methods interleave: [step] runs one atomic part of either.
    The cache of tokens ([golang-lru]) is the class [LRU] with its laws [LRULaws]. *)

From S2P Require Import Prelude ServerLife.

Module FileTransfer.

(** ** Data *)

(** Arguments and replies (share/share.go). A nil map is [None]. *)
Record FileTransferArgs := MkFTArgs { fa_FileName : string; fa_FileSize : Z; fa_Meta : option (gmap string string) }.
Record DownloadFileArgs := MkDFArgs { da_FileName : string; da_Meta : option (gmap string string) }.
Record StreamServiceArgs := MkSArgs { sa_Meta : option (gmap string string) }.
Record FileTransferReply := MkReply { re_Token : bytes; re_Addr : string }.

(** [Clone] copies the entries into a new map, also when there was none. *)
Definition clone_meta (m : option (gmap string string)) : option (gmap string string) :=
  Some (map_fold (fun k v meta => <[k := v]> meta) ∅ (default ∅ m)).
Definition FileTransferArgs_Clone (a : FileTransferArgs) : FileTransferArgs :=
  MkFTArgs (fa_FileName a) (fa_FileSize a) (clone_meta (fa_Meta a)).
Definition DownloadFileArgs_Clone (a : DownloadFileArgs) : DownloadFileArgs :=
  MkDFArgs (da_FileName a) (clone_meta (da_Meta a)).

Lemma clone_meta_spec m : clone_meta m = Some (default ∅ m).
Proof.
  unfold clone_meta. f_equal. apply (map_fold_weak_ind (fun r m => r = m)); [done|].
  by intros k v m' r _ ->.
Qed.

(** What the cache holds: [*tokenInfo], [*downloadTokenInfo] or [*streamTokenInfo]. *)
Inductive info :=
  | tokenInfo (token : bytes) (args : FileTransferArgs)
  | downloadTokenInfo (token : bytes) (args : DownloadFileArgs)
  | streamTokenInfo (token : bytes) (args : StreamServiceArgs).

(** The cache. [lru_New] fails for a size that is not positive; the pointer is nil then. *)
Class LRU (L : Type) := {
  lru_New : Z -> option L;
  lru_Add : string -> info -> L -> L;
  lru_Get : string -> L -> option info * L;
  lru_Remove : string -> L -> L;
}.

(** The entries of a cache. [Add] stores its entry and may evict others; it evicts none while
    there is room. *)
Class LRULaws (L : Type) {cache : LRU L} := {
  lru_view : L -> gmap string info;
  lru_cap : L -> nat;
  lru_New_view n c : lru_New n = Some c -> lru_view c = ∅ /\ lru_cap c = Z.to_nat n /\ 0 < n;
  lru_New_pos n : 0 < n -> is_Some (lru_New n);
  lru_Add_view k v c : lru_view (lru_Add k v c) !! k = Some v /\
    (forall k' v', k' <> k -> lru_view (lru_Add k v c) !! k' = Some v' -> lru_view c !! k' = Some v') /\
    ((size (lru_view c) < lru_cap c)%nat -> lru_view (lru_Add k v c) = <[k := v]> (lru_view c)) /\
    lru_cap (lru_Add k v c) = lru_cap c;
  lru_Get_view k c : (lru_Get k c).1 = lru_view c !! k /\
    lru_view (lru_Get k c).2 = lru_view c /\ lru_cap (lru_Get k c).2 = lru_cap c;
  lru_Remove_view k c : lru_view (lru_Remove k c) = delete k (lru_view c) /\
    lru_cap (lru_Remove k c) = lru_cap c;
}.

(** Work for a goroutine of its own: the handler with its arguments. *)
Inductive task :=
  | HandleUpload (args : FileTransferArgs)
  | HandleDownload (args : DownloadFileArgs)
  | HandleStream (args : StreamServiceArgs).

(** Which of the services this is, and which of its handlers are not nil. *)
Inductive service := Files (handler downloadFileHandler : bool) | Streams (handler : bool).

(** Where the loop is: not started, about to listen, at the head of the loop with its
    [tempDelay], reading the token of a connection, about to remove a token it found, returned,
    or ended by a panic, which ends the process. *)
Inductive stage :=
  | LNone | LListen | LAccept (tempDelay : Z) | LReading (conn : nat)
  | LGot (conn : nat) (rest : reader) (key : string) (i : info)
  | LReturned (e : option error) | LCrashed.

Section FileTransfer.
Context {L : Type} {cache : LRU L}.

(** A [FileTransfer] or a [StreamService]. [done] is the channel: [None] when it is nil, else
    whether it is closed. [acceptor] is the acceptor's verdict, where there is one. [closed],
    [spawned] and [slept] log what the loop did; [issued] logs the tokens that were handed out. *)
Record svc := MkSvc {
  Addr : string;
  AdvertiseAddr : string;
  kind : service;
  acceptor : option (StreamServiceArgs -> bool);
  cachedTokens : option L;
  ln : option bool;
  done : option bool;
  lp : stage;
  closed : list nat;
  spawned : list (nat * reader * (string * task));
  slept : list Z;
  issued : list (string * info);
}.

Definition with_lp (g : stage) (x : svc) : svc :=
  MkSvc (Addr x) (AdvertiseAddr x) (kind x) (acceptor x) (cachedTokens x) (ln x) (done x) g
    (closed x) (spawned x) (slept x) (issued x).
Definition with_cache (c : option L) (i : list (string * info)) (x : svc) : svc :=
  MkSvc (Addr x) (AdvertiseAddr x) (kind x) (acceptor x) c (ln x) (done x) (lp x)
    (closed x) (spawned x) (slept x) i.

(** ** Making a service *)

Definition NewFileTransfer (addr : string) (handler downloadFileHandler : bool) (waitNum : Z) : svc :=
  MkSvc addr "" (Files handler downloadFileHandler) None (lru_New waitNum) None None LNone [] [] [] [].

(** The parameter [acceptor] is not stored. *)
Definition NewStreamService (addr : string) (streamHandler : bool)
    (acceptor : option (StreamServiceArgs -> bool)) (waitNum : Z) : svc :=
  MkSvc addr "" (Streams streamHandler) None (lru_New waitNum) None None LNone [] [] [] [].

(** ** The RPC methods *)

(** [cachedTokens.Add]. *)
Definition add_token (token : bytes) (i : info) : Go svc unit := fun x =>
  match cachedTokens x with
  | None => (x, Panic "invalid memory address or nil pointer dereference")
  | Some c =>
      (with_cache (Some (lru_Add (bytes_string token) i c)) (issued x ++ [(bytes_string token, i)]) x, Ok tt)
  end.

Definition reply_addr (x : svc) : string :=
  if negb (bool_decide (AdvertiseAddr x = ""%string)) then AdvertiseAddr x else Addr x.

(** [rnd] is the outcome of [rand.Read] into the 32 bytes of the token. *)
Definition TransferFile (rnd : res bytes) (args : FileTransferArgs) : Go svc FileTransferReply :=
  token ← lift rnd;
  x ← get;
  let cloned := FileTransferArgs_Clone args in
  _ ← add_token token (tokenInfo token cloned);
  mret (MkReply token (reply_addr x)).

Definition DownloadFile (rnd : res bytes) (args : DownloadFileArgs) : Go svc FileTransferReply :=
  token ← lift rnd;
  x ← get;
  let cloned := DownloadFileArgs_Clone args in
  _ ← add_token token (downloadTokenInfo token cloned);
  mret (MkReply token (reply_addr x)).

Definition Stream (rnd : res bytes) (args : StreamServiceArgs) : Go svc FileTransferReply :=
  x ← get;
  if match acceptor x with Some f => negb (f args) | None => false end then fail ErrNotAccept
  else
    token ← lift rnd;
    _ ← add_token token (streamTokenInfo token args);
    mret (MkReply token (reply_addr x)).

(** ** The loop *)

(** [startOnce]: the goroutine is started by the first call. *)
Definition Start (x : svc) : svc :=
  match lp x with LNone => with_lp LListen x | _ => x end.

(** [net.Listen], with its error. *)
Definition start_listen (r : option error) (x : svc) : svc :=
  match lp x with
  | LListen =>
      match r with
      | Some e => with_lp (LReturned (Some e)) x
      | None =>
          MkSvc (Addr x) (AdvertiseAddr x) (kind x) (acceptor x) (cachedTokens x) (Some true) (done x)
            (LAccept 0) (closed x) (spawned x) (slept x) (issued x)
      end
  | _ => x
  end.

(** The [select] and [Accept]. *)
Definition start_accept (r : accepted nat) (x : svc) : svc :=
  match lp x with
  | LAccept tempDelay =>
      if bool_decide (done x = Some true) then with_lp (LReturned None) x
      else
        match r with
        | AErr e =>
            if isTemporary e then
              let d := nextDelay tempDelay in
              MkSvc (Addr x) (AdvertiseAddr x) (kind x) (acceptor x) (cachedTokens x) (ln x) (done x)
                (LAccept d) (closed x) (spawned x) (slept x ++ [d]) (issued x)
            else with_lp (LReturned (Some e)) x
        | AConn c => with_lp (LReading c) x
        end
  | _ => x
  end.

Definition close_conn (c : nat) (x : svc) : svc :=
  MkSvc (Addr x) (AdvertiseAddr x) (kind x) (acceptor x) (cachedTokens x) (ln x) (done x)
    (LAccept 0) (closed x ++ [c]) (spawned x) (slept x) (issued x).

(** [io.ReadFull] of the token, once it returns, and [cachedTokens.Get]; [r] is what the
    connection delivers. *)
Definition start_token (r : reader) (x : svc) : svc :=
  match lp x with
  | LReading c =>
      let '(token, rest, err) := ReadFull 32 r in
      match err with
      | Some _ => close_conn c x
      | None =>
          match cachedTokens x with
          | None => with_lp LCrashed x
          | Some l =>
              let '(i, l') := lru_Get (bytes_string token) l in
              let x := with_cache (Some l') (issued x) x in
              match i with
              | None => close_conn c x
              | Some i => with_lp (LGot c rest (bytes_string token) i) x
              end
          end
      end
  | _ => x
  end.

(** The type switch: the work for the handler, unless the service has none for this. *)
Definition handler_task (k : service) (i : info) : option task :=
  match k, i with
  | Files true _, tokenInfo _ args => Some (HandleUpload args)
  | Files _ true, downloadTokenInfo _ args => Some (HandleDownload args)
  | Streams true, streamTokenInfo _ args => Some (HandleStream args)
  | _, _ => None
  end.

(** [cachedTokens.Remove] and the switch. *)
Definition start_dispatch (x : svc) : svc :=
  match lp x with
  | LGot c rest key i =>
      let x := with_cache (lru_Remove key <$> cachedTokens x) (issued x) x in
      match handler_task (kind x) i with
      | None => close_conn c x
      | Some t =>
          MkSvc (Addr x) (AdvertiseAddr x) (kind x) (acceptor x) (cachedTokens x) (ln x) (done x)
            (LAccept 0) (closed x) (spawned x ++ [(c, rest, (key, t))]) (slept x) (issued x)
      end
  | _ => x
  end.

(** [close(s.done)], then the listener. *)
Definition Stop : Go svc unit := fun x =>
  match done x with
  | None => (x, Panic "close of nil channel")
  | Some true => (x, Panic "close of closed channel")
  | Some false =>
      (MkSvc (Addr x) (AdvertiseAddr x) (kind x) (acceptor x) (cachedTokens x)
         ((fun _ => false) <$> ln x) (Some true) (lp x) (closed x) (spawned x) (slept x) (issued x), Ok tt)
  end.

(** ** Interleaving *)

Inductive event :=
  | EUpload (rnd : res bytes) (args : FileTransferArgs)
  | EDownload (rnd : res bytes) (args : DownloadFileArgs)
  | EStream (rnd : res bytes) (args : StreamServiceArgs)
  | EStart | EListen (r : option error) | EAccept (r : accepted nat) | EToken (r : reader) | EDispatch
  | EStop.

(** The RPC methods a service has are those of its type; a panic in one is recovered by the
    server. A panic of the loop is not: nothing runs after it. *)
Definition step (e : event) (x : svc) : svc :=
  match lp x with
  | LCrashed => x
  | _ =>
      match e, kind x with
      | EUpload rnd args, Files _ _ => (TransferFile rnd args x).1
      | EDownload rnd args, Files _ _ => (DownloadFile rnd args x).1
      | EStream rnd args, Streams _ => (Stream rnd args x).1
      | EStart, _ => Start x
      | EListen r, _ => start_listen r x
      | EAccept r, _ => start_accept r x
      | EToken r, _ => start_token r x
      | EDispatch, _ => start_dispatch x
      | EStop, _ => (Stop x).1
      | _, _ => x
      end
  end.

(** [StreamService] has a copy of the loop, of [Start] and of [Stop]; the copies differ in the
    type switch only, which [handler_task] takes from the kind of the service. *)
Definition StreamService_start (e : event) (x : svc) : svc :=
  match e with
  | EListen r => start_listen r x
  | EAccept r => start_accept r x
  | EToken r => start_token r x
  | EDispatch => start_dispatch x
  | _ => x
  end.
Definition StreamService_Start : svc -> svc := Start.
Definition StreamService_Stop : Go svc unit := Stop.

(** A service is started, and registered under its name or the default one; [RegisterName] is
    the server's, whose error is dropped. *)
Definition EnableFileTransfer {R} (RegisterName : string -> R -> R) (serviceName : string) (x : svc) (r : R) :
    svc * R :=
  (Start x, RegisterName (if bool_decide (serviceName = ""%string) then "_filetransfer"%string else serviceName) r).
Definition EnableStreamService {R} (RegisterName : string -> R -> R) (serviceName : string) (x : svc) (r : R) :
    svc * R :=
  (Start x, RegisterName (if bool_decide (serviceName = ""%string) then "_streamservice"%string else serviceName) r).

Definition run (es : list event) (x : svc) : svc := foldl (fun x e => step e x) x es.

(** A service as the constructors make it; [AdvertiseAddr] is set by its owner. *)
Definition fresh (x : svc) : Prop :=
  exists addr adv k n, x = MkSvc addr adv k None (lru_New n) None None LNone [] [] [] [].

(** What a token stands for. *)
Definition task_of (i : info) : task :=
  match i with
  | tokenInfo _ a => HandleUpload a
  | downloadTokenInfo _ a => HandleDownload a
  | streamTokenInfo _ a => HandleStream a
  end.

Definition promise (p : string * info) : string * task := (p.1, task_of p.2).

(** ** A token is good for one connection *)

Context {laws : LRULaws L}.

Definition cview (x : svc) : gmap string info :=
  match cachedTokens x with Some c => lru_view c | None => ∅ end.

(** The tokens that may still lead to a handler: the cached ones and the one in hand. *)
Definition held (x : svc) : gmap string info :=
  match lp x with LGot _ _ k i => <[k := i]> (cview x) | _ => cview x end.

Definition Inv (x : svc) : Prop :=
  (spawned x).*2 ++ (promise <$> map_to_list (held x)) ⊆+ promise <$> issued x.

Lemma map_to_list_insert_sub (m : gmap string info) k v :
  map_to_list (<[k := v]> m) ⊆+ (k, v) :: map_to_list m.
Proof using Type.
  rewrite <- insert_delete_eq, map_to_list_insert by apply lookup_delete_eq.
  apply submseteq_skip, map_to_list_submseteq, delete_subseteq.
Qed.

(** What is held may shrink. *)
Lemma Inv_shrink x x' :
  Inv x -> held x' ⊆ held x -> (spawned x').*2 = (spawned x).*2 -> issued x' = issued x -> Inv x'.
Proof using Type.
  unfold Inv. intros H Hh -> ->. etrans; [|exact H].
  apply submseteq_app; [done|]. apply fmap_submseteq, map_to_list_submseteq, Hh.
Qed.

(** A new token may be held. *)
Lemma Inv_issue x x' k i :
  Inv x -> map_to_list (held x') ⊆+ (k, i) :: map_to_list (held x) ->
  (spawned x').*2 = (spawned x).*2 -> issued x' = issued x ++ [(k, i)] -> Inv x'.
Proof using Type.
  unfold Inv. intros H Hh -> ->. rewrite fmap_app. cbn.
  rewrite (comm (++) _ [promise (k, i)]). cbn. etrans; [|by apply submseteq_skip, H].
  rewrite Permutation_middle. apply submseteq_app; [done|].
  change (promise (k, i) :: (promise <$> map_to_list (held x)))
    with (promise <$> (k, i) :: map_to_list (held x)).
  by apply fmap_submseteq.
Qed.

Lemma lru_Add_sub k v c : lru_view (lru_Add k v c) ⊆ <[k := v]> (lru_view c).
Proof using Type.
  destruct (lru_Add_view k v c) as (H1 & H2 & _). apply map_subseteq_spec. intros k' v' Hv.
  destruct (decide (k' = k)) as [->|Hk].
  - rewrite H1 in Hv. by rewrite lookup_insert_eq.
  - rewrite lookup_insert_ne by done. by apply H2.
Qed.

Lemma add_token_Inv t i x : Inv x -> Inv (add_token t i x).1.
Proof using laws.
  intros H. unfold add_token. destruct (cachedTokens x) as [c|] eqn:Hc; [|done]. cbn.
  apply (Inv_issue x _ (bytes_string t) i H); try done.
  unfold held, cview. cbn. rewrite Hc. pose proof (lru_Add_sub (bytes_string t) i c) as Hs.
  destruct (lp x) as [| | | |? ? k j| |];
    try (etrans; [|apply map_to_list_insert_sub]; by apply map_to_list_submseteq).
  destruct (decide (k = bytes_string t)) as [->|Hk].
  - apply submseteq_cons, map_to_list_submseteq.
    etrans; [by apply insert_mono|]. by rewrite insert_insert_eq.
  - etrans; [|apply map_to_list_insert_sub]. apply map_to_list_submseteq.
    etrans; [by apply insert_mono|]. by rewrite insert_insert_ne.
Qed.

Lemma TransferFile_fst rnd args x :
  (TransferFile rnd args x).1 = x \/
  exists t, (TransferFile rnd args x).1 = (add_token t (tokenInfo t (FileTransferArgs_Clone args)) x).1.
Proof using Type.
  unfold TransferFile. destruct rnd as [t| |]; gocbn; [right; exists t|by left..].
  by destruct (add_token _ _ x) as [? []].
Qed.

Lemma DownloadFile_fst rnd args x :
  (DownloadFile rnd args x).1 = x \/
  exists t, (DownloadFile rnd args x).1 = (add_token t (downloadTokenInfo t (DownloadFileArgs_Clone args)) x).1.
Proof using Type.
  unfold DownloadFile. destruct rnd as [t| |]; gocbn; [right; exists t|by left..].
  by destruct (add_token _ _ x) as [? []].
Qed.

Lemma Stream_fst rnd args x :
  (Stream rnd args x).1 = x \/ exists t, (Stream rnd args x).1 = (add_token t (streamTokenInfo t args) x).1.
Proof using Type.
  unfold Stream. gocbn. destruct (match acceptor x with Some f => _ | None => _ end); [by left|].
  destruct rnd as [t| |]; gocbn; [right; exists t|by left..].
  by destruct (add_token _ _ x) as [? []].
Qed.

(** The parts of the loop before a token is found keep the cache and what was spawned. *)
Lemma start_token_Inv r x : Inv x -> Inv (start_token r x).
Proof using laws.
  intros H. unfold start_token. destruct (lp x) as [| | |c| | |] eqn:Hl; try done.
  destruct (ReadFull 32 r) as [[t rest] [e|]];
    [apply (Inv_shrink x); try done; unfold held, cview; cbn; by rewrite Hl|].
  destruct (cachedTokens x) as [l|] eqn:Hc;
    [|apply (Inv_shrink x); try done; unfold held, cview; cbn; by rewrite Hl, Hc].
  destruct (lru_Get_view (bytes_string t) l) as (Hg & Hv & _).
  destruct (lru_Get (bytes_string t) l) as [o l']. cbn in Hg, Hv.
  destruct o as [i|]; apply (Inv_shrink x); try done; unfold held, cview; cbn; rewrite Hl, Hc, Hv.
  - apply insert_subseteq_l; done.
  - done.
Qed.

Lemma start_dispatch_Inv x : Inv x -> Inv (start_dispatch x).
Proof using laws.
  intros H. unfold start_dispatch. destruct (lp x) as [| | | |c rest k i| |] eqn:Hl; try done.
  assert (forall i' l, cview (close_conn c (with_cache (lru_Remove k <$> cachedTokens x) l i'))
    = delete k (match cachedTokens x with Some c => lru_view c | None => ∅ end)) as Hv.
  { intros. unfold cview. cbn. destruct (cachedTokens x) as [l'|]; cbn; [|by rewrite delete_empty].
    apply (lru_Remove_view k l'). }
  destruct (handler_task _ i) as [t|] eqn:Ht.
  - unfold Inv in *. unfold held in *. cbn. rewrite Hl in H.
    change (cview _) with (cview (close_conn c (with_cache (lru_Remove k <$> cachedTokens x) (issued x) x))).
    rewrite Hv. rewrite <- insert_delete_eq, map_to_list_insert in H by apply lookup_delete_eq.
    rewrite fmap_app, <- app_assoc. cbn in *.
    assert (promise (k, i) = (k, t)) as Hp; [|by rewrite Hp in H].
    cbn in Ht. unfold promise. cbn. destruct (kind x) as [[] []|[]], i; by simplify_eq/=.
  - apply (Inv_shrink x); try done. unfold held at 1. cbn [lp close_conn]. rewrite Hv.
    unfold held. rewrite Hl. apply map_subseteq_spec. intros k' v' [Hk Hm]%lookup_delete_Some.
    by rewrite lookup_insert_ne.
Qed.

Lemma Stop_Inv x : Inv x -> Inv (Stop x).1.
Proof using Type. intros H. unfold Stop. destruct (done x) as [[]|]; by try apply (Inv_shrink x). Qed.

Lemma step_Inv e x : Inv x -> Inv (step e x).
Proof using laws.
  intros H. unfold step.
  assert (Inv (match e, kind x with
      | EUpload rnd args, Files _ _ => (TransferFile rnd args x).1
      | EDownload rnd args, Files _ _ => (DownloadFile rnd args x).1
      | EStream rnd args, Streams _ => (Stream rnd args x).1
      | EStart, _ => Start x
      | EListen r, _ => start_listen r x
      | EAccept r, _ => start_accept r x
      | EToken r, _ => start_token r x
      | EDispatch, _ => start_dispatch x
      | EStop, _ => (Stop x).1
      | _, _ => x
      end)) as Hs; [|by destruct (lp x)].
  destruct e as [rnd a|rnd a|rnd a| | | | | |], (kind x); try done;
    try (by apply start_token_Inv); try (by apply start_dispatch_Inv); try (by apply Stop_Inv);
    try by (apply (Inv_shrink x); try done;
      unfold Start, start_listen, start_accept, held, cview;
      repeat split_match; simplify_eq/=; done).
  - destruct (TransferFile_fst rnd a x) as [->|[t ->]]; [done|by apply add_token_Inv].
  - destruct (DownloadFile_fst rnd a x) as [->|[t ->]]; [done|by apply add_token_Inv].
  - destruct (Stream_fst rnd a x) as [->|[t ->]]; [done|by apply add_token_Inv].
Qed.

Lemma fresh_Inv x : fresh x -> Inv x.
Proof using laws.
  intros (addr & adv & k & n & ->). unfold Inv, held, cview. cbn.
  destruct (lru_New n) as [c|] eqn:Hn; [destruct (lru_New_view n c Hn) as (-> & _)|];
    by rewrite map_to_list_empty.
Qed.

Lemma run_Inv es x : Inv x -> Inv (run es x).
Proof using laws.
  unfold run. revert x. induction es as [|e es IH]; intros x H; [done|]. cbn.
  by apply IH, step_Inv.
Qed.

(** C15. However the RPC methods, the accept loop and [Stop] interleave, and whatever the cache
    evicts, a handler is only started for a connection that presented a token the service
    handed out, with the arguments it was handed out for, and each handing out pays for at most
    one handler (the handlers that were started are a part of the tokens that were handed out,
    counted with their multiplicity). *)
Theorem token_one_shot x es :
  fresh x -> (spawned (run es x)).*2 ⊆+ promise <$> issued (run es x).
Proof using laws.
  intros H%fresh_Inv%(run_Inv es). unfold Inv in H. etrans; [|exact H]. by apply submseteq_inserts_r.
Qed.

(** ** Presenting a token *)

(** The loop, idle, serves a connection whose bytes start with a token in the cache: the
    handler gets the arguments of the token and the bytes after it; the token is gone. *)
Lemma present_token x d c token content e i t :
  lp x = LAccept d -> done x = None -> length token = 32%nat ->
  cview x !! bytes_string token = Some i -> handler_task (kind x) i = Some t ->
  let x' := run [EAccept (AConn c); EToken (Reader (token ++ content) e); EDispatch] x in
  spawned x' = spawned x ++ [(c, Reader content e, (bytes_string token, t))] /\
  lp x' = LAccept 0 /\ cview x' = delete (bytes_string token) (cview x) /\ closed x' = closed x.
Proof using laws.
  intros Hl Hd Ht Hv Hk. unfold run. cbn [foldl].
  assert (step (EAccept (AConn c)) x = with_lp (LReading c) x) as ->.
  { unfold step. rewrite Hl. unfold start_accept. by rewrite Hl, Hd. }
  unfold cview in Hv. destruct (cachedTokens x) as [l|] eqn:Hc; [|done].
  assert (exists l', lru_view l' = lru_view l /\
    step (EToken (Reader (token ++ content) e)) (with_lp (LReading c) x) =
      with_lp (LGot c (Reader content e) (bytes_string token) i) (with_cache (Some l') (issued x) x))
    as (l' & Hl' & ->).
  { unfold step. cbn [lp with_lp]. unfold start_token. cbn [lp with_lp]. rewrite ReadFull_app by done.
    cbn [cachedTokens with_lp]. rewrite Hc. exists (lru_Get (bytes_string token) l).2.
    destruct (lru_Get_view (bytes_string token) l) as (Hg & Hv' & _). split; [done|].
    destruct (lru_Get (bytes_string token) l) as [o l']. cbn [fst] in Hg. by rewrite Hg, Hv. }
  unfold step. cbn [lp with_lp]. unfold start_dispatch. cbn [lp with_lp with_cache kind]. rewrite Hk.
  split_and!; try done. unfold cview. cbn. rewrite Hc, <- Hl'. apply (lru_Remove_view _ l').
Qed.

(** The loop reads tokens one connection after the other and without a deadline: while one
    connection has not sent its 32 bytes, no other is accepted, and no handler is started,
    whatever else happens. *)
Theorem stalled_client_blocks x c es :
  lp x = LReading c -> Forall (fun e => match e with EToken _ => False | _ => True end) es ->
  lp (run es x) = LReading c /\ spawned (run es x) = spawned x.
Proof using Type.
  intros Hl Hes. revert x Hl. unfold run. induction Hes as [|e es He _ IH]; intros x Hl; [done|]. cbn.
  assert (lp (step e x) = LReading c /\ spawned (step e x) = spawned x) as [H1 <-]; [|by apply IH].
  assert (forall t i, lp (add_token t i x).1 = LReading c /\ spawned (add_token t i x).1 = spawned x) as Ha.
  { intros t i. unfold add_token. by destruct (cachedTokens x). }
  unfold step. rewrite Hl. destruct e as [rnd a|rnd a|rnd a| | | | | |], (kind x); try done;
    try by (unfold Start, start_listen, start_accept, start_dispatch; rewrite Hl).
  - destruct (TransferFile_fst rnd a x) as [->|[t ->]]; [done|apply Ha].
  - destruct (DownloadFile_fst rnd a x) as [->|[t ->]]; [done|apply Ha].
  - destruct (Stream_fst rnd a x) as [->|[t ->]]; [done|apply Ha].
  - unfold Stop. destruct (done x) as [[]|]; done.
  - unfold Stop. destruct (done x) as [[]|]; done.
Qed.

Definition unset (x : svc) : Prop := acceptor x = None /\ done x = None.

Lemma step_unset e x : unset x -> unset (step e x).
Proof using Type.
  intros [Ha Hd].
  assert (forall t i, unset (add_token t i x).1) as Hadd.
  { intros t i. unfold add_token. by destruct (cachedTokens x). }
  assert (unset (Start x) /\ (forall r, unset (start_listen r x)) /\ (forall r, unset (start_accept r x)) /\
    (forall r, unset (start_token r x)) /\ unset (start_dispatch x) /\ unset (Stop x).1)
    as (H1 & H2 & H3 & H4 & H5 & H6).
  { unfold Start, start_listen, start_accept, start_token, start_dispatch, Stop, unset. rewrite Hd.
    split_and!; intros; repeat split_match; simplify_eq/=; done. }
  unfold step. destruct (lp x), e as [rnd a|rnd a|rnd a| | | | | |], (kind x); try done;
    first [destruct (TransferFile_fst rnd a x) as [->|[t ->]]
          |destruct (DownloadFile_fst rnd a x) as [->|[t ->]]
          |destruct (Stream_fst rnd a x) as [->|[t ->]]]; done.
Qed.

Lemma run_unset es x : unset x -> unset (run es x).
Proof using Type.
  unfold run. revert x. induction es as [|e es IH]; intros x H; [done|]. by apply IH, step_unset.
Qed.

(** [done] is never made and the acceptor is never stored: neither kind of service can be
    stopped, for [Stop] panics and leaves the listener open, and no stream is refused. *)
Theorem service_unstoppable x es :
  fresh x -> Stop (run es x) = (run es x, Panic "close of nil channel") /\
  forall token args, (Stream (Ok token) args (run es x)).2 <> Er ErrNotAccept.
Proof using Type.
  intros (addr & adv & k & n & ->).
  destruct (run_unset es (MkSvc addr adv k None (lru_New n) None None LNone [] [] [] [])) as [Ha Hd]; [done|].
  split; [unfold Stop; by rewrite Hd|]. intros token args. unfold Stream. gocbn. rewrite Ha.
  unfold add_token. by destruct (cachedTokens _).
Qed.
End FileTransfer.
Arguments svc L : clear implicits.
End FileTransfer.
