(* ===== verification/FileClient.v ===== *)
(** The client's side of file transfer and streams ([SendFile], [DownloadFile] and [Stream] of
    client/xclient.go), composed with the service of FileTransfer. *)

From S2P Require Import Prelude ServerLife FileTransfer.

Module FileClient.
Import FileTransfer.

(** ** The environment of a transfer

    Each round of a loop comes with the error of the context if it is done by then, the outcome
    of the read (the bytes it put into the buffer) and the outcome of the write that follows
    it (how many bytes went out before an error). *)

Definition FileTransferBufferSize : Z := 1024.

Record round := MkRound {
  rd_done : option error;
  rd_read : bytes * option error;
  rd_write : nat * option error;
}.

(** What a transfer did: the address it dialled, whether it closed the connection, what it wrote
    to the connection, and how often it waited for tokens of the rate limiter. *)
Record trace := MkTrace { dialled : option string; wire : bytes; waits : nat; hungup : bool }.

Section FileClient.
(** [c.Call] with the context's timeout set, for the one method each transfer calls, and
    [net.DialTimeout]. *)
Context (dial : string -> option error).

(** A write to the connection of which only a part may go out. *)
Definition written (b : bytes) (w : nat * option error) : bytes :=
  match w.2 with None => b | Some _ => take w.1 b end.

(** The loop of [SendFile]; [None] while it goes on. An [err] set on the way out of the loop is
    not returned. *)
Fixpoint send_loop (limited : bool) (rs : list round) : bytes * nat * option (option error) :=
  match rs with
  | [] => ([], 0%nat, None)
  | r :: rs =>
      match rd_done r with
      | Some _ => ([], 0%nat, Some None)
      | None =>
          let wait := if limited then 1%nat else 0%nat in
          match rd_read r with
          | (_, Some EOF) => ([], wait, Some None)
          | (_, Some e) => ([], wait, Some (Some e))
          | ([], None) => ([], wait, Some None)
          | (b, None) =>
              match (rd_write r).2 with
              | Some EOF => (written b (rd_write r), wait, Some None)
              | Some e => (written b (rd_write r), wait, Some (Some e))
              | None =>
                  let '(out, n, res) := send_loop limited rs in (b ++ out, (wait + n)%nat, res)
              end
          end
      end
  end.

(** [opened] and [stat] are the outcomes of [os.Open] and [os.Stat] (name and size), [token_w]
    that of writing the token; [call] is the call of [TransferFile], which changes the state of
    the service. *)
Definition SendFile {S} (opened : option error) (stat : res (string * Z)) (meta : option (gmap string string))
    (call : FileTransferArgs -> S -> S * (FileTransferReply * option error)) (token_w : nat * option error)
    (rateInBytesPerSecond : Z) (rs : list round) (x : S) : S * (trace * option (option error)) :=
  match opened with
  | Some e => (x, (MkTrace None [] 0 false, Some (Some e)))
  | None =>
      match stat with
      | Er e => (x, (MkTrace None [] 0 false, Some (Some e)))
      | Panic w => (x, (MkTrace None [] 0 false, Some (Some (errorString w))))
      | Ok (name, size) =>
          match call (MkFTArgs name size meta) x with
          | (x, (_, Some e)) => (x, (MkTrace None [] 0 false, Some (Some e)))
          | (x, (reply, None)) =>
              (x, match dial (re_Addr reply) with
                  | Some e => (MkTrace (Some (re_Addr reply)) [] 0 false, Some (Some e))
                  | None =>
                      match token_w.2 with
                      | Some e => (MkTrace (Some (re_Addr reply)) (written (re_Token reply) token_w) 0 true, Some (Some e))
                      | None =>
                          let '(out, n, res) := send_loop (rateInBytesPerSecond >? 0) rs in
                          (MkTrace (Some (re_Addr reply)) (re_Token reply ++ out) n
                             (match res with Some _ => true | None => false end), res)
                      end
                  end)
          end
      end
  end.

(** The loop of [DownloadFile] and what it saved. *)
Fixpoint download_loop (rs : list round) : bytes * option (option error) :=
  match rs with
  | [] => ([], None)
  | r :: rs =>
      match rd_done r with
      | Some e => ([], Some (Some e))
      | None =>
          let '(b, er) := rd_read r in
          match b, (rd_write r).2 with
          | _ :: _, Some ew => (written b (rd_write r), Some (Some ew))
          | _, _ =>
              match er with
              | Some EOF => (b, Some None)
              | Some e => (b, Some (Some e))
              | None => let '(saved, res) := download_loop rs in (b ++ saved, res)
              end
          end
      end
  end.

Definition DownloadFile (requestFileName : string) (meta : option (gmap string string))
    (call : DownloadFileArgs -> FileTransferReply * option error) (token_w : nat * option error)
    (rs : list round) : trace * bytes * option (option error) :=
  match call (MkDFArgs requestFileName meta) with
  | (_, Some e) => (MkTrace None [] 0 false, [], Some (Some e))
  | (reply, None) =>
      match dial (re_Addr reply) with
      | Some e => (MkTrace (Some (re_Addr reply)) [] 0 false, [], Some (Some e))
      | None =>
          match token_w.2 with
          | Some e => (MkTrace (Some (re_Addr reply)) (written (re_Token reply) token_w) 0 true, [], Some (Some e))
          | None =>
              let '(saved, res) := download_loop rs in
              (MkTrace (Some (re_Addr reply)) (re_Token reply) 0
                 (match res with Some _ => true | None => false end), saved, res)
          end
      end
  end.

(** [Stream] hands the connection to the caller, unless the token could not be sent. *)
Definition Stream (meta : option (gmap string string))
    (call : StreamServiceArgs -> FileTransferReply * option error) (token_w : nat * option error) :
    trace * option error :=
  match call (MkSArgs meta) with
  | (_, Some e) => (MkTrace None [] 0 false, Some e)
  | (reply, None) =>
      match dial (re_Addr reply) with
      | Some e => (MkTrace (Some (re_Addr reply)) [] 0 false, Some e)
      | None =>
          match token_w.2 with
          | Some e => (MkTrace (Some (re_Addr reply)) (written (re_Token reply) token_w) 0 true, Some e)
          | None => (MkTrace (Some (re_Addr reply)) (re_Token reply) 0 false, None)
          end
      end
  end.

(** ** What the loops transfer *)

(** A round that sends the chunk [b]. *)
Definition sends (b : bytes) (r : round) : Prop :=
  b <> [] /\ rd_done r = None /\ rd_read r = (b, None) /\ (rd_write r).2 = None.

Lemma send_loop_app limited bs rs rest :
  Forall2 sends bs rs ->
  send_loop limited (rs ++ rest) =
    let '(out, n, res) := send_loop limited rest in
    (concat bs ++ out, ((if limited then length bs else 0) + n)%nat, res).
Proof using Type.
  induction 1 as [|b r bs rs (Hb & Hd & Hr & Hw) _ IH]; cbn [send_loop app concat length].
  - destruct (send_loop limited rest) as [[out n] res]. by destruct limited.
  - rewrite Hd, Hr, Hw, IH. destruct (send_loop limited rest) as [[out n] res].
    destruct b; [done|]. rewrite <- app_assoc. by destruct limited.
Qed.

(** Where the file ends, and where the context is done. *)
Definition at_eof (r : round) : Prop := rd_done r = None /\ (rd_read r).2 = Some EOF.

Lemma send_loop_eof limited bs rs r rest :
  Forall2 sends bs rs -> at_eof r ->
  exists n, send_loop limited (rs ++ r :: rest) = (concat bs, n, Some None).
Proof using Type.
  intros H [Hd Hr]. rewrite (send_loop_app _ _ _ _ H). cbn. rewrite Hd.
  destruct (rd_read r) as [b er]. cbn in Hr. subst er.
  destruct b; cbn; rewrite app_nil_r; eauto.
Qed.

(** A context that ends during the transfer makes [SendFile] return nil, although only the
    chunks before it were sent: the server gets a truncated file and the caller no error. *)
Theorem SendFile_cancel_success {S} name size meta call rate bs rs r rest e reply (x x' : S) :
  call (MkFTArgs name size meta) x = (x', (reply, None)) -> dial (re_Addr reply) = None ->
  Forall2 sends bs rs -> rd_done r = Some e ->
  exists t, SendFile None (Ok (name, size)) meta call (length (re_Token reply), None) rate (rs ++ r :: rest) x =
    (x', (t, Some None)) /\ wire t = re_Token reply ++ concat bs.
Proof using Type.
  intros Hc Hd H He. unfold SendFile. rewrite Hc, Hd. cbn [snd].
  rewrite (send_loop_app _ _ _ _ H). cbn. rewrite He. cbn. rewrite app_nil_r. eauto.
Qed.

(** [DownloadFile] returns nil only after the end of the stream, with everything received
    before it saved; an ended context and a failed write are reported. *)
Theorem download_complete name meta call w rs t saved :
  DownloadFile name meta call w rs = (t, saved, Some None) ->
  exists pre r rest, rs = pre ++ r :: rest /\ at_eof r /\
    Forall (fun r => rd_done r = None /\ (rd_read r).2 = None) pre /\
    saved = concat ((fun r => (rd_read r).1) <$> pre) ++ (rd_read r).1 /\
    wire t = re_Token (call (MkDFArgs name meta)).1.
Proof using Type.
  unfold DownloadFile. destruct (call _) as [reply [e|]]; [done|]. cbn [fst].
  destruct (dial _); [done|]. destruct (w.2); [done|].
  destruct (download_loop rs) as [sv res] eqn:Hl. intros [= <- <- ->].
  enough (exists pre r rest, rs = pre ++ r :: rest /\ at_eof r /\
    Forall (fun r => rd_done r = None /\ (rd_read r).2 = None) pre /\
    sv = concat ((fun r => (rd_read r).1) <$> pre) ++ (rd_read r).1) as (pre & r & rest & H).
  { exists pre, r, rest. by destruct H as (? & ? & ? & ?). }
  revert sv Hl. induction rs as [|r rs IH]; intros sv Hl; [done|]. cbn in Hl.
  destruct (rd_done r) eqn:Hd; [done|]. destruct (rd_read r) as [b er] eqn:Hr.
  assert (match er with
          | Some EOF => (b, Some None)
          | Some e => (b, Some (Some e))
          | None => let '(saved, res) := download_loop rs in (b ++ saved, res)
          end = (sv, Some None)) as Hl'.
  { destruct b as [|z b]; [done|]. by destruct ((rd_write r).2). }
  destruct er as [e|].
  - assert (e = EOF /\ sv = b) as [-> ->] by (destruct e; simplify_eq/=; done).
    exists [], r, rs. unfold at_eof. by rewrite Hr.
  - destruct (download_loop rs) as [sv' res] eqn:Hl2. simplify_eq/=.
    destruct (IH sv' eq_refl) as (pre & r' & rest & -> & He & Hp & ->).
    exists (r :: pre), r', rest. split_and!; [done..|by constructor; rewrite ?Hr|].
    cbn. by rewrite Hr, app_assoc.
Qed.
End FileClient.

(** ** Client and service together *)

Section Upload.
Context {L : Type} {cache : LRU L} {laws : LRULaws L}.

(** The call of [TransferFile] on the service [x]; [rnd] is the outcome of its random numbers. *)
Definition call_TransferFile (rnd : res bytes) (args : FileTransferArgs) (x : svc L) :
    svc L * (FileTransferReply * option error) :=
  match TransferFile rnd args x with
  | (x, Ok reply) => (x, (reply, None))
  | (x, Er e) => (x, (MkReply [] "", Some e))
  | (x, Panic why) => (x, (MkReply [] "", Some (errorString why)))
  end.

(** C28. An upload from end to end: the client asks for a token with the file's name, size and
    metadata, the service issues one for these arguments, the client sends the token and the
    chunks of its file to the address in the reply, and the accept loop hands the connection to
    the upload handler, which finds exactly the file's bytes on it and the file's name, size and
    metadata in its arguments. The token is used up. *)
Theorem upload_roundtrip dial x d down token name size meta rate bs rs r rest c :
  lp x = LAccept d -> done x = None -> kind x = Files true down -> is_Some (cachedTokens x) ->
  length token = 32%nat -> dial (reply_addr x) = None -> Forall2 sends bs rs -> at_eof r ->
  exists x1 t, SendFile dial None (Ok (name, size)) meta (call_TransferFile (Ok token)) (32%nat, None) rate
              (rs ++ r :: rest) x = (x1, (t, Some None)) /\
    dialled t = Some (reply_addr x) /\
    let x2 := run [EAccept (AConn c); EToken (Reader (wire t) EOF); EDispatch] x1 in
    spawned x2 = spawned x ++ [(c, Reader (concat bs) EOF,
      (bytes_string token, HandleUpload (MkFTArgs name size (Some (default ∅ meta)))))] /\
    cview x2 !! bytes_string token = None /\ closed x2 = closed x.
Proof using laws.
  intros Hl Hd Hk [l Hc] Ht Hdial Hbs Hr.
  destruct (send_loop_eof (rate >? 0) bs rs r rest Hbs Hr) as [n Hs].
  eexists _, _. split.
  { unfold SendFile, call_TransferFile, TransferFile. gocbn. unfold add_token. rewrite Hc.
    cbn [re_Addr re_Token snd]. rewrite Hdial, Hs. reflexivity. }
  split; [done|]. cbn [wire].
  match goal with |- context [run _ ?y] => set (x1 := y) end.
  assert (cview x1 !! bytes_string token = Some (tokenInfo token (FileTransferArgs_Clone (MkFTArgs name size meta)))) as Hv.
  { apply (lru_Add_view (bytes_string token)). }
  destruct (present_token x1 d c token (concat bs) EOF _ (HandleUpload (MkFTArgs name size (Some (default ∅ meta)))) Hl Hd Ht Hv)
    as (-> & _ & -> & ->).
  - unfold x1. cbn [kind with_cache]. rewrite Hk. unfold FileTransferArgs_Clone.
    rewrite clone_meta_spec. by destruct down.
  - split_and!; [done|apply lookup_delete_eq|done].
Qed.
End Upload.

(** ** An instance *)

(** A cache of [S pcap] entries that evicts the key at the end of its recency list. *)
Record lru_list := MkLRU { pcap : nat; ents : gmap string info; recency : list string }.

#[global] Instance lru_list_LRU : LRU lru_list := {
  lru_New n := if 0 <? n then Some (MkLRU (Z.to_nat (n - 1)) ∅ []) else None;
  lru_Add k v c :=
    let m := <[k := v]> (ents c) in
    let q := k :: filter (fun k' => k' <> k) (recency c) in
    if decide (size m <= S (pcap c))%nat then MkLRU (pcap c) m q
    else match last (filter (fun k' => k' <> k) (recency c)) with
         | Some old => MkLRU (pcap c) (if decide (old = k) then m else delete old m) (take (S (pcap c)) q)
         | None => MkLRU (pcap c) m q
         end;
  lru_Get k c :=
    match ents c !! k with
    | Some v => (Some v, MkLRU (pcap c) (ents c) (k :: filter (fun k' => k' <> k) (recency c)))
    | None => (None, c)
    end;
  lru_Remove k c := MkLRU (pcap c) (delete k (ents c)) (filter (fun k' => k' <> k) (recency c));
}.

#[global] Program Instance lru_list_laws : LRULaws lru_list :=
  {| lru_view := ents; lru_cap c := S (pcap c) |}.
Next Obligation.
  intros n c. cbn. destruct (Z.ltb_spec 0 n); [|done]. intros [= <-]. cbn. split_and!; [done|lia|done].
Qed.
Next Obligation. intros n Hn. cbn. destruct (Z.ltb_spec 0 n); [by eexists|lia]. Qed.
Next Obligation.
  intros k v c. cbn.
  assert ((size (ents c) < S (pcap c))%nat -> (size (<[k := v]> (ents c)) <= S (pcap c))%nat) as Hs.
  { rewrite map_size_insert. destruct (ents c !! k); unfold id; lia. }
  assert (forall k' v', k' <> k -> <[k := v]> (ents c) !! k' = Some v' -> ents c !! k' = Some v') as Hn.
  { intros k' v' Hk. by rewrite lookup_insert_ne. }
  destruct (decide _) as [Hle|Hgt].
  - cbn. rewrite lookup_insert_eq. auto.
  - destruct (last _) as [old|]; cbn; [destruct (decide (old = k)) as [->|Ho]|]; cbn;
      rewrite ?lookup_delete_ne, ?lookup_insert_eq by done; split_and!; try done; try (intros; exfalso; by auto).
    intros k' v' Hk [Hd Hl]%lookup_delete_Some. by apply Hn.
Qed.
Next Obligation. intros k c. cbn. by destruct (ents c !! k). Qed.
Next Obligation. done. Qed.

(** A service with one waiting place, its loop running. *)
Definition demo : svc lru_list := run [EStart; EListen None] (NewFileTransfer "h:1" true true 1).
Definition demo_token : bytes := replicate 32 7.

Lemma token_one_shot_witness :
  (spawned (run [EUpload (Ok demo_token) (MkFTArgs "a" 1 None); EStart; EListen None;
                 EAccept (AConn 1%nat); EToken (Reader (demo_token ++ [9]) EOF); EDispatch;
                 EAccept (AConn 2%nat); EToken (Reader (demo_token ++ [9]) EOF)]
            (NewFileTransfer (L := lru_list) "h:1" true true 1))).*2 ⊆+
    [(bytes_string demo_token, HandleUpload (MkFTArgs "a" 1 (Some ∅)))].
Proof.
  etrans; [eapply token_one_shot; exists "h:1"%string, ""%string, (Files true true), 1; reflexivity|].
  by vm_compute.
Defined.

Lemma upload_roundtrip_witness :
  let file := [MkRound None ([1; 2], None) (2%nat, None); MkRound None ([3], None) (1%nat, None);
               MkRound None ([], Some EOF) (0%nat, None)] in
  exists x1 t, SendFile (fun _ => None) None (Ok ("a"%string, 3)) None (call_TransferFile (Ok demo_token))
      (32%nat, None) 0 file demo = (x1, (t, Some None)) /\
    dialled t = Some "h:1"%string /\
    spawned (run [EAccept (AConn 5%nat); EToken (Reader (wire t) EOF); EDispatch] x1) =
      [(5%nat, Reader [1; 2; 3] EOF, (bytes_string demo_token, HandleUpload (MkFTArgs "a" 3 (Some ∅))))].
Proof.
  intros file.
  edestruct (upload_roundtrip (fun _ => None) demo 0 true demo_token "a" 3 None 0 [[1; 2]; [3]]
    [MkRound None ([1; 2], None) (2%nat, None); MkRound None ([3], None) (1%nat, None)]
    (MkRound None ([], Some EOF) (0%nat, None)) [] 5%nat) as (x1 & t & Ht & Hd & Hs & _); try reflexivity.
  - by eexists.
  - repeat constructor; done.
  - by split.
  - exists x1, t. split; [exact Ht|]. split; [exact Hd|exact Hs].
Defined.

Lemma SendFile_cancel_success_witness :
  exists t, SendFile (fun _ => None) None (Ok ("a"%string, 3)) None
      (fun _ x => (x, (MkReply demo_token "h:1", None))) (32%nat, None) 0
      ([MkRound None ([1; 2], None) (2%nat, None)] ++
       [MkRound (Some DeadlineExceeded) ([3], None) (1%nat, None)]) tt = (tt, (t, Some None)) /\
    wire t = demo_token ++ [1; 2].
Proof.
  apply (SendFile_cancel_success (fun _ => None) "a" 3 None (fun _ x => (x, (MkReply demo_token "h:1", None))) 0
    [[1; 2]] [MkRound None ([1; 2], None) (2%nat, None)] _ [] DeadlineExceeded (MkReply demo_token "h:1") tt tt);
    [reflexivity|reflexivity|repeat constructor; done|reflexivity].
Defined.

Lemma download_complete_witness :
  exists pre r rest,
    [MkRound None ([1; 2], None) (2%nat, None); MkRound None ([3], Some EOF) (1%nat, None)] = pre ++ r :: rest /\
    [1; 2; 3] = concat ((fun r => (rd_read r).1) <$> pre) ++ (rd_read r).1.
Proof.
  edestruct (download_complete (fun _ => None) "a" None (fun _ => (MkReply demo_token "h:1", None)) (32%nat, None)
    [MkRound None ([1; 2], None) (2%nat, None); MkRound None ([3], Some EOF) (1%nat, None)])
    as (pre & r & rest & H1 & _ & _ & H2 & _); [reflexivity|].
  exists pre, r, rest. split; [exact H1|exact H2].
Defined.

Lemma stalled_client_blocks_witness :
  lp (run [EAccept (AConn 8%nat); EUpload (Ok demo_token) (MkFTArgs "a" 1 None); EStop]
        (step (EAccept (AConn 7%nat)) demo)) = LReading 7.
Proof. eapply (stalled_client_blocks (step (EAccept (AConn 7%nat)) demo)); [reflexivity|by repeat constructor]. Defined.

Lemma service_unstoppable_witness :
  (Stop (run [EStart; EListen None] (NewStreamService (L := lru_list) "h:2" true (Some (fun _ => false)) 4))).2 =
    Panic "close of nil channel".
Proof.
  destruct (service_unstoppable (NewStreamService (L := lru_list) "h:2" true (Some (fun _ => false)) 4)
    [EStart; EListen None]) as [-> _]; [|reflexivity].
  exists "h:2"%string, ""%string, (Streams true), 4. reflexivity.
Defined.
End FileClient.
